(* ===== verification/_CoqProject ===== *)
-Q . S2P
Prelude.v
GoNum.v
GoStrings.v
Json.v
JsonGrammar.v
JsonString.v
JsonEncode.v
JsonDecode.v
GoSort.v
Base64.v
Model.v
Sign.v
Hash.v
StoreTypes.v
MemoryStore.v
Samples.v
MemoryIndex.v
MemoryRank.v
MemoryChunks.v
MemorySignals.v
MemorySystem.v
MemoryRefresh.v
MemoryConc.v
Store.v
Handler.v
Mux.v
Server.v
ServerProps.v
Routes.v
WebRTC.v
Wire.v
WireProps.v
WebRTCProps.v
WireRoundtrip.v
ConcServer.v
WebRTCLocks.v
Cleaner.v
Migration.v
Startup.v
Lifecycle.v
SQLProg.v
SQLStore.v
SQLInvariant.v
SQLSamples.v
SQLProps.v
SQLTables.v
SQLRaces.v
SQLAgree.v
