(* ===== verification/Prelude.v ===== *)
(** * Muninn: a verification library for the P2P phonebook server

    Muninn is a directory server: peers register under an id with a login, an
    encryption key and an Ed25519 signature key, keep their record alive, look
    each other up, announce the hashes of file chunks, confirm or report what
    they received, which moves the sender's quality score, and exchange WebRTC
    signals through a mailbox or a WebSocket.

    ** Parts of the program and of the development

    - [internal/model] (Model.v): the records, field by field.
    - [internal/sign/sign.go] (Sign.v): what is signed, and [Verify] and [Sign].
      Base64.v defines the encoding; the curve is the class [Ed25519].
    - [internal/store/hash.go] and [parseChunkKey] (Hash.v).
    - [internal/store/store.go] (StoreTypes.v): errors, constants, the ranking
      score, expiry, and [Env], one call's clock readings and map iteration
      orders.  (Store.v): the interface [Store] as a class, with two contracts
      its clients use: [StoreAtomic], a refused call changes nothing, and
      [StoreReports], errors are documented ones.
    - [internal/store/memory.go] (MemoryStore.v): the state is the record
      [MemoryStore] with the four fields of the struct, and every method is one
      definition from a state to the next one and a result.  MemoryRefresh.v has
      [Refresh] as the separate map accesses it makes, and MemoryConc.v the store
      as its callers share it, with any number of refreshes under way.  Samples.v
      holds concrete stores for the witnesses.
    - [internal/handler/phonebook.go] (Handler.v): every handler, over any
      [Store]; [es i] is the environment of the i-th store call of a request.
    - [internal/api/server.go] (Server.v): configuration, the table [routes], and
      [serve], one request on a server that does nothing else.  Mux.v defines the
      search of [net/http.ServeMux] the table is run by.
    - [internal/webrtc/handler.go] (WebRTC.v): the connection map, the relays and
      the life of a connection, as separate steps.  (WebRTCLocks.v): its two mutexes,
      every routine as the sequence of its lock operations and accesses.
    - The server with everything it has under way (ConcServer.v): a thread per
      request and per connection, whose handler is a program ([program], [message],
      [connection]) of store calls and uses of the connection map, the ticker of
      the cleaner and [CloseAll].  [program_alone], [message_alone] and
      [connection_alone] show that a program that nothing interrupts is the handler
      of Handler.v and WebRTC.v.
    - The texts of requests, answers and frames, which the struct tags of
      [internal/model] and [internal/webrtc] define (Wire.v): a list of fields per
      struct, the instances of [JSONDecoder] and [RPCDecoder] that read texts as
      [encoding/json] does, and a tree [Out] per answer and frame.
    - [internal/store/migration.go] (Migration.v): file names, loading, and the run
      that applies what is not recorded yet.
    - [main.go] and [NewDB] of [internal/store/db.go] (Startup.v): configuration,
      the choice of the store, and the statements chosen by its driver.
      (Lifecycle.v): the phases of the process, from serving to its exit, with an
      in-memory store.
    - [internal/store/peer_store.go] and the methods of [db.go] (SQLStore.v): the
      SQL store.  SQLProg.v defines the language: a call is a program [prog] of
      accesses to the database, [tick] what the environment decides about one
      access (clocks, failures, the order of rows), [DB] the three tables.  Every
      method is a program, its SQL written as functions on rows.  SQLSamples.v
      holds concrete tables.

    The language and its library: GoNum.v (int64 with wrap-around, [time.Time]
    and saturating [Sub]), GoStrings.v (UTF-8, [TrimSpace], [ToLower], [SplitN],
    [Itoa], [ParseInt]), GoSort.v ([sort.Slice] as a class that promises an
    ordered permutation, with an insertion sort as instance).  JSON: Json.v (scanner
    and parser), JsonGrammar.v (the grammar, and that the parser reads exactly it),
    JsonString.v (UTF-8 and string literals), JsonEncode.v (trees, their texts,
    times) and JsonDecode.v (what each kind of target makes of a value).

    ** How the parts interact

    A request is routed by [routes], decoded, and answered by a handler that
    calls the store; a tick calls [DeleteExpiredChunks]; a WebSocket message is
    relayed to a connection or left in the store.  [net/http] runs each request in
    a goroutine of its own, so handlers interleave.

    What is one step: a method of the in-memory store that holds the store's mutex
    throughout, which is every method but [Refresh].  [Refresh] takes no lock, so
    it is spread over four accesses ([refresh_step]): it reads the record, reads
    the slice of its key, writes that slice back with its id, and writes the record
    it read back.  [sys_step] of MemoryConc.v is a step of the store: a whole
    locked method, the beginning of a refresh, or an access of one of the refreshes
    under way.  The slice that a refresh has read shares its array with the index,
    so a write of the index may change its elements ([shifted]).  [srv_step] of
    ConcServer.v is a step of the server: a request arrives, a tick, [CloseAll], or
    a step of some thread, which is one step of the store or one use of the
    connection map.  The theorems on one call ([MemoryStore.Refresh], [handle],
    [serve], [relay]) are about a call that nothing overlaps, and say so; theorems
    on runs are about [sys_step] and [srv_step].

    The SQL store has no lock: [sql_step] of SQLInvariant.v runs any number of
    calls at once, one access of one call at a time, failures included; a
    transaction is one access.

    ** What the theorems show

    - MemoryIndex.v: the index of keys.  [peers_ok], [index_complete] and
      [index_sound] are preserved by each method; registration field by field.
    - MemoryRank.v: the rankings are the best live peers.
    - MemoryChunks.v: every branch of the chunk methods, errors included, and
      that the in-place removal of expired chunks is a filter.
    - MemorySignals.v: mailboxes are queues that a poll empties.
    - MemorySystem.v: the methods one after the other ([next], [reach]): what each
      may touch, the score ledger (1000 plus valid minus invalid reports, modulo
      2^64), and the exactness of [GetByKey] without [Refresh].
    - MemoryRefresh.v: what [Refresh] breaks, alone and interleaved.
    - MemoryConc.v: what every run keeps, interleaved refreshes included.  Records
      are well formed; scores, keys and chunks go back to an earlier step of the
      run that gave them, a signed report, a registration of a free id, a signed
      announcement.  A refresh may write an older record back, so only while none
      is under way does a step change nothing else.  [calm_reach] is what a run
      must keep apart for the index of keys to stay complete; [race_breaks_index]
      of MemoryRefresh.v shows that it must.
    - ServerProps.v: errors leave the in-memory store alone, statuses, batches
      apply a prefix, reading is safe.  Routes.v: the interface, operation by
      operation, and that the table of routes implements it.
    - ConcServer.v: the store behind any schedule of requests, connections, ticks
      and [CloseAll] is one of MemoryConc.v, so its invariants hold; and every
      request is answered within a bound of its own steps.
    - WebRTCProps.v: a signal is delivered or stored once, and the two orders of
      events in which a connected peer is not served.
    - Migration.v: a run records a prefix of what is pending, all of it when it
      succeeds, and then has nothing left to do.  Startup.v: the drivers [main]
      selects are supported, and what Postgres is left without.
    - SQLInvariant.v reduces an invariant of every interleaving to the statements
      that write; SQLProps.v instantiates it: well-formed tables with the exact
      score ledger, and on Postgres a table of chunks that only grows.
      SQLRaces.v: a signal lost by a poll, a report counted and then refused, the
      key in the field Login.  SQLTables.v and SQLAgree.v: the in-memory and the
      SQLite store hold the same and answer alike on the calls of [comparable],
      whose conditions are where the two differ.
    - Cleaner.v: on a server over the in-memory store that runs forever, with a
      ticker that keeps ticking, every chunk that is not persistent is eventually
      purged.  Lifecycle.v: the store is well formed until the process exits, and a
      connection that opens after [CloseAll] is left in the map.
    - WebRTCLocks.v: no deadlock, no race under one mutex, and the races that two
      mutexes for one map leave.
    - WireProps.v: decoded requests are typed; a signal comes out as it went in, by
      poll or by frame; and the score, which a malformed tag means to hide, is
      public in every kind of answer that carries a peer.  WireRoundtrip.v: every
      request that a client writes with the documented member names is understood,
      every answer read by the documented names is what was answered, and the text
      of a relay leads to the text its target reads.
    - Sign.v, Hash.v, Base64.v, StoreTypes.v: payloads determine the kind of a
      statement, and the statement when its fields hold no line break; round
      trips, formats, and the bounds within which integers are exact.

    ** Bounds and fuel

    Loops over lists are structural.  [power_loop] runs as often as the exponent
    says, at most 3 times.  [digits] has fuel 20, the length of the largest
    uint64 in decimal; [Atoi_Itoa] shows that it is enough for every int64.
    Peeling white space recurses on fuel equal to the length of the string.  The
    JSON parser has the length of its text plus one: [parse_complete] shows that
    it is enough for every text of the grammar; brackets nest up to 10000 levels,
    as in [encoding/json].  A request takes at most [request_bound] steps of its
    thread: one for each store call, and six for a refresh, its beginning, its at
    most four accesses and its return.
    Programs of database accesses are finite trees and run without fuel.
    Integers in the tables are exact; a value that a column cannot hold is a
    failing access.

    ** What is a parameter

    The curve ([Ed25519]); the lower-case mapping of non-ASCII runes
    ([UnicodeTables]); the algorithm of [sort.Slice]; the order of map iteration
    and clock readings ([Env], where [env_ok] says that a loop visits each entry
    once); how a body is decoded, in the theorems on the handlers ([JSONDecoder],
    [RPCDecoder]), which hold for any decoder; whether a write to a
    connection succeeds ([net]); the embedded migration files ([MigrationsFS]),
    SHA-256, the database and its driver ([SQLDB] with the laws [SQLDBLaws],
    [SQLDriver]), [time.ParseDuration] and the process environment.

    ** What is not modelled

    [SetPeerScore] of the SQL store is defined but no interface reaches it, so it
    is not among the concurrent calls.  A connection to the database that breaks
    while rows are being read, which the code does not notice, an access that
    takes effect and then fails, and isolation weaker than serial transactions
    are left out, and so is the column metadata, which no statement names.
    The delivery of process signals, log lines, response headers, the listening socket,
    TLS and timeouts, the cleaning of request paths before routing, the WebSocket
    handshake, the plain texts of [net/http] itself and bodies that break off while
    they are read are outside the model.  Go slices are lists: a nil slice and an
    empty one are not told apart, which the handlers do not do either.  A data race
    is modelled as an interleaving of map accesses; the Go runtime may also abort
    the process.  Which of two interleaved writes of a shared array survives is not
    followed: a slice that a refresh holds may have any elements after one. *)

From stdpp Require Export base gmap strings list fin_maps sorting.
From Stdlib Require Export ZArith Ascii Lia.

#[export] Set Default Goal Selector "!".
#[export] Set Warnings "-clear-no-such-hyp".

(** ** Results of fallible operations

    A Go function returning [(T, error)] is modelled by [result E T]: either
    the value with a nil error, or the error. *)
Inductive result (E A : Type) : Type :=
| Ok (a : A)
| Err (e : E).
Arguments Ok {E A} a.
Arguments Err {E A} e.

(** Bytes as numbers, and strings as byte lists: a Go string is a byte
    sequence, which is exactly what [string] holds. *)
Definition byte_Z (c : ascii) : Z := Z.of_N (N_of_ascii c).
Definition Z_byte (z : Z) : ascii := ascii_of_N (Z.to_N z).
Definition bytes (s : string) : list ascii := String.list_ascii_of_string s.
Definition of_bytes (l : list ascii) : string := String.string_of_list_ascii l.

(** The lemmas that automate the common cases of the invariants. *)
Create HintDb muninn discriminated.

Declare Scope go_scope.
Delimit Scope go_scope with go.
(** Comparison of strings, as the code's [==] and [!=]. *)
Notation "a == b" := (String.eqb a b) (at level 70, no associativity) : go_scope.
Notation "a != b" := (negb (String.eqb a b)) (at level 70, no associativity) : go_scope.

(** ** Tactics of the development *)

(** Split every conjunction and disjunction of booleans in the context. *)
Ltac bool_hyps :=
  repeat match goal with
  | H : orb _ _ = false |- _ => apply orb_false_iff in H as [? ?]
  | H : andb _ _ = true |- _ => apply andb_true_iff in H as [? ?]
  | H : negb _ = true |- _ => apply negb_true_iff in H
  | H : negb _ = false |- _ => apply negb_false_iff in H
  | H : String.eqb _ _ = true |- _ => apply String.eqb_eq in H
  | H : String.eqb _ _ = false |- _ => apply String.eqb_neq in H
  | H : bool_decide _ = true |- _ => apply bool_decide_eq_true in H
  | H : bool_decide _ = false |- _ => apply bool_decide_eq_false in H
  end.

(** Run the operation of the goal or of a hypothesis down every branch. *)
Ltac branches :=
  repeat (case_match; simplify_eq/=; bool_hyps; try done).

(** ** Strings and bytes *)

Lemma bytes_of_bytes l : bytes (of_bytes l) = l.
Proof. apply String.list_ascii_of_string_of_list_ascii. Qed.

Lemma of_bytes_bytes s : of_bytes (bytes s) = s.
Proof. apply String.string_of_list_ascii_of_string. Qed.

Lemma bytes_inj s t : bytes s = bytes t → s = t.
Proof. intros H. rewrite <- (of_bytes_bytes s), H. apply of_bytes_bytes. Qed.

Lemma of_bytes_inj l k : of_bytes l = of_bytes k → l = k.
Proof. intros H. rewrite <- (bytes_of_bytes l), H. apply bytes_of_bytes. Qed.

Lemma bytes_app s t : bytes (s +:+ t) = bytes s ++ bytes t.
Proof.
  induction s as [|c s IH]; [done|].
  change (String c s +:+ t) with (String c (s +:+ t)). cbn. f_equal. exact IH.
Qed.

Lemma bytes_nil s : bytes s = [] ↔ s = "".
Proof. split; [|by intros ->]. by destruct s. Qed.

Lemma byte_Z_bounds c : (0 ≤ byte_Z c < 256)%Z.
Proof. unfold byte_Z. pose proof (N_ascii_bounded c). lia. Qed.

Lemma Z_byte_Z c : Z_byte (byte_Z c) = c.
Proof. unfold Z_byte, byte_Z. rewrite N2Z.id. apply ascii_N_embedding. Qed.

Lemma byte_Z_byte z : (0 ≤ z < 256)%Z → byte_Z (Z_byte z) = z.
Proof.
  intros Hz. unfold Z_byte, byte_Z.
  rewrite N_ascii_embedding by lia. by rewrite Z2N.id by lia.
Qed.

Lemma byte_Z_inj c d : byte_Z c = byte_Z d → c = d.
Proof. intros H. by rewrite <- (Z_byte_Z c), H, Z_byte_Z. Qed.

(** ** Lists *)

(** Split a list at its last element satisfying a predicate that holds of no
    element of the tail: two such splits of one list agree. *)
Lemma app_sep_inj_r {A} (sep : A) (l1 l2 k1 k2 : list A) :
  sep ∉ k1 → sep ∉ k2 → l1 ++ sep :: k1 = l2 ++ sep :: k2 → l1 = l2 ∧ k1 = k2.
Proof.
  intros H1 H2 Heq. revert l2 Heq.
  induction l1 as [|a l1 IH]; intros [|b l2]; cbn; intros Heq; simplify_eq/=.
  - done.
  - exfalso. apply H1. set_solver.
  - exfalso. apply H2. set_solver.
  - by destruct (IH l2) as [-> ->].
Qed.

(** The same from the left. *)
Lemma app_sep_inj_l {A} (sep : A) (l1 l2 k1 k2 : list A) :
  sep ∉ l1 → sep ∉ l2 → l1 ++ sep :: k1 = l2 ++ sep :: k2 → l1 = l2 ∧ k1 = k2.
Proof.
  intros H1 H2 Heq. revert l2 H2 Heq.
  induction l1 as [|a l1 IH]; intros [|b l2] H2; cbn; intros Heq; simplify_eq/=.
  - done.
  - exfalso. apply H2. set_solver.
  - exfalso. apply H1. set_solver.
  - destruct (IH ltac:(set_solver) l2) as [-> ->]; [set_solver|done|done].
Qed.

Lemma forallb_Forall {A} (f : A → bool) l :
  forallb f l = true ↔ Forall (λ x, f x = true) l.
Proof. rewrite forallb_forall, Forall_forall. by setoid_rewrite list_elem_of_In. Qed.
