(* ===== verification/GoNum.v ===== *)
(** Machine integers and time: [int] and [int64] as [Z] with two's-complement
    wrap-around, [time.Time] with its optional monotonic reading, and
    [time.Duration] with the saturation of [Time.Sub]. *)
From S2P Require Import Prelude.

Local Open Scope Z_scope.

(** ** 64-bit integers *)

Definition max_int64 : Z := 2 ^ 63 - 1.
Definition min_int64 : Z := - 2 ^ 63.
Definition int64 (z : Z) : Prop := min_int64 ≤ z ≤ max_int64.
#[export] Instance int64_dec z : Decision (int64 z).
Proof. unfold int64. apply _. Defined.

(** The value of an int64 expression whose exact value is [z]. *)
Definition wrap64 (z : Z) : Z := (z + 2 ^ 63) mod 2 ^ 64 - 2 ^ 63.
Definition sat64 (z : Z) : Z := Z.max min_int64 (Z.min max_int64 z).

Lemma wrap64_int64 z : int64 (wrap64 z).
Proof. unfold wrap64, int64, min_int64, max_int64. Z.div_mod_to_equations; lia. Qed.

Lemma wrap64_id z : int64 z → wrap64 z = z.
Proof. unfold wrap64, int64, min_int64, max_int64. intros. rewrite Z.mod_small; lia. Qed.

Lemma sat64_id z : int64 z → sat64 z = z.
Proof. unfold sat64, int64, min_int64, max_int64. lia. Qed.

(** Wrapping is the identity modulo 2^64, so nested wraps collapse. *)
Lemma wrap64_mod z : wrap64 z mod 2 ^ 64 = z mod 2 ^ 64.
Proof. unfold wrap64. Z.div_mod_to_equations; lia. Qed.

Lemma wrap64_eq x y : x mod 2 ^ 64 = y mod 2 ^ 64 → wrap64 x = wrap64 y.
Proof. unfold wrap64. Z.div_mod_to_equations; lia. Qed.

Lemma wrap64_add_l x y : wrap64 (wrap64 x + y) = wrap64 (x + y).
Proof. apply wrap64_eq. by rewrite <- Zplus_mod_idemp_l, wrap64_mod, Zplus_mod_idemp_l. Qed.

Lemma wrap64_add_r x y : wrap64 (x + wrap64 y) = wrap64 (x + y).
Proof. by rewrite Z.add_comm, wrap64_add_l, Z.add_comm. Qed.

Lemma wrap64_sub_r x y : wrap64 (x - wrap64 y) = wrap64 (x - y).
Proof. apply wrap64_eq. by rewrite <- Zminus_mod_idemp_r, wrap64_mod, Zminus_mod_idemp_r. Qed.

Create Rewrite HintDb wrap64.
#[export] Hint Rewrite wrap64_add_l wrap64_add_r wrap64_sub_r : wrap64.

(** ** Durations and times, in nanoseconds *)

Definition Second : Z := 1000000000.

(** [time.Time]: the wall clock, as nanoseconds since the Unix epoch, and the
    monotonic reading that [time.Now] attaches.  [UTC] strips it, and a value
    built by [time.Unix] has none. *)
Record Time := mkTime { wall : Z; mono : option Z }.

Definition zero_Time : Time := mkTime (-62135596800 * Second) None.

#[export] Instance Time_eq_dec : EqDecision Time.
Proof. solve_decision. Defined.

(** [t.Sub(u)]: by the monotonic readings when both have one, saturating. *)
Definition time_Sub (t u : Time) : Z :=
  match mono t, mono u with
  | Some a, Some b => sat64 (a - b)
  | _, _ => sat64 (wall t - wall u)
  end.

(** [t.Unix()] and [time.Unix(sec, 0)]. *)
Definition time_Unix (t : Time) : Z := wall t / Second.
Definition Unix_time (sec : Z) : Time := mkTime (sec * Second) None.

Lemma Unix_time_Unix sec : time_Unix (Unix_time sec) = sec.
Proof. unfold time_Unix, Unix_time. cbn. apply Z.div_mul. done. Qed.

(** [time.Duration(n) * time.Second]. *)
Definition seconds (n : Z) : Z := wrap64 (n * Second).

(** The product fits up to 9223372036 seconds, and no further. *)
Definition max_seconds : Z := 9223372036.

Lemma seconds_exact n : 0 ≤ n ≤ max_seconds → seconds n = n * Second.
Proof.
  unfold seconds, max_seconds, Second. intros. apply wrap64_id.
  unfold int64, min_int64, max_int64. lia.
Qed.
