(* ===== verification/GoStrings.v ===== *)
(** The parts of Go's [strings], [strconv] and [unicode/utf8] packages the
    program calls, on byte strings: rune decoding and encoding, [TrimSpace],
    [ToLower], [SplitN] with n = 2, [Itoa] and [Atoi].  The one table that is
    left open is the lower-case mapping of non-ASCII runes, which is the class
    [UnicodeTables]. *)
From S2P Require Import Prelude GoNum.

Local Open Scope Z_scope.

(** ** UTF-8 *)

Definition RuneError : Z := 65533.
Definition RuneSelf : Z := 128.

Definition in_range (lo hi b : Z) : bool := (lo <=? b) && (b <=? hi).

(** [utf8.DecodeRune] on a non-empty input: the rune and its width.  An invalid
    or truncated sequence is [RuneError] with width 1.  The second byte of a
    sequence is bounded by the first (no overlong forms, no surrogates, nothing
    above U+10FFFF). *)
Definition decode_rune (l : list ascii) : Z * nat :=
  match map byte_Z l with
  | [] => (RuneError, 0%nat)
  | b0 :: rest =>
    if b0 <? RuneSelf then (b0, 1%nat) else
    match rest with
    | b1 :: rest =>
      if in_range 194 223 b0 then
        if in_range 128 191 b1 then ((b0 mod 32) * 64 + b1 mod 64, 2%nat)
        else (RuneError, 1%nat)
      else
      match rest with
      | b2 :: rest =>
        let lo := if b0 =? 224 then 160 else 128 in
        let hi := if b0 =? 237 then 159 else 191 in
        if in_range 224 239 b0 then
          if in_range lo hi b1 && in_range 128 191 b2
          then ((b0 mod 16) * 4096 + (b1 mod 64) * 64 + b2 mod 64, 3%nat)
          else (RuneError, 1%nat)
        else
        match rest with
        | b3 :: _ =>
          let lo := if b0 =? 240 then 144 else 128 in
          let hi := if b0 =? 244 then 143 else 191 in
          if in_range 240 244 b0 && in_range lo hi b1
             && in_range 128 191 b2 && in_range 128 191 b3
          then ((b0 mod 8) * 262144 + (b1 mod 64) * 4096 + (b2 mod 64) * 64
                + b3 mod 64, 4%nat)
          else (RuneError, 1%nat)
        | [] => (RuneError, 1%nat)
        end
      | [] => (RuneError, 1%nat)
      end
    | [] => (RuneError, 1%nat)
    end
  end.

(** The runes a [for _, c := range s] loop visits.  Every step consumes at
    least one byte, so the length of the input is enough fuel. *)
Fixpoint runes_go (fuel : nat) (l : list ascii) : list Z :=
  match fuel, l with
  | S fuel, _ :: _ =>
    let '(r, w) := decode_rune l in r :: runes_go fuel (drop w l)
  | _, _ => []
  end.
Definition runes (l : list ascii) : list Z := runes_go (length l) l.

(** [utf8.AppendRune]: surrogates and out-of-range values become U+FFFD. *)
Definition encode_rune (r : Z) : list ascii :=
  map Z_byte
    (if in_range 0 127 r then [r]
     else if in_range 128 2047 r then [192 + r / 64; 128 + r mod 64]
     else if in_range 2048 55295 r || in_range 57344 65535 r then
       [224 + r / 4096; 128 + (r / 64) mod 64; 128 + r mod 64]
     else if in_range 65536 1114111 r then
       [240 + r / 262144; 128 + (r / 4096) mod 64; 128 + (r / 64) mod 64;
        128 + r mod 64]
     else [239; 191; 189]).

Lemma decode_rune_ascii c l :
  byte_Z c < RuneSelf → decode_rune (c :: l) = (byte_Z c, 1%nat).
Proof. intros Hc. unfold decode_rune. cbn. by rewrite (proj2 (Z.ltb_lt _ _) Hc). Qed.

(** A byte that is not ASCII never yields an ASCII rune. *)
Lemma decode_rune_nonascii c l :
  RuneSelf ≤ byte_Z c → RuneSelf ≤ (decode_rune (c :: l)).1.
Proof.
  unfold decode_rune, RuneSelf, RuneError, in_range. intros Hc.
  pose proof (byte_Z_bounds c) as Hb. cbn [map].
  destruct (byte_Z c <? 128) eqn:E; [lia|].
  repeat (case_match; simplify_eq/=; try lia); bool_hyps;
    repeat match goal with H : (_ =? _) = _ |- _ => revert H end;
    intros; Z.div_mod_to_equations; lia.
Qed.

(** ** White space *)

(** The UTF-8 encodings of the runes [unicode.IsSpace] accepts: TAB, LF, VT,
    FF, CR, space, NEL, NBSP, U+1680, U+2000-U+200A, U+2028, U+2029, U+202F,
    U+205F and U+3000. *)
Definition space_runes : list Z :=
  [9; 10; 11; 12; 13; 32; 133; 160; 5760; 8192; 8193; 8194; 8195; 8196; 8197;
   8198; 8199; 8200; 8201; 8202; 8232; 8233; 8239; 8287; 12288].
Definition space_encodings : list (list ascii) := map encode_rune space_runes.

(** [strip_prefix p l]: the rest of [l] after [p]. *)
Fixpoint strip_prefix (p l : list ascii) : option (list ascii) :=
  match p, l with
  | [], _ => Some l
  | c :: p, d :: l => if Ascii.eqb c d then strip_prefix p l else None
  | _ :: _, [] => None
  end.

(** Strip the first encoding of [ps] that is a prefix of [l]. *)
Fixpoint strip_one (ps : list (list ascii)) (l : list ascii) : option (list ascii) :=
  match ps with
  | [] => None
  | p :: ps => match strip_prefix p l with Some l' => Some l' | None => strip_one ps l end
  end.

Fixpoint strip_all (fuel : nat) (ps : list (list ascii)) (l : list ascii) : list ascii :=
  match fuel with
  | O => l
  | S fuel => match strip_one ps l with Some l' => strip_all fuel ps l' | None => l end
  end.

(** Trimming from the left strips whole encoded runes from the front; trimming
    from the right does it on the reversed bytes (UTF-8 is self-synchronising,
    so a suffix that is the encoding of a rune is the last rune).  Each step
    strips at least a byte: the length is enough fuel. *)
Definition trim_left (l : list ascii) : list ascii :=
  strip_all (length l) space_encodings l.
Definition trim_right (l : list ascii) : list ascii :=
  rev (strip_all (length l) (map (@rev ascii) space_encodings) (rev l)).

(** [strings.TrimSpace]. *)
Definition TrimSpace (s : string) : string := of_bytes (trim_right (trim_left (bytes s))).

(** *** What trimming leaves *)

Lemma strip_prefix_app p l l' : strip_prefix p l = Some l' ↔ l = p ++ l'.
Proof.
  revert l. induction p as [|c p IH]; intros l; cbn; [naive_solver|].
  destruct l as [|d l]; [naive_solver|].
  destruct (Ascii.eqb_spec c d) as [->|Hne]; [|naive_solver].
  rewrite IH. naive_solver.
Qed.

Lemma strip_one_Some ps l l' :
  strip_one ps l = Some l' → ∃ p, p ∈ ps ∧ l = p ++ l'.
Proof.
  induction ps as [|p ps IH]; cbn; [done|].
  destruct (strip_prefix p l) eqn:E; intros; simplify_eq.
  - apply strip_prefix_app in E. exists p. split; [left|done].
  - destruct IH as (q & ? & ?); [done|]. exists q. split; [by right|done].
Qed.

Lemma strip_one_None ps l : strip_one ps l = None ↔ ∀ p l', p ∈ ps → l ≠ p ++ l'.
Proof.
  induction ps as [|p ps IH]; cbn.
  - split; [intros _ p l' Hp; by apply not_elem_of_nil in Hp|done].
  - destruct (strip_prefix p l) as [l'|] eqn:E.
    + apply strip_prefix_app in E. split; [done|].
      intros H. exfalso. apply (H p l'); [left|done].
    + rewrite IH. split.
      * intros H q l' [->|?]%elem_of_cons; [|by apply H].
        intros ?%strip_prefix_app. congruence.
      * intros H q l' Hq. apply H. by right.
Qed.

(** Enough fuel strips until nothing can be stripped. *)
Lemma strip_all_done fuel ps l :
  [] ∉ ps → (length l ≤ fuel)%nat → strip_one ps (strip_all fuel ps l) = None.
Proof.
  intros Hps. revert l. induction fuel as [|fuel IH]; intros l Hl; cbn.
  - apply strip_one_None. intros p l' Hp ->.
    rewrite length_app in Hl. destruct p; cbn in Hl; [done|lia].
  - destruct (strip_one ps l) as [l'|] eqn:E; [|done]. apply IH.
    apply strip_one_Some in E as (p & Hp & ->).
    rewrite length_app in Hl. destruct p; [done|]. cbn in Hl. lia.
Qed.

Lemma strip_all_suffix fuel ps l : ∃ k, l = k ++ strip_all fuel ps l.
Proof.
  revert l. induction fuel as [|fuel IH]; intros l; cbn; [by exists []|].
  destruct (strip_one ps l) as [l'|] eqn:E; [|by exists []].
  apply strip_one_Some in E as (p & _ & ->). destruct (IH l') as [k Hk].
  exists (p ++ k). rewrite <- app_assoc. by f_equal.
Qed.

Lemma strip_all_id fuel ps l : strip_one ps l = None → strip_all fuel ps l = l.
Proof. destruct fuel; [done|]. cbn. by intros ->. Qed.

Lemma strip_one_prefix_None ps l k :
  strip_one ps (l ++ k) = None → strip_one ps l = None.
Proof.
  rewrite !strip_one_None. intros H p l' Hp ->. apply (H p (l' ++ k) Hp).
  by rewrite app_assoc.
Qed.

Lemma space_encodings_nonempty :
  ([] ∉ space_encodings) ∧ [] ∉ map (@rev ascii) space_encodings.
Proof. split; refine (bool_decide_unpack _ _); by vm_compute. Qed.

(** No white space at either end. *)
Definition trimmed (s : string) : Prop :=
  strip_one space_encodings (bytes s) = None ∧
  strip_one (map (@rev ascii) space_encodings) (rev (bytes s)) = None.

Lemma TrimSpace_trimmed s : trimmed (TrimSpace s).
Proof.
  unfold trimmed, TrimSpace. rewrite bytes_of_bytes.
  destruct space_encodings_nonempty as [Hl Hr]. split.
  - unfold trim_right.
    destruct (strip_all_suffix (length (trim_left (bytes s)))
      (map (@rev ascii) space_encodings) (rev (trim_left (bytes s)))) as [k Hk].
    apply (f_equal (@rev ascii)) in Hk. rewrite rev_app_distr, rev_involutive in Hk.
    apply (strip_one_prefix_None _ _ (rev k)). rewrite <- Hk.
    by apply strip_all_done.
  - unfold trim_right. rewrite rev_involutive. apply strip_all_done; [done|].
    by rewrite length_rev.
Qed.

Lemma TrimSpace_id s : trimmed s → TrimSpace s = s.
Proof.
  intros [Hl Hr]. unfold TrimSpace, trim_left, trim_right.
  rewrite (strip_all_id _ _ _ Hl), (strip_all_id _ _ _ Hr), rev_involutive.
  apply of_bytes_bytes.
Qed.

Lemma TrimSpace_idem s : TrimSpace (TrimSpace s) = TrimSpace s.
Proof. apply TrimSpace_id, TrimSpace_trimmed. Qed.

Lemma TrimSpace_empty : TrimSpace "" = "".
Proof. done. Qed.

(** ** Lower case *)

(** [unicode.ToLower] on runes above ASCII. *)
Class UnicodeTables := unicode_lower : Z → Z.

(** What the program relies on of that table: only U+0130 and U+212A have an
    ASCII lower case (the letters i and k). *)
Class UnicodeTablesOk (U : UnicodeTables) : Prop :=
  unicode_lower_ok : ∀ r, RuneSelf ≤ r →
    RuneSelf ≤ unicode_lower r ∨ unicode_lower r = 105 ∨ unicode_lower r = 107.

Definition lower_ascii (c : ascii) : ascii :=
  if in_range 65 90 (byte_Z c) then Z_byte (byte_Z c + 32) else c.

Definition lower_rune {U : UnicodeTables} (r : Z) : Z :=
  if r <? RuneSelf then if in_range 65 90 r then r + 32 else r else unicode_lower r.

Definition is_ascii (l : list ascii) : bool := forallb (λ c, byte_Z c <? RuneSelf) l.

(** [strings.ToLower]: byte by byte on an ASCII string, rune by rune (with
    U+FFFD for every invalid byte) otherwise. *)
Definition ToLower {U : UnicodeTables} (s : string) : string :=
  let l := bytes s in
  if is_ascii l then of_bytes (map lower_ascii l)
  else of_bytes (flat_map encode_rune (map lower_rune (runes l))).

(** ** Splitting at a separator byte, in two *)

Fixpoint split_at (sep : ascii) (l : list ascii) : option (list ascii * list ascii) :=
  match l with
  | [] => None
  | c :: l =>
    if Ascii.eqb c sep then Some ([], l)
    else match split_at sep l with Some (a, b) => Some (c :: a, b) | None => None end
  end.

(** [strings.SplitN(s, sep, 2)] for a one-byte separator. *)
Definition SplitN2 (s : string) (sep : ascii) : list string :=
  match split_at sep (bytes s) with
  | Some (a, b) => [of_bytes a; of_bytes b]
  | None => [s]
  end.

Lemma split_at_None sep l : split_at sep l = None ↔ sep ∉ l.
Proof.
  induction l as [|c l IH]; cbn; [split; [intros _; apply not_elem_of_nil|done]|].
  destruct (Ascii.eqb_spec c sep) as [->|Hne].
  - split; [done|]. intros H. exfalso. apply H. left.
  - rewrite not_elem_of_cons, <- IH. destruct (split_at sep l) as [[]|]; naive_solver.
Qed.

(** The split is at the first separator. *)
Lemma split_at_Some sep l a b :
  split_at sep l = Some (a, b) ↔ l = a ++ sep :: b ∧ sep ∉ a.
Proof.
  revert a. induction l as [|c l IH]; intros a; cbn.
  - split; [done|]. intros [H _]. by destruct a.
  - destruct (Ascii.eqb_spec c sep) as [->|Hne].
    + split; [intros; simplify_eq; split; [done|apply not_elem_of_nil]|].
      destruct a as [|d a]; intros [H Ha]; simplify_eq/=; [done|].
      exfalso. apply Ha. left.
    + destruct (split_at sep l) as [[a' b']|] eqn:E.
      * split.
        -- intros; simplify_eq. destruct (proj1 (IH a') eq_refl) as [-> Ha].
           split; [done|]. by apply not_elem_of_cons.
        -- destruct a as [|d a]; intros [H Ha]; simplify_eq/=.
           apply not_elem_of_cons in Ha as [_ Ha].
           by pose proof (proj2 (IH a) (conj eq_refl Ha)) as [= -> ->].
      * split; [done|]. destruct a as [|d a]; intros [H Ha]; simplify_eq/=.
        exfalso. apply split_at_None in E. apply E. set_solver.
Qed.

(** ** Decimal integers *)

Definition digit (d : Z) : ascii := Z_byte (48 + d).
Definition digit_value (c : ascii) : option Z :=
  if in_range 48 57 (byte_Z c) then Some (byte_Z c - 48) else None.

(** The decimal digits of a non-negative number; 20 digits hold any 64-bit
    magnitude. *)
Fixpoint digits (fuel : nat) (n : Z) : list ascii :=
  match fuel with
  | O => []
  | S fuel =>
    if n <? 10 then [digit n] else digits fuel (n / 10) ++ [digit (n mod 10)]
  end.

(** [strconv.Itoa], and [%d] of [fmt]. *)
Definition Itoa_bytes (z : Z) : list ascii :=
  if z <? 0 then "-"%char :: digits 20 (- z) else digits 20 z.
Definition Itoa (z : Z) : string := of_bytes (Itoa_bytes z).

Inductive num_error := ErrSyntax | ErrRange.

(** [strconv.ParseUint(s, 10, 64)]: on an error the value is 0 for a syntax
    error and the largest uint64 for a range error; the range test of a digit
    comes before the syntax test of the next byte. *)
Definition max_uint64 : Z := 2 ^ 64 - 1.

Fixpoint parse_digits (l : list ascii) (n : Z) : Z * option num_error :=
  match l with
  | [] => (n, None)
  | c :: l =>
    match digit_value c with
    | None => (0, Some ErrSyntax)
    | Some d =>
      if max_uint64 / 10 + 1 <=? n then (max_uint64, Some ErrRange)
      else if max_uint64 <? n * 10 + d then (max_uint64, Some ErrRange)
      else parse_digits l (n * 10 + d)
    end
  end.

Definition ParseUint (l : list ascii) : Z * option num_error :=
  match l with [] => (0, Some ErrSyntax) | _ => parse_digits l 0 end.

(** [strconv.ParseInt(s, 10, 64)], which [Atoi] agrees with on a 64-bit
    platform. *)
Definition ParseInt (s : string) : Z * option num_error :=
  match bytes s with
  | [] => (0, Some ErrSyntax)
  | c :: l =>
    let neg := Ascii.eqb c "-" in
    let digs := if neg || Ascii.eqb c "+" then l else c :: l in
    match ParseUint digs with
    | (_, Some ErrSyntax) => (0, Some ErrSyntax)
    | (un, _) =>
      if negb neg && (2 ^ 63 <=? un) then (max_int64, Some ErrRange)
      else if neg && (2 ^ 63 <? un) then (min_int64, Some ErrRange)
      else (if neg then - un else un, None)
    end
  end.
Definition Atoi (s : string) : Z * option num_error := ParseInt s.

Lemma digit_value_digit d : 0 ≤ d < 10 → digit_value (digit d) = Some d.
Proof.
  intros Hd. unfold digit_value, digit. rewrite byte_Z_byte by lia.
  unfold in_range. destruct (48 <=? 48 + d) eqn:?, (48 + d <=? 57) eqn:?; cbn; try lia.
  f_equal. lia.
Qed.

Lemma digit_value_bounds c d : digit_value c = Some d → 0 ≤ d < 10.
Proof.
  unfold digit_value, in_range. intros H.
  destruct (48 <=? byte_Z c) eqn:?, (byte_Z c <=? 57) eqn:?; simplify_eq/=; lia.
Qed.

(** Parsing with no range checks: what the digits denote. *)
Lemma parse_digits_app l1 l2 n m :
  parse_digits l1 n = (m, None) → parse_digits (l1 ++ l2) n = parse_digits l2 m.
Proof.
  revert n. induction l1 as [|c l1 IH]; intros n; cbn; [intros; by simplify_eq|].
  repeat case_match; intros; simplify_eq. eauto.
Qed.

Lemma digits_length fuel n : (0 < fuel)%nat → digits fuel n ≠ [].
Proof.
  destruct fuel; [lia|]. intros _. cbn. case_match; [done|].
  intros [_ ?]%app_nil. done.
Qed.

Lemma parse_digits_snoc d n :
  0 ≤ d < 10 → 0 ≤ n → n * 10 + d ≤ max_uint64 →
  parse_digits [digit d] n = (n * 10 + d, None).
Proof.
  intros Hd Hn Hm. cbn [parse_digits]. rewrite digit_value_digit by done.
  destruct (max_uint64 / 10 + 1 <=? n) eqn:E1.
  { unfold max_uint64 in *. Z.div_mod_to_equations; lia. }
  destruct (max_uint64 <? n * 10 + d) eqn:E2; [lia|done].
Qed.

Lemma parse_digits_digits fuel n :
  0 ≤ n < 10 ^ Z.of_nat fuel → n ≤ max_uint64 → parse_digits (digits fuel n) 0 = (n, None).
Proof.
  revert n. induction fuel as [|fuel IH]; intros n Hn Hm.
  { cbn in *. f_equal. lia. }
  cbn [digits]. destruct (n <? 10) eqn:E.
  - rewrite parse_digits_snoc by lia. done.
  - rewrite Nat2Z.inj_succ, Z.pow_succ_r in Hn by lia.
    pose proof (Z.div_mod n 10 ltac:(done)) as Hdm.
    pose proof (Z.mod_pos_bound n 10 ltac:(done)) as Hmod.
    rewrite (parse_digits_app _ _ _ (n / 10)) by (apply IH; lia).
    rewrite parse_digits_snoc by lia. f_equal. lia.
Qed.

(** Every byte of a decimal number is a digit or the sign. *)
Lemma digits_chars fuel n c :
  0 ≤ n → c ∈ digits fuel n → is_Some (digit_value c).
Proof.
  revert n. induction fuel as [|fuel IH]; intros n Hn; cbn.
  { by intros ?%not_elem_of_nil. }
  case_match.
  - intros ->%list_elem_of_singleton. rewrite digit_value_digit by lia. done.
  - rewrite elem_of_app, list_elem_of_singleton. intros [H1| ->].
    + apply (IH (n / 10)); [Z.div_mod_to_equations; lia|done].
    + rewrite digit_value_digit by (Z.div_mod_to_equations; lia). done.
Qed.

Lemma Itoa_chars z c : c ∈ Itoa_bytes z → c = "-"%char ∨ is_Some (digit_value c).
Proof.
  unfold Itoa_bytes. case_match.
  - intros [->|H1]%elem_of_cons; [by left|right]. eapply digits_chars; [|done]. lia.
  - intros ?. right. eapply digits_chars; [|done]. lia.
Qed.

Lemma digit_value_sign c d :
  digit_value c = Some d → Ascii.eqb c "-" = false ∧ Ascii.eqb c "+" = false.
Proof.
  intros H. split; apply Ascii.eqb_neq; intros ->; by vm_compute in H.
Qed.

Lemma ParseUint_digits n : 0 ≤ n ≤ max_uint64 → ParseUint (digits 20 n) = (n, None).
Proof.
  intros Hn. pose proof (parse_digits_digits 20 n) as H. unfold ParseUint.
  destruct (digits 20 n) eqn:E; [by apply digits_length in E; [|lia]|].
  apply H; unfold max_uint64 in *; lia.
Qed.

(** [strconv.Atoi (strconv.Itoa z) = z]. *)
Lemma Atoi_Itoa z : int64 z → Atoi (Itoa z) = (z, None).
Proof.
  unfold int64, min_int64, max_int64, Atoi, ParseInt, Itoa, Itoa_bytes. intros Hz.
  rewrite bytes_of_bytes. destruct (z <? 0) eqn:E.
  - cbn -[digits Z.pow ParseUint]. rewrite ParseUint_digits by (unfold max_uint64; lia).
    destruct (2 ^ 63 <? - z) eqn:?; [lia|]. f_equal. lia.
  - pose proof (ParseUint_digits z ltac:(unfold max_uint64; lia)) as HP.
    destruct (digits 20 z) as [|c l] eqn:Ed; [by apply digits_length in Ed; [|lia]|].
    destruct (digits_chars 20 z c) as [d Hd]; [lia|rewrite Ed; left|].
    apply digit_value_sign in Hd as [-> ->]. cbn -[Z.pow Z.leb ParseUint].
    rewrite HP. destruct (2 ^ 63 <=? z) eqn:?; [lia|done].
Qed.

Lemma Itoa_inj y z : int64 y → int64 z → Itoa y = Itoa z → y = z.
Proof.
  intros Hy Hz H. pose proof (Atoi_Itoa y Hy) as H1.
  rewrite H, (Atoi_Itoa z Hz) in H1. by simplify_eq.
Qed.
