(* ===== verification/Json.v ===== *)
(** JSON as [encoding/json] reads it: the scanner's grammar, string unquoting,
    and the two ways the program reads a text, the first value of a stream
    ([Decoder.Decode]) and a whole text ([Unmarshal]).  The parser runs on fuel;
    JsonGrammar.v shows that the length of the text is enough. *)
From S2P Require Import Prelude GoNum GoStrings.

Local Open Scope Z_scope.

#[local] Set Warnings "-register-all".

(** ** Values *)

(** A number is its text.  A member of an object carries its raw text, which
    [json.RawMessage] keeps. *)
Inductive JValue :=
| JNull
| JBool (b : bool)
| JNumber (text : list ascii)
| JString (s : string)
| JArray (l : list JValue)
| JObject (members : list (string * (list ascii * JValue))).

(** ** Tokens *)

Definition is_space (c : ascii) : bool :=
  Ascii.eqb c " " || (byte_Z c =? 9) || (byte_Z c =? 10) || (byte_Z c =? 13).

Fixpoint skip_ws (l : list ascii) : list ascii :=
  match l with
  | c :: l' => if is_space c then skip_ws l' else l
  | [] => []
  end.

Definition is_digit (c : ascii) : bool := in_range 48 57 (byte_Z c).

Fixpoint span_digits (l : list ascii) : list ascii * list ascii :=
  match l with
  | c :: l' => if is_digit c then let '(d, r) := span_digits l' in (c :: d, r) else ([], l)
  | [] => ([], [])
  end.

(** One digit or more. *)
Definition scan_digits (l : list ascii) : option (list ascii * list ascii) :=
  match span_digits l with ([], _) => None | x => Some x end.

Definition scan_int (l : list ascii) : option (list ascii * list ascii) :=
  match l with
  | c :: l' => if Ascii.eqb c "0" then Some ([c], l') else scan_digits l
  | [] => None
  end.

Definition scan_frac (l : list ascii) : option (list ascii * list ascii) :=
  match l with
  | c :: l' =>
    if Ascii.eqb c "." then '(d, r) ← scan_digits l'; Some (c :: d, r) else Some ([], l)
  | [] => Some ([], [])
  end.

Definition is_sign (c : ascii) : bool := Ascii.eqb c "+" || Ascii.eqb c "-".
Definition is_exp (c : ascii) : bool := Ascii.eqb c "e" || Ascii.eqb c "E".

Definition scan_exp (l : list ascii) : option (list ascii * list ascii) :=
  match l with
  | c :: l' =>
    if is_exp c then
      match l' with
      | s :: l'' =>
        if is_sign s then '(d, r) ← scan_digits l''; Some (c :: s :: d, r)
        else '(d, r) ← scan_digits l'; Some (c :: d, r)
      | [] => None
      end
    else Some ([], l)
  | [] => Some ([], [])
  end.

Definition scan_number (l : list ascii) : option (list ascii * list ascii) :=
  let '(sign, l) := match l with
                    | c :: l' => if Ascii.eqb c "-" then ([c], l') else ([], l)
                    | [] => ([], [])
                    end in
  '(i, l) ← scan_int l;
  '(f, l) ← scan_frac l;
  '(e, l) ← scan_exp l;
  Some (sign ++ i ++ f ++ e, l).

(** *** Strings *)

Definition hex_digit (c : ascii) : option Z :=
  let b := byte_Z c in
  if in_range 48 57 b then Some (b - 48)
  else if in_range 97 102 b then Some (b - 97 + 10)
  else if in_range 65 70 b then Some (b - 65 + 10)
  else None.
Definition is_hex (c : ascii) : bool := bool_decide (is_Some (hex_digit c)).

(** The quote and the backslash, as bytes 34 and 92. *)
Definition quote : ascii := Z_byte 34.
Definition backslash : ascii := Z_byte 92.

Definition is_escape (c : ascii) : bool :=
  existsb (Ascii.eqb c) [quote; backslash; "/"; "b"; "f"; "n"; "r"; "t"]%char.

(** The text of a string up to its closing quote, escapes as they are. *)
Fixpoint scan_string (l : list ascii) : option (list ascii * list ascii) :=
  match l with
  | [] => None
  | c :: l =>
    if Ascii.eqb c quote then Some ([], l)
    else if Ascii.eqb c backslash then
      match l with
      | e :: l =>
        if Ascii.eqb e "u" then
          match l with
          | h1 :: h2 :: h3 :: h4 :: l =>
            if is_hex h1 && is_hex h2 && is_hex h3 && is_hex h4 then
              '(t, r) ← scan_string l; Some (c :: e :: h1 :: h2 :: h3 :: h4 :: t, r)
            else None
          | _ => None
          end
        else if is_escape e then '(t, r) ← scan_string l; Some (c :: e :: t, r)
        else None
      | [] => None
      end
    else if byte_Z c <? 32 then None
    else '(t, r) ← scan_string l; Some (c :: t, r)
  end.

(** [getu4]: the code unit of an escape. *)
Definition getu4 (l : list ascii) : option Z :=
  match l with
  | c :: u :: h1 :: h2 :: h3 :: h4 :: _ =>
    if Ascii.eqb c backslash && Ascii.eqb u "u" then
      a ← hex_digit h1; b ← hex_digit h2; c ← hex_digit h3; d ← hex_digit h4;
      Some (((a * 16 + b) * 16 + c) * 16 + d)
    else None
  | _ => None
  end.

Definition is_surrogate (r : Z) : bool := in_range 55296 57343 r.

(** [utf16.DecodeRune]; [None] for U+FFFD. *)
Definition decode_surrogates (r1 r2 : Z) : option Z :=
  if in_range 55296 56319 r1 && in_range 56320 57343 r2
  then Some ((r1 - 55296) * 1024 + (r2 - 56320) + 65536) else None.

(** What an escape of one letter stands for. *)
Definition unescape (c : ascii) : option ascii :=
  if Ascii.eqb c "b" then Some (Z_byte 8)
  else if Ascii.eqb c "f" then Some (Z_byte 12)
  else if Ascii.eqb c "n" then Some (Z_byte 10)
  else if Ascii.eqb c "r" then Some (Z_byte 13)
  else if Ascii.eqb c "t" then Some (Z_byte 9)
  else if existsb (Ascii.eqb c) [quote; backslash; "/"; "'"]%char then Some c
  else None.

(** [unquoteBytes] on what the scanner accepted.  Lone surrogates and invalid
    UTF-8 become U+FFFD.  Every step consumes a byte, so the length is enough
    fuel.  An escape that the scanner refuses ends the string here. *)
Fixpoint unquote_go (fuel : nat) (l : list ascii) : list ascii :=
  match fuel, l with
  | S fuel, c :: l' =>
    if Ascii.eqb c backslash then
      match l' with
      | e :: l'' =>
        if Ascii.eqb e "u" then
          let r1 := default RuneError (getu4 l) in
          if is_surrogate r1 then
            match getu4 (drop 6 l) ≫= decode_surrogates r1 with
            | Some r => encode_rune r ++ unquote_go fuel (drop 12 l)
            | None => encode_rune RuneError ++ unquote_go fuel (drop 6 l)
            end
          else encode_rune r1 ++ unquote_go fuel (drop 6 l)
        else match unescape e with Some x => x :: unquote_go fuel l'' | None => [] end
      | [] => []
      end
    else
      let '(r, w) := decode_rune l in encode_rune r ++ unquote_go fuel (drop w l)
  | _, _ => []
  end.
Definition unquote (l : list ascii) : string := of_bytes (unquote_go (length l) l).

(** ** The parser *)

Definition json_true : list ascii := bytes "true".
Definition json_false : list ascii := bytes "false".
Definition json_null : list ascii := bytes "null".

(** A value that is not an object or an array. *)
Definition parse_scalar (l : list ascii) : option (JValue * list ascii) :=
  match strip_prefix json_null l with
  | Some r => Some (JNull, r)
  | None =>
    match strip_prefix json_true l with
    | Some r => Some (JBool true, r)
    | None =>
      match strip_prefix json_false l with
      | Some r => Some (JBool false, r)
      | None =>
        match l with
        | c :: l' =>
          if Ascii.eqb c quote then '(t, r) ← scan_string l'; Some (JString (unquote t), r)
          else '(t, r) ← scan_number l; Some (JNumber t, r)
        | [] => None
        end
      end
    end
  end.

(** The deepest nesting the scanner accepts. *)
Definition maxNestingDepth : Z := 10000.

(** A value at the start of the text, without white space before it, with
    [depth] levels of nesting left; the elements of an array, and the members of
    an object, up to and with the closing bracket. *)
Fixpoint parse_value (fuel : nat) (depth : Z) (l : list ascii) :
    option (JValue * list ascii) :=
  match fuel, l with
  | S fuel, c :: l' =>
    if Ascii.eqb c "[" then
      if depth <=? 0 then None else
      match skip_ws l' with
      | c :: r =>
        if Ascii.eqb c "]" then Some (JArray [], r)
        else '(vs, r) ← parse_elements fuel (depth - 1) (c :: r); Some (JArray vs, r)
      | [] => None
      end
    else if Ascii.eqb c "{" then
      if depth <=? 0 then None else
      match skip_ws l' with
      | c :: r =>
        if Ascii.eqb c "}" then Some (JObject [], r)
        else '(ms, r) ← parse_members fuel (depth - 1) (c :: r); Some (JObject ms, r)
      | [] => None
      end
    else parse_scalar l
  | _, _ => None
  end
with parse_elements (fuel : nat) (depth : Z) (l : list ascii) :
    option (list JValue * list ascii) :=
  match fuel with
  | S fuel =>
    '(v, r) ← parse_value fuel depth (skip_ws l);
    match skip_ws r with
    | c :: r =>
      if Ascii.eqb c "," then '(vs, r) ← parse_elements fuel depth r; Some (v :: vs, r)
      else if Ascii.eqb c "]" then Some ([v], r)
      else None
    | [] => None
    end
  | O => None
  end
with parse_members (fuel : nat) (depth : Z) (l : list ascii) :
    option (list (string * (list ascii * JValue)) * list ascii) :=
  match fuel with
  | S fuel =>
    match skip_ws l with
    | c :: l =>
      if Ascii.eqb c quote then
        '(k, l) ← scan_string l;
        match skip_ws l with
        | c :: l =>
          if Ascii.eqb c ":" then
            let l := skip_ws l in
            '(v, r) ← parse_value fuel depth l;
            let m := (unquote k, (take (length l - length r) l, v)) in
            match skip_ws r with
            | c :: r =>
              if Ascii.eqb c "," then '(ms, r) ← parse_members fuel depth r; Some (m :: ms, r)
              else if Ascii.eqb c "}" then Some ([m], r)
              else None
            | [] => None
            end
          else None
        | [] => None
        end
      else None
    | [] => None
    end
  | O => None
  end.

(** [NewDecoder(r).Decode]: the first value; what follows it is not looked at. *)
Definition json_first (s : string) : option JValue :=
  let l := skip_ws (bytes s) in
  fst <$> parse_value (S (length l)) maxNestingDepth l.

(** [Unmarshal]: nothing but white space may follow. *)
Definition json_whole (s : string) : option JValue :=
  let l := skip_ws (bytes s) in
  match parse_value (S (length l)) maxNestingDepth l with
  | Some (v, r) => match skip_ws r with [] => Some v | _ => None end
  | None => None
  end.
