(* ===== verification/JsonGrammar.v ===== *)
(** The grammar of JSON as [encoding/json] accepts it, without fuel, and the
    proof that the parser of Json.v reads exactly its texts. *)
From S2P Require Import Prelude GoNum GoStrings Json.

Local Open Scope Z_scope.

#[local] Set Warnings "-register-all".

(** ** The grammar *)

Definition white (w : list ascii) : Prop := Forall (λ c, is_space c = true) w.

Definition digits_text (d : list ascii) : Prop := d ≠ [] ∧ Forall (λ c, is_digit c = true) d.

Definition sign_text (s : list ascii) : Prop := s = [] ∨ s = ["-"%char].
Definition int_text (i : list ascii) : Prop :=
  i = ["0"%char] ∨ digits_text i ∧ head i ≠ Some "0"%char.
Definition frac_text (f : list ascii) : Prop := f = [] ∨ ∃ d, f = "."%char :: d ∧ digits_text d.
Definition exp_text (e : list ascii) : Prop :=
  e = [] ∨ ∃ c s d, e = c :: s ++ d ∧ is_exp c = true ∧
    (s = [] ∨ ∃ x, s = [x] ∧ is_sign x = true) ∧ digits_text d.
Definition number_text (t : list ascii) : Prop :=
  ∃ s i f e, t = s ++ i ++ f ++ e ∧ sign_text s ∧ int_text i ∧ frac_text f ∧ exp_text e.

Inductive string_text : list ascii → Prop :=
| string_nil : string_text []
| string_plain c k :
    c ≠ quote → c ≠ backslash → 32 ≤ byte_Z c → string_text k → string_text (c :: k)
| string_escape e k : is_escape e = true → string_text k → string_text (backslash :: e :: k)
| string_unicode h1 h2 h3 h4 k :
    is_hex h1 && is_hex h2 && is_hex h3 && is_hex h4 = true → string_text k →
    string_text (backslash :: "u"%char :: h1 :: h2 :: h3 :: h4 :: k).

Inductive scalar_text : list ascii → JValue → Prop :=
| scalar_null : scalar_text json_null JNull
| scalar_true : scalar_text json_true (JBool true)
| scalar_false : scalar_text json_false (JBool false)
| scalar_string k : string_text k → scalar_text (quote :: k ++ [quote]) (JString (unquote k))
| scalar_number t : number_text t → scalar_text t (JNumber t).

(** Texts of values, without white space around them, with at most [d] levels of
    nesting. *)
Inductive value_text : Z → list ascii → JValue → Prop :=
| value_scalar d t v : scalar_text t v → value_text d t v
| value_empty_array d w : 0 < d → white w → value_text d ("["%char :: w ++ ["]"%char]) (JArray [])
| value_array d b vs :
    0 < d → elements_text (d - 1) b vs → value_text d ("["%char :: b ++ ["]"%char]) (JArray vs)
| value_empty_object d w :
    0 < d → white w → value_text d ("{"%char :: w ++ ["}"%char]) (JObject [])
| value_object d b ms :
    0 < d → members_text (d - 1) b ms → value_text d ("{"%char :: b ++ ["}"%char]) (JObject ms)
with elements_text : Z → list ascii → list JValue → Prop :=
| elements_last d w1 t w2 v :
    white w1 → value_text d t v → white w2 → elements_text d (w1 ++ t ++ w2) [v]
| elements_cons d w1 t w2 v b vs :
    white w1 → value_text d t v → white w2 → elements_text d b vs →
    elements_text d (w1 ++ t ++ w2 ++ ","%char :: b) (v :: vs)
with members_text : Z → list ascii → list (string * (list ascii * JValue)) → Prop :=
| members_last d w1 k w2 w3 t w4 v :
    white w1 → string_text k → white w2 → white w3 → value_text d t v → white w4 →
    members_text d (w1 ++ quote :: k ++ quote :: w2 ++ ":"%char :: w3 ++ t ++ w4)
      [(unquote k, (t, v))]
| members_cons d w1 k w2 w3 t w4 v b ms :
    white w1 → string_text k → white w2 → white w3 → value_text d t v → white w4 →
    members_text d b ms →
    members_text d (w1 ++ quote :: k ++ quote :: w2 ++ ":"%char :: w3 ++ t ++ w4 ++ ","%char :: b)
      ((unquote k, (t, v)) :: ms).

Scheme value_text_ind' := Minimality for value_text Sort Prop
  with elements_text_ind' := Minimality for elements_text Sort Prop
  with members_text_ind' := Minimality for members_text Sort Prop.
Combined Scheme text_mutind from value_text_ind', elements_text_ind', members_text_ind'.

(** ** White space *)

Lemma blank_empty : white [].
Proof. constructor. Qed.
#[export] Hint Resolve blank_empty : core.

Lemma skip_ws_spec l : ∃ w, l = w ++ skip_ws l ∧ white w.
Proof.
  induction l as [|c l [w [E Hw]]]; cbn; [by exists []; split; [|constructor]|].
  destruct (is_space c) eqn:Ec.
  - exists (c :: w). split; [by rewrite E at 1|by constructor].
  - exists []. split; [done|constructor].
Qed.

Lemma skip_ws_blank w l : white w → skip_ws (w ++ l) = skip_ws l.
Proof. induction 1 as [|c w Hc _ IH]; cbn; [done|]. by rewrite Hc. Qed.

Lemma skip_ws_id c l : is_space c = false → skip_ws (c :: l) = c :: l.
Proof. intros Hc. cbn. by rewrite Hc. Qed.

Lemma skip_ws_idem l : skip_ws (skip_ws l) = skip_ws l.
Proof. induction l as [|c l IH]; cbn; [done|]. destruct (is_space c) eqn:Ec; [done|]. by apply skip_ws_id. Qed.

Lemma blank_nil w : white w → skip_ws w = [].
Proof. intros Hw. rewrite <- (app_nil_r w). by rewrite skip_ws_blank. Qed.

(** ** Bytes *)

(** A property of all bytes, by computation. *)
Lemma all_ascii (P : ascii → bool) :
  forallb (λ n, P (ascii_of_nat n)) (seq 0 256) = true → ∀ c, P c = true.
Proof.
  rewrite forallb_forall. intros H c. rewrite <- (ascii_nat_embedding c). apply H.
  apply in_seq. pose proof (nat_ascii_bounded c). lia.
Qed.

(** The bytes a value may begin with, and those that may follow a number. *)
Definition starts (c : ascii) : bool :=
  negb (is_space c || existsb (Ascii.eqb c) ["]"; "}"; ","; ":"]%char).
Definition stops (c : ascii) : bool := negb (is_digit c || Ascii.eqb c "." || is_exp c).

Definition stop (r : list ascii) : Prop := match r with c :: _ => stops c = true | [] => True end.
Definition nodigit (r : list ascii) : Prop :=
  match r with c :: _ => is_digit c = false | [] => True end.

Lemma digit_facts c :
  is_digit c = true →
  starts c = true ∧ is_sign c = false ∧ is_exp c = false ∧
  ∀ x, x ∈ ["."; "-"; "["; "{"; quote; "n"; "t"; "f"]%char → c ≠ x.
Proof.
  intros Hc.
  pose proof (all_ascii (λ c, implb (is_digit c) (starts c && negb (is_sign c) && negb (is_exp c) &&
    forallb (λ x, negb (Ascii.eqb c x)) ["."; "-"; "["; "{"; quote; "n"; "t"; "f"]%char)) eq_refl c) as H.
  cbn beta in H. rewrite Hc in H. cbn [implb] in H. bool_hyps. split_and!; try done.
  intros x Hx ->. rewrite forallb_forall in H0. apply list_elem_of_In in Hx.
  specialize (H0 x Hx). by rewrite Ascii.eqb_refl in H0.
Qed.

Lemma space_stops c : is_space c = true → stops c = true.
Proof.
  intros Hc. pose proof (all_ascii (λ c, implb (is_space c) (stops c)) eq_refl c) as H.
  cbn beta in H. by rewrite Hc in H.
Qed.

Lemma stop_blank w r : white w → stop r → stop (w ++ r).
Proof. destruct 1 as [|c w Hc]; [done|]. intros _. cbn. by apply space_stops. Qed.

Lemma stop_nodigit r : stop r → nodigit r.
Proof. destruct r as [|c r]; [done|]. cbn. unfold stops. intros H. by bool_hyps. Qed.

(** ** Numbers *)

Lemma span_digits_sound l d r :
  span_digits l = (d, r) → l = d ++ r ∧ Forall (λ c, is_digit c = true) d.
Proof.
  revert d. induction l as [|c l IH]; intros d; cbn; [by intros [= <- <-]|].
  destruct (is_digit c) eqn:Ec; [|by intros [= <- <-]].
  destruct (span_digits l) as [d' r'] eqn:El. intros [= <- <-].
  destruct (IH d' eq_refl) as [-> Hd]. split; [done|by constructor].
Qed.

Lemma span_digits_complete d r :
  Forall (λ c, is_digit c = true) d → nodigit r → span_digits (d ++ r) = (d, r).
Proof.
  intros Hd Hr. induction Hd as [|c d Hc _ IH]; cbn; [|by rewrite Hc, IH].
  destruct r as [|c r]; [done|]. cbn in *. by rewrite Hr.
Qed.

Lemma scan_digits_sound l d r : scan_digits l = Some (d, r) → l = d ++ r ∧ digits_text d.
Proof.
  unfold scan_digits. destruct (span_digits l) as [d' r'] eqn:El.
  apply span_digits_sound in El as [-> Hd]. destruct d'; intros [= <- <-]. by repeat split.
Qed.

Lemma scan_digits_complete d r :
  digits_text d → nodigit r → scan_digits (d ++ r) = Some (d, r).
Proof.
  intros [Hne Hd] Hr. unfold scan_digits. rewrite span_digits_complete by done. by destruct d.
Qed.

Lemma scan_int_sound l i r : scan_int l = Some (i, r) → l = i ++ r ∧ int_text i.
Proof.
  destruct l as [|c l]; cbn [scan_int]; [done|].
  destruct (Ascii.eqb_spec c "0"%char) as [->|Hc]; [intros [= <- <-]; split; [done|by left]|].
  intros [E Hd]%scan_digits_sound. split; [done|]. right. split; [done|].
  destruct i as [|c' i]; [by destruct Hd|]. injection E as -> _. cbn. congruence.
Qed.

Lemma scan_int_complete i r : int_text i → nodigit r → scan_int (i ++ r) = Some (i, r).
Proof.
  intros [-> | [Hd Hh]] Hr; [done|].
  destruct i as [|c i]; [by destruct Hd|]. cbn [app scan_int].
  destruct (Ascii.eqb_spec c "0"%char) as [->|Hc]; [done|]. by apply (scan_digits_complete (c :: i)).
Qed.

Lemma scan_frac_sound l f r : scan_frac l = Some (f, r) → l = f ++ r ∧ frac_text f.
Proof.
  destruct l as [|c l]; cbn [scan_frac]; [intros [= <- <-]; split; [done|by left]|].
  destruct (Ascii.eqb_spec c "."%char) as [->|Hc]; [|intros [= <- <-]; split; [done|by left]].
  destruct (scan_digits l) as [[d r']|] eqn:El; intros [= <- <-].
  apply scan_digits_sound in El as [-> Hd]. split; [done|]. right. eauto.
Qed.

Lemma scan_frac_complete f r :
  frac_text f → nodigit r → head r ≠ Some "."%char → scan_frac (f ++ r) = Some (f, r).
Proof.
  intros [-> | (d & -> & Hd)] Hr Hh; cbn [app].
  - destruct r as [|c r]; [done|]. cbn [scan_frac].
    by destruct (Ascii.eqb_spec c "."%char) as [->|].
  - cbn [scan_frac]. rewrite Ascii.eqb_refl. by rewrite scan_digits_complete.
Qed.

Lemma scan_exp_sound l e r : scan_exp l = Some (e, r) → l = e ++ r ∧ exp_text e.
Proof.
  destruct l as [|c l]; cbn [scan_exp]; [intros [= <- <-]; split; [done|by left]|].
  destruct (is_exp c) eqn:Ec; [|intros [= <- <-]; split; [done|by left]].
  destruct l as [|x l]; [done|]. destruct (is_sign x) eqn:Ex.
  - destruct (scan_digits l) as [[d r']|] eqn:El; intros [= <- <-].
    apply scan_digits_sound in El as [-> Hd]. split; [done|]. right. exists c, [x], d.
    split_and!; try done. right. eauto.
  - destruct (scan_digits (x :: l)) as [[d r']|] eqn:El; intros [= <- <-].
    apply scan_digits_sound in El as [-> Hd]. split; [done|]. right. exists c, [], d.
    split_and!; try done. by left.
Qed.

Lemma scan_exp_complete e r : exp_text e → stop r → scan_exp (e ++ r) = Some (e, r).
Proof.
  intros [-> | (c & s & d & -> & Hc & Hs & Hd)] Hr; cbn [app].
  - destruct r as [|c r]; [done|]. cbn in Hr |- *. unfold stops in Hr. bool_hyps.
    by replace (is_exp c) with false.
  - rewrite <- app_assoc. cbn [scan_exp]. rewrite Hc.
    pose proof (stop_nodigit r Hr) as Hn.
    destruct Hs as [-> | (x & -> & Hx)]; cbn [app].
    + destruct d as [|c' d]; [by destruct Hd|]. cbn [app].
      pose proof (proj2 Hd) as [Hc' _]%Forall_cons.
      destruct (digit_facts c' Hc') as (_ & -> & _).
      change (c' :: d ++ r) with ((c' :: d) ++ r). by rewrite scan_digits_complete.
    + rewrite Hx. by rewrite scan_digits_complete.
Qed.

Lemma scan_number_sound l t r : scan_number l = Some (t, r) → l = t ++ r ∧ number_text t.
Proof.
  unfold scan_number.
  set (sg := match l with c :: l' => if Ascii.eqb c "-" then ([c], l') else ([], l) | [] => ([], []) end).
  assert (l = sg.1 ++ sg.2 ∧ sign_text sg.1) as [El Hs].
  { unfold sg. destruct l as [|c l']; [split; [done|by left]|].
    destruct (Ascii.eqb_spec c "-"%char) as [->|]; split; [done|by right|done|by left]. }
  destruct sg as [s l0]. cbn in El, Hs. subst l.
  destruct (scan_int l0) as [[i l1]|] eqn:Ei; cbn; [|done].
  destruct (scan_frac l1) as [[f l2]|] eqn:Ef; cbn; [|done].
  destruct (scan_exp l2) as [[e l3]|] eqn:Ee; cbn; [|done]. intros [= <- <-].
  apply scan_int_sound in Ei as [-> Hi]. apply scan_frac_sound in Ef as [-> Hf].
  apply scan_exp_sound in Ee as [-> He]. split; [by rewrite <- !app_assoc|].
  by exists s, i, f, e.
Qed.

Lemma int_head i : int_text i → ∃ c i', i = c :: i' ∧ is_digit c = true.
Proof.
  intros [-> | [[Hne Hd] _]]; [by exists "0"%char, []|].
  destruct i as [|c i]; [done|]. apply Forall_cons in Hd as [Hc _]. eauto.
Qed.

Lemma exp_head e r : exp_text e → stop r → nodigit (e ++ r) ∧ head (e ++ r) ≠ Some "."%char.
Proof.
  intros [-> | (c & s & d & -> & Hc & _)] Hr; cbn [app].
  - split; [by apply stop_nodigit|]. destruct r as [|c r]; [done|]. intros [= ->]. done.
  - cbn. pose proof (all_ascii (λ c, implb (is_exp c) (negb (is_digit c) && negb (Ascii.eqb c "."%char)))
      eq_refl c) as H. cbn beta in H. rewrite Hc in H. cbn [implb] in H. bool_hyps. split; [done|].
    intros [= ->]. done.
Qed.

Lemma frac_head f l : frac_text f → nodigit l → nodigit (f ++ l).
Proof. by intros [-> | (d & -> & _)]. Qed.

Lemma scan_number_complete t r :
  number_text t → stop r → scan_number (t ++ r) = Some (t, r).
Proof.
  intros (s & i & f & e & -> & Hs & Hi & Hf & He) Hr.
  destruct (exp_head e r He Hr) as [Hn Hd]. pose proof (frac_head f _ Hf Hn) as Hn'.
  rewrite <- !app_assoc. unfold scan_number.
  assert (match s ++ i ++ f ++ e ++ r with
          | c :: l' => if Ascii.eqb c "-" then ([c], l') else ([], s ++ i ++ f ++ e ++ r)
          | [] => ([], []) end = (s, i ++ f ++ e ++ r)) as ->.
  { destruct Hs as [-> | ->]; [|done]. destruct (int_head i Hi) as (c & i' & -> & Hc).
    cbn [app]. destruct (Ascii.eqb_spec c "-"%char) as [->|]; done. }
  rewrite scan_int_complete by done. cbn. rewrite scan_frac_complete by done. cbn.
  by rewrite scan_exp_complete.
Qed.

(** ** Strings *)

Lemma scan_string_sound l k r :
  scan_string l = Some (k, r) → l = k ++ quote :: r ∧ string_text k.
Proof.
  remember (length l) as n eqn:En. revert l k r En.
  induction n as [n IH] using (well_founded_induction Nat.lt_wf_0). intros l k r ->.
  destruct l as [|c l]; cbn [scan_string]; [done|].
  destruct (Ascii.eqb_spec c quote) as [->|Hq]; [intros [= <- <-]; split; [done|constructor]|].
  destruct (Ascii.eqb_spec c backslash) as [->|Hb].
  - destruct l as [|e l]; [done|]. destruct (Ascii.eqb_spec e "u"%char) as [->|Hu].
    + destruct l as [|h1 [|h2 [|h3 [|h4 l]]]]; try done.
      destruct (_ && _) eqn:Eh; [|done].
      destruct (scan_string l) as [[k' r']|] eqn:El; intros [= <- <-].
      apply (IH (length l)) in El as [-> Hk]; [|cbn; lia|done]. split; [done|by constructor].
    + destruct (is_escape e) eqn:Ee; [|done].
      destruct (scan_string l) as [[k' r']|] eqn:El; intros [= <- <-].
      apply (IH (length l)) in El as [-> Hk]; [|cbn; lia|done]. split; [done|by constructor].
  - destruct (byte_Z c <? 32) eqn:Ec; [done|].
    destruct (scan_string l) as [[k' r']|] eqn:El; intros [= <- <-].
    apply (IH (length l)) in El as [-> Hk]; [|cbn; lia|done]. split; [done|]. constructor; try done. lia.
Qed.

Lemma scan_string_complete k r : string_text k → scan_string (k ++ quote :: r) = Some (k, r).
Proof.
  induction 1 as [|c k Hq Hb Hc _ IH|e k He _ IH|h1 h2 h3 h4 k Hh _ IH]; cbn [app scan_string].
  - done.
  - rewrite (proj2 (Ascii.eqb_neq c quote)), (proj2 (Ascii.eqb_neq c backslash)) by done.
    rewrite (proj2 (Z.ltb_ge _ _)) by lia. by rewrite IH.
  - destruct (Ascii.eqb_spec e "u"%char) as [->|Hu]; [done|]. rewrite He, IH. done.
  - rewrite Hh, IH. done.
Qed.

(** ** Scalars *)

Lemma parse_scalar_sound l v r : parse_scalar l = Some (v, r) → ∃ t, l = t ++ r ∧ scalar_text t v.
Proof.
  unfold parse_scalar. destruct (strip_prefix json_null l) as [l1|] eqn:E1.
  { intros [= <- <-]. apply strip_prefix_app in E1 as ->. eexists; split; [done|constructor]. }
  destruct (strip_prefix json_true l) as [l2|] eqn:E2.
  { intros [= <- <-]. apply strip_prefix_app in E2 as ->. eexists; split; [done|constructor]. }
  destruct (strip_prefix json_false l) as [l3|] eqn:E3.
  { intros [= <- <-]. apply strip_prefix_app in E3 as ->. eexists; split; [done|constructor]. }
  destruct l as [|c l]; [done|]. destruct (Ascii.eqb_spec c quote) as [->|Hc].
  - destruct (scan_string l) as [[k r']|] eqn:Ek; intros [= <- <-].
    apply scan_string_sound in Ek as [-> Hk]. exists (quote :: k ++ [quote]).
    split; [by rewrite <- app_comm_cons, <- app_assoc|by constructor].
  - destruct (scan_number _) as [[t r']|] eqn:Et; intros [= <- <-].
    apply scan_number_sound in Et as [-> Ht]. exists t. split; [done|by constructor].
Qed.

Lemma number_head t : number_text t → ∃ c t', t = c :: t' ∧ (c = "-"%char ∨ is_digit c = true).
Proof.
  intros (s & i & f & e & -> & Hs & Hi & _). destruct (int_head i Hi) as (c & i' & -> & Hc).
  destruct Hs as [-> | ->]; cbn [app]; eauto.
Qed.

(** A number begins with nothing another value begins with. *)
Lemma number_first t :
  number_text t → ∃ c t', t = c :: t' ∧ starts c = true ∧
    ∀ x, x ∈ ["["; "{"; quote; "n"; "t"; "f"]%char → c ≠ x.
Proof.
  intros Ht. destruct (number_head t Ht) as (c & t' & -> & Hc). exists c, t'. split; [done|].
  destruct Hc as [-> | Hc].
  - split; [done|]. intros x Hx <-. revert Hx.
    rewrite !elem_of_cons, elem_of_nil. intros Hx. destruct_or!; done.
  - destruct (digit_facts c Hc) as (H1 & _ & _ & H2). split; [done|].
    intros x Hx. apply H2. set_solver.
Qed.

Lemma scalar_head t v :
  scalar_text t v → ∃ c t', t = c :: t' ∧ starts c = true ∧ c ≠ "["%char ∧ c ≠ "{"%char.
Proof.
  destruct 1 as [| | |k Hk|t Ht]; try (by repeat eexists).
  destruct (number_first t Ht) as (c & t' & -> & Hs & Hc). exists c, t'.
  split_and!; try done; apply Hc; set_solver.
Qed.

Lemma strip_prefix_head x p c l : c ≠ x → strip_prefix (x :: p) (c :: l) = None.
Proof. intros Hc. cbn. by destruct (Ascii.eqb_spec x c). Qed.

Lemma parse_scalar_complete t v r :
  scalar_text t v → stop r → parse_scalar (t ++ r) = Some (v, r).
Proof.
  destruct 1 as [| | |k Hk|t Ht]; intros Hr; try done.
  - cbn [app]. rewrite <- app_assoc. cbn [app]. unfold parse_scalar.
    change json_null with ("n"%char :: bytes "ull"). change json_true with ("t"%char :: bytes "rue").
    change json_false with ("f"%char :: bytes "alse").
    rewrite !strip_prefix_head by done. rewrite Ascii.eqb_refl, scan_string_complete by done. done.
  - pose proof (scan_number_complete t r Ht Hr) as Hn.
    destruct (number_first t Ht) as (c & t' & -> & _ & Hc). cbn [app] in *. unfold parse_scalar.
    change json_null with ("n"%char :: bytes "ull"). change json_true with ("t"%char :: bytes "rue").
    change json_false with ("f"%char :: bytes "alse").
    rewrite !strip_prefix_head by (apply Hc; set_solver).
    destruct (Ascii.eqb_spec c quote) as [Hq|_]; [by destruct (Hc quote); [set_solver|]|].
    by rewrite Hn.
Qed.

(** ** The parser reads texts of the grammar *)

Lemma elements_blank w d b vs : white w → elements_text d b vs → elements_text d (w ++ b) vs.
Proof.
  intros Hw. destruct 1; rewrite app_assoc; constructor; try done; by apply Forall_app.
Qed.

Lemma members_blank w d b ms : white w → members_text d b ms → members_text d (w ++ b) ms.
Proof.
  intros Hw. destruct 1; rewrite app_assoc; constructor; try done; by apply Forall_app.
Qed.

Lemma take_app_minus {A} (t r : list A) : take (length (t ++ r) - length r) (t ++ r) = t.
Proof. rewrite length_app. by rewrite (take_app_length' t) by lia. Qed.

(** What the three parsers promise with some fuel. *)
Record parser_sound (fuel : nat) : Prop := {
  value_sound d l v r : parse_value fuel d l = Some (v, r) → ∃ t, l = t ++ r ∧ value_text d t v;
  elements_sound d l vs r :
    parse_elements fuel d l = Some (vs, r) → ∃ b, l = b ++ "]"%char :: r ∧ elements_text d b vs;
  members_sound d l ms r :
    parse_members fuel d l = Some (ms, r) → ∃ b, l = b ++ "}"%char :: r ∧ members_text d b ms;
}.

Section Sound.
Context (fuel : nat) (IH : parser_sound fuel).

Lemma parse_value_step d l v r :
  parse_value (S fuel) d l = Some (v, r) → ∃ t, l = t ++ r ∧ value_text d t v.
Proof.
  destruct l as [|c l]; cbn [parse_value]; [done|].
  destruct (Ascii.eqb_spec c "["%char) as [->|Hl].
  { destruct (Z.leb_spec d 0) as [|Hd]; [done|]. destruct (skip_ws_spec l) as (w & El & Hw).
    destruct (skip_ws l) as [|c l1]; [done|]. destruct (Ascii.eqb_spec c "]"%char) as [->|_].
    - intros [= <- <-]. exists ("["%char :: w ++ ["]"%char]). split; [|by constructor].
      cbn [app]. by rewrite <- app_assoc, El.
    - destruct (parse_elements fuel _ _) as [[vs r']|] eqn:Ev; intros [= <- <-].
      apply (elements_sound _ IH) in Ev as (b & Eb & Hb). exists ("["%char :: (w ++ b) ++ ["]"%char]).
      split; [cbn [app]; by rewrite <- !app_assoc, El, Eb|]. constructor; [done|].
      by apply elements_blank. }
  destruct (Ascii.eqb_spec c "{"%char) as [->|Ho].
  { destruct (Z.leb_spec d 0) as [|Hd]; [done|]. destruct (skip_ws_spec l) as (w & El & Hw).
    destruct (skip_ws l) as [|c l1]; [done|]. destruct (Ascii.eqb_spec c "}"%char) as [->|_].
    - intros [= <- <-]. exists ("{"%char :: w ++ ["}"%char]). split; [|by constructor].
      cbn [app]. by rewrite <- app_assoc, El.
    - destruct (parse_members fuel _ _) as [[ms r']|] eqn:Ev; intros [= <- <-].
      apply (members_sound _ IH) in Ev as (b & Eb & Hb). exists ("{"%char :: (w ++ b) ++ ["}"%char]).
      split; [cbn [app]; by rewrite <- !app_assoc, El, Eb|]. constructor; [done|].
      by apply members_blank. }
  intros (t & -> & Ht)%parse_scalar_sound. exists t. split; [done|by constructor].
Qed.

Lemma parse_elements_step d l vs r :
  parse_elements (S fuel) d l = Some (vs, r) → ∃ b, l = b ++ "]"%char :: r ∧ elements_text d b vs.
Proof.
  cbn [parse_elements]. destruct (skip_ws_spec l) as (w1 & El & Hw1).
  destruct (parse_value fuel _ _) as [[v r1]|] eqn:Ev; cbn; [|done].
  apply (value_sound _ IH) in Ev as (t & Et & Ht). rewrite Et in El. subst l.
  destruct (skip_ws_spec r1) as (w2 & Er & Hw2).
  destruct (skip_ws r1) as [|c r2]; [done|]. subst r1.
  destruct (Ascii.eqb_spec c ","%char) as [->|_].
  - destruct (parse_elements fuel _ _) as [[vs' r']|] eqn:Ev; intros [= <- <-].
    apply (elements_sound _ IH) in Ev as (b & -> & Hb).
    exists (w1 ++ t ++ w2 ++ ","%char :: b). split; [|by constructor].
    rewrite <- !app_assoc. by cbn [app].
  - destruct (Ascii.eqb_spec c "]"%char) as [->|_]; [|done]. intros [= <- <-].
    exists (w1 ++ t ++ w2). split; [by rewrite <- !app_assoc|by constructor].
Qed.

Lemma parse_members_step d l ms r :
  parse_members (S fuel) d l = Some (ms, r) → ∃ b, l = b ++ "}"%char :: r ∧ members_text d b ms.
Proof.
  cbn [parse_members]. destruct (skip_ws_spec l) as (w1 & El & Hw1).
  destruct (skip_ws l) as [|c l1]; [done|]. destruct (Ascii.eqb_spec c quote) as [->|_]; [|done].
  destruct (scan_string l1) as [[k l2]|] eqn:Ek; cbn; [|done].
  apply scan_string_sound in Ek as [-> Hk]. destruct (skip_ws_spec l2) as (w2 & El2 & Hw2).
  destruct (skip_ws l2) as [|c l3]; [done|]. destruct (Ascii.eqb_spec c ":"%char) as [->|_]; [|done].
  destruct (skip_ws_spec l3) as (w3 & El3 & Hw3).
  destruct (parse_value fuel _ _) as [[v r1]|] eqn:Ev; cbn; [|done].
  apply (value_sound _ IH) in Ev as (t & Et & Ht). rewrite Et, take_app_minus.
  rewrite Et in El3. subst l3 l2. destruct (skip_ws_spec r1) as (w4 & Er & Hw4).
  destruct (skip_ws r1) as [|c r2]; [done|]. subst r1 l.
  destruct (Ascii.eqb_spec c ","%char) as [->|_].
  - destruct (parse_members fuel _ _) as [[ms' r']|] eqn:Ev; intros [= <- <-].
    apply (members_sound _ IH) in Ev as (b & -> & Hb).
    exists (w1 ++ quote :: k ++ quote :: w2 ++ ":"%char :: w3 ++ t ++ w4 ++ ","%char :: b).
    split; [|by constructor]. repeat (rewrite <- app_assoc; cbn [app]). done.
  - destruct (Ascii.eqb_spec c "}"%char) as [->|_]; [|done]. intros [= <- <-].
    exists (w1 ++ quote :: k ++ quote :: w2 ++ ":"%char :: w3 ++ t ++ w4).
    split; [|by constructor]. repeat (rewrite <- app_assoc; cbn [app]). done.
Qed.
End Sound.

Lemma parse_sound fuel : parser_sound fuel.
Proof.
  induction fuel as [|fuel IH]; [by constructor|].
  constructor; [by apply parse_value_step|by apply parse_elements_step|by apply parse_members_step].
Qed.

(** ** Every text of the grammar is read *)

Lemma value_head d t v : value_text d t v → ∃ c t', t = c :: t' ∧ starts c = true.
Proof.
  destruct 1 as [? ? ? Hs| | | |]; try (by repeat eexists).
  destruct (scalar_head _ _ Hs) as (c & t' & -> & Hc & _). eauto.
Qed.

Lemma starts_nospace c : starts c = true → is_space c = false.
Proof. unfold starts. intros H. by bool_hyps. Qed.

Lemma starts_other c x :
  starts c = true → x ∈ ["]"; "}"; ","; ":"]%char → Ascii.eqb c x = false.
Proof.
  unfold starts. intros H Hx. bool_hyps. destruct (Ascii.eqb c x) eqn:E; [|done].
  rewrite <- not_true_iff_false in H0. destruct H0. apply existsb_exists. exists x.
  by rewrite <- list_elem_of_In.
Qed.

Lemma skip_ws_value w d t v r : white w → value_text d t v → skip_ws (w ++ t ++ r) = t ++ r.
Proof.
  intros Hw Ht. rewrite skip_ws_blank by done. destruct (value_head d t v Ht) as (c & t' & -> & Hc).
  apply skip_ws_id. by apply starts_nospace.
Qed.

Lemma skip_ws_char w c r : white w → is_space c = false → skip_ws (w ++ c :: r) = c :: r.
Proof. intros Hw Hc. rewrite skip_ws_blank by done. by apply skip_ws_id. Qed.

(** The elements of an array, and the members of an object, begin with a byte
    that is not a closing bracket. *)
Lemma elements_head d b vs :
  elements_text d b vs → ∃ w c b', b = w ++ c :: b' ∧ white w ∧ starts c = true.
Proof.
  destruct 1 as [d w1 t w2 v Hw1 Ht Hw2|d w1 t w2 v b vs Hw1 Ht Hw2 Hb];
    destruct (value_head d t v Ht) as (c & t' & -> & Hc); exists w1, c; eauto.
Qed.

Lemma members_head d b ms :
  members_text d b ms → ∃ w c b', b = w ++ c :: b' ∧ white w ∧ starts c = true.
Proof. destruct 1; do 3 eexists; eauto. Qed.

Lemma parse_elements_ws fuel d l : parse_elements fuel d (skip_ws l) = parse_elements fuel d l.
Proof. destruct fuel; [done|]. cbn [parse_elements]. by rewrite skip_ws_idem. Qed.

Lemma parse_members_ws fuel d l : parse_members fuel d (skip_ws l) = parse_members fuel d l.
Proof. destruct fuel; [done|]. cbn [parse_members]. by rewrite skip_ws_idem. Qed.

(** Past white space, what stands before a closing bracket begins with another
    byte. *)
Lemma skip_ws_starts w c b l :
  white w → starts c = true → skip_ws ((w ++ c :: b) ++ l) = c :: b ++ l.
Proof.
  intros Hw Hc. rewrite <- app_assoc. cbn [app]. by apply skip_ws_char, starts_nospace.
Qed.

(** What enough fuel must give. *)
Definition value_read (d : Z) (t : list ascii) (v : JValue) : Prop :=
  ∀ fuel r, (length t ≤ fuel)%nat → stop r → parse_value fuel d (t ++ r) = Some (v, r).
Definition elements_read (d : Z) (b : list ascii) (vs : list JValue) : Prop :=
  ∀ fuel r, (length b < fuel)%nat → parse_elements fuel d (b ++ "]"%char :: r) = Some (vs, r).
Definition members_read (d : Z) (b : list ascii) (ms : list (string * (list ascii * JValue))) : Prop :=
  ∀ fuel r, (length b < fuel)%nat → parse_members fuel d (b ++ "}"%char :: r) = Some (ms, r).

Lemma scalar_read d t v : scalar_text t v → value_read d t v.
Proof.
  intros Ht fuel r Hf Hr. pose proof (parse_scalar_complete t v r Ht Hr) as Hp.
  destruct (scalar_head t v Ht) as (c & t' & -> & _ & Ha & Ho).
  destruct fuel as [|fuel]; cbn in Hf; [lia|]. cbn [app parse_value] in *.
  by rewrite (proj2 (Ascii.eqb_neq c _) Ha), (proj2 (Ascii.eqb_neq c _) Ho).
Qed.

Lemma empty_array_read d w :
  0 < d → white w → value_read d ("["%char :: w ++ ["]"%char]) (JArray []).
Proof.
  intros Hd Hw [|fuel] r Hf Hr; cbn in Hf; [lia|]. cbn [app parse_value]. rewrite Ascii.eqb_refl.
  rewrite (proj2 (Z.leb_gt _ _)) by lia. rewrite <- app_assoc. cbn [app].
  by rewrite skip_ws_char.
Qed.

Lemma empty_object_read d w :
  0 < d → white w → value_read d ("{"%char :: w ++ ["}"%char]) (JObject []).
Proof.
  intros Hd Hw [|fuel] r Hf Hr; cbn in Hf; [lia|]. cbn [app parse_value].
  rewrite (proj2 (Z.leb_gt _ _)) by lia. rewrite <- app_assoc. cbn [app].
  by rewrite skip_ws_char.
Qed.

Lemma array_read d b vs :
  0 < d → elements_text (d - 1) b vs → elements_read (d - 1) b vs →
  value_read d ("["%char :: b ++ ["]"%char]) (JArray vs).
Proof.
  intros Hd Hb IH [|fuel] r Hf Hr; cbn in Hf; [lia|]. rewrite length_app in Hf. cbn in Hf.
  cbn [app parse_value]. rewrite Ascii.eqb_refl, (proj2 (Z.leb_gt _ _)) by lia.
  rewrite <- app_assoc. cbn [app]. specialize (IH fuel r ltac:(lia)).
  rewrite <- parse_elements_ws in IH. destruct (elements_head _ _ _ Hb) as (w & c & b' & -> & Hw & Hc).
  rewrite skip_ws_starts in * by done. rewrite (starts_other c) by (done || set_solver).
  by rewrite IH.
Qed.

Lemma object_read d b ms :
  0 < d → members_text (d - 1) b ms → members_read (d - 1) b ms →
  value_read d ("{"%char :: b ++ ["}"%char]) (JObject ms).
Proof.
  intros Hd Hb IH [|fuel] r Hf Hr; cbn in Hf; [lia|]. rewrite length_app in Hf. cbn in Hf.
  cbn [app parse_value]. rewrite Ascii.eqb_refl, (proj2 (Z.leb_gt _ _)) by lia.
  rewrite <- app_assoc. cbn [app]. specialize (IH fuel r ltac:(lia)).
  rewrite <- parse_members_ws in IH. destruct (members_head _ _ _ Hb) as (w & c & b' & -> & Hw & Hc).
  rewrite skip_ws_starts in * by done. rewrite (starts_other c "}") by (done || set_solver).
  rewrite IH. done.
Qed.

Lemma elements_last_read d w1 t w2 v :
  white w1 → value_text d t v → value_read d t v → white w2 →
  elements_read d (w1 ++ t ++ w2) [v].
Proof.
  intros Hw1 Ht IH Hw2 [|fuel] r Hf; rewrite !length_app in Hf; [lia|]. cbn [parse_elements].
  rewrite <- !app_assoc, (skip_ws_value w1 d t v) by done.
  rewrite IH by (lia || by apply stop_blank). cbn. by rewrite skip_ws_char.
Qed.

Lemma elements_cons_read d w1 t w2 v b vs :
  white w1 → value_text d t v → value_read d t v → white w2 → elements_read d b vs →
  elements_read d (w1 ++ t ++ w2 ++ ","%char :: b) (v :: vs).
Proof.
  intros Hw1 Ht IH Hw2 IHb [|fuel] r Hf; rewrite !length_app in Hf; cbn in Hf; [lia|].
  cbn [parse_elements]. repeat (rewrite <- !app_assoc; cbn [app]).
  rewrite (skip_ws_value w1 d t v) by done.
  rewrite IH by (lia || by apply stop_blank). cbn. rewrite skip_ws_char by done.
  rewrite Ascii.eqb_refl, IHb by lia. done.
Qed.

(** A member up to the end of its value. *)
Lemma member_read fuel d w1 k w2 w3 t v l :
  white w1 → string_text k → white w2 → white w3 → value_text d t v →
  (length t ≤ fuel)%nat → stop l → value_read d t v →
  parse_members (S fuel) d (w1 ++ quote :: k ++ quote :: w2 ++ ":"%char :: w3 ++ t ++ l) =
    match skip_ws l with
    | c :: r =>
      if Ascii.eqb c "," then '(ms, r) ← parse_members fuel d r; Some ((unquote k, (t, v)) :: ms, r)
      else if Ascii.eqb c "}" then Some ([(unquote k, (t, v))], r)
      else None
    | [] => None
    end.
Proof.
  intros Hw1 Hk Hw2 Hw3 Ht Hf Hl IH. cbn [parse_members]. rewrite skip_ws_char by done.
  rewrite Ascii.eqb_refl, scan_string_complete by done. cbn. rewrite skip_ws_char by done.
  rewrite Ascii.eqb_refl, (skip_ws_value w3 d t v) by done.
  rewrite IH by done. cbn. by rewrite take_app_minus.
Qed.

Lemma members_last_read d w1 k w2 w3 t w4 v :
  white w1 → string_text k → white w2 → white w3 → value_text d t v → value_read d t v → white w4 →
  members_read d (w1 ++ quote :: k ++ quote :: w2 ++ ":"%char :: w3 ++ t ++ w4)
    [(unquote k, (t, v))].
Proof.
  intros Hw1 Hk Hw2 Hw3 Ht IH Hw4 [|fuel] r Hf; [lia|].
  repeat (rewrite length_app in Hf; cbn in Hf). repeat (rewrite <- app_assoc; cbn [app]).
  rewrite (member_read _ _ _ _ _ _ _ v) by (done || lia || by apply stop_blank). by rewrite skip_ws_char.
Qed.

Lemma members_cons_read d w1 k w2 w3 t w4 v b ms :
  white w1 → string_text k → white w2 → white w3 → value_text d t v → value_read d t v → white w4 →
  members_read d b ms →
  members_read d (w1 ++ quote :: k ++ quote :: w2 ++ ":"%char :: w3 ++ t ++ w4 ++ ","%char :: b)
    ((unquote k, (t, v)) :: ms).
Proof.
  intros Hw1 Hk Hw2 Hw3 Ht IH Hw4 IHb [|fuel] r Hf; [lia|].
  repeat (rewrite length_app in Hf; cbn in Hf). repeat (rewrite <- app_assoc; cbn [app]).
  rewrite (member_read _ _ _ _ _ _ _ v) by (done || lia || by apply stop_blank). rewrite skip_ws_char by done.
  rewrite Ascii.eqb_refl, IHb by lia. done.
Qed.

Lemma parse_complete :
  (∀ d t v, value_text d t v → value_read d t v) ∧
  (∀ d b vs, elements_text d b vs → elements_read d b vs) ∧
  (∀ d b ms, members_text d b ms → members_read d b ms).
Proof.
  apply (text_mutind value_read elements_read members_read); eauto using scalar_read, empty_array_read, empty_object_read, array_read,
    object_read, elements_last_read, elements_cons_read, members_last_read, members_cons_read.
Qed.

Lemma value_complete d t v : value_text d t v → value_read d t v.
Proof. apply parse_complete. Qed.

(** ** The two ways of reading a text *)

(** [json_whole] accepts the texts of the grammar, with white space around them,
    and no others. *)
Lemma json_whole_spec s v :
  json_whole s = Some v ↔
  ∃ w1 t w2, bytes s = w1 ++ t ++ w2 ∧ white w1 ∧ white w2 ∧ value_text maxNestingDepth t v.
Proof.
  unfold json_whole. destruct (skip_ws_spec (bytes s)) as (w & Es & Hw).
  split.
  - destruct (parse_value _ _ _) as [[v' r]|] eqn:Ev; [|done].
    destruct (skip_ws r) eqn:Er; [|done]. intros [= ->].
    apply (value_sound _ (parse_sound _)) in Ev as (t & Et & Ht). exists w, t, r. rewrite Es at 1.
    rewrite Et. split_and!; try done. destruct (skip_ws_spec r) as (w2 & E2 & Hw2).
    rewrite Er, app_nil_r in E2. by subst.
  - intros (w1 & t & w2 & E & Hw1 & Hw2 & Ht). rewrite E, (skip_ws_value w1 _ t v) by done.
    rewrite (value_complete _ _ _ Ht) by (rewrite ?length_app; lia || by rewrite <- (app_nil_r w2); apply stop_blank).
    by rewrite blank_nil.
Qed.

(** [json_first] reads a value that something may follow. *)
Lemma json_first_sound s v :
  json_first s = Some v →
  ∃ w t r, bytes s = w ++ t ++ r ∧ white w ∧ value_text maxNestingDepth t v.
Proof.
  unfold json_first. destruct (skip_ws_spec (bytes s)) as (w & Es & Hw).
  destruct (parse_value _ _ _) as [[v' r]|] eqn:Ev; cbn; [|done]. intros [= ->].
  apply (value_sound _ (parse_sound _)) in Ev as (t & Et & Ht). exists w, t, r. rewrite Es at 1.
  by rewrite Et.
Qed.

Lemma json_first_complete s w t r v :
  bytes s = w ++ t ++ r → white w → value_text maxNestingDepth t v → stop r →
  json_first s = Some v.
Proof.
  intros E Hw Ht Hr. unfold json_first. rewrite E, (skip_ws_value w _ t v) by done.
  by rewrite (value_complete _ _ _ Ht) by (rewrite ?length_app; lia || done).
Qed.

(** ** Fuel *)

(** A result stays with any fuel that covers the bytes it consumed. *)
Record parser_fuel (fuel : nat) : Prop := {
  value_fuel d l v r f : parse_value fuel d l = Some (v, r) → (length l ≤ f + length r)%nat →
    parse_value f d l = Some (v, r);
  elements_fuel d l vs r f :
    parse_elements fuel d l = Some (vs, r) → (length l ≤ f + length r)%nat →
    parse_elements f d l = Some (vs, r);
  members_fuel d l ms r f :
    parse_members fuel d l = Some (ms, r) → (length l ≤ f + length r)%nat →
    parse_members f d l = Some (ms, r);
}.

Lemma skip_ws_length l : (length (skip_ws l) ≤ length l)%nat.
Proof. destruct (skip_ws_spec l) as (w & E & _). rewrite E at 2. rewrite length_app. lia. Qed.

Lemma value_shorter fuel d l v r : parse_value fuel d l = Some (v, r) → (length r < length l)%nat.
Proof.
  intros (t & -> & Ht)%(value_sound _ (parse_sound _)).
  destruct (value_head d t v Ht) as (c & t' & -> & _). rewrite length_app. cbn. lia.
Qed.

Lemma elements_shorter fuel d l vs r :
  parse_elements fuel d l = Some (vs, r) → (length r < length l)%nat.
Proof. intros (b & -> & _)%(elements_sound _ (parse_sound _)). rewrite length_app. cbn. lia. Qed.

Lemma members_shorter fuel d l ms r :
  parse_members fuel d l = Some (ms, r) → (length r < length l)%nat.
Proof. intros (b & -> & _)%(members_sound _ (parse_sound _)). rewrite length_app. cbn. lia. Qed.

Lemma scan_string_shorter l k r : scan_string l = Some (k, r) → (length r < length l)%nat.
Proof. intros [-> _]%scan_string_sound. rewrite length_app. cbn. lia. Qed.

Section Fuel.
Context (fuel : nat) (IH : parser_fuel fuel).

Lemma value_fuel_step d l v r f :
  parse_value (S fuel) d l = Some (v, r) → (length l ≤ f + length r)%nat →
  parse_value f d l = Some (v, r).
Proof.
  intros Hp Hf. pose proof (value_shorter _ _ _ _ _ Hp). destruct f as [|f]; [lia|].
  destruct l as [|c l]; [done|]. cbn [parse_value] in *. cbn in Hf.
  pose proof (skip_ws_length l). destruct (Ascii.eqb c "[").
  { destruct (d <=? 0); [done|]. destruct (skip_ws l) as [|c1 l1]; [done|].
    destruct (Ascii.eqb c1 "]"); [done|].
    destruct (parse_elements fuel _ _) as [[vs r']|] eqn:E; [|done]. cbn in *. simplify_eq.
    by rewrite (elements_fuel _ IH _ _ _ _ f E) by (cbn; lia). }
  destruct (Ascii.eqb c "{"); [|done].
  destruct (d <=? 0); [done|]. destruct (skip_ws l) as [|c1 l1]; [done|].
  destruct (Ascii.eqb c1 "}"); [done|].
  destruct (parse_members fuel _ _) as [[vs r']|] eqn:E; [|done]. cbn in *. simplify_eq.
  by rewrite (members_fuel _ IH _ _ _ _ f E) by (cbn; lia).
Qed.

Lemma elements_fuel_step d l vs r f :
  parse_elements (S fuel) d l = Some (vs, r) → (length l ≤ f + length r)%nat →
  parse_elements f d l = Some (vs, r).
Proof.
  intros Hp Hf. pose proof (elements_shorter _ _ _ _ _ Hp). destruct f as [|f]; [lia|].
  cbn [parse_elements] in *. pose proof (skip_ws_length l).
  destruct (parse_value fuel _ _) as [[v r1]|] eqn:Ev; [|done]. cbn in Hp.
  pose proof (skip_ws_length r1). destruct (skip_ws r1) as [|c r2] eqn:Er; [done|]. cbn in *.
  destruct (Ascii.eqb c ",") eqn:Ec.
  - destruct (parse_elements fuel _ _) as [[vs' r']|] eqn:E; [|done]. cbn in *. simplify_eq.
    pose proof (elements_shorter _ _ _ _ _ E).
    rewrite (value_fuel _ IH _ _ _ _ f Ev) by lia. cbn. rewrite Er, Ec.
    pose proof (value_shorter _ _ _ _ _ Ev).
    by rewrite (elements_fuel _ IH _ _ _ _ f E) by lia.
  - destruct (Ascii.eqb c "]") eqn:Ec'; [|done]. simplify_eq.
    rewrite (value_fuel _ IH _ _ _ _ f Ev) by lia. cbn. by rewrite Er, Ec, Ec'.
Qed.

Lemma members_fuel_step d l ms r f :
  parse_members (S fuel) d l = Some (ms, r) → (length l ≤ f + length r)%nat →
  parse_members f d l = Some (ms, r).
Proof.
  intros Hp Hf. pose proof (members_shorter _ _ _ _ _ Hp). destruct f as [|f]; [lia|].
  cbn [parse_members] in *. pose proof (skip_ws_length l).
  destruct (skip_ws l) as [|c l1]; [done|].
  destruct (Ascii.eqb c quote); [|done].
  destruct (scan_string l1) as [[k l2]|] eqn:Ek; [|done]. cbn in *.
  pose proof (scan_string_shorter _ _ _ Ek).
  pose proof (skip_ws_length l2). destruct (skip_ws l2) as [|c3 l3]; [done|]. cbn in *.
  destruct (Ascii.eqb c3 ":"); [|done]. pose proof (skip_ws_length l3).
  destruct (parse_value fuel _ _) as [[v r1]|] eqn:Ev; [|done]. cbn in Hp.
  pose proof (skip_ws_length r1). destruct (skip_ws r1) as [|c4 r2] eqn:Er; [done|]. cbn in *.
  destruct (Ascii.eqb c4 ",") eqn:Ec.
  - destruct (parse_members fuel _ _) as [[vs' r']|] eqn:E; [|done]. cbn in *. simplify_eq.
    pose proof (members_shorter _ _ _ _ _ E).
    rewrite (value_fuel _ IH _ _ _ _ f Ev) by lia. cbn. rewrite Er, Ec.
    pose proof (value_shorter _ _ _ _ _ Ev).
    by rewrite (members_fuel _ IH _ _ _ _ f E) by lia.
  - destruct (Ascii.eqb c4 "}") eqn:Ec'; [|done]. simplify_eq.
    rewrite (value_fuel _ IH _ _ _ _ f Ev) by lia. cbn. by rewrite Er, Ec, Ec'.
Qed.
End Fuel.

Lemma parse_fuel fuel : parser_fuel fuel.
Proof.
  induction fuel as [|fuel IH]; [by constructor|].
  constructor; [by apply value_fuel_step|by apply elements_fuel_step|by apply members_fuel_step].
Qed.

(** More fuel than the length of the text changes nothing. *)
Lemma parse_value_enough fuel d l :
  (length l ≤ fuel)%nat → parse_value fuel d l = parse_value (length l) d l.
Proof.
  intros Hf. destruct (parse_value (length l) d l) as [[v r]|] eqn:E.
  - apply (value_fuel _ (parse_fuel _) _ _ _ _ _ E). lia.
  - destruct (parse_value fuel d l) as [[v r]|] eqn:E'; [|done].
    apply (value_fuel _ (parse_fuel _) _ _ _ _ (length l)) in E'; [congruence|lia].
Qed.

(** What [json_first] reads is what any amount of fuel that succeeds reads. *)
Lemma json_first_fuel s fuel v r :
  parse_value fuel maxNestingDepth (skip_ws (bytes s)) = Some (v, r) → json_first s = Some v.
Proof.
  intros E. unfold json_first.
  by rewrite (value_fuel _ (parse_fuel _) _ _ _ _ (S (length (skip_ws (bytes s)))) E) by lia.
Qed.
