(* ===== verification/JsonString.v ===== *)
(** Strings in JSON: UTF-8 as a set of byte strings, the encoder's string
    literals, and that reading a literal gives back the string it was made of. *)
From S2P Require Import Prelude GoNum GoStrings Json JsonGrammar.

Local Open Scope Z_scope.

(** ** UTF-8 *)

Lemma in_range_spec lo hi b : reflect (lo ≤ b ≤ hi) (in_range lo hi b).
Proof. unfold in_range. apply iff_reflect. rewrite andb_true_iff, !Z.leb_le. done. Qed.

(** Decide every range test of the goal. *)
Ltac in_ranges :=
  repeat match goal with
  | |- context [in_range ?lo ?hi ?b] => destruct (in_range_spec lo hi b); try lia; cbn [andb orb]
  end.

(** A Unicode scalar value. *)
Definition rune_ok (r : Z) : Prop := 0 ≤ r ≤ 55295 ∨ 57344 ≤ r ≤ 1114111.

Definition encode_runes (rs : list Z) : list ascii := concat (encode_rune <$> rs).

Definition utf8 (l : list ascii) : Prop := ∃ rs, Forall rune_ok rs ∧ l = encode_runes rs.

Lemma utf8_app l k : utf8 l → utf8 k → utf8 (l ++ k).
Proof.
  intros (rs & Hr & ->) (rs' & Hr' & ->). exists (rs ++ rs'). split; [by apply Forall_app|].
  unfold encode_runes. by rewrite fmap_app, concat_app.
Qed.

Lemma utf8_nil : utf8 [].
Proof. by exists []. Qed.

Lemma utf8_rune r : rune_ok r → utf8 (encode_rune r).
Proof.
  intros Hr. exists [r]. split; [by constructor; [|constructor]|]. unfold encode_runes. cbn.
  by rewrite app_nil_r.
Qed.

(** Whatever is encoded, the bytes are UTF-8. *)
Lemma utf8_encode r : utf8 (encode_rune r).
Proof.
  destruct (decide (rune_ok r)) as [Hr|Hr]; [by apply utf8_rune|].
  replace (encode_rune r) with (encode_rune RuneError).
  { apply utf8_rune. unfold rune_ok, RuneError. lia. }
  unfold encode_rune, rune_ok, in_range in *. repeat case_match; bool_hyps; try lia; done.
Qed.

Lemma utf8_ascii c : byte_Z c < 128 → utf8 [c].
Proof.
  intros Hc. pose proof (byte_Z_bounds c).
  replace [c] with (encode_rune (byte_Z c)); [apply utf8_encode|].
  unfold encode_rune, in_range. rewrite (proj2 (Z.leb_le 0 _)), (proj2 (Z.leb_le _ 127)) by lia. cbn.
  by rewrite Z_byte_Z.
Qed.

(** The digits of a rune in base 64. *)
Lemma base64_digits r :
  0 ≤ r → ∃ a b c d, r = a * 262144 + b * 4096 + c * 64 + d ∧
    0 ≤ a ∧ 0 ≤ b < 64 ∧ 0 ≤ c < 64 ∧ 0 ≤ d < 64.
Proof.
  intros Hr. exists (r / 262144), ((r / 4096) mod 64), ((r / 64) mod 64), (r mod 64).
  Z.div_mod_to_equations; lia.
Qed.

Lemma decode_encode_rune r l :
  rune_ok r → decode_rune (encode_rune r ++ l) = (r, length (encode_rune r)).
Proof.
  unfold rune_ok. intros Hr. unfold encode_rune.
  destruct (base64_digits r) as (a & b & c & d & E & Ha & Hb & Hc & Hd); [lia|].
  assert (r mod 64 = d) as -> by (Z.div_mod_to_equations; lia).
  assert ((r / 64) mod 64 = c) as -> by (Z.div_mod_to_equations; lia).
  assert ((r / 4096) mod 64 = b) as -> by (Z.div_mod_to_equations; lia).
  assert (r / 64 = a * 4096 + b * 64 + c) as -> by (Z.div_mod_to_equations; lia).
  assert (r / 4096 = a * 64 + b) as -> by (Z.div_mod_to_equations; lia).
  assert (r / 262144 = a) as -> by (Z.div_mod_to_equations; lia).
  in_ranges; unfold decode_rune, RuneSelf; cbn [map app length]; rewrite !byte_Z_byte by lia.
  - by rewrite (proj2 (Z.ltb_lt _ _)) by lia.
  - rewrite (proj2 (Z.ltb_ge _ _)) by lia. in_ranges.
    f_equal. Z.div_mod_to_equations; lia.
  - rewrite (proj2 (Z.ltb_ge _ _)) by lia. in_ranges;
      destruct (Z.eqb_spec (224 + (a * 64 + b)) 224), (Z.eqb_spec (224 + (a * 64 + b)) 237); in_ranges;
      f_equal; Z.div_mod_to_equations; lia.
  - rewrite (proj2 (Z.ltb_ge _ _)) by lia. in_ranges;
      destruct (Z.eqb_spec (224 + (a * 64 + b)) 224), (Z.eqb_spec (224 + (a * 64 + b)) 237); in_ranges;
      f_equal; Z.div_mod_to_equations; lia.
  - rewrite (proj2 (Z.ltb_ge _ _)) by lia. in_ranges;
      destruct (Z.eqb_spec (240 + a) 240), (Z.eqb_spec (240 + a) 244); in_ranges;
      f_equal; Z.div_mod_to_equations; lia.
Qed.

(** ** Reading a literal *)

(** What [unquote] yields is UTF-8, whatever it is given. *)
Lemma unescape_ascii e x : unescape e = Some x → byte_Z x < 128.
Proof.
  unfold unescape. cbn [existsb].
  repeat match goal with |- context [Ascii.eqb e ?y] => destruct (Ascii.eqb_spec e y) as [->|] end;
    cbn; intros; simplify_eq; by vm_compute.
Qed.

Lemma unquote_go_utf8 fuel l : utf8 (unquote_go fuel l).
Proof.
  revert l. induction fuel as [|fuel IH]; intros l; [apply utf8_nil|].
  destruct l as [|c l]; [apply utf8_nil|]. cbn [unquote_go].
  destruct (Ascii.eqb c backslash).
  - destruct l as [|e l]; [apply utf8_nil|]. destruct (Ascii.eqb e "u").
    + repeat case_match; apply utf8_app; auto using utf8_encode.
    + destruct (unescape e) as [x|] eqn:E; [|apply utf8_nil].
      change (x :: ?k) with ([x] ++ k). apply utf8_app; [|apply IH].
      by apply utf8_ascii, (unescape_ascii e).
  - destruct (decode_rune (c :: l)) as [r w]. apply utf8_app; auto using utf8_encode.
Qed.

Lemma unquote_utf8 k : utf8 (bytes (unquote k)).
Proof. unfold unquote. rewrite bytes_of_bytes. apply unquote_go_utf8. Qed.

(** ** Writing a literal *)

Definition hex (d : Z) : ascii := Z_byte (if d <? 10 then 48 + d else 87 + d).

(** [htmlSafeSet]. *)
Definition html_safe (b : Z) : bool :=
  (32 <=? b) && negb (existsb (Z.eqb b) [34; 38; 60; 62; 92]).

(** A byte below [RuneSelf]. *)
Definition append_ascii (c : ascii) : list ascii :=
  let b := byte_Z c in
  if html_safe b then [c]
  else if (b =? 92) || (b =? 34) then [backslash; c]
  else if b =? 8 then [backslash; "b"%char]
  else if b =? 12 then [backslash; "f"%char]
  else if b =? 10 then [backslash; "n"%char]
  else if b =? 13 then [backslash; "r"%char]
  else if b =? 9 then [backslash; "t"%char]
  else [backslash; "u"; "0"; "0"; hex (b / 16); hex (b mod 16)]%char.

(** [appendString] between its quotes, with HTML escaped, as [Marshal] and
    [Encoder] do; every step consumes a byte. *)
Fixpoint append_go (fuel : nat) (l : list ascii) : list ascii :=
  match fuel, l with
  | S fuel, c :: l' =>
    if byte_Z c <? RuneSelf then append_ascii c ++ append_go fuel l'
    else
      let '(r, w) := decode_rune l in
      (if (r =? RuneError) && (w =? 1)%nat then backslash :: bytes "ufffd"
       else if (r =? 8232) || (r =? 8233) then backslash :: bytes "u202" ++ [hex (r mod 16)]
       else take w l) ++ append_go fuel (drop w l)
  | _, _ => []
  end.

(** The text between the quotes of a literal. *)
Definition appendString (s : string) : list ascii := append_go (length (bytes s)) (bytes s).

(** On UTF-8, rune by rune. *)
Definition append_rune (r : Z) : list ascii :=
  if in_range 0 127 r then append_ascii (Z_byte r)
  else if (r =? 8232) || (r =? 8233) then backslash :: bytes "u202" ++ [hex (r mod 16)]
  else encode_rune r.

Lemma encode_rune_length r : rune_ok r →
  (r < 128 ∧ encode_rune r = [Z_byte r]) ∨
  (128 ≤ r ∧ (2 ≤ length (encode_rune r))%nat ∧ Forall (λ c, 128 ≤ byte_Z c) (encode_rune r)).
Proof.
  unfold rune_ok. intros Hr. unfold encode_rune. in_ranges; [by left; split; [lia|]|right..].
  all: split_and!; [lia|cbn; lia|].
  all: cbn [map]; repeat constructor; rewrite byte_Z_byte by (Z.div_mod_to_equations; lia);
    Z.div_mod_to_equations; lia.
Qed.

Lemma encode_rune_cons r : rune_ok r → ∃ c k, encode_rune r = c :: k ∧ (r < 128 → k = [] ∧ c = Z_byte r) ∧
  (128 ≤ r → 128 ≤ byte_Z c ∧ Forall (λ c, 128 ≤ byte_Z c) k).
Proof.
  intros Hr. destruct (encode_rune_length r Hr) as [[Hlt ->]|(Hge & Hl & Hf)].
  - exists (Z_byte r), []. split_and!; [done|done|lia].
  - destruct (encode_rune r) as [|c k]; cbn in Hl; [lia|]. apply Forall_cons in Hf as [Hc Hk].
    exists c, k. split_and!; [done|lia|done].
Qed.

Lemma append_go_rune fuel r l :
  rune_ok r → append_go (S fuel) (encode_rune r ++ l) = append_rune r ++ append_go fuel l.
Proof.
  intros Hr. destruct (encode_rune_length r Hr) as [[Hlt E]|(Hge & Hl & Hf)].
  - assert (0 ≤ r) by (unfold rune_ok in Hr; lia). rewrite E. cbn [app append_go].
    rewrite byte_Z_byte, (proj2 (Z.ltb_lt _ _)) by (unfold RuneSelf; lia).
    unfold append_rune. in_ranges. done.
  - destruct (encode_rune_cons r Hr) as (c & k & E & _ & Hc). destruct (Hc Hge) as [Hc' _].
    pose proof (decode_encode_rune r l Hr) as D. rewrite E in *. cbn [app append_go] in *.
    rewrite (proj2 (Z.ltb_ge _ _)) by (unfold RuneSelf; lia). rewrite D.
    replace (length (c :: k) =? 1)%nat with false by (symmetry; apply Nat.eqb_neq; lia).
    rewrite andb_false_r. change (c :: k ++ l) with ((c :: k) ++ l).
    rewrite take_app_length, drop_app_length. unfold append_rune. in_ranges. rewrite E.
    by destruct (_ || _).
Qed.

Lemma append_go_runes fuel rs :
  Forall rune_ok rs → (length rs ≤ fuel)%nat →
  append_go fuel (encode_runes rs) = concat (append_rune <$> rs).
Proof.
  intros Hr. revert fuel. induction Hr as [|r rs Hr _ IH]; intros fuel Hf.
  - by destruct fuel.
  - destruct fuel as [|fuel]; cbn in Hf; [lia|].
    change (encode_runes (r :: rs)) with (encode_rune r ++ encode_runes rs).
    rewrite append_go_rune by done. cbn. f_equal. apply IH. lia.
Qed.

Lemma encode_runes_length rs : Forall rune_ok rs → (length rs ≤ length (encode_runes rs))%nat.
Proof.
  induction 1 as [|r rs Hr _ IH]; [done|].
  change (encode_runes (r :: rs)) with (encode_rune r ++ encode_runes rs). rewrite length_app.
  destruct (encode_rune_cons r Hr) as (c & k & -> & _). cbn. lia.
Qed.

Lemma appendString_runes s rs :
  Forall rune_ok rs → bytes s = encode_runes rs → appendString s = concat (append_rune <$> rs).
Proof.
  intros Hr E. unfold appendString. rewrite E. apply append_go_runes; [done|].
  by apply encode_runes_length.
Qed.

(** ** What is written is read back *)

(** The three forms a byte below [RuneSelf] is written in. *)
Inductive literal (c : ascii) : list ascii → Prop :=
| literal_plain : c ≠ quote → c ≠ backslash → 32 ≤ byte_Z c → literal c [c]
| literal_short e :
    Ascii.eqb e "u" = false → is_escape e = true → unescape e = Some c → literal c [backslash; e]
| literal_long h1 h2 h3 h4 :
    is_hex h1 && is_hex h2 && is_hex h3 && is_hex h4 = true →
    getu4 [backslash; "u"%char; h1; h2; h3; h4] = Some (byte_Z c) →
    literal c [backslash; "u"%char; h1; h2; h3; h4].

Definition is_literal (c : ascii) (l : list ascii) : bool :=
  match l with
  | [x] => Ascii.eqb x c && negb (Ascii.eqb c quote) && negb (Ascii.eqb c backslash) && (32 <=? byte_Z c)
  | [x; e] =>
    Ascii.eqb x backslash && negb (Ascii.eqb e "u") && is_escape e &&
    bool_decide (unescape e = Some c)
  | [x; u; h1; h2; h3; h4] =>
    Ascii.eqb x backslash && Ascii.eqb u "u" &&
    (is_hex h1 && is_hex h2 && is_hex h3 && is_hex h4) &&
    bool_decide (getu4 [x; u; h1; h2; h3; h4] = Some (byte_Z c))
  | _ => false
  end.

Lemma is_literal_sound c l : is_literal c l = true → literal c l.
Proof.
  destruct l as [|x [|e [|h1 [|h2 [|h3 [|h4 [|]]]]]]]; cbn -[is_hex getu4]; try done; intros H.
  - apply andb_true_iff in H as [[[H1 H2]%andb_true_iff H3]%andb_true_iff H4].
    apply Ascii.eqb_eq in H1 as ->. apply negb_true_iff, Ascii.eqb_neq in H2, H3.
    constructor; try done. lia.
  - apply andb_true_iff in H as [[[H1 H2]%andb_true_iff H3]%andb_true_iff H4].
    apply Ascii.eqb_eq in H1 as ->. apply negb_true_iff in H2. apply bool_decide_eq_true in H4.
    by constructor.
  - apply andb_true_iff in H as [[[H1 H2]%andb_true_iff H3]%andb_true_iff H4].
    apply Ascii.eqb_eq in H1 as ->. apply Ascii.eqb_eq in H2 as ->. apply bool_decide_eq_true in H4.
    by constructor.
Qed.

Lemma append_ascii_literal c : byte_Z c < 128 → literal c (append_ascii c).
Proof.
  intros Hc. apply is_literal_sound.
  pose proof (all_ascii (λ c, implb (byte_Z c <? 128) (is_literal c (append_ascii c)))) as H.
  specialize (H ltac:(vm_compute; reflexivity) c). cbn beta in H.
  by rewrite (proj2 (Z.ltb_lt _ _) Hc) in H.
Qed.

Lemma encode_rune_byte c : byte_Z c < 128 → encode_rune (byte_Z c) = [c].
Proof.
  intros Hc. pose proof (byte_Z_bounds c). unfold encode_rune. in_ranges. cbn. by rewrite Z_byte_Z.
Qed.

Lemma append_ascii_read fuel c k :
  byte_Z c < 128 → unquote_go (S fuel) (append_ascii c ++ k) = c :: unquote_go fuel k.
Proof.
  intros Hc. destruct (append_ascii_literal c Hc) as [H1 H2 H3|e H1 H2 H3|h1 h2 h3 h4 _ Hu];
    cbn [app unquote_go].
  - rewrite (proj2 (Ascii.eqb_neq c _) H2), decode_rune_ascii by (unfold RuneSelf; lia).
    by rewrite encode_rune_byte.
  - by rewrite Ascii.eqb_refl, H1, H3.
  - rewrite !Ascii.eqb_refl.
    change (getu4 (backslash :: "u"%char :: h1 :: h2 :: h3 :: h4 :: k)) with
      (getu4 [backslash; "u"%char; h1; h2; h3; h4]).
    rewrite Hu. change (default RuneError (Some (byte_Z c))) with (byte_Z c).
    unfold is_surrogate. destruct (in_range_spec 55296 57343 (byte_Z c)); [lia|].
    by rewrite encode_rune_byte.
Qed.

Lemma append_rune_read fuel r k :
  rune_ok r → unquote_go (S fuel) (append_rune r ++ k) = encode_rune r ++ unquote_go fuel k.
Proof.
  intros Hr. unfold append_rune. destruct (in_range_spec 0 127 r) as [Hl|Hl].
  - rewrite append_ascii_read by (rewrite byte_Z_byte; lia). unfold encode_rune. by in_ranges.
  - assert (128 ≤ r) as Hge by (unfold rune_ok in Hr; lia).
    destruct (Z.eqb_spec r 8232) as [->|Ha]; [done|].
    destruct (Z.eqb_spec r 8233) as [->|Hb]; [done|]. cbn [orb].
    destruct (encode_rune_cons r Hr) as (c & k' & E & _ & Hc). destruct (Hc Hge) as [Hc' _].
    pose proof (decode_encode_rune r k Hr) as D. rewrite E in *. cbn [app unquote_go] in *.
    destruct (Ascii.eqb_spec c backslash) as [->|_]; [by vm_compute in Hc'|].
    rewrite D, E. change (c :: k' ++ k) with ((c :: k') ++ k). by rewrite drop_app_length.
Qed.

Lemma plain_text k l :
  Forall (λ c, 128 ≤ byte_Z c) k → string_text l → string_text (k ++ l).
Proof.
  induction 1 as [|c k Hc _ IH]; [done|]. intros Hl. cbn. constructor; [..|lia|auto].
  - intros ->. by vm_compute in Hc.
  - intros ->. by vm_compute in Hc.
Qed.

Lemma append_runes_read fuel rs :
  Forall rune_ok rs → (length rs ≤ fuel)%nat →
  unquote_go fuel (concat (append_rune <$> rs)) = encode_runes rs.
Proof.
  intros Hr. revert fuel. induction Hr as [|r rs Hr _ IH]; intros fuel Hf; [by destruct fuel|].
  destruct fuel as [|fuel]; cbn in Hf; [lia|]. cbn [fmap list_fmap concat].
  rewrite append_rune_read by done. change (encode_runes (r :: rs)) with (encode_rune r ++ encode_runes rs).
  f_equal. apply IH. lia.
Qed.

Lemma append_rune_length r : rune_ok r → (0 < length (append_rune r))%nat.
Proof.
  intros Hr. unfold append_rune. destruct (in_range_spec 0 127 r).
  - destruct (append_ascii_literal (Z_byte r)); [rewrite byte_Z_byte; lia|cbn; lia..].
  - destruct (_ || _); [cbn; lia|]. destruct (encode_rune_cons r Hr) as (c & k & -> & _). cbn. lia.
Qed.

(** A literal of UTF-8 reads as the string it was made of. *)
Lemma unquote_appendString s : utf8 (bytes s) → unquote (appendString s) = s.
Proof.
  intros (rs & Hr & E). unfold unquote. rewrite (appendString_runes s rs) by done.
  rewrite append_runes_read; [|done|].
  - by rewrite <- E, of_bytes_bytes.
  - clear E. induction Hr as [|r rs Hr _ IH]; [done|]. cbn. rewrite length_app.
    pose proof (append_rune_length r Hr). lia.
Qed.
