(* ===== verification/JsonEncode.v ===== *)
(** Encoding Go values as [encoding/json] does it: the tree of what a value
    prints, its text, and that the text is one of the grammar, read as the value
    one expects. *)
From S2P Require Import Prelude GoNum GoStrings Json JsonGrammar JsonString.

Local Open Scope Z_scope.

#[local] Set Warnings "-register-all".

(** ** Literals are well formed, even of strings that are not UTF-8 *)

Lemma decode_rune_wide c l r w :
  128 ≤ byte_Z c → decode_rune (c :: l) = (r, w) → w = 1%nat ∧ r = RuneError ∨
  Forall (λ c, 128 ≤ byte_Z c) (take w (c :: l)).
Proof.
  intros Hc. unfold decode_rune. cbn [map].
  rewrite (proj2 (Z.ltb_ge _ _)) by (unfold RuneSelf; lia).
  destruct l as [|c1 l]; cbn [map]; [intros [= <- <-]; by left|].
  destruct (in_range 194 223 (byte_Z c)).
  { destruct (in_range_spec 128 191 (byte_Z c1)); intros [= <- <-]; [right|by left].
    cbn [take]. repeat constructor; lia. }
  destruct l as [|c2 l]; cbn [map]; [intros [= <- <-]; by left|].
  destruct (in_range 224 239 (byte_Z c)).
  { destruct (in_range_spec (if byte_Z c =? 224 then 160 else 128)
      (if byte_Z c =? 237 then 159 else 191) (byte_Z c1)); [|intros [= <- <-]; by left].
    destruct (in_range_spec 128 191 (byte_Z c2)); intros [= <- <-]; [right|by left].
    cbn [take]. repeat constructor; try lia. repeat case_match; lia. }
  destruct l as [|c3 l]; cbn [map]; [intros [= <- <-]; by left|].
  destruct (in_range 240 244 (byte_Z c)); [|intros [= <- <-]; by left].
  destruct (in_range_spec (if byte_Z c =? 240 then 144 else 128)
    (if byte_Z c =? 244 then 143 else 191) (byte_Z c1)); [|intros [= <- <-]; by left].
  destruct (in_range_spec 128 191 (byte_Z c2)); [|intros [= <- <-]; by left].
  destruct (in_range_spec 128 191 (byte_Z c3)); intros [= <- <-]; [right|by left].
  cbn [take]. repeat constructor; try lia. repeat case_match; lia.
Qed.

Lemma literal_text c l k : literal c l → string_text k → string_text (l ++ k).
Proof. destruct 1; by constructor. Qed.

Lemma hex_low r : is_hex (hex (r mod 16)) = true.
Proof.
  pose proof (Z.mod_pos_bound r 16 ltac:(done)).
  assert (forallb (λ n, is_hex (hex (Z.of_nat n))) (seq 0 16) = true) as Ha by (by vm_compute).
  rewrite forallb_forall in Ha. specialize (Ha (Z.to_nat (r mod 16))).
  rewrite Z2Nat.id in Ha by lia. apply Ha, in_seq. lia.
Qed.

Lemma append_go_text fuel l : string_text (append_go fuel l).
Proof.
  revert l. induction fuel as [|fuel IH]; intros l; [constructor|].
  destruct l as [|c l]; [constructor|]. cbn [append_go].
  destruct (Z.ltb_spec (byte_Z c) RuneSelf) as [Hc|Hc]; unfold RuneSelf in Hc.
  { apply (literal_text c); [by apply append_ascii_literal|apply IH]. }
  destruct (decode_rune (c :: l)) as [r w] eqn:E.
  destruct ((r =? RuneError) && (w =? 1)%nat) eqn:E1; [apply string_unicode; [done|apply IH]|].
  destruct (_ || _); [apply string_unicode; [apply hex_low|apply IH]|].
  apply plain_text; [|apply IH].
  destruct (decode_rune_wide c l r w Hc E) as [[-> ->]|H]; [done|done].
Qed.

(** A literal is one of the grammar, and reads as the string it was made of. *)
Lemma appendString_text s : string_text (appendString s).
Proof. apply append_go_text. Qed.

(** ** Trees *)

(** What a Go value is to the encoder. *)
Inductive Out :=
| OString (s : string)
| OInt (z : Z)
| OBool (b : bool)
| OArray (l : list Out)
| OObject (l : list (string * Out)).

Section Out_ind.
Context (P : Out → Prop).
Context (Hs : ∀ s, P (OString s)) (Hz : ∀ z, P (OInt z)) (Hb : ∀ b, P (OBool b)).
Context (Ha : ∀ l, Forall P l → P (OArray l)) (Ho : ∀ l, Forall (λ m, P m.2) l → P (OObject l)).

Fixpoint Out_ind' (o : Out) : P o :=
  match o with
  | OString s => Hs s
  | OInt z => Hz z
  | OBool b => Hb b
  | OArray l => Ha l ((fix go l := match l return Forall P l with
                                   | [] => Forall_nil_2 _
                                   | o :: l => Forall_cons_2 _ _ _ (Out_ind' o) (go l)
                                   end) l)
  | OObject l => Ho l ((fix go l := match l return Forall (λ m, P m.2) l with
                                    | [] => Forall_nil_2 _
                                    | m :: l => Forall_cons_2 _ _ _ (Out_ind' m.2) (go l)
                                    end) l)
  end.
End Out_ind.

Fixpoint commas (l : list (list ascii)) : list ascii :=
  match l with
  | [] => []
  | [x] => x
  | x :: l => x ++ ","%char :: commas l
  end.

Definition print_string (s : string) : list ascii := quote :: appendString s ++ [quote].

Fixpoint print (o : Out) : list ascii :=
  match o with
  | OString s => print_string s
  | OInt z => Itoa_bytes z
  | OBool b => if b then json_true else json_false
  | OArray l => "["%char :: commas (map print l) ++ ["]"%char]
  | OObject l =>
    "{"%char :: commas (map (λ m, print_string m.1 ++ ":"%char :: print m.2) l) ++ ["}"%char]
  end.

(** What the text is read as. *)
Fixpoint value (o : Out) : JValue :=
  match o with
  | OString s => JString (unquote (appendString s))
  | OInt z => JNumber (Itoa_bytes z)
  | OBool b => JBool b
  | OArray l => JArray (map value l)
  | OObject l => JObject (map (λ m, (unquote (appendString m.1), (print m.2, value m.2))) l)
  end.

Fixpoint height (o : Out) : nat :=
  match o with
  | OArray l => S (max_list (map height l))
  | OObject l => S (max_list (map (λ m, height m.2) l))
  | _ => 0
  end.

Fixpoint ints_ok (o : Out) : Prop :=
  match o with
  | OInt z => int64 z
  | OArray l => foldr (λ o P, ints_ok o ∧ P) True l
  | OObject l => foldr (λ m P, ints_ok m.2 ∧ P) True l
  | _ => True
  end.

(** ** Numbers *)

Lemma digit_is_digit d : 0 ≤ d < 10 → is_digit (digit d) = true.
Proof.
  intros Hd. unfold is_digit, digit. rewrite byte_Z_byte by lia.
  destruct (in_range_spec 48 57 (48 + d)); [done|exfalso; lia].
Qed.

Lemma digits_text_digits fuel n : 0 ≤ n → (0 < fuel)%nat → digits_text (digits fuel n).
Proof.
  intros Hn Hf. split; [by apply digits_length|]. clear Hf. revert n Hn.
  induction fuel as [|fuel IH]; intros n Hn; cbn [digits]; [constructor|].
  destruct (Z.ltb_spec n 10); [repeat constructor; apply digit_is_digit; lia|].
  apply Forall_app. split; [apply IH; Z.div_mod_to_equations; lia|].
  repeat constructor. apply digit_is_digit. Z.div_mod_to_equations; lia.
Qed.

Lemma digits_head fuel n :
  0 < n < 10 ^ Z.of_nat fuel → head (digits fuel n) ≠ Some "0"%char ∧ digits fuel n ≠ [].
Proof.
  revert n. induction fuel as [|fuel IH]; intros n Hn; cbn [digits]; [cbn in Hn; lia|].
  destruct (Z.ltb_spec n 10) as [Hl|Hl].
  - split; [|done]. cbn. unfold digit. intros [= E].
    apply (f_equal byte_Z) in E. rewrite byte_Z_byte in E by lia.
    change (byte_Z "0"%char) with 48 in E. lia.
  - rewrite Nat2Z.inj_succ, Z.pow_succ_r in Hn by lia.
    destruct (IH (n / 10)) as [Hh Hne]; [Z.div_mod_to_equations; lia|].
    destruct (digits fuel (n / 10)) as [|c l]; [done|]. by split.
Qed.

Lemma digits_int n : 0 ≤ n ≤ max_uint64 → int_text (digits 20 n).
Proof.
  intros Hn. destruct (Z.eq_dec n 0) as [->|H0]; [by left|]. right.
  split; [apply digits_text_digits; lia|]. apply digits_head. unfold max_uint64 in Hn. lia.
Qed.

Lemma Itoa_number z : int64 z → number_text (Itoa_bytes z).
Proof.
  unfold int64, min_int64, max_int64. intros Hz. unfold Itoa_bytes.
  destruct (Z.ltb_spec z 0).
  - exists ["-"%char], (digits 20 (- z)), [], []. rewrite !app_nil_r.
    split_and!; [done|by right|apply digits_int; unfold max_uint64; lia|by left|by left].
  - exists [], (digits 20 z), [], []. rewrite !app_nil_r.
    split_and!; [done|by left|apply digits_int; unfold max_uint64; lia|by left|by left].
Qed.

(** ** The text of a tree is a text of the grammar *)

Definition printed (d : Z) (o : Out) : Prop := value_text d (print o) (value o).

Definition print_member (m : string * Out) : list ascii := print_string m.1 ++ ":"%char :: print m.2.
Definition member (m : string * Out) : string * (list ascii * JValue) :=
  (unquote (appendString m.1), (print m.2, value m.2)).

Lemma print_elements d o l :
  Forall (printed d) (o :: l) → elements_text d (commas (map print (o :: l))) (map value (o :: l)).
Proof.
  revert o. induction l as [|o' l IH]; intros o [Ho Hl]%Forall_cons; cbn [map commas].
  - pose proof (elements_last d [] (print o) [] (value o)) as H. rewrite app_nil_r in H. by apply H.
  - pose proof (elements_cons d [] (print o) [] (value o)) as H. apply H; try done. by apply IH.
Qed.

Lemma print_members d m l :
  Forall (λ m, printed d m.2) (m :: l) →
  members_text d (commas (map print_member (m :: l))) (map member (m :: l)).
Proof.
  assert (∀ m b, print_member m ++ b =
    [] ++ quote :: appendString m.1 ++ quote :: [] ++ ":"%char :: [] ++ print m.2 ++ [] ++ b) as E.
  { intros m' b. unfold print_member, print_string. repeat (rewrite <- app_assoc; cbn [app]). done. }
  revert m. induction l as [|m' l IH]; intros m [Hm Hl]%Forall_cons; cbn [map commas].
  - rewrite <- (app_nil_r (print_member m)), E.
    apply members_last; auto using appendString_text.
  - rewrite E. apply members_cons; auto using appendString_text. by apply (IH m').
Qed.

Lemma print_text o : ints_ok o → ∀ d, Z.of_nat (height o) ≤ d → printed d o.
Proof.
  induction o as [s|z|b|l IH|l IH] using Out_ind'; intros Hi d Hd; unfold printed; cbn [print value].
  - constructor. constructor. apply appendString_text.
  - constructor. constructor. by apply Itoa_number.
  - destruct b; repeat constructor.
  - destruct l as [|o l]; [apply (value_empty_array d []); [cbn in Hd; lia|done]|].
    apply value_array; [cbn in Hd; lia|]. apply print_elements. cbn [height] in Hd.
    revert IH Hi Hd. generalize (o :: l). clear o l. intros l IH Hi Hd.
    induction IH as [|o l Ho _ IHl]; [constructor|]. cbn in Hi, Hd. constructor.
    + apply Ho; [apply Hi|lia].
    + apply IHl; [apply Hi|lia].
  - destruct l as [|m l]; [apply (value_empty_object d []); [cbn in Hd; lia|done]|].
    apply (value_object d (commas (map print_member (m :: l)))); [cbn in Hd; lia|].
    apply print_members. cbn [height] in Hd.
    revert IH Hi Hd. generalize (m :: l). clear m l. intros l IH Hi Hd.
    induction IH as [|m l Hm _ IHl]; [constructor|]. cbn in Hi, Hd. constructor.
    + apply Hm; [apply Hi|lia].
    + apply IHl; [apply Hi|lia].
Qed.

(** ** [json.Marshal] and [json.NewEncoder(w).Encode] *)

Definition Marshal (o : Out) : string := of_bytes (print o).
Definition Encode (o : Out) : string := of_bytes (print o ++ [Z_byte 10]).

Lemma Marshal_read o :
  ints_ok o → Z.of_nat (height o) ≤ maxNestingDepth → json_whole (Marshal o) = Some (value o).
Proof.
  intros Hi Hh. apply json_whole_spec. exists [], (print o), [].
  unfold Marshal. rewrite bytes_of_bytes, app_nil_r. split_and!; try done. by apply print_text.
Qed.

Lemma Encode_read o :
  ints_ok o → Z.of_nat (height o) ≤ maxNestingDepth →
  json_first (Encode o) = Some (value o) ∧ json_whole (Encode o) = Some (value o).
Proof.
  intros Hi Hh. pose proof (print_text o Hi _ Hh) as Ht. unfold Encode. split.
  - apply (json_first_complete _ [] (print o) [Z_byte 10]); try done. by rewrite bytes_of_bytes.
  - apply json_whole_spec. exists [], (print o), [Z_byte 10].
    rewrite bytes_of_bytes. split_and!; try done. by constructor.
Qed.

(** ** Times *)

(** The day of the Gregorian calendar that is so many days after the epoch. *)
Definition civil (days : Z) : Z * Z * Z :=
  let z := days + 719468 in
  let doe := z mod 146097 in
  let yoe := (doe - doe / 1460 + doe / 36524 - doe / 146096) / 365 in
  let doy := doe - (365 * yoe + yoe / 4 - yoe / 100) in
  let mp := (5 * doy + 2) / 153 in
  let m := if mp <? 10 then mp + 3 else mp - 9 in
  (yoe + z / 146097 * 400 + (if m <=? 2 then 1 else 0), m, doy - (153 * mp + 2) / 5 + 1).

(** A number in at least [w] digits. *)
Definition padded (w : nat) (n : Z) : list ascii :=
  let d := digits 20 n in repeat "0"%char (w - length d) ++ d.

Fixpoint drop_zeros (l : list ascii) : list ascii :=
  match l with
  | c :: l' => if Ascii.eqb c "0" then drop_zeros l' else l
  | [] => []
  end.

(** [Time.MarshalJSON] of a time in UTC: RFC 3339 with the nanoseconds that are
    not zero; a year beyond four digits is an error. *)
Definition MarshalTime (t : Time) : option string :=
  let s := wall t / Second in
  let '(y, m, d) := civil (s / 86400) in
  let sec := s mod 86400 in
  let frac := rev (drop_zeros (rev (padded 9 (wall t mod Second)))) in
  if in_range 0 9999 y then
    Some (of_bytes (padded 4 y ++ "-"%char :: padded 2 m ++ "-"%char :: padded 2 d ++ "T"%char ::
      padded 2 (sec / 3600) ++ ":"%char :: padded 2 (sec / 60 mod 60) ++ ":"%char ::
      padded 2 (sec mod 60) ++ (if bool_decide (frac = []) then [] else "."%char :: frac) ++
      ["Z"%char]))
  else None.

Example MarshalTime_epoch : MarshalTime (Unix_time 0) = Some "1970-01-01T00:00:00Z".
Proof. reflexivity. Qed.
Example MarshalTime_leap :
  MarshalTime (mkTime (951868799 * Second + 120000000) None) = Some "2000-02-29T23:59:59.12Z".
Proof. reflexivity. Qed.
Example MarshalTime_zero : MarshalTime zero_Time = Some "0001-01-01T00:00:00Z".
Proof. reflexivity. Qed.
