(* ===== verification/JsonDecode.v ===== *)
(** Decoding a JSON value into a Go value as [encoding/json] does it, by the
    kind of the target: what a value of another kind leaves, what null does,
    which member goes to which field of a struct, and slices that are decoded
    onto the elements they hold. *)
From S2P Require Import Prelude GoNum GoStrings Json JsonGrammar JsonString.

Local Open Scope Z_scope.

(** ** Targets *)

(** A decoder changes the target and says whether the value was of a kind the
    target can hold; the first mismatch is reported when decoding is over, and
    does not stop it. *)
Definition decoder (A : Type) : Type := A → JValue → A * bool.

Definition dec_string : decoder string := λ cur v,
  match v with
  | JString s => (s, true)
  | JNull => (cur, true)
  | _ => (cur, false)
  end.

Definition dec_bool : decoder bool := λ cur v,
  match v with
  | JBool b => (b, true)
  | JNull => (cur, true)
  | _ => (cur, false)
  end.

(** A number that is no int64 in decimal is a mismatch. *)
Definition dec_int : decoder Z := λ cur v,
  match v with
  | JNumber t =>
    match ParseInt (of_bytes t) with
    | (n, None) => (n, true)
    | (_, Some _) => (cur, false)
    end
  | JNull => (cur, true)
  | _ => (cur, false)
  end.

(** [*bool]: null sets nil; anything else first allocates. *)
Definition dec_boolptr : decoder (option bool) := λ cur v,
  match v with
  | JNull => (None, true)
  | _ => let '(b, ok) := dec_bool (default false cur) v in (Some b, ok)
  end.

(** A slice: its elements, and what its capacity still holds behind them. *)
Record slice (A : Type) := mkSlice { visible : list A; hidden : list A }.
Arguments mkSlice {A}.
Arguments visible {A}.
Arguments hidden {A}.

Definition nil_slice {A} : slice A := mkSlice [] [].

Section Slice.
Context {A : Type} (zero : A) (dec : decoder A).

(** The elements, each decoded onto the element that stood at its place. *)
Fixpoint dec_items (old : list A) (vs : list JValue) : list A * bool :=
  match vs with
  | [] => ([], true)
  | v :: vs =>
    let '(a, ok) := dec (default zero (head old)) v in
    let '(l, oks) := dec_items (tail old) vs in
    (a :: l, ok && oks)
  end.

Definition dec_slice : decoder (slice A) := λ cur v,
  match v with
  | JNull | JArray [] => (nil_slice, true)
  | JArray vs =>
    let old := visible cur ++ hidden cur in
    let '(l, ok) := dec_items old vs in
    (mkSlice l (drop (length vs) old), ok)
  | _ => (cur, false)
  end.
End Slice.

(** ** Structs *)

(** A field: the name of its tag, and what a member's text and value do to it. *)
Record field (A : Type) := mkField {
  field_name : string;
  field_set : A → list ascii → JValue → A * bool;
}.
Arguments mkField {A}.
Arguments field_name {A}.
Arguments field_set {A}.

(** A field of type [B], given how it is read and written. *)
Definition typed_field {A B} (name : string) (get : A → B) (set : A → B → A) (dec : decoder B) :
    field A :=
  mkField name (λ a _ v, let '(b, ok) := dec (get a) v in (set a b, ok)).

(** A [json.RawMessage] keeps the text of the member, null included. *)
Definition raw_field {A} (name : string) (set : A → string → A) : field A :=
  mkField name (λ a raw _, (set a (of_bytes raw), true)).

(** [foldName] as far as ASCII names can tell: two runes outside ASCII fold to
    ASCII letters, the long s and the Kelvin sign. *)
Definition fold_rune (r : Z) : Z :=
  if in_range 97 122 r then r - 32
  else if r =? 383 then 83
  else if r =? 8490 then 75
  else r.
Definition fold_name (s : string) : list Z := fold_rune <$> runes (bytes s).

(** The field of a key: by its exact name, then by the folded one. *)
Definition find_field {A} (fs : list (field A)) (key : string) : option (field A) :=
  match find (λ f, String.eqb (field_name f) key) fs with
  | Some f => Some f
  | None => find (λ f, bool_decide (fold_name (field_name f) = fold_name key)) fs
  end.

(** The members in their order: unknown keys are skipped, a later member of a
    field is decoded onto what an earlier one left. *)
Fixpoint dec_members {A} (fs : list (field A)) (a : A)
    (ms : list (string * (list ascii * JValue))) : A * bool :=
  match ms with
  | [] => (a, true)
  | (key, (raw, v)) :: ms =>
    let '(a, ok) := match find_field fs key with
                    | Some f => field_set f a raw v
                    | None => (a, true)
                    end in
    let '(a, oks) := dec_members fs a ms in
    (a, ok && oks)
  end.

Definition dec_struct {A} (fs : list (field A)) : decoder A := λ a v,
  match v with
  | JObject ms => dec_members fs a ms
  | JNull => (a, true)
  | _ => (a, false)
  end.

(** ** [json.NewDecoder(r).Decode(&a)] and [json.Unmarshal(data, &a)] *)

(** The target and the error; a text that is not JSON leaves the target alone. *)
Definition decode_into {A} (dec : decoder A) (a : A) (v : option JValue) : A * bool :=
  match v with
  | Some v => dec a v
  | None => (a, false)
  end.

Definition checked {A} (x : A * bool) : option A := if x.2 then Some x.1 else None.

Definition Decode {A} (dec : decoder A) (zero : A) (body : string) : A * bool :=
  decode_into dec zero (json_first body).
Definition Unmarshal {A} (dec : decoder A) (zero : A) (data : string) : A * bool :=
  decode_into dec zero (json_whole data).

(** ** What decoded values satisfy *)

(** A decoder keeps a property of the target, if the strings it is given are
    UTF-8. *)
Fixpoint value_utf8 (v : JValue) : Prop :=
  match v with
  | JString s => utf8 (bytes s)
  | JArray l => foldr (λ v P, value_utf8 v ∧ P) True l
  | JObject ms => foldr (λ m P, value_utf8 m.2.2 ∧ P) True ms
  | _ => True
  end.

Definition keeps {A} (P : A → Prop) (dec : decoder A) : Prop :=
  ∀ a v, P a → value_utf8 v → P (dec a v).1.

Definition field_keeps {A} (P : A → Prop) (f : field A) : Prop :=
  ∀ a raw v, P a → value_utf8 v → P (field_set f a raw v).1.

Lemma keeps_string : keeps (λ s, utf8 (bytes s)) dec_string.
Proof. intros s [| | | | |] Hs Hv; done. Qed.

Lemma keeps_bool : keeps (λ _, True) dec_bool.
Proof. done. Qed.

Lemma keeps_boolptr : keeps (λ _, True) dec_boolptr.
Proof. done. Qed.

Lemma parse_digits_bounds l n m e :
  0 ≤ n → parse_digits l n = (m, e) → 0 ≤ m.
Proof.
  revert n. induction l as [|c l IH]; intros n Hn; cbn; [by intros [= <- _]|].
  destruct (digit_value c) as [d|] eqn:Ed; [|by intros [= <- _]].
  apply digit_value_bounds in Ed.
  repeat case_match; try (intros [= <- _]; unfold max_uint64; lia). apply IH. lia.
Qed.

Lemma ParseInt_int64 s n : ParseInt s = (n, None) → int64 n.
Proof.
  unfold ParseInt, int64, min_int64, max_int64. destruct (bytes s) as [|c l]; [done|].
  set (digs := if _ || _ then _ else _).
  destruct (ParseUint digs) as [un e] eqn:E. assert (0 ≤ un).
  { unfold ParseUint in E. destruct digs; [by injection E as <- _|]. by eapply parse_digits_bounds in E. }
  destruct e as [[]|]; [done|..];
    repeat case_match; intros; simplify_eq; bool_hyps;
    repeat match goal with
    | H : andb _ _ = false |- _ => apply andb_false_iff in H as [?|?]
    end; simplify_eq/=; try lia;
    destruct (Ascii.eqb c "-"); simplify_eq/=; lia.
Qed.

Lemma keeps_int : keeps int64 dec_int.
Proof.
  intros n [| |t| | |] Hn _; try done. cbn.
  destruct (ParseInt (of_bytes t)) as [m [e|]] eqn:E; [done|]. by apply ParseInt_int64 in E.
Qed.

Definition slice_ok {A} (P : A → Prop) (s : slice A) : Prop :=
  Forall P (visible s) ∧ Forall P (hidden s).

Lemma keeps_items {A} (P : A → Prop) zero dec old vs :
  P zero → keeps P dec → Forall P old → value_utf8 (JArray vs) →
  Forall P (dec_items zero dec old vs).1.
Proof.
  intros Hz Hd. revert old. induction vs as [|v vs IH]; intros old Ho Hv; [constructor|].
  cbn in Hv. destruct Hv as [Hv Hvs]. cbn [dec_items].
  assert (P (default zero (head old))) as Hh by (by destruct Ho).
  assert (Forall P (tail old)) as Ht by (by destruct Ho).
  pose proof (Hd _ v Hh Hv) as H1. pose proof (IH (tail old) Ht Hvs) as H2.
  destruct (dec _ v) as [a ok]. destruct (dec_items _ _ _ vs) as [l oks]. by constructor.
Qed.

Lemma keeps_slice {A} (P : A → Prop) zero dec :
  P zero → keeps P dec → keeps (slice_ok P) (dec_slice zero dec).
Proof.
  intros Hz Hd s v Hs Hv. assert (slice_ok P (@nil_slice A)) as Hn by (split; constructor).
  destruct v as [| | | |vs|ms]; try done. cbn [dec_slice]. destruct vs as [|v vs]; [done|].
  assert (Forall P (visible s ++ hidden s)) as Ho by (apply Forall_app; apply Hs).
  pose proof (keeps_items P zero dec _ _ Hz Hd Ho Hv) as H1.
  destruct (dec_items _ _ _ _) as [l ok]. split; [done|]. by apply Forall_drop.
Qed.

Lemma find_field_elem {A} (fs : list (field A)) key f : find_field fs key = Some f → f ∈ fs.
Proof.
  unfold find_field. destruct (find _ fs) as [g|] eqn:E; intros H; simplify_eq.
  - apply list_elem_of_In. by apply find_some in E as [? _].
  - apply list_elem_of_In. by apply find_some in H as [? _].
Qed.

Lemma keeps_struct {A} (P : A → Prop) fs : Forall (field_keeps P) fs → keeps P (dec_struct fs).
Proof.
  intros Hf a v Ha Hv. destruct v as [| | | | |ms]; try done. cbn [dec_struct].
  revert a Ha Hv. induction ms as [|[key [raw v]] ms IH]; intros a Ha Hv; [done|].
  cbn in Hv. destruct Hv as [Hv Hms]. cbn [dec_members].
  assert (P (match find_field fs key with Some f => field_set f a raw v | None => (a, true) end).1) as H.
  { destruct (find_field fs key) as [f|] eqn:E; [|done].
    rewrite Forall_forall in Hf. apply find_field_elem in E. by apply (Hf f E). }
  destruct (match find_field fs key with Some f => _ | None => _ end) as [a' ok].
  pose proof (IH a' H Hms) as H2. by destruct (dec_members fs a' ms).
Qed.

(** What is parsed is UTF-8. *)
Lemma text_utf8 :
  (∀ d t v, value_text d t v → value_utf8 v) ∧
  (∀ d b vs, elements_text d b vs → value_utf8 (JArray vs)) ∧
  (∀ d b ms, members_text d b ms → value_utf8 (JObject ms)).
Proof.
  apply (text_mutind (λ _ _ v, value_utf8 v) (λ _ _ vs, value_utf8 (JArray vs))
    (λ _ _ ms, value_utf8 (JObject ms))); cbn; auto.
  intros _ t v Ht. destruct Ht; cbn; auto using unquote_utf8.
Qed.

Lemma json_first_utf8 s v : json_first s = Some v → value_utf8 v.
Proof. intros (w & t & r & _ & _ & Ht)%json_first_sound. by eapply (proj1 text_utf8). Qed.

Lemma json_whole_utf8 s v : json_whole s = Some v → value_utf8 v.
Proof. intros (w & t & r & _ & _ & _ & Ht)%json_whole_spec. by eapply (proj1 text_utf8). Qed.

Lemma Decode_keeps {A} (P : A → Prop) dec zero body :
  P zero → keeps P dec → P (Decode dec zero body).1.
Proof.
  intros Hz Hd. unfold Decode, decode_into. destruct (json_first body) eqn:E; [|done].
  apply Hd; [done|]. by apply json_first_utf8 in E.
Qed.

Lemma Unmarshal_keeps {A} (P : A → Prop) dec zero body :
  P zero → keeps P dec → P (Unmarshal dec zero body).1.
Proof.
  intros Hz Hd. unfold Unmarshal, decode_into. destruct (json_whole body) eqn:E; [|done].
  apply Hd; [done|]. by apply json_whole_utf8 in E.
Qed.

Lemma checked_Some {A} (x : A * bool) a : checked x = Some a → x.1 = a.
Proof. unfold checked. destruct x as [y []]; cbn; by intros [= ->]. Qed.
