(* ===== verification/GoSort.v ===== *)
(** [sort.Slice] as an interface: a permutation of its input, ordered when the
    comparison is a strict weak order.  Nothing else is promised (the sort is
    not stable).  The instance is the insertion sort Go runs on slices of at
    most 12 elements. *)
From S2P Require Import Prelude.

(** ** The interface *)

Record strict_weak_order {A} (less : A → A → bool) : Prop := {
  swo_asym x y : less x y = true → less y x = false;
  swo_neg_trans x y z : less x y = false → less y z = false → less x z = false;
}.

(** In order: no element is strictly less than an earlier one. *)
Definition in_order {A} (less : A → A → bool) (l : list A) : Prop :=
  StronglySorted (λ x y, less y x = false) l.

Class SliceSort := sort_Slice : ∀ {A : Type}, (A → A → bool) → list A → list A.

Class SliceSortOk (S : SliceSort) : Prop := {
  sort_Slice_perm {A} (less : A → A → bool) l : sort_Slice less l ≡ₚ l;
  sort_Slice_sorted {A} (less : A → A → bool) l :
    strict_weak_order less → in_order less (sort_Slice less l);
}.

(** Comparing by an integer, largest first: the order of the code's rankings. *)
Definition greater_by {A} (f : A → Z) (x y : A) : bool := (f y <? f x)%Z.

Lemma greater_by_swo {A} (f : A → Z) : strict_weak_order (greater_by f).
Proof. split; unfold greater_by; intros; lia. Qed.

(** ** Insertion sort *)

(** Insert from the right, into a prefix kept reversed. *)
Fixpoint insert_rev {A} (less : A → A → bool) (x : A) (acc : list A) : list A :=
  match acc with
  | [] => [x]
  | y :: acc' => if less x y then y :: insert_rev less x acc' else x :: acc
  end.

Definition insertion_sort {A} (less : A → A → bool) (l : list A) : list A :=
  reverse (fold_left (λ acc x, insert_rev less x acc) l []).

#[export] Instance insertion_slice_sort : SliceSort := @insertion_sort.

Section InsertionSort.
Context {A : Type} (less : A → A → bool) (Hless : strict_weak_order less).

Lemma insert_rev_perm x acc : insert_rev less x acc ≡ₚ x :: acc.
  Proof.
    clear Hless. induction acc as [|y acc IH]; cbn; [done|]. case_match; [|done].
    rewrite IH. constructor.
  Qed.

  (** The kept prefix, read backwards, is in order. *)
Local Abbreviation rev_order := (StronglySorted (λ x y, less x y = false)).

Lemma insert_rev_sorted x acc : rev_order acc → rev_order (insert_rev less x acc).
  Proof using Hless.
    intros Hacc. induction Hacc as [|y acc Hacc IH Hy]; cbn; [repeat constructor|].
    destruct (less x y) eqn:E.
    - constructor; [done|]. rewrite insert_rev_perm. constructor; [|done].
      by apply (swo_asym _ Hless).
    - constructor; [by constructor|]. constructor; [done|].
      eapply Forall_impl; [done|]. intros z. cbn. by apply (swo_neg_trans _ Hless).
  Qed.

Lemma fold_insert_perm l acc :
    fold_left (λ acc x, insert_rev less x acc) l acc ≡ₚ l ++ acc.
  Proof.
    clear Hless. revert acc. induction l as [|x l IH]; intros acc; cbn; [done|].
    rewrite IH, insert_rev_perm. by rewrite Permutation_middle.
  Qed.

Lemma fold_insert_sorted l acc :
    rev_order acc → rev_order (fold_left (λ acc x, insert_rev less x acc) l acc).
  Proof using Hless.
    revert acc. induction l as [|x l IH]; intros acc Hacc; cbn; [done|].
    by apply IH, insert_rev_sorted.
  Qed.

Lemma rev_order_rev l : rev_order l → in_order less (reverse l).
  Proof using.
    clear Hless. induction 1 as [|x l Hl IH Hx]; rewrite ?reverse_cons; [constructor|]. unfold in_order.
    apply StronglySorted_app. repeat split.
    - intros y z Hy ->%list_elem_of_singleton.
      rewrite Forall_forall in Hx. apply Hx. by rewrite <- elem_of_reverse.
    - done.
    - repeat constructor.
  Qed.
End InsertionSort.

#[export] Instance insertion_slice_sort_ok : SliceSortOk insertion_slice_sort.
Proof.
  split; intros A less l; unfold sort_Slice, insertion_slice_sort, insertion_sort.
  - rewrite reverse_Permutation, fold_insert_perm. by rewrite app_nil_r.
  - intros H. apply rev_order_rev, fold_insert_sorted; [done|constructor].
Qed.

(** ** The first n of a ranking *)

Lemma in_order_split {A} (less : A → A → bool) n l x y :
  in_order less l → x ∈ take n l → y ∈ drop n l → less y x = false.
Proof.
  unfold in_order. intros Hl Hx Hy. rewrite <- (take_drop n l) in Hl.
  apply StronglySorted_app in Hl as (H & _ & _). by apply (H x y).
Qed.

Lemma in_order_take {A} (less : A → A → bool) n l : in_order less l → in_order less (take n l).
Proof.
  unfold in_order. intros Hl. rewrite <- (take_drop n l) in Hl.
  by apply StronglySorted_app in Hl as (_ & H & _).
Qed.
