(* ===== verification/Base64.v ===== *)
(** Go's [base64.StdEncoding]: [EncodeToString] and [DecodeString], which skips
    carriage returns and newlines, requires the padding and does not require
    the unused bits of the last quantum to be zero. *)
From S2P Require Import Prelude.

Local Open Scope Z_scope.

Definition alphabet : list ascii :=
  bytes "ABCDEFGHIJKLMNOPQRSTUVWXYZabcdefghijklmnopqrstuvwxyz0123456789+/".
Definition enc_char (v : Z) : ascii := nth (Z.to_nat v) alphabet "A"%char.

Definition dec_char (c : ascii) : option Z :=
  match list_find (λ d, c = d) alphabet with
  | Some (i, _) => Some (Z.of_nat i)
  | None => None
  end.

(** ** Encoding, three bytes to four characters *)

Definition pad : ascii := "="%char.

(** Characters [k] of the 24-bit value [v] of a quantum, from the left. *)
Definition sextet (v : Z) (k : Z) : Z := (v / 64 ^ (3 - k)) mod 64.

Fixpoint encode (l : list ascii) : list ascii :=
  match l with
  | [] => []
  | [a] =>
    let v := byte_Z a * 65536 in
    [enc_char (sextet v 0); enc_char (sextet v 1); pad; pad]
  | [a; b] =>
    let v := byte_Z a * 65536 + byte_Z b * 256 in
    [enc_char (sextet v 0); enc_char (sextet v 1); enc_char (sextet v 2); pad]
  | a :: b :: c :: l =>
    let v := byte_Z a * 65536 + byte_Z b * 256 + byte_Z c in
    enc_char (sextet v 0) :: enc_char (sextet v 1) :: enc_char (sextet v 2)
      :: enc_char (sextet v 3) :: encode l
  end.
Definition EncodeToString (l : list ascii) : string := of_bytes (encode l).

(** ** Decoding *)

(** The three bytes of a quantum's 24-bit value. *)
Definition octet (v : Z) (k : Z) : ascii := Z_byte ((v / 256 ^ (2 - k)) mod 256).

(** The quanta of an input free of line breaks.  Padding ends the input: after
    it, or when it is missing, the input is corrupt. *)
Fixpoint decode_quanta (l : list ascii) : option (list ascii) :=
  match l with
  | [] => Some []
  | c0 :: c1 :: c2 :: c3 :: l =>
    match dec_char c0, dec_char c1, dec_char c2, dec_char c3 with
    | Some d0, Some d1, Some d2, Some d3 =>
      let v := d0 * 262144 + d1 * 4096 + d2 * 64 + d3 in
      match decode_quanta l with
      | Some out => Some (octet v 0 :: octet v 1 :: octet v 2 :: out)
      | None => None
      end
    | Some d0, Some d1, Some d2, None =>
      let v := d0 * 262144 + d1 * 4096 + d2 * 64 in
      if Ascii.eqb c3 pad then
        match l with [] => Some [octet v 0; octet v 1] | _ => None end
      else None
    | Some d0, Some d1, None, _ =>
      let v := d0 * 262144 + d1 * 4096 in
      if Ascii.eqb c2 pad && Ascii.eqb c3 pad then
        match l with [] => Some [octet v 0] | _ => None end
      else None
    | _, _, _, _ => None
    end
  | _ => None
  end.

Definition is_newline (c : ascii) : bool :=
  (byte_Z c =? 10) || (byte_Z c =? 13).
Definition DecodeString (s : string) : option (list ascii) :=
  decode_quanta (List.filter (λ c, negb (is_newline c)) (bytes s)).

(** ** Round trip *)

Definition sextets : list Z := map Z.of_nat (seq 0 64).

Lemma sextets_all (P : Z → bool) :
  forallb P sextets = true → ∀ v, 0 ≤ v < 64 → P v = true.
Proof.
  intros H v Hv. apply forallb_Forall in H. rewrite Forall_forall in H. apply H.
  unfold sextets. apply list_elem_of_In, in_map_iff. exists (Z.to_nat v).
  rewrite in_seq. lia.
Qed.

Lemma dec_enc_char v : 0 ≤ v < 64 → dec_char (enc_char v) = Some v.
Proof.
  intros Hv.
  assert (bool_decide (dec_char (enc_char v) = Some v) = true) as H; [|by bool_hyps].
  revert v Hv. apply sextets_all. by vm_compute.
Qed.

Lemma enc_char_newline v : 0 ≤ v < 64 → is_newline (enc_char v) = false.
Proof.
  intros Hv. apply negb_true_iff. revert v Hv.
  apply (sextets_all (λ v, negb (is_newline (enc_char v)))). by vm_compute.
Qed.

Lemma sextet_bounds v k : 0 ≤ sextet v k < 64.
Proof. unfold sextet. by apply Z.mod_pos_bound. Qed.

#[local] Hint Resolve sextet_bounds : core.

Lemma dec_sextet v k : dec_char (enc_char (sextet v k)) = Some (sextet v k).
Proof. by apply dec_enc_char. Qed.

(** A 24-bit value is rebuilt from its sextets, and its octets are its bytes. *)
Lemma sextets_value v :
  0 ≤ v < 2 ^ 24 →
  sextet v 0 * 262144 + sextet v 1 * 4096 + sextet v 2 * 64 + sextet v 3 = v.
Proof.
  intros Hv. unfold sextet.
  change (64 ^ (3 - 0)) with (64 * 64 * 64). change (64 ^ (3 - 1)) with (64 * 64).
  change (64 ^ (3 - 2)) with 64. change (64 ^ (3 - 3)) with 1.
  rewrite <- !Z.div_div, Z.div_1_r by lia. Z.div_mod_to_equations; lia.
Qed.

Lemma octets_value a b c :
  let v := byte_Z a * 65536 + byte_Z b * 256 + byte_Z c in
  octet v 0 = a ∧ octet v 1 = b ∧ octet v 2 = c.
Proof.
  intros v. pose proof (byte_Z_bounds a). pose proof (byte_Z_bounds b).
  pose proof (byte_Z_bounds c). unfold octet, v.
  change (256 ^ (2 - 0)) with 65536. change (256 ^ (2 - 1)) with 256.
  change (256 ^ (2 - 2)) with 1.
  repeat split; match goal with |- Z_byte _ = ?x => rewrite <- (Z_byte_Z x) at 2 end;
    f_equal; Z.div_mod_to_equations; lia.
Qed.

(** Strong induction in steps of three bytes. *)
Lemma list_ind3 {A} (P : list A → Prop) :
  P [] → (∀ a, P [a]) → (∀ a b, P [a; b]) →
  (∀ a b c l, P l → P (a :: b :: c :: l)) → ∀ l, P l.
Proof.
  intros H0 H1 H2 H3 l. enough (P l ∧ (∀ a, P (a :: l)) ∧ (∀ a b, P (a :: b :: l))) by tauto.
  induction l as [|c l (IH1 & IH2 & IH3)]; auto.
Qed.

(** The sextets that padding replaces are zero. *)
Lemma sextet_tail1 a : let v := byte_Z a * 65536 in sextet v 2 = 0 ∧ sextet v 3 = 0.
Proof.
  intros v. unfold sextet, v. change (64 ^ (3 - 2)) with 64. change (64 ^ (3 - 3)) with 1.
  split; Z.div_mod_to_equations; lia.
Qed.

Lemma sextet_tail2 a b : let v := byte_Z a * 65536 + byte_Z b * 256 in sextet v 3 = 0.
Proof.
  intros v. unfold sextet, v. change (64 ^ (3 - 3)) with 1. Z.div_mod_to_equations; lia.
Qed.

Lemma dec_pad : dec_char pad = None.
Proof. done. Qed.

Lemma decode_encode l : decode_quanta (encode l) = Some l.
Proof.
  induction l as [|a|a b|a b c l IH] using list_ind3; [done|..];
    cbn [encode decode_quanta]; rewrite !dec_sextet, ?dec_pad; cbn [pad Ascii.eqb].
  - pose proof (byte_Z_bounds a). destruct (sextet_tail1 a) as [E2 E3].
    pose proof (sextets_value (byte_Z a * 65536) ltac:(lia)) as E.
    rewrite E2, E3, Z.mul_0_l, !Z.add_0_r in E. cbn -[octet sextet Z.mul]. rewrite E.
    destruct (octets_value a "000" "000") as (H1 & _ & _).
    change (byte_Z "000") with 0 in H1. rewrite !Z.add_0_r in H1. by rewrite H1.
  - pose proof (byte_Z_bounds a). pose proof (byte_Z_bounds b).
    pose proof (sextets_value (byte_Z a * 65536 + byte_Z b * 256) ltac:(lia)) as E.
    rewrite sextet_tail2, Z.add_0_r in E. cbn -[octet sextet Z.mul]. rewrite E.
    destruct (octets_value a b "000") as (H1 & H2 & _).
    change (byte_Z "000") with 0 in H1, H2. rewrite !Z.add_0_r in H1, H2.
    by rewrite H1, H2.
  - pose proof (byte_Z_bounds a). pose proof (byte_Z_bounds b). pose proof (byte_Z_bounds c).
    rewrite IH, sextets_value by lia. by destruct (octets_value a b c) as (-> & -> & ->).
Qed.

Lemma encode_no_newline l : Forall (λ c, negb (is_newline c) = true) (encode l).
Proof.
  induction l as [|a|a b|a b c l IH] using list_ind3; cbn [encode];
    repeat constructor; rewrite ?enc_char_newline; auto.
Qed.

Lemma filter_all {A} (f : A → bool) l : Forall (λ x, f x = true) l → List.filter f l = l.
Proof. induction 1 as [|x l Hx _ IH]; cbn; [done|]. by rewrite Hx, IH. Qed.

(** Decoding an encoding gives the bytes back. *)
Lemma DecodeString_EncodeToString l : DecodeString (EncodeToString l) = Some l.
Proof.
  unfold DecodeString, EncodeToString. rewrite bytes_of_bytes.
  rewrite (filter_all _ _ (encode_no_newline l)). apply decode_encode.
Qed.

(** An encoding holds only the alphabet and the padding: no white space, and
    nothing for [TrimSpace] to remove. *)
Lemma encode_chars l c : c ∈ encode l → c ∈ alphabet ∨ c = pad.
Proof.
  assert (∀ v k, enc_char (sextet v k) ∈ alphabet) as Hin.
  { intros v k.
    assert (forallb (λ v, bool_decide (enc_char v ∈ alphabet)) sextets = true)
      as H by (by vm_compute).
    pose proof (sextets_all _ H (sextet v k) (sextet_bounds v k)) as H'.
    cbn beta in H'. by bool_hyps. }
  induction l as [|a|a b|x b d l IH] using list_ind3; cbn [encode];
    rewrite ?elem_of_cons, ?elem_of_nil; naive_solver.
Qed.
