(* ===== verification/Model.v ===== *)
(** The data of [internal/model]: peers, requests, chunk records and signals,
    one record per Go struct, fields in source order.  A Go [int] or [int64] is
    a [Z] kept in the int64 range by the operations; [*bool] is [option bool]. *)
From S2P Require Import Prelude GoNum.

(** ** model/peer.go *)

Abbreviation PeerFlag := string (only parsing).
Definition PeerFlagThin : PeerFlag := "thin".
Definition PeerFlagThick : PeerFlag := "thick".
Definition PeerFlagVeryThick : PeerFlag := "very_thick".

Record QualityStats := mkQualityStats { ValidReports : Z; InvalidReports : Z }.

Record Peer := mkPeer {
  peer_ID : string;
  peer_Login : string;
  peer_EncryptionKey : string;
  peer_SignatureKey : string;
  peer_LastSeen : Time;
  peer_TTLSeconds : Z;
  peer_QualityScore : Z;
  peer_Quality : QualityStats;
  peer_PeerFlag : PeerFlag;
  peer_Fake : bool;
}.

(** [func (p Peer) Key() string]. *)
Definition Key (p : Peer) : string := peer_Login p +:+ ":" +:+ peer_SignatureKey p.

Record RegisterRequest := mkRegisterRequest {
  reg_ID : string;
  reg_Login : string;
  reg_EncryptionKey : string;
  reg_SignatureKey : string;
  reg_TTLSeconds : Z;
  reg_PeerFlag : PeerFlag;
  reg_Fake : option bool;
}.

Record RefreshRequest := mkRefreshRequest {
  refr_ID : string;
  refr_Login : string;
  refr_SignatureKey : string;
}.

(** ** model/quality.go *)

Record RegisterChunkRequest := mkRegisterChunkRequest {
  rc_SenderID : string;
  rc_RecipientID : string;
  rc_Hash : string;
  rc_Signature : string;
  rc_PeerID : string;
  rc_Persist : bool;
  rc_TTL : Z;
}.

Record RegisterChunkBatchEntry := mkRegisterChunkBatchEntry {
  rb_ChunkIndex : Z;
  rb_SenderID : string;
  rb_RecipientID : string;
  rb_Hash : string;
  rb_Signature : string;
  rb_PeerID : string;
  rb_Persist : bool;
  rb_TTL : Z;
}.

Record RegisterChunkBatchRequest := mkRegisterChunkBatchRequest {
  rb_Chunks : list RegisterChunkBatchEntry;
}.

Record ChunkRecord := mkChunkRecord {
  rec_FileID : string;
  rec_ChunkIndex : Z;
  rec_SenderID : string;
  rec_RecipientID : string;
  rec_Hash : string;
  rec_PeerID : string;
  rec_Persist : bool;
  rec_Confirmed : bool;
  rec_Readed : bool;
  rec_CreatedAt : Z;
  rec_UpdatedAt : Z;
  rec_TTL : Z;
}.

Record ChunkReportRequest := mkChunkReportRequest {
  rep_ReporterID : string;
  rep_FileID : string;
  rep_ChunkIndex : Z;
  rep_Hash : string;
  rep_Signature : string;
}.

Record ChunkReportResult := mkChunkReportResult {
  rr_Valid : bool;
  rr_ExpectedHash : string;
  rr_ReportedHash : string;
  rr_Delta : Z;
  rr_Peer : Peer;
}.

Record ConfirmChunkRequest := mkConfirmChunkRequest {
  conf_RecipientID : string;
  conf_FileID : string;
  conf_ChunkIndex : Z;
  conf_Hash : string;
  conf_Signature : string;
}.

Record ReadChunkRequest := mkReadChunkRequest {
  read_RecipientID : string;
  read_FileID : string;
  read_Signature : string;
}.

Record ConfirmChunkBatchEntry := mkConfirmChunkBatchEntry {
  cb_FileID : string;
  cb_ChunkIndex : Z;
  cb_Hash : string;
  cb_Signature : string;
}.

Record ConfirmChunkBatchRequest := mkConfirmChunkBatchRequest {
  cb_RecipientID : string;
  cb_Chunks : list ConfirmChunkBatchEntry;
}.

Record ConfirmChunkResult := mkConfirmChunkResult {
  cr_Valid : bool;
  cr_ExpectedHash : string;
  cr_ConfirmedHash : string;
  cr_Delta : Z;
  cr_Peer : Peer;
}.

Record ReadChunkResult := mkReadChunkResult { rd_Valid : bool }.

Record Signal := mkSignal { sig_From : string; sig_Type : string; sig_Data : string }.

(** ** Decidable equality of the data *)

#[export] Instance QualityStats_eq_dec : EqDecision QualityStats.
Proof. solve_decision. Defined.
#[export] Instance Peer_eq_dec : EqDecision Peer.
Proof. solve_decision. Defined.
#[export] Instance Signal_eq_dec : EqDecision Signal.
Proof. solve_decision. Defined.
#[export] Instance ChunkRecord_eq_dec : EqDecision ChunkRecord.
Proof. solve_decision. Defined.

(** ** Keys *)

(** Keys identify a (login, signature key) pair when the separator occurs in
    neither signature key, as in every base64 key. *)
Lemma Key_inj p q :
  ":"%char ∉ bytes (peer_SignatureKey p) → ":"%char ∉ bytes (peer_SignatureKey q) →
  Key p = Key q → peer_Login p = peer_Login q ∧ peer_SignatureKey p = peer_SignatureKey q.
Proof.
  unfold Key. intros Hp Hq H. apply (f_equal bytes) in H.
  rewrite !bytes_app in H. cbn in H.
  apply app_sep_inj_r in H as [H1 H2]; [|done|done].
  split; by apply bytes_inj.
Qed.
