(* ===== verification/Sign.v ===== *)
(** [internal/sign]: the canonical payloads a peer signs, and the verification
    of a base64 Ed25519 signature against a base64 public key.  The curve
    arithmetic itself is the class [Ed25519]. *)
From S2P Require Import Prelude GoNum GoStrings Base64.

Local Open Scope go_scope.

(** ** crypto/ed25519 *)

Definition PublicKeySize : nat := 32.
Definition SignatureSize : nat := 64.

Class Ed25519 := ed25519_Verify :
  ∀ (pub message sig : list ascii), bool.

(** A signer for that verifier: keys and signatures have the documented sizes,
    and a signature made with a key verifies under its public key. *)
Record Ed25519Signer (E : Ed25519) := mkSigner {
  PrivateKey : Type;
  ed25519_Public : PrivateKey → list ascii;
  ed25519_Sign : PrivateKey → list ascii → list ascii;
  ed25519_Public_size k : length (ed25519_Public k) = PublicKeySize;
  ed25519_Sign_size k m : length (ed25519_Sign k m) = SignatureSize;
  ed25519_Sign_Verify k m : ed25519_Verify (ed25519_Public k) m (ed25519_Sign k m) = true;
}.
Arguments PrivateKey {E}.
Arguments ed25519_Public {E}.
Arguments ed25519_Sign {E}.
Arguments ed25519_Public_size {E}.
Arguments ed25519_Sign_size {E}.
Arguments ed25519_Sign_Verify {E}.

(** ** Payloads *)

(** The newline that separates the fields of a payload. *)
Definition newline : ascii := "010"%char.
Definition nl : string := String newline "".

Definition ExpectedPayload (fileID : string) (chunkIndex : Z) (hash : string) : list ascii :=
  bytes ("muninn/expected/v1" +:+ nl +:+ fileID +:+ nl +:+ Itoa chunkIndex +:+ nl +:+ hash).

Definition ReportedPayload (fileID : string) (chunkIndex : Z) (hash sourcePeerID : string) :
    list ascii :=
  bytes ("muninn/reported/v1" +:+ nl +:+ fileID +:+ nl +:+ Itoa chunkIndex +:+ nl
         +:+ hash +:+ nl +:+ sourcePeerID).

Definition ConfirmedPayload (fileID : string) (chunkIndex : Z) (hash : string) : list ascii :=
  bytes ("muninn/confirmed/v1" +:+ nl +:+ fileID +:+ nl +:+ Itoa chunkIndex +:+ nl +:+ hash).

Definition ReadPayload (fileID : string) : list ascii :=
  bytes ("muninn/read/v1" +:+ nl +:+ fileID).

(** ** Verification *)

Inductive sign_error := SignErrInvalidKey | SignErrInvalidSignature.

Definition decodePublicKey (b64 : string) : result sign_error (list ascii) :=
  match DecodeString (TrimSpace b64) with
  | None => Err SignErrInvalidKey
  | Some raw =>
    if negb (length raw =? PublicKeySize)%nat then Err SignErrInvalidKey else Ok raw
  end.

Definition Verify {E : Ed25519} (publicKeyB64 signatureB64 : string)
    (message : list ascii) : result sign_error unit :=
  match decodePublicKey publicKeyB64 with
  | Err err => Err err
  | Ok pub =>
    match DecodeString (TrimSpace signatureB64) with
    | None => Err SignErrInvalidSignature
    | Some sig =>
      if negb (length sig =? SignatureSize)%nat then Err SignErrInvalidSignature
      else if negb (ed25519_Verify pub message sig) then Err SignErrInvalidSignature
      else Ok tt
    end
  end.

Definition Sign {E : Ed25519} (S : Ed25519Signer E) (privateKey : PrivateKey S)
    (message : list ascii) : string :=
  EncodeToString (ed25519_Sign S privateKey message).

Definition PublicKeyBase64 (pub : list ascii) : string := EncodeToString pub.

(** ** Payloads determine what was signed *)

Lemma newline_notin_Itoa z : newline ∉ Itoa_bytes z.
Proof. intros [H|[d Hd]]%Itoa_chars; [done|]. by vm_compute in Hd. Qed.

Lemma bytes_Itoa z : bytes (Itoa z) = Itoa_bytes z.
Proof. apply bytes_of_bytes. Qed.

(** The byte lists of the payloads. *)
Lemma bytes_nl s : bytes (nl +:+ s) = newline :: bytes s.
Proof. done. Qed.

Create Rewrite HintDb payload.
#[export] Hint Rewrite bytes_app bytes_Itoa bytes_nl : payload.

(** Two fields followed by a newline-free last field. *)
Lemma fields_inj (f f' h h' : list ascii) i i' :
  int64 i → int64 i' → newline ∉ h → newline ∉ h' →
  f ++ newline :: Itoa_bytes i ++ newline :: h =
  f' ++ newline :: Itoa_bytes i' ++ newline :: h' →
  f = f' ∧ i = i' ∧ h = h'.
Proof.
  intros Hi Hi' Hh Hh' H.
  assert ((f ++ newline :: Itoa_bytes i) ++ newline :: h =
          (f' ++ newline :: Itoa_bytes i') ++ newline :: h') as H1.
  { by rewrite <- !app_assoc. }
  apply app_sep_inj_r in H1 as [H1 ->]; [|done|done].
  apply app_sep_inj_r in H1 as [-> H1]; [|by apply newline_notin_Itoa..].
  split; [done|]. split; [|done]. apply Itoa_inj; [done|done|].
  unfold Itoa. by rewrite H1.
Qed.

(** What a peer can sign. *)
Inductive Statement :=
| SExpected (fileID : string) (chunkIndex : Z) (hash : string)
| SReported (fileID : string) (chunkIndex : Z) (hash sourcePeerID : string)
| SConfirmed (fileID : string) (chunkIndex : Z) (hash : string)
| SRead (fileID : string).

Definition payload (st : Statement) : list ascii :=
  match st with
  | SExpected f i h => ExpectedPayload f i h
  | SReported f i h src => ReportedPayload f i h src
  | SConfirmed f i h => ConfirmedPayload f i h
  | SRead f => ReadPayload f
  end.

(** Indices are Go ints, and the fields after the index hold no newline.  A
    file id may hold anything. *)
Definition signable (st : Statement) : Prop :=
  match st with
  | SExpected _ i h | SConfirmed _ i h => int64 i ∧ newline ∉ bytes h
  | SReported _ i h src => int64 i ∧ (newline ∉ bytes h) ∧ (newline ∉ bytes src)
  | SRead _ => True
  end.

(** The first line of a payload is its kind. *)
Definition kind_of (st : Statement) : string :=
  match st with
  | SExpected _ _ _ => "muninn/expected/v1"
  | SReported _ _ _ _ => "muninn/reported/v1"
  | SConfirmed _ _ _ => "muninn/confirmed/v1"
  | SRead _ => "muninn/read/v1"
  end.

Lemma payload_kind st : ∃ rest, payload st = bytes (kind_of st) ++ newline :: rest.
Proof. destruct st; eexists; cbn; unfold ExpectedPayload, ReportedPayload,
  ConfirmedPayload, ReadPayload; by autorewrite with payload. Qed.

Lemma kind_newline st : newline ∉ bytes (kind_of st).
Proof. destruct st; refine (bool_decide_unpack _ _); by vm_compute. Qed.

Lemma payload_same_kind st st' : payload st = payload st' → kind_of st = kind_of st'.
Proof.
  intros H. destruct (payload_kind st) as [r Hr], (payload_kind st') as [r' Hr'].
  rewrite Hr, Hr' in H.
  apply app_sep_inj_l in H as [H _]; [by apply bytes_inj|apply kind_newline..].
Qed.

(** Strip the common kind of two equal payloads. *)
Local Ltac payload_fields H :=
  unfold ExpectedPayload, ReportedPayload, ConfirmedPayload, ReadPayload in H;
  autorewrite with payload in H; apply app_inv_head in H; injection H as H.

(** C37: equal payloads are always of one kind, so that a signature made for one
    purpose never serves another; and when the hash and the source peer id
    of both statements hold no line break and their indices are Go ints, equal
    payloads are of one statement: one file, index, hash and source peer. The
    second part needs its premise: see [ReportedPayload_ambiguous]. *)
Theorem payload_inj st st' :
  payload st = payload st' →
  kind_of st = kind_of st' ∧ (signable st → signable st' → st = st').
Proof.
  intros H. pose proof (payload_same_kind _ _ H) as Hk. split; [exact Hk|]. intros Hs Hs'.
  destruct st as [f i h|f i h src|f i h|f], st' as [f' i' h'|f' i' h' src'|f' i' h'|f'];
    try discriminate Hk; cbn in H, Hs, Hs'; payload_fields H; destruct_and?.
  - apply fields_inj in H as (Hf & -> & Hh); [|done..].
    by apply bytes_inj in Hf as ->, Hh as ->.
  - assert ((bytes f ++ newline :: Itoa_bytes i ++ newline :: bytes h) ++ newline :: bytes src =
            (bytes f' ++ newline :: Itoa_bytes i' ++ newline :: bytes h') ++ newline :: bytes src')
      as Hcat.
    { rewrite <- !app_assoc. cbn. by rewrite <- !app_assoc. }
    apply app_sep_inj_r in Hcat as [Hcat Hsrc]; [|done..].
    apply fields_inj in Hcat as (Hf & -> & Hh); [|done..].
    by apply bytes_inj in Hf as ->, Hh as ->, Hsrc as ->.
  - apply fields_inj in H as (Hf & -> & Hh); [|done..].
    by apply bytes_inj in Hf as ->, Hh as ->.
  - by apply bytes_inj in H as ->.
Qed.

(** The source peer id must hold no newline: with one, two different reports
    have the same payload, and one signature serves both. *)
Theorem ReportedPayload_ambiguous :
  ∃ f f' h src src' i i',
    (f, i, src) ≠ (f', i', src') ∧
    ReportedPayload f i h src = ReportedPayload f' i' h src'.
Proof.
  exists "a", ("a" +:+ nl +:+ "0" +:+ nl +:+ "deadbeef01234567"), "deadbeef01234567",
    ("1" +:+ nl +:+ "deadbeef01234567" +:+ nl +:+ "s"), "s", 0%Z, 1%Z.
  split; [done|]. by vm_compute.
Qed.

Lemma payload_inj_witness :
  signable (SReported ("a" +:+ nl) 7 "ab" "peer") ∧
  SReported ("a" +:+ nl) 7 "ab" "peer" = SReported ("a" +:+ nl) (3 + 4) "ab" ("pe" +:+ "er").
Proof.
  assert (signable (SReported ("a" +:+ nl) 7 "ab" "peer")) as H.
  { split_and!; [by vm_compute|refine (bool_decide_unpack _ _); by vm_compute..]. }
  split; [done|]. by apply payload_inj.
Defined.

(** ** Verification is exact *)

(** Close a branch of [Verify] whose tests have been decided. *)
Local Ltac verify_case :=
  split; (split; [intros|]); intros; destruct_and?; simplify_eq/=;
  repeat match goal with
  | H : ∃ _, _ |- _ => destruct H
  | H : _ ∧ _ |- _ => destruct H
  | H : ∀ pub, Some ?p = Some pub → _ |- _ => specialize (H p eq_refl)
  end; simplify_eq/=; try congruence; eauto 10.

Lemma Verify_cases {E : Ed25519} pk sg m :
  (Verify pk sg m = Ok tt ↔
   ∃ pub sig,
     DecodeString (TrimSpace pk) = Some pub ∧ length pub = PublicKeySize ∧
     DecodeString (TrimSpace sg) = Some sig ∧ length sig = SignatureSize ∧
     ed25519_Verify pub m sig = true) ∧
  (Verify pk sg m = Err SignErrInvalidKey ↔
   ∀ pub, DecodeString (TrimSpace pk) = Some pub → length pub ≠ PublicKeySize).
Proof.
  unfold Verify, decodePublicKey.
  destruct (DecodeString (TrimSpace pk)) as [pub|]; [|verify_case].
  destruct (Nat.eqb_spec (length pub) PublicKeySize) as [Hpub|Hpub]; cbn [negb];
    [|verify_case].
  destruct (DecodeString (TrimSpace sg)) as [sig|]; [|verify_case].
  destruct (Nat.eqb_spec (length sig) SignatureSize) as [Hsig|Hsig]; cbn [negb];
    [|verify_case].
  destruct (ed25519_Verify pub m sig) eqn:Hv; verify_case.
Qed.

(** [Verify] accepts exactly when both strings decode to the right sizes
    and the curve check passes; a bad public key is reported before a bad
    signature. *)
Theorem Verify_spec {E : Ed25519} pk sg m :
  (Verify pk sg m = Ok tt ↔
   ∃ pub sig,
     DecodeString (TrimSpace pk) = Some pub ∧ length pub = PublicKeySize ∧
     DecodeString (TrimSpace sg) = Some sig ∧ length sig = SignatureSize ∧
     ed25519_Verify pub m sig = true) ∧
  (Verify pk sg m = Err SignErrInvalidKey ↔
   ∀ pub, DecodeString (TrimSpace pk) = Some pub → length pub ≠ PublicKeySize).
Proof. apply Verify_cases. Qed.

(** *** Signing, then verifying *)

(** Bytes that begin no white space and end none. *)
Definition plain (c : ascii) : bool :=
  forallb (λ p, negb (bool_decide (head p = Some c)) && negb (bool_decide (last p = Some c)))
    space_encodings.

Lemma plain_spec c p :
  plain c = true → p ∈ space_encodings → head p ≠ Some c ∧ last p ≠ Some c.
Proof.
  unfold plain. rewrite forallb_Forall, Forall_forall. intros H Hp.
  specialize (H p Hp). cbn in H. by bool_hyps.
Qed.

Lemma plain_trimmed s : Forall (λ c, plain c = true) (bytes s) → trimmed s.
Proof.
  intros H. rewrite Forall_forall in H. split; apply strip_one_None; intros p l' Hp Heq.
  - destruct p as [|c p]; [by apply space_encodings_nonempty in Hp|].
    destruct (plain_spec c (c :: p)); [apply H; rewrite Heq; left|done|done].
  - apply list_elem_of_In, in_map_iff in Hp as (q & <- & Hq%list_elem_of_In).
    apply (f_equal (@rev ascii)) in Heq. rewrite rev_app_distr, !rev_involutive in Heq.
    destruct q as [|c q _] using rev_ind; [by apply space_encodings_nonempty in Hq|].
    destruct (plain_spec c (q ++ [c])) as [_ Hc]; [|done|].
    + apply H. rewrite Heq. set_solver.
    + by rewrite last_snoc in Hc.
Qed.

Lemma EncodeToString_trimmed l : trimmed (EncodeToString l).
Proof.
  apply plain_trimmed. unfold EncodeToString. rewrite bytes_of_bytes.
  assert (forallb plain (pad :: alphabet) = true) as Hall by (by vm_compute).
  apply forallb_Forall in Hall. rewrite Forall_forall in Hall.
  apply Forall_forall. intros c [Hc| ->]%encode_chars; apply Hall; [by right|left].
Qed.

(** a signature made with [Sign] verifies under the encoded public key of
    the same private key. *)
Theorem Sign_Verify {E : Ed25519} (S : Ed25519Signer E) (k : PrivateKey S) m :
  Verify (PublicKeyBase64 (ed25519_Public S k)) (Sign S k m) m = Ok tt.
Proof.
  apply Verify_cases. exists (ed25519_Public S k), (ed25519_Sign S k m).
  unfold PublicKeyBase64, Sign.
  rewrite !TrimSpace_id, !DecodeString_EncodeToString by apply EncodeToString_trimmed.
  split_and!; [done|apply ed25519_Public_size|done|apply ed25519_Sign_size|].
  apply ed25519_Sign_Verify.
Qed.

(** ** A concrete signer

    A signature scheme that meets [Ed25519Signer]'s laws (with no security):
    the signature is the first 64 bytes of key and message.  It instantiates
    the class where a theorem is applied to concrete data. *)
Definition fit (n : nat) (l : list ascii) : list ascii := take n (l ++ replicate n "0"%char).

Lemma fit_length n l : length (fit n l) = n.
Proof. unfold fit. rewrite length_take, length_app, length_replicate. lia. Qed.

Definition toy_signature (pub m : list ascii) : list ascii :=
  fit SignatureSize (take 8 pub ++ skipn 7 m).

Definition toy_ed25519 : Ed25519 := λ pub m sig, bool_decide (sig = toy_signature pub m).

Definition toy_signer : Ed25519Signer toy_ed25519.
Proof.
  refine (mkSigner toy_ed25519 (list ascii) (fit PublicKeySize)
    (λ k m, toy_signature (fit PublicKeySize k) m) _ _ _).
  - intros k. apply fit_length.
  - intros k m. apply fit_length.
  - intros k m. unfold ed25519_Verify, toy_ed25519. by apply bool_decide_eq_true.
Defined.

Lemma Sign_Verify_witness :
  @Verify toy_ed25519 (PublicKeyBase64 (ed25519_Public toy_signer (bytes "alice")))
    (Sign toy_signer (bytes "alice") (ReadPayload "f")) (ReadPayload "f") = Ok tt.
Proof. apply (Sign_Verify toy_signer). Defined.
