(* ===== verification/Hash.v ===== *)
(** [internal/store/hash.go] and [parseChunkKey] of [internal/store/memory.go]:
    normalising and validating chunk hashes, and the composite chunk keys. *)
From S2P Require Import Prelude GoNum GoStrings Sign.

Local Open Scope Z_scope.

Definition normalizeHash {U : UnicodeTables} (h : string) : string := ToLower (TrimSpace h).

(** The digit test of the loop body. *)
Definition hex_rune (c : Z) : bool := (48 <=? c) && (c <=? 57) || (97 <=? c) && (c <=? 102).

(** [len(h)] counts bytes, the loop visits runes. *)
Definition validHashFormat (h : string) : bool :=
  if negb (length (bytes h) =? 16)%nat then false
  else forallb hex_rune (runes (bytes h)).

Definition hash_sep : ascii := "#"%char.

Definition chunkKey (fileID : string) (index : Z) : string := fileID +:+ "#" +:+ Itoa index.

Definition parseChunkKey (key : string) : string * Z :=
  match SplitN2 key hash_sep with
  | [p0; p1] => let '(idx, _) := Atoi p1 in (p0, idx)
  | _ => (EmptyString, -1)
  end.

(** ** Hash format *)

Definition hex_byte (c : ascii) : bool := hex_rune (byte_Z c).

Lemma hex_rune_ascii c : hex_rune c = true → c < RuneSelf.
Proof. unfold hex_rune, RuneSelf. intros [[? ?]%andb_true_iff|[? ?]%andb_true_iff]%orb_true_iff; lia. Qed.

(** On any input, the runes are all hexadecimal digits iff the bytes are. *)
Lemma runes_go_hex fuel l :
  (length l ≤ fuel)%nat → forallb hex_rune (runes_go fuel l) = forallb hex_byte l.
Proof.
  revert l. induction fuel as [|fuel IH]; intros [|c l] Hl; try done; [cbn in Hl; lia|].
  cbn [runes_go]. destruct (Z.ltb_spec (byte_Z c) RuneSelf) as [Hc|Hc].
  - rewrite decode_rune_ascii by done. cbn. rewrite drop_0, IH by (cbn in Hl; lia). done.
  - pose proof (decode_rune_nonascii c l Hc) as Hr.
    destruct (decode_rune (c :: l)) as [r w]. cbn in Hr |- *.
    assert (hex_rune r = false) as ->.
    { apply not_true_iff_false. intros ?%hex_rune_ascii. lia. }
    assert (hex_byte c = false) as ->; [|done].
    apply not_true_iff_false. intros ?%hex_rune_ascii. lia.
Qed.

Lemma runes_hex l : forallb hex_rune (runes l) = forallb hex_byte l.
Proof. by apply runes_go_hex. Qed.

Lemma validHashFormat_bytes h :
  validHashFormat h = true ↔
  length (bytes h) = 16%nat ∧ Forall (λ c, hex_byte c = true) (bytes h).
Proof.
  unfold validHashFormat. rewrite runes_hex, <- forallb_Forall.
  destruct (Nat.eqb_spec (length (bytes h)) 16); naive_solver.
Qed.

(** the rune loop of [validHashFormat] accepts exactly the strings of
    sixteen bytes 0-9, a-f; no multi-byte or invalid sequence slips through. *)
Theorem validHashFormat_spec h :
  validHashFormat h = true ↔
  length (bytes h) = 16%nat ∧ Forall (λ c, hex_byte c = true) (bytes h).
Proof. apply validHashFormat_bytes. Qed.

Lemma hex_byte_notin sep s :
  hex_byte sep = false → validHashFormat s = true → sep ∉ bytes s.
Proof.
  intros Hsep [_ Hh]%validHashFormat_bytes Hin. rewrite Forall_forall in Hh.
  specialize (Hh sep Hin). congruence.
Qed.

(** A valid hash can be signed: it holds no newline. *)
Lemma valid_hash_no_newline h : validHashFormat h = true → newline ∉ bytes h.
Proof. by apply hex_byte_notin. Qed.

(** ** Chunk keys *)

Lemma bytes_chunkKey f i : bytes (chunkKey f i) = bytes f ++ hash_sep :: Itoa_bytes i.
Proof. unfold chunkKey. by rewrite !bytes_app, bytes_Itoa. Qed.

Lemma hash_sep_notin_Itoa z : hash_sep ∉ Itoa_bytes z.
Proof. intros [H|[d Hd]]%Itoa_chars; [done|]. by vm_compute in Hd. Qed.

(** chunk keys are unambiguous: two (file, index) pairs never share one. *)
Theorem chunkKey_inj f i f' i' :
  int64 i → int64 i' → chunkKey f i = chunkKey f' i' → f = f' ∧ i = i'.
Proof.
  intros Hi Hi' H. apply (f_equal bytes) in H. rewrite !bytes_chunkKey in H.
  apply app_sep_inj_r in H as [Hf Hz]; [|apply hash_sep_notin_Itoa..].
  split; [by apply bytes_inj|]. apply Itoa_inj; [done..|]. unfold Itoa. by rewrite Hz.
Qed.

Lemma chunkKey_inj_witness : int64 7 ∧ int64 8 ∧ "a#1" = ("a" +:+ "#1") ∧ 7 = 7.
Proof.
  assert (int64 7) as H by (by vm_compute).
  split; [done|]. split; [by vm_compute|].
  apply (chunkKey_inj "a#1" 7 ("a" +:+ "#1") 7); [done|done|reflexivity].
Defined.

Lemma parse_chunkKey_iff f i :
  int64 i → (parseChunkKey (chunkKey f i) = (f, i) ↔ hash_sep ∉ bytes f).
Proof.
  intros Hi. unfold parseChunkKey, SplitN2. rewrite bytes_chunkKey.
  destruct (split_at hash_sep (bytes f ++ hash_sep :: Itoa_bytes i)) as [[a b]|] eqn:E;
    [|apply split_at_None in E; set_solver].
  pose proof E as [Hab Ha]%split_at_Some. split.
  - destruct (Atoi (of_bytes b)). intros H. simplify_eq. by rewrite bytes_of_bytes.
  - intros Hf. apply app_sep_inj_l in Hab as [<- <-]; [|done..].
    rewrite of_bytes_bytes. change (of_bytes (Itoa_bytes i)) with (Itoa i).
    by rewrite Atoi_Itoa.
Qed.

(** C38: parsing a chunk key gives the file and the index back exactly when the
    file id has no separator of its own. *)
Theorem parseChunkKey_chunkKey f i :
  int64 i → (parseChunkKey (chunkKey f i) = (f, i) ↔ hash_sep ∉ bytes f).
Proof. apply parse_chunkKey_iff. Qed.

Lemma parseChunkKey_chunkKey_witness :
  int64 3 ∧ parseChunkKey (chunkKey "file" 3) = ("file", 3) ∧
  parseChunkKey (chunkKey "fi#le" 3) ≠ ("fi#le", 3).
Proof.
  assert (int64 3) as H by (by vm_compute).
  split; [done|split].
  - apply parseChunkKey_chunkKey; [done|]. refine (bool_decide_unpack _ _). by vm_compute.
  - intros Hc%parseChunkKey_chunkKey; [|done]. revert Hc. vm_compute. set_solver.
Defined.

(** ** Normalisation *)

Lemma hex_byte_plain c : hex_byte c = true → plain c = true ∧ lower_ascii c = c ∧ byte_Z c < RuneSelf.
Proof.
  intros H.
  assert (bool_decide (plain c = true) && bool_decide (lower_ascii c = c)
          && (byte_Z c <? RuneSelf) = true) as Hall.
  { revert H. apply implb_true_iff. destruct c as [[] [] [] [] [] [] [] []]; by vm_compute. }
  bool_hyps. split_and!; [done..|lia].
Qed.

Lemma valid_hash_trimmed h : validHashFormat h = true → trimmed h.
Proof.
  intros [_ Hh]%validHashFormat_bytes. apply plain_trimmed.
  eapply Forall_impl; [done|]. cbn. intros c Hc. by apply hex_byte_plain.
Qed.

Lemma ToLower_ascii {U : UnicodeTables} s :
  is_ascii (bytes s) = true → ToLower s = of_bytes (map lower_ascii (bytes s)).
Proof. unfold ToLower. by intros ->. Qed.

Lemma map_id_Forall {A} (f : A → A) l : Forall (λ x, f x = x) l → map f l = l.
Proof. induction 1 as [|x l Hx _ IH]; cbn; [done|]. by rewrite Hx, IH. Qed.

Lemma ToLower_valid_hash {U : UnicodeTables} h : validHashFormat h = true → ToLower h = h.
Proof.
  intros [_ Hh]%validHashFormat_bytes. rewrite ToLower_ascii.
  - rewrite map_id_Forall; [apply of_bytes_bytes|].
    eapply Forall_impl; [done|]. cbn. intros c Hc. by apply hex_byte_plain.
  - apply forallb_Forall. eapply Forall_impl; [done|]. cbn. intros c Hc.
    apply Z.ltb_lt. by apply hex_byte_plain.
Qed.

(** a hash that passes validation is a fixed point of normalisation, so
    hashes compared after normalisation are compared up to case and
    surrounding white space, once and for all. *)
Theorem normalizeHash_valid {U : UnicodeTables} h :
  validHashFormat h = true → normalizeHash h = h.
Proof.
  intros H. unfold normalizeHash.
  by rewrite TrimSpace_id, ToLower_valid_hash by auto using valid_hash_trimmed.
Qed.

(** A rune that is not ASCII encodes to bytes that are not hexadecimal, and so
    do the letters the table may bring into ASCII. *)
Lemma encode_rune_nonhex r :
  RuneSelf ≤ r ∨ r = 105 ∨ r = 107 → forallb hex_byte (encode_rune r) = false.
Proof.
  assert (∀ z l, 192 ≤ z < 256 → forallb hex_byte (Z_byte z :: l) = false) as Hlead.
  { intros z l Hz. cbn. unfold hex_byte. rewrite byte_Z_byte by lia.
    destruct (hex_rune z) eqn:E; [|done]. apply hex_rune_ascii in E. unfold RuneSelf in E. lia. }
  intros [Hr|[-> | ->]]; [|done..]. unfold RuneSelf in Hr. unfold encode_rune, in_range.
  repeat case_match; bool_hyps; cbn [map]; try apply Hlead;
    try match goal with H : (_ || _) = true |- _ => apply orb_true_iff in H; destruct H; bool_hyps end;
    Z.div_mod_to_equations; lia.
Qed.

Lemma runes_nonascii fuel l :
  (length l ≤ fuel)%nat → is_ascii l = false → Exists (λ r, RuneSelf ≤ r) (runes_go fuel l).
Proof.
  revert l. induction fuel as [|fuel IH]; intros [|c l] Hl; try done; [cbn in Hl; lia|].
  cbn [is_ascii forallb runes_go]. destruct (Z.ltb_spec (byte_Z c) RuneSelf) as [Hc|Hc].
  - rewrite decode_rune_ascii by done. cbn. rewrite drop_0. intros H. right.
    apply IH; [cbn in Hl; lia|done].
  - intros _. pose proof (decode_rune_nonascii c l Hc) as Hr.
    destruct (decode_rune (c :: l)) as [r w]. by left.
Qed.

Lemma ToLower_nonascii {U : UnicodeTables} {UOk : UnicodeTablesOk U} s :
  is_ascii (bytes s) = false → validHashFormat (ToLower s) = false.
Proof.
  intros H. apply not_true_iff_false. intros [_ Hv]%validHashFormat_bytes.
  unfold ToLower in Hv. rewrite H, bytes_of_bytes in Hv.
  apply (runes_nonascii (length (bytes s))) in H; [|done].
  apply Exists_exists in H as (r & Hr & Hge).
  apply forallb_Forall in Hv. rewrite flat_map_concat_map, map_map in Hv.
  assert (forallb hex_byte (encode_rune (lower_rune r)) = false) as Hf.
  { apply encode_rune_nonhex. unfold lower_rune.
    rewrite (proj2 (Z.ltb_ge r RuneSelf) Hge). by apply unicode_lower_ok. }
  assert (∀ x, x ∈ encode_rune (lower_rune r) → hex_byte x = true) as Hall.
  { intros x Hx. apply forallb_Forall in Hv. rewrite Forall_forall in Hv. apply Hv.
    apply list_elem_of_In, in_concat. exists (encode_rune (lower_rune r)).
    split; [|by apply list_elem_of_In]. apply in_map_iff. exists r.
    split; [done|]. by apply list_elem_of_In. }
  apply not_true_iff_false in Hf. apply Hf. by apply forallb_Forall, Forall_forall.
Qed.

(** the hashes the stores accept are exactly the strings that, without
    surrounding white space, are sixteen hexadecimal digits in either case. *)
Theorem accepted_hash {U : UnicodeTables} {UOk : UnicodeTablesOk U} h :
  validHashFormat (normalizeHash h) = true ↔
  length (bytes (TrimSpace h)) = 16%nat ∧
  Forall (λ c, hex_byte (lower_ascii c) = true) (bytes (TrimSpace h)).
Proof.
  unfold normalizeHash. generalize (TrimSpace h) as s. intros s.
  destruct (is_ascii (bytes s)) eqn:Ha.
  - rewrite ToLower_ascii, validHashFormat_bytes, bytes_of_bytes, length_map by done.
    by rewrite Forall_map.
  - rewrite ToLower_nonascii by done. split; [done|]. intros [_ Hs].
    exfalso. apply not_true_iff_false in Ha. apply Ha, forallb_Forall.
    eapply Forall_impl; [done|]. cbn. intros c Hc. apply Z.ltb_lt.
    revert Hc. unfold lower_ascii. case_match eqn:E; [|by intros (_ & _ & ?)%hex_byte_plain].
    unfold in_range, RuneSelf in *. bool_hyps. lia.
Qed.

(** A table that agrees with Unicode on Latin-1, Greek, Cyrillic and the two
    runes with an ASCII lower case. *)
Definition sample_tables : UnicodeTables := λ r,
  if r =? 304 then 105 else if r =? 8490 then 107
  else if in_range 192 222 r && negb (r =? 215) then r + 32
  else if in_range 913 939 r then r + 32
  else if in_range 1024 1039 r then r + 80
  else if in_range 1040 1071 r then r + 32
  else r.

Lemma sample_tables_ok : UnicodeTablesOk sample_tables.
Proof.
  intros r Hr. unfold unicode_lower, sample_tables, in_range, RuneSelf in *.
  repeat case_match; bool_hyps; lia.
Qed.

Lemma accepted_hash_witness :
  validHashFormat (@normalizeHash sample_tables " DEADbeef01234567 ") = true.
Proof.
  pose proof (@accepted_hash sample_tables sample_tables_ok " DEADbeef01234567 ") as H.
  apply H. split; [by vm_compute|]. apply forallb_Forall. by vm_compute.
Defined.

Lemma normalizeHash_valid_witness :
  validHashFormat "deadbeef01234567" = true ∧
  @normalizeHash sample_tables "deadbeef01234567" = "deadbeef01234567".
Proof.
  split; [by vm_compute|]. by apply (@normalizeHash_valid sample_tables).
Defined.
