(* ===== verification/StoreTypes.v ===== *)
(** What the stores share: the errors and constants of [internal/store/store.go],
    the quality ranking, expiry, the verification of a peer's signature, and
    the sources of non-determinism of a call (clock readings and the iteration
    order of Go maps). *)
From S2P Require Import Prelude GoNum GoStrings Model Sign.

Local Open Scope Z_scope.

(** ** Errors *)

(** The sentinel errors; [ErrInternal] is any other error (a driver error of the
    SQL store), [ErrWrap] what [fmt.Errorf] with the verb w makes of one. *)
Inductive StoreError :=
| ErrNotFound
| ErrInvalidPeer
| ErrInvalidKey
| ErrKeyTaken
| ErrInvalidChunk
| ErrChunkNotFound
| ErrInvalidSignature
| ErrNoSigningKey
| ErrNoPendingMessages
| ErrInternal (msg : string)
| ErrWrap (msg : string) (err : StoreError).

#[export] Instance StoreError_eq_dec : EqDecision StoreError.
Proof. solve_decision. Defined.

(** [err.Error()]. *)
Fixpoint Error (err : StoreError) : string :=
  match err with
  | ErrNotFound => "peer not found"
  | ErrInvalidPeer => "invalid peer data"
  | ErrInvalidKey => "invalid key"
  | ErrKeyTaken => "login+signature pair already belongs to another peer"
  | ErrInvalidChunk => "invalid chunk data"
  | ErrChunkNotFound => "chunk hash not registered"
  | ErrInvalidSignature => "invalid signature"
  | ErrNoSigningKey => "peer has no signature key"
  | ErrNoPendingMessages => "no pending messages for recipient"
  | ErrInternal msg => msg
  | ErrWrap msg err => msg +:+ ": " +:+ Error err
  end.

(** [errors.Is(err, target)]: the error or one it wraps. *)
Fixpoint errors_Is (err target : StoreError) : bool :=
  bool_decide (err = target) ||
  match err with ErrWrap _ err => errors_Is err target | _ => false end.

(** ** Constants *)

Definition InitialQualityScore : Z := 1000.
Definition QualityPointsValid : Z := 1.
Definition QualityPointsInvalid : Z := -1.
Definition defaultTTL : Z := 300.
Definition defaultChunkTTL : Z := 86400.

(** ** Ranking *)

Definition peerFlagExponent (flag : PeerFlag) : Z :=
  (if flag == PeerFlagThin then 1
   else if flag == PeerFlagThick then 2
   else if flag == PeerFlagVeryThick then 3
   else 1)%go.

(** The loop [for i := 0; i < exp; i++ { result *= score }]. *)
Fixpoint power_loop (n : nat) (score result : Z) : Z :=
  match n with
  | O => result
  | S n => power_loop n score (wrap64 (result * score))
  end.

Definition EffectiveScore (peer : Peer) : Z :=
  let exp := peerFlagExponent (peer_PeerFlag peer) in
  let score := peer_QualityScore peer in
  let result := power_loop (Z.to_nat exp) score 1 in
  if (exp mod 2 =? 0) && (score <? 0) && (0 <? result) then wrap64 (- result) else result.

(** ** Expiry *)

Definition isExpired (peer : Peer) (now : Time) : bool :=
  let ttl := if peer_TTLSeconds peer <=? 0 then defaultTTL else peer_TTLSeconds peer in
  seconds ttl <? time_Sub now (peer_LastSeen peer).

(** ** Signatures *)

(** [Verify] fails only with the two sentinels of the package sign, so the
    last [return err] of the code is never reached. *)
Definition verifyPeerSignature {E : Ed25519} (peer : Peer) (signatureB64 : string)
    (message : list ascii) : result StoreError unit :=
  if (peer_SignatureKey peer == "")%go then Err ErrNoSigningKey
  else match Verify (peer_SignatureKey peer) signatureB64 message with
       | Err (SignErrInvalidSignature | SignErrInvalidKey) => Err ErrInvalidSignature
       | Ok _ => Ok tt
       end.

(** ** One call's environment *)

(** [time_Now e i j]: what the i-th call site of [time.Now] of an operation
    reads, in UTC, the j-th time it runs; nothing is assumed of the readings.
    [map_range e i l]: the order in which the i-th [range] loop over the peer
    map visits its entries [l]. *)
Record Env := mkEnv {
  time_Now : nat → nat → Time;
  map_range : nat → list (string * Peer) → list (string * Peer);
}.

(** A range loop visits every entry of the map once, in some order. *)
Definition env_ok (e : Env) : Prop := ∀ i l, map_range e i l ≡ₚ l.

(** The environment where every reading is [t] and maps are visited in the
    order [map_to_list] lists them. *)
Definition env_at (t : Time) : Env := mkEnv (λ _ _, t) (λ _ l, l).

Lemma env_at_ok t : env_ok (env_at t).
Proof. by intros i l. Qed.

(** ** Lemmas on the ranking *)

(** The scores whose power fits in an int64. *)
Definition max_score (exp : Z) : Z :=
  if exp =? 3 then 2097151 else if exp =? 2 then 3037000499 else max_int64.

Definition score_fits (p : Peer) : Prop :=
  Z.abs (peer_QualityScore p) ≤ max_score (peerFlagExponent (peer_PeerFlag p)).

(** Sign-preserving power. *)
Definition signed_pow (score exp : Z) : Z := Z.sgn score * Z.abs score ^ exp.

Lemma peerFlagExponent_cases flag :
  peerFlagExponent flag = 1 ∨ peerFlagExponent flag = 2 ∨ peerFlagExponent flag = 3.
Proof. unfold peerFlagExponent. repeat case_match; auto. Qed.

Lemma square_bound a : 0 ≤ a ≤ 3037000499 → 0 ≤ a * a ≤ max_int64.
Proof. unfold max_int64. intros. nia. Qed.

Lemma cube_bound a : 0 ≤ a ≤ 2097151 → 0 ≤ a * a * a ≤ max_int64.
Proof.
  unfold max_int64. intros H. assert (a * a ≤ 2097151 * 2097151) by nia.
  split; [nia|]. transitivity (2097151 * 2097151 * 2097151); [nia|done].
Qed.

(** As long as no partial product overflows, the loop computes the power. *)
Lemma power_loop_exact n s r :
  (∀ k, (k ≤ n)%nat → int64 (r * s ^ Z.of_nat k)) → power_loop n s r = r * s ^ Z.of_nat n.
Proof.
  revert r. induction n as [|n IH]; intros r H; cbn [power_loop].
  { by rewrite Z.mul_1_r. }
  assert (∀ k, r * s * s ^ Z.of_nat k = r * s ^ Z.of_nat (S k)) as Hk.
  { intros k. rewrite Nat2Z.inj_succ, Z.pow_succ_r by lia. lia. }
  rewrite wrap64_id by (specialize (H 1%nat ltac:(lia)); by rewrite Z.pow_1_r in H).
  rewrite IH, Hk; [done|]. intros k Hle. rewrite Hk. apply H. lia.
Qed.

Lemma score_fits_powers s exp k :
  exp = 1 ∨ exp = 2 ∨ exp = 3 → Z.abs s ≤ max_score exp → (Z.of_nat k ≤ exp) →
  int64 (1 * s ^ Z.of_nat k).
Proof.
  intros Hexp Hs Hk. rewrite Z.mul_1_l.
  assert (Z.abs s ≤ max_int64) by (unfold max_score, max_int64 in *; repeat case_match; lia).
  assert (2 ≤ exp → Z.abs s ≤ 3037000499) by (unfold max_score in *; repeat case_match; lia).
  assert (3 ≤ exp → Z.abs s ≤ 2097151) by (unfold max_score in *; repeat case_match; lia).
  pose proof (square_bound (Z.abs s)) as H2. pose proof (cube_bound (Z.abs s)) as H3.
  unfold int64, min_int64, max_int64 in *.
  destruct k as [|[|[|[|k]]]]; [cbn; lia|rewrite Z.pow_1_r; lia|..|lia].
  - change (Z.of_nat 2) with 2. rewrite Z.pow_2_r. lia.
  - change (Z.of_nat 3) with (Z.succ 2). rewrite Z.pow_succ_r, Z.pow_2_r by lia.
    assert (Z.abs (s * (s * s)) ≤ 2 ^ 63 - 1); [|lia]. rewrite !Z.abs_mul. lia.
Qed.

Lemma EffectiveScore_power p :
  score_fits p →
  EffectiveScore p = signed_pow (peer_QualityScore p) (peerFlagExponent (peer_PeerFlag p)).
Proof.
  unfold score_fits, EffectiveScore, signed_pow.
  set (s := peer_QualityScore p). intros Hs.
  pose proof (peerFlagExponent_cases (peer_PeerFlag p)) as Hexp.
  rewrite power_loop_exact.
  2: { intros k Hk. apply (score_fits_powers s _ k Hexp Hs). lia. }
  rewrite Z2Nat.id, Z.mul_1_l by lia.
  assert (∀ k, (Z.of_nat k ≤ peerFlagExponent (peer_PeerFlag p)) → int64 (s ^ Z.of_nat k)) as Hfit.
  { intros k Hk. rewrite <- Z.mul_1_l. by apply (score_fits_powers s _ k Hexp Hs). }
  assert (Z.sgn s * Z.abs s = s) as Hsgn by (rewrite Z.mul_comm; apply Z.abs_sgn).
  assert (Z.abs s * Z.abs s = s * s) as Habs by lia.
  destruct Hexp as [E|[E|E]]; rewrite E in Hs, Hfit |- *; cbn -[Z.pow wrap64 Z.sgn Z.abs].
  - by rewrite !Z.pow_1_r.
  - specialize (Hfit 2%nat ltac:(lia)). change (Z.of_nat 2) with 2 in Hfit.
    rewrite !Z.pow_2_r in *. unfold int64, min_int64, max_int64 in Hfit.
    rewrite Habs. change (2 mod 2 =? 0) with true.
    destruct (Z.ltb_spec s 0), (Z.ltb_spec 0 (s * s)); cbn -[wrap64];
      rewrite ?wrap64_id by (unfold int64, min_int64, max_int64; lia);
      destruct (Z.sgn_spec s) as [[? ->]|[[? ->]|[? ->]]]; nia.
  - change (3 mod 2 =? 0) with false. change 3 with (Z.succ 2).
    rewrite !Z.pow_succ_r, !Z.pow_2_r by lia.
    rewrite Habs. transitivity (Z.sgn s * Z.abs s * (s * s)); [by rewrite Hsgn|lia].
Qed.

(** C39: as long as the power fits in an int64 (scores up to 3037000499 for a
    thick peer, 2097151 for a very thick one) the effective score is the exact
    power of the score with the sign of the score. *)
Theorem EffectiveScore_exact p :
  score_fits p →
  EffectiveScore p = signed_pow (peer_QualityScore p) (peerFlagExponent (peer_PeerFlag p)).
Proof. apply EffectiveScore_power. Qed.

(** A score that fits is ranked by its value: among peers of one flag, a
    larger score never ranks lower. *)
Lemma signed_pow_mono x y exp :
  1 ≤ exp → x ≤ y → signed_pow x exp ≤ signed_pow y exp.
Proof.
  intros He Hxy. unfold signed_pow.
  pose proof (Z.pow_nonneg (Z.abs x) exp ltac:(lia)) as Hx.
  pose proof (Z.pow_nonneg (Z.abs y) exp ltac:(lia)) as Hy.
  pose proof (Z.pow_le_mono_l (Z.abs x) (Z.abs y) exp) as Hpos.
  pose proof (Z.pow_le_mono_l (Z.abs y) (Z.abs x) exp) as Hneg.
  destruct (Z.sgn_spec x) as [[? ->]|[[? ->]|[? ->]]],
    (Z.sgn_spec y) as [[? ->]|[[? ->]|[? ->]]]; lia.
Qed.

Theorem EffectiveScore_mono p q :
  peer_PeerFlag p = peer_PeerFlag q → score_fits p → score_fits q →
  peer_QualityScore p ≤ peer_QualityScore q → EffectiveScore p ≤ EffectiveScore q.
Proof.
  intros Hflag Hp Hq Hle. rewrite !EffectiveScore_power, Hflag by done.
  apply signed_pow_mono; [|done].
  destruct (peerFlagExponent_cases (peer_PeerFlag q)) as [-> |[-> | ->]]; lia.
Qed.

(** ** Lemmas on expiry *)

Definition effective_ttl (p : Peer) : Z :=
  if peer_TTLSeconds p <=? 0 then defaultTTL else peer_TTLSeconds p.

(** a peer expires exactly when more than its TTL has elapsed since it was
    last seen, provided the TTL is at most [max_seconds] (292 years). *)
Theorem isExpired_exact p now :
  peer_TTLSeconds p ≤ max_seconds →
  (isExpired p now = true ↔ effective_ttl p * Second < time_Sub now (peer_LastSeen p)).
Proof.
  intros H. unfold isExpired, effective_ttl. rewrite Z.ltb_lt, seconds_exact; [done|].
  unfold defaultTTL, max_seconds in *. case_match; lia.
Qed.

(** above that the product wraps around: a peer that registers with a TTL
    between 9223372037 and 18446744073 seconds is expired from the start. *)
Theorem isExpired_overflow p now :
  max_seconds < peer_TTLSeconds p ≤ 2 ^ 64 / Second →
  0 ≤ time_Sub now (peer_LastSeen p) → isExpired p now = true.
Proof.
  intros H Hn. unfold isExpired.
  assert ((peer_TTLSeconds p <=? 0) = false) as -> by (unfold max_seconds in H; lia).
  apply Z.ltb_lt. eapply Z.lt_le_trans; [|exact Hn].
  change (2 ^ 64 / Second) with 18446744073 in H.
  unfold seconds, wrap64, Second, max_seconds in *. Z.div_mod_to_equations; lia.
Qed.

(** ** The theorems on concrete peers *)

(** A peer last seen at the epoch. *)
Definition sample_peer (flag : PeerFlag) (score ttl : Z) : Peer :=
  mkPeer "p" "p" "" "" (mkTime 0 None) ttl score (mkQualityStats 0 0) flag false.

Lemma EffectiveScore_exact_witness :
  EffectiveScore (sample_peer PeerFlagThick (-1000) 300) = -1000000.
Proof. rewrite (EffectiveScore_exact (sample_peer PeerFlagThick (-1000) 300)); by vm_compute. Defined.

Lemma EffectiveScore_mono_witness :
  EffectiveScore (sample_peer PeerFlagVeryThick (-2) 300) ≤
    EffectiveScore (sample_peer PeerFlagVeryThick 2 300).
Proof. apply EffectiveScore_mono; by vm_compute. Defined.

Lemma isExpired_exact_witness :
  isExpired (sample_peer PeerFlagThin 1000 300) (mkTime (301 * Second) None) = true.
Proof. apply (isExpired_exact (sample_peer PeerFlagThin 1000 300)); by vm_compute. Defined.

Lemma isExpired_overflow_witness :
  isExpired (sample_peer PeerFlagThin 1000 10000000000) (mkTime 1 None) = true.
Proof.
  apply (isExpired_overflow (sample_peer PeerFlagThin 1000 10000000000)); [|by vm_compute].
  split; by vm_compute.
Defined.
