(* ===== verification/MemoryStore.v ===== *)
(** [internal/store/memory.go]: the in-memory store.  Its state is a record
    with the four fields of the Go struct, and every method is one definition
    from a state to the next state and the method's result: what it does when
    nothing else touches the store meanwhile.  The mutex, which every method but
    [Refresh] holds for its whole body, sees to that; [Refresh] takes no lock,
    and MemoryRefresh.v and MemoryConc.v model it access by access. *)
From S2P Require Import Prelude GoNum GoStrings GoSort Model Sign Hash StoreTypes.

Local Open Scope Z_scope.

(** ** State *)

Record chunkRecordEntry := mkEntry {
  ce_key : string;
  ce_Hash : string;
  ce_SenderID : string;
  ce_RecipientID : string;
  ce_PeerID : string;
  ce_Persist : bool;
  ce_Confirmed : bool;
  ce_Readed : bool;
  ce_CreatedAt : Z;
  ce_UpdatedAt : Z;
  ce_TTL : Z;
}.

#[export] Instance chunkRecordEntry_eq_dec : EqDecision chunkRecordEntry.
Proof. solve_decision. Defined.

Record MemoryStore := mkMemoryStore {
  peers : gmap string Peer;
  logins : gmap string (list string);
  chunks : list chunkRecordEntry;
  signals : gmap string (list Signal);
}.

Definition NewMemory : MemoryStore := mkMemoryStore ∅ ∅ [] ∅.

(** Reading a missing key of a map of slices gives the nil slice. *)
Definition slice_at {A} (m : gmap string (list A)) (k : string) : list A := default [] (m !! k).

Definition set_peers (s : MemoryStore) (m : gmap string Peer) : MemoryStore :=
  mkMemoryStore m (logins s) (chunks s) (signals s).
Definition set_chunks (s : MemoryStore) (l : list chunkRecordEntry) : MemoryStore :=
  mkMemoryStore (peers s) (logins s) l (signals s).
Definition set_signals (s : MemoryStore) (m : gmap string (list Signal)) : MemoryStore :=
  mkMemoryStore (peers s) (logins s) (chunks s) m.

(** [removeID]: drop the first occurrence. *)
Fixpoint removeID (ids : list string) (id : string) : list string :=
  match ids with
  | [] => []
  | v :: ids => if (v == id)%go then ids else v :: removeID ids id
  end.

(** ** Registration *)

Definition Upsert (e : Env) (s : MemoryStore) (req : RegisterRequest) :
    MemoryStore * result StoreError unit :=
  let id := TrimSpace (reg_ID req) in
  if (id == "")%go then (s, Err ErrInvalidPeer) else
  let ttl := if reg_TTLSeconds req <=? 0 then defaultTTL else reg_TTLSeconds req in
  let now := time_Now e 0 0 in
  let login := TrimSpace (reg_Login req) in
  let '(peer, logins1) :=
    match peers s !! id with
    | Some existing =>
      (mkPeer id login (peer_EncryptionKey existing) (peer_SignatureKey existing) now ttl
         (peer_QualityScore existing) (peer_Quality existing)
         (if (reg_PeerFlag req != "")%go then reg_PeerFlag req else peer_PeerFlag existing)
         (peer_Fake existing),
       <[Key existing := removeID (slice_at (logins s) (Key existing)) id]> (logins s))
    | None =>
      (mkPeer id login (TrimSpace (reg_EncryptionKey req)) (TrimSpace (reg_SignatureKey req))
         now ttl InitialQualityScore (mkQualityStats 0 0) (reg_PeerFlag req)
         (default false (reg_Fake req)),
       logins s)
    end in
  let logins2 := <[Key peer := slice_at logins1 (Key peer) ++ [id]]> logins1 in
  (mkMemoryStore (<[id := peer]> (peers s)) logins2 (chunks s) (signals s), Ok tt).

Definition with_LastSeen (p : Peer) (now : Time) : Peer :=
  mkPeer (peer_ID p) (peer_Login p) (peer_EncryptionKey p) (peer_SignatureKey p) now
    (peer_TTLSeconds p) (peer_QualityScore p) (peer_Quality p) (peer_PeerFlag p) (peer_Fake p).
Definition with_TTLSeconds (p : Peer) (ttl : Z) : Peer :=
  mkPeer (peer_ID p) (peer_Login p) (peer_EncryptionKey p) (peer_SignatureKey p) (peer_LastSeen p)
    ttl (peer_QualityScore p) (peer_Quality p) (peer_PeerFlag p) (peer_Fake p).
Definition with_Score (p : Peer) (score : Z) (q : QualityStats) : Peer :=
  mkPeer (peer_ID p) (peer_Login p) (peer_EncryptionKey p) (peer_SignatureKey p) (peer_LastSeen p)
    (peer_TTLSeconds p) score q (peer_PeerFlag p) (peer_Fake p).

(** The key of the request is not trimmed, and not compared with the peer's.
    This is the call that nothing overlaps; [refresh_step] of MemoryRefresh.v has
    the accesses that others may come between. *)
Definition Refresh (e : Env) (s : MemoryStore) (req : RefreshRequest) :
    MemoryStore * result StoreError unit :=
  let id := TrimSpace (refr_ID req) in
  if (id == "")%go then (s, Err ErrInvalidPeer) else
  let key := refr_Login req +:+ ":" +:+ refr_SignatureKey req in
  match peers s !! id with
  | Some existing =>
    let existing := with_LastSeen existing (time_Now e 0 0) in
    (mkMemoryStore (<[id := existing]> (peers s))
       (<[key := slice_at (logins s) key ++ [id]]> (logins s)) (chunks s) (signals s), Ok tt)
  | None => (s, Ok tt)
  end.

Definition Heartbeat (e : Env) (s : MemoryStore) (id : string) (ttlSeconds : Z) :
    MemoryStore * result StoreError Peer :=
  match peers s !! id with
  | None => (s, Err ErrNotFound)
  | Some peer =>
    let peer := if 0 <? ttlSeconds then with_TTLSeconds peer ttlSeconds else peer in
    let peer := with_LastSeen peer (time_Now e 0 0) in
    (set_peers s (<[id := peer]> (peers s)), Ok peer)
  end.

Definition Delete (s : MemoryStore) (id : string) : MemoryStore * result StoreError unit :=
  match peers s !! id with
  | None => (s, Err ErrNotFound)
  | Some peer =>
    (mkMemoryStore (delete id (peers s))
       (<[Key peer := removeID (slice_at (logins s) (Key peer)) id]> (logins s))
       (chunks s) (signals s), Ok tt)
  end.

(** Exported for the tests only. *)
Definition SetPeerScore (s : MemoryStore) (id : string) (score : Z) :
    MemoryStore * result StoreError unit :=
  match peers s !! id with
  | None => (s, Err ErrNotFound)
  | Some p =>
    (set_peers s (<[id := with_Score p score (peer_Quality p)]> (peers s)), Ok tt)
  end.

(** ** Look-up *)

Definition Get (e : Env) (s : MemoryStore) (id : string) : result StoreError Peer :=
  match peers s !! id with
  | None => Err ErrNotFound
  | Some peer => if isExpired peer (time_Now e 0 0) then Err ErrNotFound else Ok peer
  end.

(** The peers of a list of ids that exist and are not expired, in its order. *)
Definition live_peers (s : MemoryStore) (now : Time) (ids : list string) : list Peer :=
  omap (λ id,
    match peers s !! id with
    | Some peer => if isExpired peer now then None else Some peer
    | None => None
    end) ids.

Definition GetByKey (e : Env) (s : MemoryStore) (login signature : string) :
    result StoreError (list Peer) :=
  let login := TrimSpace login in
  let signature := TrimSpace signature in
  if ((login == "") || (signature == ""))%go then Err ErrInvalidKey else
  match logins s !! (login +:+ ":" +:+ signature) with
  | None => Err ErrNotFound
  | Some ids =>
    match live_peers s (time_Now e 0 0) ids with
    | [] => Err ErrNotFound
    | out => Ok out
    end
  end.

(** The peers a [range s.peers] loop visits, in its order. *)
Definition range_peers (e : Env) (i : nat) (s : MemoryStore) : list Peer :=
  map snd (map_range e i (map_to_list (peers s))).

Definition List (e : Env) (s : MemoryStore) : result StoreError (list Peer) :=
  let now := time_Now e 0 0 in
  Ok (List.filter (λ peer, negb (isExpired peer now) && negb (peer_Fake peer))
        (range_peers e 0 s)).

(** [active[:n]] after clamping [n] to the length. *)
Definition best {S : SliceSort} (n : Z) (active : list Peer) : list Peer :=
  let active := sort_Slice (greater_by EffectiveScore) active in
  let n := if Z.of_nat (length active) <? n then Z.of_nat (length active) else n in
  take (Z.to_nat n) active.

Definition GetBestPeers {S : SliceSort} (e : Env) (s : MemoryStore) (n : Z) :
    result StoreError (list Peer) :=
  if n <=? 0 then Ok [] else
  let now := time_Now e 0 0 in
  Ok (best n (List.filter (λ peer, negb (isExpired peer now) && negb (peer_Fake peer))
                (range_peers e 0 s))).

Definition GetBestThickPeers {S : SliceSort} (e : Env) (s : MemoryStore) (n : Z) :
    result StoreError (list Peer) :=
  if n <=? 0 then Ok [] else
  let now := time_Now e 0 0 in
  Ok (best n (List.filter (λ peer,
      if isExpired peer now || peer_Fake peer then false
      else (peer_PeerFlag peer == PeerFlagThick)%go
           || (peer_PeerFlag peer == PeerFlagVeryThick)%go) (range_peers e 0 s))).

(** [peerByKey]: the first peer in the iteration order that has the key and is
    not expired; the clock is read once for every peer with the key. *)
Fixpoint peerByKey_loop (now : nat → Time) (key : string) (l : list Peer) : option Peer :=
  match l with
  | [] => None
  | peer :: l =>
    if (Key peer == key)%go then
      if negb (isExpired peer (now 0%nat)) then Some peer
      else peerByKey_loop (λ j, now (S j)) key l
    else peerByKey_loop now key l
  end.
Definition peerByKey (e : Env) (i : nat) (s : MemoryStore) (key : string) : option Peer :=
  peerByKey_loop (time_Now e i) key (range_peers e i s).

(** [copyStrings], a helper of the package. *)
Definition copyStrings (l : list string) : list string :=
  List.filter (λ a, (a != "")%go) (map TrimSpace l).

(** ** Chunks *)

Section Chunks.
Context {U : UnicodeTables} {E : Ed25519}.

Definition blank (s : string) : bool := (TrimSpace s == "")%go.

Definition SetChunkHash (e : Env) (s : MemoryStore) (fileID : string) (chunkIndex : Z)
    (req : RegisterChunkRequest) : MemoryStore * result StoreError unit :=
  let fileID := TrimSpace fileID in
  let senderKey := TrimSpace (rc_SenderID req) in
  let recipientKey := TrimSpace (rc_RecipientID req) in
  let peerID := TrimSpace (rc_PeerID req) in
  let hash := normalizeHash (rc_Hash req) in
  if ((fileID == "") || (senderKey == "") || (recipientKey == "") || (peerID == "")
      || (hash == "") || negb (validHashFormat hash) || (chunkIndex <? 0)%Z
      || blank (rc_Signature req))%go
  then (s, Err ErrInvalidChunk) else
  match peerByKey e 0 s senderKey with
  | None => (s, Err ErrNotFound)
  | Some sender =>
    match verifyPeerSignature sender (rc_Signature req) (ExpectedPayload fileID chunkIndex hash) with
    | Err err => (s, Err err)
    | Ok _ =>
      let chunkTTL := if rc_TTL req <=? 0 then defaultChunkTTL else rc_TTL req in
      let now := time_Unix (time_Now e 1 0) in
      (set_chunks s (chunks s ++
         [mkEntry (chunkKey fileID chunkIndex) hash senderKey recipientKey peerID
            (rc_Persist req) false false now now chunkTTL]), Ok tt)
    end
  end.

(** One more report, good or bad, and the point it is worth. *)
Definition score_report (peer : Peer) (valid : bool) : Peer :=
  let delta := if valid then QualityPointsValid else QualityPointsInvalid in
  let q := peer_Quality peer in
  with_Score peer (wrap64 (peer_QualityScore peer + delta))
    (if valid then mkQualityStats (wrap64 (ValidReports q + 1)) (InvalidReports q)
     else mkQualityStats (ValidReports q) (wrap64 (InvalidReports q + 1))).

(** The hash of the first entry with the key: the loop with [break]. *)
Definition expected_hash (l : list chunkRecordEntry) (key : string) : string :=
  match list_find (λ c, ce_key c = key) l with
  | Some (_, c) => ce_Hash c
  | None => EmptyString
  end.

Definition ReportChunk (s : MemoryStore) (sourcePeerID : string) (req : ChunkReportRequest) :
    MemoryStore * result StoreError ChunkReportResult :=
  let sourcePeerID := TrimSpace sourcePeerID in
  let reporterID := TrimSpace (rep_ReporterID req) in
  let fileID := TrimSpace (rep_FileID req) in
  let reported := normalizeHash (rep_Hash req) in
  if ((sourcePeerID == "") || (reporterID == "") || (fileID == "") || (reported == "")
      || negb (validHashFormat reported) || (rep_ChunkIndex req <? 0)%Z
      || blank (rep_Signature req))%go
  then (s, Err ErrInvalidChunk) else
  let key := chunkKey fileID (rep_ChunkIndex req) in
  match peers s !! reporterID with
  | None => (s, Err ErrNotFound)
  | Some reporter =>
    let msg := ReportedPayload fileID (rep_ChunkIndex req) reported sourcePeerID in
    match verifyPeerSignature reporter (rep_Signature req) msg with
    | Err err => (s, Err err)
    | Ok _ =>
      let expected := expected_hash (chunks s) key in
      if (expected == "")%go then (s, Err ErrChunkNotFound) else
      match peers s !! sourcePeerID with
      | None => (s, Err ErrNotFound)
      | Some peer =>
        let valid := (reported == expected)%go in
        let delta := if valid then QualityPointsValid else QualityPointsInvalid in
        let peer := score_report peer valid in
        (set_peers s (<[sourcePeerID := peer]> (peers s)),
         Ok (mkChunkReportResult valid expected reported delta peer))
      end
    end
  end.

Definition with_Confirmed (c : chunkRecordEntry) (now : Z) : chunkRecordEntry :=
  mkEntry (ce_key c) (ce_Hash c) (ce_SenderID c) (ce_RecipientID c) (ce_PeerID c) (ce_Persist c)
    true (ce_Readed c) (ce_CreatedAt c) now (ce_TTL c).
Definition with_Readed (c : chunkRecordEntry) (now : Z) : chunkRecordEntry :=
  mkEntry (ce_key c) (ce_Hash c) (ce_SenderID c) (ce_RecipientID c) (ce_PeerID c) (ce_Persist c)
    (ce_Confirmed c) true (ce_CreatedAt c) now (ce_TTL c).

(** [entry] is a pointer into the slice: confirming writes through it. *)
Definition ConfirmChunk (e : Env) (s : MemoryStore) (req : ConfirmChunkRequest) :
    MemoryStore * result StoreError ConfirmChunkResult :=
  let recipientKey := TrimSpace (conf_RecipientID req) in
  let fileID := TrimSpace (conf_FileID req) in
  let confirmed := normalizeHash (conf_Hash req) in
  if ((recipientKey == "") || (fileID == "") || (confirmed == "")
      || negb (validHashFormat confirmed) || (conf_ChunkIndex req <? 0)%Z
      || blank (conf_Signature req))%go
  then (s, Err ErrInvalidChunk) else
  let key := chunkKey fileID (conf_ChunkIndex req) in
  match peerByKey e 0 s recipientKey with
  | None => (s, Err ErrNotFound)
  | Some recipient =>
    let msg := ConfirmedPayload fileID (conf_ChunkIndex req) confirmed in
    match verifyPeerSignature recipient (conf_Signature req) msg with
    | Err err => (s, Err err)
    | Ok _ =>
      match list_find (λ c, ce_key c = key ∧ ce_RecipientID c = recipientKey) (chunks s) with
      | None => (s, Err ErrChunkNotFound)
      | Some (i, entry) =>
        match peerByKey e 1 s (ce_SenderID entry) with
        | None => (s, Err ErrNotFound)
        | Some senderPeer =>
          let valid := (confirmed == ce_Hash entry)%go in
          let delta := if valid then QualityPointsValid else QualityPointsInvalid in
          let senderPeer := score_report senderPeer valid in
          let chunks' :=
            if valid
            then <[i := with_Confirmed entry (time_Unix (time_Now e 2 0))]> (chunks s)
            else chunks s in
          (mkMemoryStore (<[peer_ID senderPeer := senderPeer]> (peers s)) (logins s) chunks'
             (signals s),
           Ok (mkConfirmChunkResult valid (ce_Hash entry) confirmed delta senderPeer))
        end
      end
    end
  end.

(** The entries [ReadChunk] marks. *)
Definition read_matches (recipientKey fileID : string) (c : chunkRecordEntry) : bool :=
  ((ce_RecipientID c == recipientKey) && ((parseChunkKey (ce_key c)).1 == fileID))%go.

Definition ReadChunk (e : Env) (s : MemoryStore) (req : ReadChunkRequest) :
    MemoryStore * result StoreError ReadChunkResult :=
  let recipientKey := TrimSpace (read_RecipientID req) in
  let fileID := TrimSpace (read_FileID req) in
  if ((fileID == "") || blank (read_Signature req))%go
  then (s, Err ErrInvalidChunk) else
  match peerByKey e 0 s recipientKey with
  | None => (s, Err ErrNotFound)
  | Some recipient =>
    match verifyPeerSignature recipient (read_Signature req) (ReadPayload fileID) with
    | Err err => (s, Err err)
    | Ok _ =>
      let now := time_Unix (time_Now e 1 0) in
      let marked := existsb (read_matches recipientKey fileID) (chunks s) in
      let s' := set_chunks s (map (λ c,
        if read_matches recipientKey fileID c then with_Readed c now else c) (chunks s)) in
      if negb marked then (s', Err ErrChunkNotFound) else (s', Ok (mkReadChunkResult true))
    end
  end.

End Chunks.

(** The record of an entry, under the file id the reader asked for or the one
    parsed from the key. *)
Definition chunk_record (fileID : string) (idx : Z) (c : chunkRecordEntry) : ChunkRecord :=
  mkChunkRecord fileID idx (ce_SenderID c) (ce_RecipientID c) (ce_Hash c) (ce_PeerID c)
    (ce_Persist c) (ce_Confirmed c) (ce_Readed c) (ce_CreatedAt c) (ce_UpdatedAt c) (ce_TTL c).

Definition GetChunksByRecipient (s : MemoryStore) (recipientID : string) (dateFrom : Z) :
    result StoreError (list ChunkRecord) :=
  let recipientID := TrimSpace recipientID in
  if (recipientID == "")%go then Err ErrInvalidChunk else
  Ok (omap (λ c,
    if ((ce_RecipientID c != recipientID) || (ce_UpdatedAt c <? dateFrom)%Z)%go then None
    else let '(fileID, idx) := parseChunkKey (ce_key c) in Some (chunk_record fileID idx c))
    (chunks s)).

Definition GetChunksByFileID (s : MemoryStore) (fileID : string) :
    result StoreError (list ChunkRecord) :=
  let fileID := TrimSpace fileID in
  if (fileID == "")%go then Err ErrInvalidChunk else
  Ok (omap (λ c,
    let '(fid, idx) := parseChunkKey (ce_key c) in
    if (fid != fileID)%go then None else Some (chunk_record fileID idx c))
    (chunks s)).

(** *** Removal of expired chunks *)

Definition chunk_expired (now : Z) (c : chunkRecordEntry) : bool :=
  negb (ce_Persist c) && (wrap64 (ce_CreatedAt c + ce_TTL c) <? now).

(** [kept := s.chunks[:0]] shares the array of [s.chunks]: the loop reads
    element [i] of the array and appends to [kept] by writing element [j] of
    the same array.  The state of the loop is the array, [j] and the count. *)
Definition compact_step (now : Z) (st : list chunkRecordEntry * nat * Z) (i : nat) :
    list chunkRecordEntry * nat * Z :=
  let '(arr, j, deleted) := st in
  match arr !! i with
  | Some entry =>
    if chunk_expired now entry then (arr, j, deleted + 1)
    else (<[j := entry]> arr, S j, deleted)
  | None => st
  end.

Definition DeleteExpiredChunks (e : Env) (s : MemoryStore) : MemoryStore * result StoreError Z :=
  let now := time_Unix (time_Now e 0 0) in
  let '(arr, j, deleted) :=
    fold_left (compact_step now) (seq 0 (length (chunks s))) (chunks s, 0%nat, 0) in
  (set_chunks s (take j arr), Ok deleted).

(** ** Signals *)

Definition SetSignal (s : MemoryStore) (peerID : string) (sig : Signal) :
    MemoryStore * result StoreError unit :=
  let peerID := TrimSpace peerID in
  if ((peerID == "") || (sig_From sig == "") || (sig_Type sig == ""))%go
  then (s, Err ErrInvalidChunk) else
  match peers s !! peerID with
  | None => (s, Err ErrNotFound)
  | Some _ =>
    (set_signals s (<[peerID := slice_at (signals s) peerID ++ [sig]]> (signals s)), Ok tt)
  end.

Definition PollSignals (s : MemoryStore) (peerID : string) :
    MemoryStore * result StoreError (list Signal) :=
  let peerID := TrimSpace peerID in
  if (peerID == "")%go then (s, Err ErrInvalidChunk) else
  (set_signals s (delete peerID (signals s)), Ok (slice_at (signals s) peerID)).
