(* ===== verification/Samples.v ===== *)
(** Concrete stores, requests and environments, for the instances that show the
    hypotheses of the store's theorems can hold. *)
From S2P Require Import Prelude GoNum GoStrings GoSort Model Sign Hash StoreTypes MemoryStore.

Local Open Scope Z_scope.

(** [n] seconds after the epoch, as [time.Now().UTC()] reads it. *)
Definition at_second (n : Z) : Time := mkTime (n * Second) None.
Definition env_second (n : Z) : Env := env_at (at_second n).

Lemma env_second_ok n : env_ok (env_second n).
Proof. apply env_at_ok. Qed.

Definition toy_pub (name : string) : string :=
  PublicKeyBase64 (ed25519_Public toy_signer (bytes name)).
Definition toy_sign (name : string) (m : list ascii) : string := Sign toy_signer (bytes name) m.

Definition register (id name : string) : RegisterRequest :=
  mkRegisterRequest id name "enc" (toy_pub name) 0 "" None.

Definition key_of (id : string) : string := id +:+ ":" +:+ toy_pub id.

(** Alice and Bob register at second 100. *)
Definition two_peers : MemoryStore :=
  (Upsert (env_second 100) (Upsert (env_second 100) NewMemory (register "alice" "alice")).1
     (register " bob " "bob")).1.

Definition sample_hash : string := "deadbeef01234567".

(** Alice announces chunk 0 of a file for Bob. *)
Definition announce (file : string) : RegisterChunkRequest :=
  mkRegisterChunkRequest (key_of "alice") (key_of "bob") "DEADbeef01234567"
    (toy_sign "alice" (ExpectedPayload file 0 sample_hash)) "bob" false 0.

Definition announced : MemoryStore :=
  (@SetChunkHash sample_tables toy_ed25519 (env_second 110) two_peers "file" 0 (announce "file")).1.

Definition confirmation (hash : string) : ConfirmChunkRequest :=
  mkConfirmChunkRequest (key_of "bob") "file" 0 hash
    (toy_sign "bob" (ConfirmedPayload "file" 0 hash)).

Definition report (hash : string) : ChunkReportRequest :=
  mkChunkReportRequest "alice" "file" 0 hash
    (toy_sign "alice" (ReportedPayload "file" 0 hash "bob")).

Definition reading : ReadChunkRequest :=
  mkReadChunkRequest (key_of "bob") "file" (toy_sign "bob" (ReadPayload "file")).

Definition score_of (s : MemoryStore) (id : string) : option Z :=
  peer_QualityScore <$> peers s !! id.
