(* ===== verification/MemoryIndex.v ===== *)
(** The login index of the in-memory store: what ties [logins] to [peers], that
    every method keeps it, and that [GetByKey] therefore answers as a scan of
    the peers would. *)
From S2P Require Import Prelude GoNum GoStrings GoSort Model Sign Hash StoreTypes MemoryStore.

Local Open Scope Z_scope.

(** ** The invariants *)

(** Every record sits under its own id, which is trimmed and not empty, and has
    a positive TTL. *)
Definition peers_ok (s : MemoryStore) : Prop :=
  map_Forall (λ id p, peer_ID p = id ∧ trimmed id ∧ id ≠ EmptyString ∧ 0 < peer_TTLSeconds p)
    (peers s).

(** Every peer is listed under its key: [GetByKey] misses none. *)
Definition index_complete (s : MemoryStore) : Prop :=
  map_Forall (λ id p, id ∈ slice_at (logins s) (Key p)) (peers s).

(** Nothing else is listed, and nothing twice: [GetByKey] invents none. *)
Definition index_sound (s : MemoryStore) : Prop :=
  ∀ k, NoDup (slice_at (logins s) k) ∧
       ∀ id, id ∈ slice_at (logins s) k → ∃ p, peers s !! id = Some p ∧ Key p = k.

(** ** Lemmas on slices and [removeID] *)

Lemma slice_at_insert {A} (m : gmap string (list A)) k k' l :
  slice_at (<[k := l]> m) k' = if decide (k = k') then l else slice_at m k'.
Proof. unfold slice_at. rewrite lookup_insert. by case_decide. Qed.

Lemma slice_at_empty {A} k : slice_at (∅ : gmap string (list A)) k = [].
Proof. unfold slice_at. by rewrite lookup_empty. Qed.

Lemma elem_of_removeID ids id id' : id' ∈ removeID ids id → id' ∈ ids.
Proof.
  induction ids as [|v ids IH]; cbn; [done|]. case_match; [by right|].
  rewrite !elem_of_cons. naive_solver.
Qed.

Lemma elem_of_removeID_ne ids id id' : id' ≠ id → id' ∈ ids → id' ∈ removeID ids id.
Proof.
  intros Hne. induction ids as [|v ids IH]; cbn; [done|].
  rewrite elem_of_cons. case_match; bool_hyps; [naive_solver|].
  rewrite elem_of_cons. naive_solver.
Qed.

Lemma NoDup_removeID ids id : NoDup ids → NoDup (removeID ids id) ∧ id ∉ removeID ids id.
Proof.
  induction 1 as [|v ids Hv Hids [IH1 IH2]]; cbn; [split; [constructor|set_solver]|].
  case_match; bool_hyps; [by subst|]. split.
  - constructor; [|done]. by intros ?%elem_of_removeID.
  - rewrite elem_of_cons. intros [?|?]; congruence.
Qed.

#[export] Hint Resolve elem_of_removeID elem_of_removeID_ne : muninn.

(** ** Changing a peer without its identity *)

(** An update of one record that keeps its id, its key and a positive TTL. *)
Definition same_identity (p p' : Peer) : Prop :=
  peer_ID p' = peer_ID p ∧ Key p' = Key p ∧ (0 < peer_TTLSeconds p → 0 < peer_TTLSeconds p').

Section Update.
Context (s : MemoryStore) (id : string) (p p' : Peer).
Context (Hp : peers s !! id = Some p) (Hid : same_identity p p').

Lemma peers_ok_update l c g :
    peers_ok s → peers_ok (mkMemoryStore (<[id := p']> (peers s)) l c g).
  Proof using Hp Hid.
    intros H. apply map_Forall_insert_2; [|done].
    destruct (H id p Hp) as (<- & ? & ? & ?), Hid as (-> & _ & ?). auto.
  Qed.

Lemma index_complete_update c g :
    index_complete s → index_complete (mkMemoryStore (<[id := p']> (peers s)) (logins s) c g).
  Proof using Hp Hid.
    intros H. apply map_Forall_insert_2; [|done]. cbn.
    destruct Hid as (_ & -> & _). by apply (H id p).
  Qed.

Lemma index_sound_update c g :
    index_sound s → index_sound (mkMemoryStore (<[id := p']> (peers s)) (logins s) c g).
  Proof using Hp Hid.
    intros H k. destruct (H k) as [Hnd Hin]. split; [done|]. cbn.
    intros id' (q & Hq & Hk)%Hin. destruct (decide (id = id')) as [<-|Hne].
    - exists p'. rewrite lookup_insert_eq. destruct Hid as (_ & -> & _). by simplify_eq.
    - exists q. by rewrite lookup_insert_ne.
  Qed.
End Update.

Lemma with_LastSeen_identity p t : same_identity p (with_LastSeen p t).
Proof. done. Qed.
Lemma with_TTLSeconds_identity p ttl : 0 < ttl → same_identity p (with_TTLSeconds p ttl).
Proof. done. Qed.
Lemma with_Score_identity p n q : same_identity p (with_Score p n q).
Proof. done. Qed.
Lemma score_report_identity p v : same_identity p (score_report p v).
Proof. done. Qed.
Lemma same_identity_trans p q r : same_identity p q → same_identity q r → same_identity p r.
Proof. unfold same_identity. intros (? & ? & ?) (? & ? & ?). split_and!; [congruence..|auto]. Qed.

#[export] Hint Resolve with_LastSeen_identity with_TTLSeconds_identity with_Score_identity
  score_report_identity peers_ok_update index_complete_update index_sound_update : muninn.

(** ** Moving an id between keys *)

Section Move.
Context (m : gmap string Peer) (l : gmap string (list string)) (id : string).

Definition add_id (k : string) : gmap string (list string) :=
    <[k := slice_at l k ++ [id]]> l.
Definition drop_id (k : string) : gmap string (list string) :=
    <[k := removeID (slice_at l k) id]> l.

  (** The index is complete (sound) for the ids other than [id]. *)
Definition complete_away : Prop :=
    ∀ id' q, id' ≠ id → m !! id' = Some q → id' ∈ slice_at l (Key q).
Definition sound_away : Prop :=
    ∀ k, NoDup (slice_at l k) ∧
         ∀ id', id' ∈ slice_at l k → id' ≠ id ∧ ∃ q, m !! id' = Some q ∧ Key q = k.
End Move.

Lemma index_complete_away s id : index_complete s → complete_away (peers s) (logins s) id.
Proof. intros H id' q _ Hq. by apply (H id' q). Qed.

Lemma complete_away_drop m l id k : complete_away m l id → complete_away m (drop_id l id k) id.
Proof.
  intros H id' q Hne Hq. unfold drop_id. rewrite slice_at_insert.
  case_decide; subst; auto with muninn.
Qed.

Lemma index_complete_add m l id p c g :
  complete_away m l id → index_complete (mkMemoryStore (<[id := p]> m) (add_id l id (Key p)) c g).
Proof.
  intros H id' q Hlk. cbn in Hlk. apply lookup_insert_Some in Hlk as [[<- <-]|[Hne Hq]];
    cbn; unfold add_id; rewrite slice_at_insert; case_decide as E; try done; rewrite ?elem_of_app; [set_solver|..].
  - left. rewrite E. by apply H.
  - by apply H.
Qed.

Lemma index_complete_delete m l id c g :
  complete_away m l id → index_complete (mkMemoryStore (delete id m) l c g).
Proof.
  intros H id' q Hlk. cbn in Hlk. apply lookup_delete_Some in Hlk as [Hne Hq]. by apply H.
Qed.

Lemma index_sound_away s id :
  index_sound s → peers s !! id = None → sound_away (peers s) (logins s) id.
Proof.
  intros H Hn k. destruct (H k) as [Hnd Hin]. split; [done|].
  intros id' (q & Hq & Hk)%Hin. split; [congruence|eauto].
Qed.

Lemma sound_away_drop s id p :
  index_sound s → peers s !! id = Some p →
  sound_away (peers s) (drop_id (logins s) id (Key p)) id.
Proof.
  intros H Hp k. unfold drop_id. rewrite slice_at_insert. destruct (H k) as [Hnd Hin].
  case_decide as E; subst.
  - destruct (NoDup_removeID _ id Hnd) as [Hnd' Hid]. split; [done|].
    intros id' Hid'. split; [congruence|]. by apply Hin, (elem_of_removeID _ id).
  - split; [done|]. intros id' Hid'. destruct (Hin id' Hid') as (q & Hq & Hk).
    split; [congruence|eauto].
Qed.

Lemma index_sound_add m l id p c g :
  sound_away m l id → index_sound (mkMemoryStore (<[id := p]> m) (add_id l id (Key p)) c g).
Proof.
  intros H k. cbn. unfold add_id. rewrite slice_at_insert. destruct (H k) as [Hnd Hin].
  assert (∀ id', id' ∈ slice_at l k → ∃ q, <[id:=p]> m !! id' = Some q ∧ Key q = k) as Hin'.
  { intros id' (Hne & q & Hq & Hk)%Hin. exists q. by rewrite lookup_insert_ne. }
  case_decide as E; [subst|by split].
  split.
  - apply NoDup_app. split; [done|]. split; [|apply NoDup_singleton].
    intros id' Hid' ->%list_elem_of_singleton. by destruct (Hin id Hid').
  - intros id' [?| ->%list_elem_of_singleton]%elem_of_app; [auto|].
    exists p. by rewrite lookup_insert_eq.
Qed.

Lemma index_sound_delete m l id c g :
  sound_away m l id → index_sound (mkMemoryStore (delete id m) l c g).
Proof.
  intros H k. destruct (H k) as [Hnd Hin]. split; [done|].
  intros id' (Hne & q & Hq & Hk)%Hin. exists q. cbn. by rewrite lookup_delete_ne.
Qed.

(** ** Registration and deletion keep the invariants *)

(** The record [Upsert] stores for a trimmed, non-empty id. *)
Definition upsert_record (e : Env) (s : MemoryStore) (req : RegisterRequest) : Peer :=
  let id := TrimSpace (reg_ID req) in
  let ttl := if reg_TTLSeconds req <=? 0 then defaultTTL else reg_TTLSeconds req in
  match peers s !! id with
  | Some p =>
    mkPeer id (TrimSpace (reg_Login req)) (peer_EncryptionKey p) (peer_SignatureKey p)
      (time_Now e 0 0) ttl (peer_QualityScore p) (peer_Quality p)
      (if (reg_PeerFlag req == "")%go then peer_PeerFlag p else reg_PeerFlag req) (peer_Fake p)
  | None =>
    mkPeer id (TrimSpace (reg_Login req)) (TrimSpace (reg_EncryptionKey req))
      (TrimSpace (reg_SignatureKey req)) (time_Now e 0 0) ttl InitialQualityScore
      (mkQualityStats 0 0) (reg_PeerFlag req) (default false (reg_Fake req))
  end.

(** The index [Upsert] starts from: without the id when it was registered. *)
Definition upsert_logins (s : MemoryStore) (id : string) : gmap string (list string) :=
  match peers s !! id with
  | Some p => drop_id (logins s) id (Key p)
  | None => logins s
  end.

Lemma Upsert_eq e s req :
  let id := TrimSpace (reg_ID req) in
  let p := upsert_record e s req in
  Upsert e s req =
    if (id == "")%go then (s, Err ErrInvalidPeer)
    else (mkMemoryStore (<[id := p]> (peers s)) (add_id (upsert_logins s id) id (Key p))
            (chunks s) (signals s), Ok tt).
Proof.
  cbn zeta. unfold Upsert, upsert_record, upsert_logins.
  destruct (TrimSpace (reg_ID req) == "")%go; [done|].
  destruct (peers s !! TrimSpace (reg_ID req)) as [p|]; [|done].
  by destruct (reg_PeerFlag req == "")%go.
Qed.

(** [Upsert] rejects exactly the blank ids, and changes nothing then.
    Otherwise it replaces the record of the trimmed id and leaves the other
    records, the chunks and the signals alone.  The record has the request's
    login, a positive TTL and the current time; a known peer keeps both keys,
    its score, its counters and its fake mark, and its flag unless the request
    names one; a new peer starts with the request's trimmed keys and the
    initial score. *)
Theorem Upsert_spec e s req :
  let id := TrimSpace (reg_ID req) in
  match Upsert e s req with
  | (s', Err err) => err = ErrInvalidPeer ∧ id = EmptyString ∧ s' = s
  | (s', Ok _) =>
    id ≠ EmptyString ∧ chunks s' = chunks s ∧ signals s' = signals s ∧
    (∀ id', id' ≠ id → peers s' !! id' = peers s !! id') ∧
    ∃ p, peers s' !! id = Some p ∧ peer_ID p = id ∧ peer_Login p = TrimSpace (reg_Login req) ∧
      peer_LastSeen p = time_Now e 0 0 ∧
      peer_TTLSeconds p = (if 0 <? reg_TTLSeconds req then reg_TTLSeconds req else 300) ∧
      match peers s !! id with
      | Some q =>
        peer_EncryptionKey p = peer_EncryptionKey q ∧ peer_SignatureKey p = peer_SignatureKey q ∧
        peer_QualityScore p = peer_QualityScore q ∧ peer_Quality p = peer_Quality q ∧
        peer_Fake p = peer_Fake q ∧
        peer_PeerFlag p = (if (reg_PeerFlag req == "")%go then peer_PeerFlag q else reg_PeerFlag req)
      | None =>
        peer_EncryptionKey p = TrimSpace (reg_EncryptionKey req) ∧
        peer_SignatureKey p = TrimSpace (reg_SignatureKey req) ∧
        peer_QualityScore p = 1000 ∧ peer_Quality p = mkQualityStats 0 0 ∧
        peer_Fake p = default false (reg_Fake req) ∧ peer_PeerFlag p = reg_PeerFlag req
      end
  end.
Proof.
  cbn zeta. rewrite Upsert_eq. cbn zeta.
  destruct (TrimSpace (reg_ID req) == "")%go eqn:E0; bool_hyps; [done|].
  split_and!; try done; cbn; [intros; by rewrite lookup_insert_ne|].
  exists (upsert_record e s req). rewrite lookup_insert_eq. split; [done|].
  unfold upsert_record, defaultTTL. destruct (peers s !! _); cbn; split_and!; try done;
    destruct (Z.leb_spec (reg_TTLSeconds req) 0), (Z.ltb_spec 0 (reg_TTLSeconds req)); lia || done.
Qed.

Lemma ttl_positive ttl : 0 < (if ttl <=? 0 then defaultTTL else ttl).
Proof. unfold defaultTTL. case_match; lia. Qed.

Lemma upsert_record_ok e s req :
  TrimSpace (reg_ID req) ≠ EmptyString →
  let p := upsert_record e s req in let id := TrimSpace (reg_ID req) in
  peer_ID p = id ∧ trimmed id ∧ id ≠ EmptyString ∧ 0 < peer_TTLSeconds p.
Proof.
  intros Hne. cbn zeta. pose proof (TrimSpace_trimmed (reg_ID req)).
  pose proof (ttl_positive (reg_TTLSeconds req)).
  unfold upsert_record. destruct (peers s !! _); cbn; auto.
Qed.

Section Preservation.
Context (e : Env) (s : MemoryStore).

Lemma complete_away_upsert id :
    index_complete s → complete_away (peers s) (upsert_logins s id) id.
  Proof using.
    intros H. unfold upsert_logins. destruct (peers s !! id);
      auto using complete_away_drop, index_complete_away.
  Qed.

Lemma sound_away_upsert id : index_sound s → sound_away (peers s) (upsert_logins s id) id.
  Proof using.
    intros H. unfold upsert_logins. destruct (peers s !! id) eqn:E;
      auto using sound_away_drop, index_sound_away.
  Qed.

Lemma Upsert_peers_ok req : peers_ok s → peers_ok (Upsert e s req).1.
  Proof using.
    intros H. rewrite Upsert_eq. cbn zeta. case_match; bool_hyps; [done|].
    apply map_Forall_insert_2; [by apply upsert_record_ok|done].
  Qed.

Lemma Upsert_complete req : index_complete s → index_complete (Upsert e s req).1.
  Proof using.
    intros H. rewrite Upsert_eq. cbn zeta. case_match; [done|].
    by apply index_complete_add, complete_away_upsert.
  Qed.

Lemma Upsert_sound req : index_sound s → index_sound (Upsert e s req).1.
  Proof using.
    intros H. rewrite Upsert_eq. cbn zeta. case_match; [done|].
    by apply index_sound_add, sound_away_upsert.
  Qed.

Lemma Delete_peers_ok id : peers_ok s → peers_ok (Delete s id).1.
  Proof using.
    intros H. unfold Delete. case_match; [|done]. by apply map_Forall_delete.
  Qed.

Lemma Delete_complete id : index_complete s → index_complete (Delete s id).1.
  Proof using.
    intros H. unfold Delete. case_match; [|done].
    by apply index_complete_delete, complete_away_drop, index_complete_away.
  Qed.

Lemma Delete_sound id : index_sound s → index_sound (Delete s id).1.
  Proof using.
    intros H. unfold Delete. case_match; [|done]. by apply index_sound_delete, sound_away_drop.
  Qed.

Lemma Refresh_peers_ok req : peers_ok s → peers_ok (Refresh e s req).1.
  Proof using.
    intros H. unfold Refresh. repeat case_match; eauto with muninn.
  Qed.

  (** [Refresh] only adds to the index. *)
Lemma Refresh_complete req : index_complete s → index_complete (Refresh e s req).1.
  Proof using.
    intros H. unfold Refresh. repeat case_match; try done.
    intros id' q Hlk. cbn in Hlk |- *. rewrite slice_at_insert.
    assert (id' ∈ slice_at (logins s) (Key q)) as Hin.
    { apply lookup_insert_Some in Hlk as [[<- <-]|[_ Hq]]; [|by apply (H id' q)].
      match goal with Hp : peers s !! _ = Some _ |- _ => exact (H _ _ Hp) end. }
    case_decide as E; [|done]. rewrite E, elem_of_app. by left.
  Qed.

Lemma Heartbeat_identity id ttl :
    (Heartbeat e s id ttl).1 = s ∨
    ∃ p p', peers s !! id = Some p ∧ same_identity p p' ∧
            (Heartbeat e s id ttl).1 = set_peers s (<[id := p']> (peers s)).
  Proof using.
    unfold Heartbeat. destruct (peers s !! id) as [p|]; [right|by left].
    exists p, (with_LastSeen (if 0 <? ttl then with_TTLSeconds p ttl else p) (time_Now e 0 0)).
    split_and!; [done| |done].
    destruct (Z.ltb_spec 0 ttl); [|done]. split_and!; done.
  Qed.
End Preservation.

(** ** [GetByKey] is a scan of the peers *)

(** The specification: every live peer with the key. *)
Definition peers_with_key (s : MemoryStore) (now : Time) (key : string) : list Peer :=
  List.filter (λ p, (Key p == key)%go && negb (isExpired p now)) (map snd (map_to_list (peers s))).

Lemma elem_of_peers_with_key s now key p :
  p ∈ peers_with_key s now key ↔
  ∃ id, peers s !! id = Some p ∧ Key p = key ∧ isExpired p now = false.
Proof.
  unfold peers_with_key.
  rewrite list_elem_of_In, filter_In, in_map_iff, andb_true_iff, String.eqb_eq, negb_true_iff.
  split.
  - intros [([id q] & <- & Hin) Hq]. exists id. split; [|done].
    by apply elem_of_map_to_list, list_elem_of_In.
  - intros (id & Hid & Hq). split; [|done]. exists (id, p). split; [done|].
    by apply list_elem_of_In, elem_of_map_to_list.
Qed.

(** Records of distinct ids are distinct: they carry their id. *)
Lemma NoDup_records s : peers_ok s → NoDup (map snd (map_to_list (peers s))).
Proof.
  intros H. apply (NoDup_fmap_1 peer_ID).
  assert (peer_ID <$> map snd (map_to_list (peers s)) = (map_to_list (peers s)).*1) as ->.
  { change (map snd (map_to_list (peers s))) with (snd <$> map_to_list (peers s)).
    rewrite <- list_fmap_compose. apply Forall_fmap_ext, Forall_forall.
    intros [id p] Hin%elem_of_map_to_list. cbn. by apply H. }
  apply NoDup_fst_map_to_list.
Qed.

Lemma elem_of_live_peers s now ids p :
  p ∈ live_peers s now ids ↔
  ∃ id, id ∈ ids ∧ peers s !! id = Some p ∧ isExpired p now = false.
Proof.
  unfold live_peers. rewrite list_elem_of_omap. split.
  - intros (id & Hin & Hp). exists id. repeat case_match; by simplify_eq.
  - intros (id & Hin & Hp & He). exists id. split; [done|]. by rewrite Hp, He.
Qed.

Lemma NoDup_live_peers s now ids : peers_ok s → NoDup ids → NoDup (live_peers s now ids).
Proof.
  intros Hok. induction 1 as [|id ids Hid Hids IH]; cbn; [constructor|].
  destruct (peers s !! id) as [p|] eqn:Hp; [|done]. destruct (isExpired p now); [done|].
  constructor; [|done]. intros (id' & Hid' & Hp' & _)%elem_of_live_peers.
  destruct (Hok id p Hp) as [<- _], (Hok id' p Hp') as [Heq _]. congruence.
Qed.

Lemma GetByKey_cases e s login signature :
  peers_ok s → index_complete s → index_sound s →
  let key := TrimSpace login +:+ ":" +:+ TrimSpace signature in
  let found := peers_with_key s (time_Now e 0 0) key in
  match GetByKey e s login signature with
  | Ok out => out ≡ₚ found ∧ out ≠ []
  | Err err =>
    err = ErrInvalidKey ∧ (TrimSpace login = EmptyString ∨ TrimSpace signature = EmptyString) ∨
    err = ErrNotFound ∧ found = []
  end.
Proof.
  intros Hok Hc Hs. cbn zeta. unfold GetByKey. set (now := time_Now e 0 0).
  destruct ((TrimSpace login == "") || (TrimSpace signature == ""))%go eqn:E0.
  { left. split; [done|]. apply orb_true_iff in E0 as [?%String.eqb_eq|?%String.eqb_eq]; auto. }
  set (key := TrimSpace login +:+ ":" +:+ TrimSpace signature).
  assert (∀ ids, slice_at (logins s) key = ids → live_peers s now ids ≡ₚ peers_with_key s now key)
    as Hperm.
  { intros ids <-. destruct (Hs key) as [Hnd Hin].
    apply NoDup_Permutation; [by apply NoDup_live_peers| |].
    { unfold peers_with_key. by apply NoDup_ListNoDup, List.NoDup_filter, NoDup_ListNoDup, NoDup_records. }
    intros p. rewrite elem_of_live_peers, elem_of_peers_with_key. split.
    - intros (id & (q & Hq & Hk)%Hin & Hp & He). exists id. by simplify_eq.
    - intros (id & Hp & Hk & He). exists id. split; [|done]. rewrite <- Hk. by apply (Hc id p). }
  unfold slice_at in Hperm. destruct (logins s !! key) as [ids|]; cbn in Hperm.
  - specialize (Hperm ids eq_refl). destruct (live_peers s now ids) as [|p out].
    + right. split; [done|]. symmetry. by apply Permutation_nil_l.
    + by split.
  - right. split; [done|]. symmetry. by apply Permutation_nil_l, (Hperm []).
Qed.

(** with a complete and sound index, what [GetByKey] finds through the index
    is what a scan of all the peers finds: the live peers with the key, each
    once; it reports [ErrNotFound] exactly when there is none. *)
Theorem GetByKey_scan e s login signature :
  peers_ok s → index_complete s → index_sound s →
  let key := TrimSpace login +:+ ":" +:+ TrimSpace signature in
  let found := peers_with_key s (time_Now e 0 0) key in
  match GetByKey e s login signature with
  | Ok out => out ≡ₚ found ∧ out ≠ []
  | Err err =>
    err = ErrInvalidKey ∧ (TrimSpace login = EmptyString ∨ TrimSpace signature = EmptyString) ∨
    err = ErrNotFound ∧ found = []
  end.
Proof. apply GetByKey_cases. Qed.
