(* ===== verification/MemoryRank.v ===== *)
(** Listing and ranking in the in-memory store: [List], [GetBestPeers] and
    [GetBestThickPeers] answer from the live, genuine peers, whatever order the
    map iteration and the unstable sort produce. *)
From S2P Require Import Prelude GoNum GoStrings GoSort Model Sign Hash StoreTypes MemoryStore.

Local Open Scope Z_scope.

(** ** The peers a listing may show *)

Definition all_peers (s : MemoryStore) : list Peer := map snd (map_to_list (peers s)).

Definition listed (now : Time) (p : Peer) : bool := negb (isExpired p now) && negb (peer_Fake p).

Definition thick (p : Peer) : bool :=
  ((peer_PeerFlag p == PeerFlagThick) || (peer_PeerFlag p == PeerFlagVeryThick))%go.

Lemma range_peers_perm e i s : env_ok e → range_peers e i s ≡ₚ all_peers s.
Proof. intros H. unfold range_peers, all_peers. by rewrite (H i). Qed.

Lemma filter_perm {A} (f : A → bool) l l' : l ≡ₚ l' → List.filter f l ≡ₚ List.filter f l'.
Proof.
  induction 1 as [|x l l' _ IH|x y l|l1 l2 l3 _ IH1 _ IH2]; cbn; [done|..].
  - case_match; [by constructor|done].
  - repeat case_match; try done. constructor.
  - by rewrite IH1.
Qed.

Lemma filter_ext_eq {A} (f g : A → bool) l :
  (∀ x, f x = g x) → List.filter f l = List.filter g l.
Proof. intros H. induction l as [|x l IH]; cbn; [done|]. by rewrite H, IH. Qed.

(** [List] returns each unexpired peer that is not marked fake, once. *)
Theorem List_spec e s :
  env_ok e →
  ∃ out, List e s = Ok out ∧ out ≡ₚ List.filter (listed (time_Now e 0 0)) (all_peers s).
Proof. intros He. eexists. split; [done|]. by apply filter_perm, range_peers_perm. Qed.

Definition sample_peer (id login : string) (score : Z) (flag : string) : Peer :=
  mkPeer id login "" "k" (mkTime 0 (Some 0)) 300 score (mkQualityStats 0 0) flag false.

Definition sample_store : MemoryStore :=
  mkMemoryStore
    (<["a" := sample_peer "a" "la" 3000 ""]> (<["b" := sample_peer "b" "lb" 1000 "thick"]>
      (<["c" := sample_peer "c" "lc" 2000 "thin"]> ∅)))
    (<["la:k" := ["a"]]> (<["lb:k" := ["b"]]> (<["lc:k" := ["c"]]> ∅))) [] ∅.

Lemma List_spec_witness :
  ∃ out, List (env_at (mkTime 0 (Some 0))) sample_store = Ok out ∧
    out ≡ₚ List.filter (listed (mkTime 0 (Some 0))) (all_peers sample_store).
Proof. apply (List_spec (env_at (mkTime 0 (Some 0)))). apply env_at_ok. Defined.

(** ** The best n *)

Section Best.
Context {S : SliceSort} {SOk : SliceSortOk S}.

  (** [out] is a best [n] of [l]: all of [l] or [n] of them, in descending order
      of effective score, none beaten by one that was left out. *)
Definition is_best (n : Z) (l out : list Peer) : Prop :=
    Z.of_nat (length out) = Z.min n (Z.of_nat (length l)) ∧
    StronglySorted (λ x y, EffectiveScore y ≤ EffectiveScore x) out ∧
    ∃ rest, l ≡ₚ out ++ rest ∧
      ∀ x y, x ∈ out → y ∈ rest → EffectiveScore y ≤ EffectiveScore x.

Lemma in_order_descending l :
    in_order (greater_by EffectiveScore) l →
    StronglySorted (λ x y, EffectiveScore y ≤ EffectiveScore x) l.
  Proof using.
    induction 1 as [|x l Hl IH Hx]; constructor; [done|].
    eapply Forall_impl; [done|]. cbn. unfold greater_by. intros y Hy. lia.
  Qed.

Lemma best_is_best n l : 0 < n → is_best n l (best n l).
  Proof using SOk.
    intros Hn. unfold best.
    set (sorted := sort_Slice (greater_by EffectiveScore) l).
    assert (sorted ≡ₚ l) as Hperm by apply sort_Slice_perm.
    assert (in_order (greater_by EffectiveScore) sorted) as Hord
      by apply sort_Slice_sorted, greater_by_swo.
    set (k := Z.to_nat _).
    assert (k = Z.to_nat (Z.min n (Z.of_nat (length sorted)))) as Hk.
    { unfold k. case_match; lia. }
    unfold is_best. rewrite length_take. split_and!.
    - rewrite <- Hperm. lia.
    - by apply in_order_descending, in_order_take.
    - exists (drop k sorted). rewrite take_drop. split; [done|].
      intros x y Hx Hy. pose proof (in_order_split _ _ _ _ _ Hord Hx Hy) as H.
      unfold greater_by in H. lia.
  Qed.

Lemma is_best_perm n l l' out : l ≡ₚ l' → is_best n l out → is_best n l' out.
  Proof using.
    intros Hl (H1 & H2 & rest & H3 & H4). split_and!; [by rewrite <- Hl|done|].
    exists rest. by rewrite <- Hl.
  Qed.

  (** C29: [GetBestPeers] with a positive [n] returns a best [n] of the unexpired
      peers that are not fake. *)
Theorem GetBestPeers_top e s n :
    env_ok e → 0 < n →
    ∃ out, GetBestPeers e s n = Ok out ∧
      is_best n (List.filter (listed (time_Now e 0 0)) (all_peers s)) out.
  Proof using SOk.
    intros He Hn. unfold GetBestPeers. destruct (Z.leb_spec n 0); [lia|].
    eexists. split; [done|]. eapply is_best_perm; [|by apply best_is_best].
    by apply filter_perm, range_peers_perm.
  Qed.

  (** [GetBestThickPeers] does the same among the thick and very thick. *)
Theorem GetBestThickPeers_top e s n :
    env_ok e → 0 < n →
    ∃ out, GetBestThickPeers e s n = Ok out ∧
      is_best n (List.filter (λ p, listed (time_Now e 0 0) p && thick p) (all_peers s)) out.
  Proof using SOk.
    intros He Hn. unfold GetBestThickPeers. destruct (Z.leb_spec n 0); [lia|].
    eexists. split; [done|]. eapply is_best_perm; [|by apply best_is_best].
    erewrite (filter_ext_eq _ (λ p, listed (time_Now e 0 0) p && thick p)).
    - by apply filter_perm, range_peers_perm.
    - intros p. unfold listed, thick. by destruct (isExpired p _), (peer_Fake p).
  Qed.
End Best.

Lemma GetBestPeers_top_witness :
  ∃ out, GetBestPeers (env_at (mkTime 0 (Some 0))) sample_store 2 = Ok out ∧
    is_best 2 (List.filter (listed (mkTime 0 (Some 0))) (all_peers sample_store)) out.
Proof.
  apply (@GetBestPeers_top insertion_slice_sort insertion_slice_sort_ok
    (env_at (mkTime 0 (Some 0))) sample_store 2); [apply env_at_ok|lia].
Defined.

Lemma GetBestThickPeers_top_witness :
  ∃ out, GetBestThickPeers (env_at (mkTime 0 (Some 0))) sample_store 2 = Ok out ∧
    is_best 2 (List.filter (λ p, listed (mkTime 0 (Some 0)) p && thick p)
                 (all_peers sample_store)) out.
Proof.
  apply (@GetBestThickPeers_top insertion_slice_sort insertion_slice_sort_ok
    (env_at (mkTime 0 (Some 0))) sample_store 2); [apply env_at_ok|lia].
Defined.

(** The ranking of the test suite: flags raise the exponent. *)
Example best_of_sample :
  GetBestPeers (env_at (mkTime 0 (Some 0))) sample_store 2 =
  Ok [sample_peer "b" "lb" 1000 "thick"; sample_peer "a" "la" 3000 ""].
Proof. by vm_compute. Qed.
