(* ===== verification/MemoryChunks.v ===== *)
(** The chunk ledger of the in-memory store: who may write to it, what each
    method does to it on success and on error, and the in-place removal of
    expired entries. *)
From S2P Require Import Prelude GoNum GoStrings GoSort Base64 Model Sign Hash StoreTypes MemoryStore Samples.

Local Open Scope Z_scope.

(** ** Finding a peer by its key *)

Lemma peerByKey_loop_Some now key l p :
  peerByKey_loop now key l = Some p →
  p ∈ l ∧ Key p = key ∧ ∃ j, isExpired p (now j) = false.
Proof.
  revert now. induction l as [|q l IH]; intros now; cbn; [done|].
  destruct (Key q == key)%go eqn:Ek; bool_hyps.
  - destruct (isExpired q (now 0%nat)) eqn:Ee; cbn.
    + intros (? & ? & j & ?)%IH. split_and!; [by right|done|by exists (S j)].
    + intros; simplify_eq. split_and!; [left|done|by exists 0%nat].
  - intros (? & ? & ?)%IH. split_and!; [by right|done..].
Qed.

Lemma peerByKey_loop_None now key l :
  peerByKey_loop now key l = None →
  ∀ p, p ∈ l → Key p = key → ∃ j, isExpired p (now j) = true.
Proof.
  revert now. induction l as [|q l IH]; intros now; cbn; [intros _ p; by intros ?%not_elem_of_nil|].
  destruct (Key q == key)%go eqn:Ek; bool_hyps.
  - destruct (isExpired q (now 0%nat)) eqn:Ee; cbn; [|done].
    intros H p [->|Hp]%elem_of_cons Hk; [by exists 0%nat|].
    destruct (IH _ H p Hp Hk) as [j ?]. by exists (S j).
  - intros H p [->|Hp]%elem_of_cons Hk; [done|]. by apply (IH _ H).
Qed.

Lemma elem_of_range_peers e i s p :
  env_ok e → p ∈ range_peers e i s ↔ ∃ id, peers s !! id = Some p.
Proof.
  intros He. unfold range_peers. rewrite list_elem_of_In, in_map_iff. split.
  - intros ([id q] & <- & Hin%list_elem_of_In). rewrite (He i) in Hin.
    exists id. by apply elem_of_map_to_list.
  - intros [id Hp]. exists (id, p). split; [done|]. apply list_elem_of_In. rewrite (He i).
    by apply elem_of_map_to_list.
Qed.

(** A registered peer that has the key and was live when it was looked at. *)
Definition live_key (e : Env) (i : nat) (s : MemoryStore) (key : string) (p : Peer) : Prop :=
  (∃ id, peers s !! id = Some p) ∧ Key p = key ∧ ∃ j, isExpired p (time_Now e i j) = false.

Lemma peerByKey_Some e i s key p :
  env_ok e → peerByKey e i s key = Some p → live_key e i s key p.
Proof.
  intros He (Hin & Hk & Hj)%peerByKey_loop_Some. split_and!; [|done..].
  by apply (elem_of_range_peers e i).
Qed.

Lemma peerByKey_None e i s key :
  env_ok e → peerByKey e i s key = None →
  ∀ id p, peers s !! id = Some p → Key p = key → ∃ j, isExpired p (time_Now e i j) = true.
Proof.
  intros He H id p Hp Hk. eapply peerByKey_loop_None; [done| |done].
  apply elem_of_range_peers; eauto.
Qed.

(** ** Signatures *)

Section Signed.
Context {U : UnicodeTables} {E : Ed25519}.

Lemma verifyPeerSignature_cases p sg m :
  match verifyPeerSignature p sg m with
  | Ok _ => peer_SignatureKey p ≠ EmptyString ∧ Verify (peer_SignatureKey p) sg m = Ok tt
  | Err ErrNoSigningKey => peer_SignatureKey p = EmptyString
  | Err ErrInvalidSignature =>
    peer_SignatureKey p ≠ EmptyString ∧ Verify (peer_SignatureKey p) sg m ≠ Ok tt
  | Err _ => False
  end.
Proof.
  unfold verifyPeerSignature. destruct (peer_SignatureKey p == "")%go eqn:E0; bool_hyps; [done|].
  destruct (Verify (peer_SignatureKey p) sg m) as [[]|[]]; done.
Qed.

(** a peer's signature is accepted exactly when the peer has a signature key
    and the curve accepts the decoded signature under it; otherwise the error
    says which of the two failed. *)
Theorem verifyPeerSignature_spec p sg m :
  match verifyPeerSignature p sg m with
  | Ok _ => peer_SignatureKey p ≠ EmptyString ∧ Verify (peer_SignatureKey p) sg m = Ok tt
  | Err ErrNoSigningKey => peer_SignatureKey p = EmptyString
  | Err ErrInvalidSignature =>
    peer_SignatureKey p ≠ EmptyString ∧ Verify (peer_SignatureKey p) sg m ≠ Ok tt
  | Err _ => False
  end.
Proof. apply verifyPeerSignature_cases. Qed.

Lemma verifyPeerSignature_error p sg m err :
  verifyPeerSignature p sg m = Err err → err = ErrNoSigningKey ∨ err = ErrInvalidSignature.
Proof.
  intros E0. pose proof (verifyPeerSignature_cases p sg m) as H. rewrite E0 in H.
  destruct err; naive_solver.
Qed.

(** The message [m] carries a signature of a live peer with the key. *)
Definition signed_by (e : Env) (i : nat) (s : MemoryStore) (key sg : string) (m : list ascii) : Prop :=
  ∃ p, live_key e i s key p ∧ verifyPeerSignature p sg m = Ok tt.

(** ** Registering a chunk *)

Definition register_input_ok (fileID : string) (i : Z) (req : RegisterChunkRequest) : Prop :=
  TrimSpace fileID ≠ EmptyString ∧ TrimSpace (rc_SenderID req) ≠ EmptyString ∧
  TrimSpace (rc_RecipientID req) ≠ EmptyString ∧ TrimSpace (rc_PeerID req) ≠ EmptyString ∧
  validHashFormat (normalizeHash (rc_Hash req)) = true ∧ 0 ≤ i ∧
  TrimSpace (rc_Signature req) ≠ EmptyString.

Definition registered_entry (e : Env) (fileID : string) (i : Z) (req : RegisterChunkRequest) :
    chunkRecordEntry :=
  let now := time_Unix (time_Now e 1 0) in
  mkEntry (chunkKey (TrimSpace fileID) i) (normalizeHash (rc_Hash req))
    (TrimSpace (rc_SenderID req)) (TrimSpace (rc_RecipientID req)) (TrimSpace (rc_PeerID req))
    (rc_Persist req) false false now now (if rc_TTL req <=? 0 then defaultChunkTTL else rc_TTL req).

Lemma validHashFormat_empty : validHashFormat "" = false.
Proof. done. Qed.

(** The guard of [SetChunkHash] is the negation of [register_input_ok]. *)
Lemma register_guard fileID i req :
  ((TrimSpace fileID == "") || (TrimSpace (rc_SenderID req) == "")
   || (TrimSpace (rc_RecipientID req) == "") || (TrimSpace (rc_PeerID req) == "")
   || (normalizeHash (rc_Hash req) == "") || negb (validHashFormat (normalizeHash (rc_Hash req)))
   || (i <? 0)%Z || blank (rc_Signature req))%go = false ↔ register_input_ok fileID i req.
Proof.
  unfold register_input_ok, blank. split.
  - intros H. bool_hyps. split_and!; try done. lia.
  - intros (H1 & H2 & H3 & H4 & H5 & H6 & H7).
    rewrite !orb_false_iff, !String.eqb_neq, negb_false_iff. split_and!; try done; [|lia].
    intros H. by rewrite H, validHashFormat_empty in H5.
Qed.

Lemma SetChunkHash_cases e s fileID i req :
  env_ok e →
  let m := ExpectedPayload (TrimSpace fileID) i (normalizeHash (rc_Hash req)) in
  let sender := TrimSpace (rc_SenderID req) in
  match SetChunkHash e s fileID i req with
  | (s', Ok _) =>
    register_input_ok fileID i req ∧ signed_by e 0 s sender (rc_Signature req) m ∧
    s' = set_chunks s (chunks s ++ [registered_entry e fileID i req])
  | (s', Err err) =>
    s' = s ∧
    (err = ErrInvalidChunk ∧ ¬ register_input_ok fileID i req ∨
     err = ErrNotFound ∧ (∀ id p, peers s !! id = Some p → Key p = sender →
                            ∃ j, isExpired p (time_Now e 0 j) = true) ∨
     ∃ p, live_key e 0 s sender p ∧ verifyPeerSignature p (rc_Signature req) m = Err err)
  end.
Proof.
  intros He. cbn zeta. unfold SetChunkHash. cbn zeta.
  pose proof (register_guard fileID i req) as Hg.
  destruct (_ || blank (rc_Signature req))%go; [split; [done|left; naive_solver]|].
  destruct (peerByKey e 0 s _) as [p|] eqn:Ep.
  2: { split; [done|]. right. left. split; [done|]. by apply peerByKey_None. }
  apply peerByKey_Some in Ep; [|done].
  destruct (verifyPeerSignature p _ _) as [[]|err] eqn:Ev; [|by split; eauto 10].
  split_and!; [by apply Hg|by exists p|done].
Qed.

(** C23: [SetChunkHash] appends one unconfirmed, unread entry, and it does so
    exactly on well-formed input signed by a live peer that has the sender
    key; every error leaves the store as it was and tells its cause. *)
Theorem SetChunkHash_spec e s fileID i req :
  env_ok e →
  let m := ExpectedPayload (TrimSpace fileID) i (normalizeHash (rc_Hash req)) in
  let sender := TrimSpace (rc_SenderID req) in
  match SetChunkHash e s fileID i req with
  | (s', Ok _) =>
    register_input_ok fileID i req ∧ signed_by e 0 s sender (rc_Signature req) m ∧
    s' = set_chunks s (chunks s ++ [registered_entry e fileID i req])
  | (s', Err err) =>
    s' = s ∧
    (err = ErrInvalidChunk ∧ ¬ register_input_ok fileID i req ∨
     err = ErrNotFound ∧ (∀ id p, peers s !! id = Some p → Key p = sender →
                            ∃ j, isExpired p (time_Now e 0 j) = true) ∨
     ∃ p, live_key e 0 s sender p ∧ verifyPeerSignature p (rc_Signature req) m = Err err)
  end.
Proof. apply SetChunkHash_cases. Qed.

(** ** Reporting a chunk *)

(** What a report or a confirmation makes of the record of the peer it judges,
    field by field: one point up and one good report more, or one point down and
    one bad report more, at the width of an int. *)
Definition judged (valid : bool) (p : Peer) : Peer :=
  {| peer_ID := peer_ID p;
     peer_Login := peer_Login p;
     peer_EncryptionKey := peer_EncryptionKey p;
     peer_SignatureKey := peer_SignatureKey p;
     peer_LastSeen := peer_LastSeen p;
     peer_TTLSeconds := peer_TTLSeconds p;
     peer_QualityScore := wrap64 (if valid then peer_QualityScore p + 1 else peer_QualityScore p - 1);
     peer_Quality := {|
       ValidReports :=
         if valid then wrap64 (ValidReports (peer_Quality p) + 1) else ValidReports (peer_Quality p);
       InvalidReports :=
         if valid then InvalidReports (peer_Quality p)
         else wrap64 (InvalidReports (peer_Quality p) + 1) |};
     peer_PeerFlag := peer_PeerFlag p;
     peer_Fake := peer_Fake p |}.

Lemma score_report_judged p valid : score_report p valid = judged valid p.
Proof. by destruct valid. Qed.

(** The first entry of the list with the property. *)
Definition first_entry (P : chunkRecordEntry → Prop) (l : list chunkRecordEntry) (i : nat)
    (c : chunkRecordEntry) : Prop :=
  l !! i = Some c ∧ P c ∧ ∀ j d, l !! j = Some d → (j < i)%nat → ¬ P d.

(** [expected_hash] looks at the first entry of the chunk. *)
Lemma expected_hash_cases l key :
  (∃ i c, first_entry (λ c, ce_key c = key) l i c ∧ expected_hash l key = ce_Hash c) ∨
  Forall (λ c, ce_key c ≠ key) l ∧ expected_hash l key = EmptyString.
Proof.
  unfold expected_hash. destruct (list_find _ l) as [[i c]|] eqn:Hf.
  - left. exists i, c. by apply list_find_Some in Hf.
  - right. by apply list_find_None in Hf.
Qed.

Definition report_input_ok (src : string) (req : ChunkReportRequest) : Prop :=
  TrimSpace src ≠ EmptyString ∧ TrimSpace (rep_ReporterID req) ≠ EmptyString ∧
  TrimSpace (rep_FileID req) ≠ EmptyString ∧
  validHashFormat (normalizeHash (rep_Hash req)) = true ∧ 0 ≤ rep_ChunkIndex req ∧
  TrimSpace (rep_Signature req) ≠ EmptyString.

Lemma report_guard src req :
  ((TrimSpace src == "") || (TrimSpace (rep_ReporterID req) == "")
   || (TrimSpace (rep_FileID req) == "") || (normalizeHash (rep_Hash req) == "")
   || negb (validHashFormat (normalizeHash (rep_Hash req)))
   || (rep_ChunkIndex req <? 0)%Z || blank (rep_Signature req))%go = false ↔
  report_input_ok src req.
Proof.
  unfold report_input_ok, blank. split.
  - intros H. bool_hyps. split_and!; try done. lia.
  - intros (H1 & H2 & H3 & H4 & H5 & H6).
    rewrite !orb_false_iff, !String.eqb_neq, negb_false_iff. split_and!; try done; [|lia].
    intros H. by rewrite H, validHashFormat_empty in H4.
Qed.

(** The message a report carries a signature of. *)
Definition report_message (src : string) (req : ChunkReportRequest) : list ascii :=
  ReportedPayload (TrimSpace (rep_FileID req)) (rep_ChunkIndex req)
    (normalizeHash (rep_Hash req)) (TrimSpace src).

Lemma ReportChunk_cases s src req :
  let key := chunkKey (TrimSpace (rep_FileID req)) (rep_ChunkIndex req) in
  let hash := normalizeHash (rep_Hash req) in
  match ReportChunk s src req with
  | (s', Ok r) =>
    report_input_ok src req ∧
    (∃ reporter, peers s !! TrimSpace (rep_ReporterID req) = Some reporter ∧
       verifyPeerSignature reporter (rep_Signature req) (report_message src req) = Ok tt) ∧
    ∃ peer, peers s !! TrimSpace src = Some peer ∧
      expected_hash (chunks s) key = rr_ExpectedHash r ∧
      r = mkChunkReportResult (hash == rr_ExpectedHash r)%go (rr_ExpectedHash r) hash
            (if (hash == rr_ExpectedHash r)%go then 1 else -1)
            (score_report peer (hash == rr_ExpectedHash r)%go) ∧
      s' = set_peers s (<[TrimSpace src := rr_Peer r]> (peers s))
  | (s', Err err) =>
    s' = s ∧
    (err = ErrInvalidChunk ∧ ¬ report_input_ok src req ∨
     err = ErrNotFound ∧ (peers s !! TrimSpace (rep_ReporterID req) = None ∨
                          peers s !! TrimSpace src = None) ∨
     (∃ reporter, peers s !! TrimSpace (rep_ReporterID req) = Some reporter ∧
        verifyPeerSignature reporter (rep_Signature req) (report_message src req) = Err err) ∨
     err = ErrChunkNotFound ∧ expected_hash (chunks s) key = EmptyString)
  end.
Proof.
  cbn zeta. unfold ReportChunk, report_message. cbn zeta.
  pose proof (report_guard src req) as Hg.
  destruct (_ || blank (rep_Signature req))%go; [split; [done|left; naive_solver]|].
  destruct (peers s !! TrimSpace (rep_ReporterID req)) as [reporter|]; [|split; [done|naive_solver]].
  destruct (verifyPeerSignature reporter _ _) as [[]|err] eqn:Ev; [|split; [done|naive_solver]].
  destruct (expected_hash _ _ == "")%go eqn:Ex; bool_hyps; [split; [done|naive_solver]|].
  destruct (peers s !! TrimSpace src) as [peer|]; [|split; [done|naive_solver]].
  split_and!; [by apply Hg|by exists reporter|]. exists peer. cbn.
  split_and!; try done.
Qed.

Lemma first_entry_hash l key i c :
  first_entry (λ c, ce_key c = key) l i c → expected_hash l key = ce_Hash c.
Proof.
  intros (Hi & Hk & Hfirst). unfold expected_hash.
  assert (list_find (λ c, ce_key c = key) l = Some (i, c)) as ->; [|done].
  by apply list_find_Some.
Qed.

(** A report that is accepted has found a hash to compare with. *)
Lemma ReportChunk_hash s src req s' r :
  ReportChunk s src req = (s', Ok r) → rr_ExpectedHash r ≠ EmptyString.
Proof. unfold ReportChunk. cbn zeta. intros H. by branches. Qed.

(** C24: [ReportChunk] compares the reported hash with that of the first entry
    registered for the chunk.  When they agree, the source peer's score goes up by
    one and its good reports are one more, otherwise the score goes down by one
    and the bad reports are one more; the rest of its record, the other records,
    the index, the chunks and the mailboxes stay, and on an error everything
    does.  The reporter only has to be registered (it may have expired) and to
    have signed the report.  Each error has its cause. *)
Theorem ReportChunk_spec s src req :
  let key := chunkKey (TrimSpace (rep_FileID req)) (rep_ChunkIndex req) in
  let hash := normalizeHash (rep_Hash req) in
  match ReportChunk s src req with
  | (s', Ok r) =>
    report_input_ok src req ∧
    (∃ reporter, peers s !! TrimSpace (rep_ReporterID req) = Some reporter ∧
       verifyPeerSignature reporter (rep_Signature req) (report_message src req) = Ok tt) ∧
    ∃ i entry peer valid,
      first_entry (λ c, ce_key c = key) (chunks s) i entry ∧
      peers s !! TrimSpace src = Some peer ∧ (valid = true ↔ hash = ce_Hash entry) ∧
      r = mkChunkReportResult valid (ce_Hash entry) hash (if valid then 1 else -1)
            (judged valid peer) ∧
      s' = mkMemoryStore (<[TrimSpace src := judged valid peer]> (peers s)) (logins s) (chunks s)
             (signals s)
  | (s', Err err) =>
    s' = s ∧
    (err = ErrInvalidChunk ∧ ¬ report_input_ok src req ∨
     err = ErrNotFound ∧ (peers s !! TrimSpace (rep_ReporterID req) = None ∨
                          peers s !! TrimSpace src = None) ∨
     (∃ reporter, peers s !! TrimSpace (rep_ReporterID req) = Some reporter ∧
        verifyPeerSignature reporter (rep_Signature req) (report_message src req) = Err err) ∨
     err = ErrChunkNotFound ∧
       ∀ i entry, first_entry (λ c, ce_key c = key) (chunks s) i entry → ce_Hash entry = EmptyString)
  end.
Proof.
  cbn zeta. pose proof (ReportChunk_cases s src req) as H. cbn zeta in H.
  destruct (ReportChunk s src req) as [s' [r|err]] eqn:Er.
  - destruct H as (Hok & Hs & peer & Hp & Hx & Hr & ->). split_and!; [done..|].
    destruct (expected_hash_cases (chunks s)
      (chunkKey (TrimSpace (rep_FileID req)) (rep_ChunkIndex req))) as [(i & c & Hf & Hc)|[_ Hc]].
    + exists i, c, peer, (normalizeHash (rep_Hash req) == ce_Hash c)%go.
      rewrite <- Hc, Hx. split_and!; try done; [apply String.eqb_eq| |];
        rewrite Hr; cbn [rr_ExpectedHash rr_Peer]; by rewrite <- score_report_judged.
    + exfalso. apply (ReportChunk_hash s src req _ r Er). congruence.
  - destruct H as [-> H]. split; [done|]. destruct H as [?|[?|[?|[-> Hx]]]]; auto. do 3 right.
    split; [done|]. intros i c Hf. by rewrite <- (first_entry_hash _ _ _ _ Hf).
Qed.

(** ** Confirming a chunk *)

Definition confirm_input_ok (req : ConfirmChunkRequest) : Prop :=
  TrimSpace (conf_RecipientID req) ≠ EmptyString ∧ TrimSpace (conf_FileID req) ≠ EmptyString ∧
  validHashFormat (normalizeHash (conf_Hash req)) = true ∧ 0 ≤ conf_ChunkIndex req ∧
  TrimSpace (conf_Signature req) ≠ EmptyString.

Lemma confirm_guard req :
  ((TrimSpace (conf_RecipientID req) == "") || (TrimSpace (conf_FileID req) == "")
   || (normalizeHash (conf_Hash req) == "")
   || negb (validHashFormat (normalizeHash (conf_Hash req)))
   || (conf_ChunkIndex req <? 0)%Z || blank (conf_Signature req))%go = false ↔
  confirm_input_ok req.
Proof.
  unfold confirm_input_ok, blank. split.
  - intros H. bool_hyps. split_and!; try done. lia.
  - intros (H1 & H2 & H3 & H4 & H5).
    rewrite !orb_false_iff, !String.eqb_neq, negb_false_iff. split_and!; try done; [|lia].
    intros H. by rewrite H, validHashFormat_empty in H3.
Qed.

(** The entry a confirmation is about: the first for that chunk and recipient. *)
Definition awaits (key recipient : string) (c : chunkRecordEntry) : Prop :=
  ce_key c = key ∧ ce_RecipientID c = recipient.

Definition confirm_message (req : ConfirmChunkRequest) : list ascii :=
  ConfirmedPayload (TrimSpace (conf_FileID req)) (conf_ChunkIndex req)
    (normalizeHash (conf_Hash req)).

Lemma ConfirmChunk_success e s req s' r :
  env_ok e → ConfirmChunk e s req = (s', Ok r) →
  let recipient := TrimSpace (conf_RecipientID req) in
  let key := chunkKey (TrimSpace (conf_FileID req)) (conf_ChunkIndex req) in
  let hash := normalizeHash (conf_Hash req) in
  confirm_input_ok req ∧
  signed_by e 0 s recipient (conf_Signature req) (confirm_message req) ∧
  ∃ i entry sender,
    first_entry (awaits key recipient) (chunks s) i entry ∧
    live_key e 1 s (ce_SenderID entry) sender ∧
    let valid := (hash == ce_Hash entry)%go in
    let sender' := score_report sender valid in
    r = mkConfirmChunkResult valid (ce_Hash entry) hash (if valid then 1 else -1) sender' ∧
    s' = mkMemoryStore (<[peer_ID sender := sender']> (peers s)) (logins s)
           (if valid then <[i := with_Confirmed entry (time_Unix (time_Now e 2 0))]> (chunks s)
            else chunks s) (signals s).
Proof.
  intros He. cbn zeta. unfold ConfirmChunk, confirm_message. cbn zeta.
  pose proof (confirm_guard req) as Hg.
  destruct (_ || blank (conf_Signature req))%go; [done|].
  destruct (peerByKey e 0 s _) as [recipient|] eqn:Er; [|done].
  apply peerByKey_Some in Er; [|done].
  destruct (verifyPeerSignature recipient _ _) as [[]|err] eqn:Ev; [|done].
  destruct (list_find _ (chunks s)) as [[i entry]|] eqn:Ef; [|done].
  destruct (peerByKey e 1 s _) as [sender|] eqn:Es; [|done].
  apply peerByKey_Some in Es; [|done]. intros; simplify_eq/=.
  split_and!; [by apply Hg|by exists recipient|].
  exists i, entry, sender. apply list_find_Some in Ef as (Hi & HP & Hfirst).
  by split_and!.
Qed.

(** C8: [ConfirmChunk] takes the first entry for the chunk and the recipient.  A
    confirmed hash equal to the entry's earns the sender a point and a good report,
    marks the entry confirmed and dates it; any other hash costs the sender a
    point, counts a bad report and leaves the chunks alone.  Nothing else of the
    store changes.  The recipient has signed the confirmation and is live, and so
    is the sender. *)
Theorem ConfirmChunk_ok e s req s' r :
  env_ok e → ConfirmChunk e s req = (s', Ok r) →
  let recipient := TrimSpace (conf_RecipientID req) in
  let key := chunkKey (TrimSpace (conf_FileID req)) (conf_ChunkIndex req) in
  let hash := normalizeHash (conf_Hash req) in
  confirm_input_ok req ∧
  signed_by e 0 s recipient (conf_Signature req) (confirm_message req) ∧
  ∃ i entry sender valid,
    first_entry (awaits key recipient) (chunks s) i entry ∧
    live_key e 1 s (ce_SenderID entry) sender ∧ (valid = true ↔ hash = ce_Hash entry) ∧
    r = mkConfirmChunkResult valid (ce_Hash entry) hash (if valid then 1 else -1)
          (judged valid sender) ∧
    peers s' = <[peer_ID sender := judged valid sender]> (peers s) ∧ logins s' = logins s ∧
    signals s' = signals s ∧
    chunks s' =
      if valid then
        <[i := {| ce_key := ce_key entry; ce_Hash := ce_Hash entry;
                  ce_SenderID := ce_SenderID entry; ce_RecipientID := ce_RecipientID entry;
                  ce_PeerID := ce_PeerID entry; ce_Persist := ce_Persist entry;
                  ce_Confirmed := true; ce_Readed := ce_Readed entry;
                  ce_CreatedAt := ce_CreatedAt entry;
                  ce_UpdatedAt := time_Unix (time_Now e 2 0); ce_TTL := ce_TTL entry |}]> (chunks s)
      else chunks s.
Proof.
  intros He Hc. apply ConfirmChunk_success in Hc; [|done]. cbn zeta in *.
  destruct Hc as (Hok & Hs & i & entry & sender & Hf & Hl & -> & ->). split_and!; [done..|].
  exists i, entry, sender, (normalizeHash (conf_Hash req) == ce_Hash entry)%go.
  rewrite !score_report_judged. split_and!; try done. apply String.eqb_eq.
Qed.

Lemma ConfirmChunk_failure e s req s' err :
  env_ok e → ConfirmChunk e s req = (s', Err err) →
  let recipient := TrimSpace (conf_RecipientID req) in
  let key := chunkKey (TrimSpace (conf_FileID req)) (conf_ChunkIndex req) in
  s' = s ∧
  (err = ErrInvalidChunk ∧ ¬ confirm_input_ok req ∨
   err = ErrNotFound ∧ (peerByKey e 0 s recipient = None ∨
     ∃ c, c ∈ chunks s ∧ awaits key recipient c ∧ peerByKey e 1 s (ce_SenderID c) = None) ∨
   (∃ p, live_key e 0 s recipient p ∧
      verifyPeerSignature p (conf_Signature req) (confirm_message req) = Err err) ∨
   err = ErrChunkNotFound ∧ Forall (λ c, ¬ awaits key recipient c) (chunks s)).
Proof.
  intros He. cbn zeta. unfold ConfirmChunk, confirm_message. cbn zeta.
  pose proof (confirm_guard req) as Hg.
  destruct (_ || blank (conf_Signature req))%go.
  { intros; simplify_eq. split; [done|]. left. naive_solver. }
  destruct (peerByKey e 0 s _) as [recipient|] eqn:Er; [|intros; simplify_eq; naive_solver].
  apply peerByKey_Some in Er; [|done].
  destruct (verifyPeerSignature recipient _ _) as [[]|err'] eqn:Ev;
    [|intros; simplify_eq; naive_solver].
  destruct (list_find _ (chunks s)) as [[i entry]|] eqn:Ef.
  - destruct (peerByKey e 1 s _) as [sender|] eqn:Es; [done|]. intros; simplify_eq.
    apply list_find_Some in Ef as (Hi & HP & _). split; [done|]. right. left.
    split; [done|]. right. exists entry. split_and!; [|done..].
    by eapply list_elem_of_lookup_2.
  - apply list_find_None in Ef. intros; simplify_eq. naive_solver.
Qed.

(** C9: an error of [ConfirmChunk] leaves the store as it was and tells its cause. *)
Theorem ConfirmChunk_error e s req s' err :
  env_ok e → ConfirmChunk e s req = (s', Err err) →
  let recipient := TrimSpace (conf_RecipientID req) in
  let key := chunkKey (TrimSpace (conf_FileID req)) (conf_ChunkIndex req) in
  s' = s ∧
  (err = ErrInvalidChunk ∧ ¬ confirm_input_ok req ∨
   err = ErrNotFound ∧ (peerByKey e 0 s recipient = None ∨
     ∃ c, c ∈ chunks s ∧ awaits key recipient c ∧ peerByKey e 1 s (ce_SenderID c) = None) ∨
   (∃ p, live_key e 0 s recipient p ∧
      verifyPeerSignature p (conf_Signature req) (confirm_message req) = Err err) ∨
   err = ErrChunkNotFound ∧ Forall (λ c, ¬ awaits key recipient c) (chunks s)).
Proof. apply ConfirmChunk_failure. Qed.

(** ** Marking a file read *)

Lemma map_unmarked {A} (f : A → bool) (g : A → A) l :
  existsb f l = false → map (λ x, if f x then g x else x) l = l.
Proof.
  induction l as [|x l IH]; cbn; [done|]. intros [-> ?]%orb_false_iff. by rewrite IH.
Qed.

Lemma ReadChunk_cases e s req :
  env_ok e →
  let recipient := TrimSpace (read_RecipientID req) in
  let file := TrimSpace (read_FileID req) in
  match ReadChunk e s req with
  | (s', Ok r) =>
    file ≠ EmptyString ∧
    signed_by e 0 s recipient (read_Signature req) (ReadPayload file) ∧
    Exists (λ c, read_matches recipient file c = true) (chunks s) ∧
    r = mkReadChunkResult true ∧
    s' = set_chunks s (map (λ c, if read_matches recipient file c
           then with_Readed c (time_Unix (time_Now e 1 0)) else c) (chunks s))
  | (s', Err err) =>
    s' = s ∧
    (err = ErrInvalidChunk ∧ (file = EmptyString ∨ TrimSpace (read_Signature req) = EmptyString) ∨
     err = ErrNotFound ∧ peerByKey e 0 s recipient = None ∨
     (∃ p, live_key e 0 s recipient p ∧
        verifyPeerSignature p (read_Signature req) (ReadPayload file) = Err err) ∨
     err = ErrChunkNotFound ∧ Forall (λ c, read_matches recipient file c = false) (chunks s))
  end.
Proof.
  intros He. cbn zeta. unfold ReadChunk, blank. cbn zeta.
  destruct ((TrimSpace (read_FileID req) == "") || _)%go eqn:E0.
  { split; [done|]. left. apply orb_true_iff in E0 as [?%String.eqb_eq|?%String.eqb_eq]; auto. }
  bool_hyps.
  destruct (peerByKey e 0 s _) as [p|] eqn:Ep; [|split; [done|naive_solver]].
  apply peerByKey_Some in Ep; [|done].
  destruct (verifyPeerSignature p _ _) as [[]|err] eqn:Ev; [|split; [done|naive_solver]].
  destruct (existsb _ (chunks s)) eqn:Ex; cbn [negb].
  - split_and!; [done|by exists p| |done|done].
    apply existsb_exists in Ex as (c & Hin & Hc). apply Exists_exists. exists c.
    split; [by apply list_elem_of_In|done].
  - rewrite map_unmarked by done. split; [by destruct s|]. do 3 right. split; [done|].
    apply Forall_forall. intros c Hc. apply not_true_iff_false. intros Ht.
    apply not_true_iff_false in Ex. apply Ex, existsb_exists. exists c.
    split; [by apply list_elem_of_In|done].
Qed.

(** [ReadChunk] marks every entry of the file addressed to the recipient,
    and no other, provided there is one and the recipient signed the request;
    it never fails half-way: an error leaves the store as it was. *)
Theorem ReadChunk_spec e s req :
  env_ok e →
  let recipient := TrimSpace (read_RecipientID req) in
  let file := TrimSpace (read_FileID req) in
  match ReadChunk e s req with
  | (s', Ok r) =>
    file ≠ EmptyString ∧
    signed_by e 0 s recipient (read_Signature req) (ReadPayload file) ∧
    Exists (λ c, read_matches recipient file c = true) (chunks s) ∧
    r = mkReadChunkResult true ∧
    s' = set_chunks s (map (λ c, if read_matches recipient file c
           then with_Readed c (time_Unix (time_Now e 1 0)) else c) (chunks s))
  | (s', Err err) =>
    s' = s ∧
    (err = ErrInvalidChunk ∧ (file = EmptyString ∨ TrimSpace (read_Signature req) = EmptyString) ∨
     err = ErrNotFound ∧ peerByKey e 0 s recipient = None ∨
     (∃ p, live_key e 0 s recipient p ∧
        verifyPeerSignature p (read_Signature req) (ReadPayload file) = Err err) ∨
     err = ErrChunkNotFound ∧ Forall (λ c, read_matches recipient file c = false) (chunks s))
  end.
Proof. apply ReadChunk_cases. Qed.

(** ** What a registration makes visible *)

(** The record a reader of the file sees of a freshly registered chunk. *)
Definition registered_record (e : Env) (fileID : string) (i : Z) (req : RegisterChunkRequest) :
    ChunkRecord :=
  chunk_record (TrimSpace fileID) i (registered_entry e fileID i req).

(** a registered chunk is appended to what [GetChunksByFileID] lists for the
    file, with the index, hash and parties it was registered with; unless the
    file id contains a hash sign: then the entry is filed under another name
    and the file's listing does not change. *)
Theorem registered_chunk_listed e s fileID i req s' :
  env_ok e → int64 i → SetChunkHash e s fileID i req = (s', Ok tt) →
  ∃ recs, GetChunksByFileID s fileID = Ok recs ∧
    GetChunksByFileID s' fileID =
      Ok (if bool_decide (hash_sep ∈ bytes (TrimSpace fileID)) then recs
          else recs ++ [registered_record e fileID i req]).
Proof.
  intros He Hi H. pose proof (SetChunkHash_cases e s fileID i req He) as Hs.
  rewrite H in Hs. destruct Hs as ((Hf & _) & _ & ->).
  unfold GetChunksByFileID. rewrite (proj2 (String.eqb_neq _ _) Hf). cbn zeta.
  eexists. split; [done|]. cbn [chunks set_chunks]. rewrite omap_app. cbn [omap list_omap].
  unfold registered_record. set (c := registered_entry e fileID i req).
  change (ce_key c) with (chunkKey (TrimSpace fileID) i).
  pose proof (parse_chunkKey_iff (TrimSpace fileID) i Hi) as Hp.
  case_bool_decide as Hsep.
  - destruct (parseChunkKey _) as [fid idx] eqn:E0.
    destruct (fid == TrimSpace fileID)%go eqn:E1; cbn [negb]; [|by rewrite app_nil_r].
    exfalso. bool_hyps. subst fid. revert Hsep. unfold parseChunkKey, SplitN2 in E0.
    rewrite bytes_chunkKey in E0.
    destruct (split_at _ _) as [[a b]|] eqn:Es;
      [|apply split_at_None in Es; set_solver].
    apply split_at_Some in Es as [_ Ha]. destruct (Atoi (of_bytes b)). simplify_eq.
    rewrite <- H0. by rewrite bytes_of_bytes.
  - by rewrite (proj2 Hp Hsep), String.eqb_refl.
Qed.

(** the first registration of a chunk fixes the hash later reports are
    compared with: no later registration changes it. *)
Theorem first_registration_wins e s fileID i req s' key :
  env_ok e → SetChunkHash e s fileID i req = (s', Ok tt) →
  Exists (λ c, ce_key c = key) (chunks s) →
  expected_hash (chunks s') key = expected_hash (chunks s) key.
Proof.
  intros He H Hex. pose proof (SetChunkHash_cases e s fileID i req He) as Hs.
  rewrite H in Hs. destruct Hs as (_ & _ & ->). cbn.
  unfold expected_hash. destruct (list_find (λ c, ce_key c = key) (chunks s)) as [[j c]|] eqn:Ef.
  - by rewrite (list_find_app_l _ _ _ _ _ Ef).
  - exfalso. apply list_find_None in Ef. apply Exists_exists in Hex as (c & Hc & Hk).
    rewrite Forall_forall in Ef. by apply (Ef c).
Qed.

End Signed.

(** ** Removal of expired chunks *)

Section Compact.
Context (now : Z).
Local Abbreviation keep := (λ c, negb (chunk_expired now c)).

  (** The loop after [i] elements: the first [j] slots hold what is kept of
      them, the slots from [i] on are untouched. *)
Definition compacted (l : list chunkRecordEntry) (i : nat)
      (st : list chunkRecordEntry * nat * Z) : Prop :=
    let '(arr, j, deleted) := st in
    take j arr = List.filter keep (take i l) ∧ drop i arr = drop i l ∧ (j ≤ i)%nat ∧
    length arr = length l ∧ deleted = Z.of_nat i - Z.of_nat j.

Lemma compact_step_ok l i st :
    (i < length l)%nat → compacted l i st → compacted l (S i) (compact_step now st i).
  Proof.
    destruct st as [[arr j] deleted]. intros Hi (Ht & Hd & Hj & Hlen & Hdel).
    destruct (lookup_lt_is_Some_2 l i Hi) as [c Hc].
    assert (arr !! i = Some c) as Harr.
    { rewrite <- (Nat.add_0_r i), <- lookup_drop, Hd, lookup_drop, Nat.add_0_r. done. }
    assert (drop (S i) arr = drop (S i) l) as Hd'.
    { rewrite <- Nat.add_1_r, <- !drop_drop. by rewrite Hd. }
    unfold compact_step, compacted. rewrite Harr, (take_S_r l i c Hc).
    rewrite List.filter_app. cbn [List.filter].
    destruct (chunk_expired now c); cbn [negb].
    - rewrite app_nil_r. split_and!; [done|done|lia|done|lia].
    - rewrite length_insert. split_and!; [|by rewrite drop_insert_lt by lia|lia|done|lia].
      rewrite (take_S_r _ _ c) by (apply list_lookup_insert_eq; lia).
      by rewrite take_insert_ge, Ht by lia.
  Qed.

Lemma compact_loop l n :
    (n ≤ length l)%nat → compacted l n (fold_left (compact_step now) (seq 0 n) (l, 0%nat, 0)).
  Proof.
    induction n as [|n IH]; intros Hn; [by cbn|].
    rewrite seq_S, fold_left_app. cbn [fold_left Nat.add]. apply compact_step_ok; [lia|].
    apply IH. lia.
  Qed.
End Compact.

Lemma DeleteExpiredChunks_eq e s :
  let now := time_Unix (time_Now e 0 0) in
  let kept := List.filter (λ c, negb (chunk_expired now c)) (chunks s) in
  DeleteExpiredChunks e s =
    (set_chunks s kept, Ok (Z.of_nat (length (chunks s)) - Z.of_nat (length kept))).
Proof.
  cbn zeta. unfold DeleteExpiredChunks.
  set (now := time_Unix (time_Now e 0 0)).
  pose proof (compact_loop now (chunks s) (length (chunks s)) ltac:(done)) as H.
  destruct (fold_left _ _ _) as [[arr j] deleted]. destruct H as (Ht & _ & Hj & Hlen & ->).
  rewrite firstn_all in Ht. rewrite Ht. do 3 f_equal. rewrite <- Ht, length_take. lia.
Qed.

(** C30: although it writes into the array it is reading, [DeleteExpiredChunks]
    keeps exactly the entries that are not expired, in their order, and returns
    how many it dropped; peers, index and signals are untouched. *)
Theorem DeleteExpiredChunks_filter e s :
  let now := time_Unix (time_Now e 0 0) in
  let kept := List.filter (λ c, negb (chunk_expired now c)) (chunks s) in
  DeleteExpiredChunks e s =
    (set_chunks s kept, Ok (Z.of_nat (length (chunks s)) - Z.of_nat (length kept))).
Proof. apply DeleteExpiredChunks_eq. Qed.

(** within the int64 range, an entry expires exactly when it is not marked
    persistent and its TTL has run out; beyond it, the sum wraps around and a
    very long TTL makes the entry expire at once. *)
Theorem chunk_expired_bounds now c :
  0 ≤ ce_CreatedAt c ≤ max_int64 → 0 < ce_TTL c ≤ max_int64 → 0 ≤ now →
  chunk_expired now c =
    negb (ce_Persist c) &&
    (if ce_CreatedAt c + ce_TTL c <=? max_int64 then ce_CreatedAt c + ce_TTL c <? now else true).
Proof.
  intros Hc Ht Hn. unfold chunk_expired. f_equal.
  destruct (Z.leb_spec (ce_CreatedAt c + ce_TTL c) max_int64) as [Hle|Hgt].
  - rewrite wrap64_id; [done|]. unfold int64, min_int64, max_int64 in *. lia.
  - apply Z.ltb_lt. unfold wrap64, max_int64 in *. Z.div_mod_to_equations; lia.
Qed.

(** ** The theorems on concrete data *)

Local Existing Instance sample_tables.
Local Existing Instance toy_ed25519.

Lemma SetChunkHash_spec_witness :
  env_ok (env_second 110) ∧
  signed_by (env_second 110) 0 two_peers (key_of "alice") (rc_Signature (announce "file"))
    (ExpectedPayload "file" 0 sample_hash) ∧
  announced = set_chunks two_peers
    (chunks two_peers ++ [registered_entry (env_second 110) "file" 0 (announce "file")]).
Proof.
  split; [apply env_second_ok|].
  pose proof (SetChunkHash_spec (env_second 110) two_peers "file" 0 (announce "file")
    (env_second_ok 110)) as H. cbn zeta in H. unfold announced.
  destruct (SetChunkHash _ _ _ _ _) as [s' [[]|err]] eqn:Ex; [|by vm_compute in Ex].
  destruct H as (_ & Hs & ->). by split.
Defined.

Lemma ConfirmChunk_ok_witness :
  ∃ s' r, ConfirmChunk (env_second 120) announced (confirmation sample_hash) = (s', Ok r) ∧
    signed_by (env_second 120) 0 announced (key_of "bob")
      (conf_Signature (confirmation sample_hash)) (ConfirmedPayload "file" 0 sample_hash).
Proof.
  destruct (ConfirmChunk (env_second 120) announced (confirmation sample_hash))
    as [s' [r|err]] eqn:Ex; [|by vm_compute in Ex].
  exists s', r. split; [done|].
  by apply (ConfirmChunk_ok _ _ _ _ _ (env_second_ok 120) Ex).
Defined.

Lemma ConfirmChunk_error_witness :
  ConfirmChunk (env_second 120) two_peers (confirmation sample_hash) =
    (two_peers, Err ErrChunkNotFound) ∧
  Forall (λ c, ¬ awaits "file#0" (key_of "bob") c) (chunks two_peers).
Proof.
  assert (ConfirmChunk (env_second 120) two_peers (confirmation sample_hash) =
    (two_peers, Err ErrChunkNotFound)) as Ex by (by vm_compute).
  split; [done|].
  destruct (ConfirmChunk_error _ _ _ _ _ (env_second_ok 120) Ex)
    as (_ & [[H _]|[[H _]|[(p & _ & H)|[_ H]]]]); [done|done| |exact H].
  exfalso. by apply verifyPeerSignature_error in H as [?|?].
Defined.

Lemma ReadChunk_spec_witness :
  env_ok (env_second 120) ∧
  signed_by (env_second 120) 0 announced (key_of "bob") (read_Signature reading)
    (ReadPayload "file").
Proof.
  split; [apply env_second_ok|].
  pose proof (ReadChunk_spec (env_second 120) announced reading (env_second_ok 120)) as H.
  cbn zeta in H. destruct (ReadChunk _ _ _) as [s' [r|err]] eqn:Ex; [|by vm_compute in Ex].
  by destruct H as (_ & Hs & _).
Defined.

Lemma registered_chunk_listed_witness :
  ∃ recs, GetChunksByFileID two_peers "file" = Ok recs ∧
    GetChunksByFileID announced "file" =
      Ok (if bool_decide (hash_sep ∈ bytes (TrimSpace "file")) then recs
          else recs ++ [registered_record (env_second 110) "file" 0 (announce "file")]).
Proof.
  apply (registered_chunk_listed (env_second 110) two_peers "file" 0 (announce "file"));
    [apply env_second_ok|by vm_compute|by vm_compute].
Defined.

Lemma first_registration_wins_witness :
  ∃ s', SetChunkHash (env_second 115) announced "file" 0 (announce "file") = (s', Ok tt) ∧
    expected_hash (chunks s') "file#0" = expected_hash (chunks announced) "file#0".
Proof.
  destruct (SetChunkHash (env_second 115) announced "file" 0 (announce "file"))
    as [s' [[]|err]] eqn:Ex; [|by vm_compute in Ex].
  exists s'. split; [done|].
  apply (first_registration_wins _ _ _ _ _ _ "file#0" (env_second_ok 115) Ex).
  by vm_compute; left.
Defined.

Lemma chunk_expired_bounds_witness :
  let c := mkEntry "f#0" sample_hash "s" "r" "p" false false false 110 110 max_int64 in
  chunk_expired 111 c = true.
Proof.
  intros c. rewrite (chunk_expired_bounds 111 c); unfold c; cbn -[max_int64];
    unfold max_int64; [done|lia..].
Defined.
