(* ===== verification/MemorySignals.v ===== *)
(** The mailboxes of the in-memory store: [SetSignal] appends, [PollSignals]
    takes everything, in order and once. *)
From S2P Require Import Prelude GoNum GoStrings GoSort Model Sign Hash StoreTypes MemoryStore.
From S2P Require Import MemoryIndex Samples.

Local Open Scope Z_scope.

(** What [SetSignal] accepts besides a registered peer. *)
Definition signal_ok (sig : Signal) : Prop :=
  sig_From sig ≠ EmptyString ∧ sig_Type sig ≠ EmptyString.

Lemma SetSignal_eq s peerID sig p :
  TrimSpace peerID ≠ EmptyString → signal_ok sig → peers s !! TrimSpace peerID = Some p →
  SetSignal s peerID sig =
    (set_signals s (<[TrimSpace peerID :=
       slice_at (signals s) (TrimSpace peerID) ++ [sig]]> (signals s)), Ok tt).
Proof.
  intros Hid [Hf Ht] Hp. unfold SetSignal. cbn zeta.
  apply String.eqb_neq in Hid as ->, Hf as ->, Ht as ->. cbn. by rewrite Hp.
Qed.

Lemma SetSignal_Ok s peerID sig s' u :
  SetSignal s peerID sig = (s', Ok u) →
  s' = set_signals s (<[TrimSpace peerID :=
         slice_at (signals s) (TrimSpace peerID) ++ [sig]]> (signals s)).
Proof. unfold SetSignal. cbn zeta. intros. branches. Qed.

Lemma SetSignal_Err s peerID sig s' err : SetSignal s peerID sig = (s', Err err) → s' = s.
Proof. unfold SetSignal. cbn zeta. intros. branches. Qed.

Lemma PollSignals_eq s peerID :
  TrimSpace peerID ≠ EmptyString →
  PollSignals s peerID =
    (set_signals s (delete (TrimSpace peerID) (signals s)),
     Ok (slice_at (signals s) (TrimSpace peerID))).
Proof. intros Hid. unfold PollSignals. by apply String.eqb_neq in Hid as ->. Qed.

(** a signal is stored exactly when the target is registered (expired or
    not) and the signal names its sender and type; it goes to the end of the
    target's mailbox, and no other mailbox changes. *)
Theorem SetSignal_spec s peerID sig :
  let id := TrimSpace peerID in
  match SetSignal s peerID sig with
  | (s', Ok _) =>
    id ≠ EmptyString ∧ signal_ok sig ∧ is_Some (peers s !! id) ∧
    slice_at (signals s') id = slice_at (signals s) id ++ [sig] ∧
    (∀ id', id' ≠ id → slice_at (signals s') id' = slice_at (signals s) id') ∧
    peers s' = peers s ∧ logins s' = logins s ∧ chunks s' = chunks s
  | (s', Err err) =>
    s' = s ∧ (err = ErrInvalidChunk ∧ (id = EmptyString ∨ ¬ signal_ok sig) ∨
              err = ErrNotFound ∧ peers s !! id = None)
  end.
Proof.
  cbn zeta. destruct (decide (TrimSpace peerID = EmptyString)) as [E0|Hid].
  { unfold SetSignal. rewrite E0. cbn. auto. }
  destruct (peers s !! TrimSpace peerID) as [p|] eqn:Hp.
  - destruct (decide (sig_From sig = EmptyString ∨ sig_Type sig = EmptyString)) as [E1|Hs].
    + assert (¬ signal_ok sig) by (unfold signal_ok; tauto).
      unfold SetSignal. cbn zeta.
      destruct E1 as [E1|E1]; rewrite E1; rewrite ?orb_true_r; cbn; rewrite ?orb_true_r; auto.
    + assert (signal_ok sig) as Hok by (unfold signal_ok; tauto).
      rewrite (SetSignal_eq s peerID sig p) by done. cbn.
      split_and!; try done; [by rewrite slice_at_insert, decide_True|].
      intros id' Hne. by rewrite slice_at_insert, decide_False by congruence.
  - unfold SetSignal. cbn zeta. rewrite Hp.
    destruct (_ || (sig_Type sig == ""))%go eqn:E1; [|auto]. split; [done|].
    left. split; [done|]. right. intros [Hf Ht].
    apply String.eqb_neq in Hid, Hf, Ht. by rewrite Hid, Hf, Ht in E1.
Qed.

(** Posting several signals to one mailbox. *)
Definition post_all (s : MemoryStore) (peerID : string) (sigs : list Signal) : MemoryStore :=
  fold_left (λ s sig, (SetSignal s peerID sig).1) sigs s.

Lemma post_all_mailbox s peerID sigs :
  TrimSpace peerID ≠ EmptyString → is_Some (peers s !! TrimSpace peerID) → Forall signal_ok sigs →
  slice_at (signals (post_all s peerID sigs)) (TrimSpace peerID) =
    slice_at (signals s) (TrimSpace peerID) ++ sigs.
Proof.
  intros Hid Hp Hsigs. revert s Hp. induction Hsigs as [|sig sigs Hsig _ IH]; intros s [p Hp].
  { cbn. by rewrite app_nil_r. }
  cbn [post_all fold_left]. rewrite (SetSignal_eq s peerID sig p) by done. cbn [fst].
  unfold post_all in IH. rewrite IH by (cbn; eauto). cbn.
  rewrite slice_at_insert, decide_True by done. by rewrite <- app_assoc.
Qed.

(** a poll returns what was posted since the last one, in the order it was
    posted, exactly once: the next poll returns nothing. *)
Theorem PollSignals_fifo s peerID sigs :
  TrimSpace peerID ≠ EmptyString → is_Some (peers s !! TrimSpace peerID) → Forall signal_ok sigs →
  let '(s1, r1) := PollSignals (post_all s peerID sigs) peerID in
  let '(s2, r2) := PollSignals s1 peerID in
  r1 = Ok (slice_at (signals s) (TrimSpace peerID) ++ sigs) ∧ r2 = Ok [] ∧
  ∀ id', id' ≠ TrimSpace peerID →
    slice_at (signals s2) id' = slice_at (signals (post_all s peerID sigs)) id'.
Proof.
  intros Hid Hp Hsigs. rewrite !PollSignals_eq by done. cbn.
  rewrite post_all_mailbox by done. split; [done|]. unfold slice_at.
  rewrite lookup_delete_eq. split; [done|]. intros id' Hne. by rewrite !lookup_delete_ne.
Qed.

Lemma PollSignals_fifo_witness :
  let s := two_peers in
  let sigs := [mkSignal "alice" "offer" "x"; mkSignal "alice" "candidate" "y"] in
  (PollSignals (post_all s "bob" sigs) "bob").2 = Ok sigs.
Proof.
  intros s sigs.
  pose proof (PollSignals_fifo s "bob" sigs ltac:(done)
    ltac:(by vm_compute; eexists) ltac:(by repeat constructor)) as H.
  destruct (PollSignals (post_all s "bob" sigs) "bob") as [s1 r1].
  destruct (PollSignals s1 "bob") as [s2 r2]. destruct H as [-> _]. by vm_compute.
Defined.
