(* ===== verification/MemorySystem.v ===== *)
(** The in-memory store as a state machine: one operation per method of the
    [Store] interface, the states reachable by calls that do not overlap, and
    what holds in all of those states.  [MemoryConc.v] lets the calls overlap. *)
From S2P Require Import Prelude GoNum GoStrings GoSort Model Sign Hash StoreTypes MemoryStore.
From S2P Require Import Samples MemoryIndex MemoryChunks.

Local Open Scope Z_scope.

(** ** Operations *)

Inductive Op :=
| OpUpsert (req : RegisterRequest)
| OpRefresh (req : RefreshRequest)
| OpGet (id : string)
| OpGetByKey (login signature : string)
| OpDelete (id : string)
| OpList
| OpHeartbeat (id : string) (ttlSeconds : Z)
| OpSetChunkHash (fileID : string) (chunkIndex : Z) (req : RegisterChunkRequest)
| OpGetBestPeers (n : Z)
| OpReportChunk (sourcePeerID : string) (req : ChunkReportRequest)
| OpConfirmChunk (req : ConfirmChunkRequest)
| OpReadChunk (req : ReadChunkRequest)
| OpGetChunksByRecipient (recipientID : string) (dateFrom : Z)
| OpGetChunksByFileID (fileID : string)
| OpGetBestThickPeers (n : Z)
| OpSetSignal (peerID : string) (sig : Signal)
| OpPollSignals (peerID : string)
| OpDeleteExpiredChunks.

Section System.
Context {U : UnicodeTables} {E : Ed25519}.

(** The state after an operation; the look-ups leave it alone. *)
Definition next (e : Env) (s : MemoryStore) (op : Op) : MemoryStore :=
  match op with
  | OpUpsert req => (Upsert e s req).1
  | OpRefresh req => (Refresh e s req).1
  | OpDelete id => (Delete s id).1
  | OpHeartbeat id ttl => (Heartbeat e s id ttl).1
  | OpSetChunkHash f i req => (SetChunkHash e s f i req).1
  | OpReportChunk src req => (ReportChunk s src req).1
  | OpConfirmChunk req => (ConfirmChunk e s req).1
  | OpReadChunk req => (ReadChunk e s req).1
  | OpSetSignal id sig => (SetSignal s id sig).1
  | OpPollSignals id => (PollSignals s id).1
  | OpDeleteExpiredChunks => (DeleteExpiredChunks e s).1
  | OpGet _ | OpGetByKey _ _ | OpList | OpGetBestPeers _ | OpGetBestThickPeers _
  | OpGetChunksByRecipient _ _ | OpGetChunksByFileID _ => s
  end.

(** States reached from the empty store by operations satisfying [P], each in
    an environment of its own. *)
Inductive reach (P : Op → Prop) : MemoryStore → Prop :=
| reach_init : reach P NewMemory
| reach_step e s op : reach P s → env_ok e → P op → reach P (next e s op).

(** All operations; all but [Refresh]. *)
Definition any_op (_ : Op) : Prop := True.
Definition no_refresh (op : Op) : Prop := match op with OpRefresh _ => False | _ => True end.

(** ** What an operation may do to the registered peers *)

(** A record written back by a method that keeps its identity and keys. *)
Inductive touched (p : Peer) : Peer → Prop :=
| touched_seen t : touched p (with_LastSeen p t)
| touched_beat ttl t : 0 < ttl → touched p (with_LastSeen (with_TTLSeconds p ttl) t)
| touched_report v : touched p (score_report p v).

Lemma touched_identity p p' : touched p p' → same_identity p p'.
Proof. destruct 1; done. Qed.

(** The operations that may move a score, with the signature each needs. *)
Inductive authentic (e : Env) (s : MemoryStore) : Op → Prop :=
| authentic_report src req reporter :
    peers s !! TrimSpace (rep_ReporterID req) = Some reporter →
    verifyPeerSignature reporter (rep_Signature req) (report_message src req) = Ok tt →
    authentic e s (OpReportChunk src req)
| authentic_confirm req :
    signed_by e 0 s (TrimSpace (conf_RecipientID req)) (conf_Signature req) (confirm_message req) →
    authentic e s (OpConfirmChunk req).

(** The effect of an operation on [peers] and [logins]. *)
Inductive peer_effect (e : Env) (s : MemoryStore) : Op → MemoryStore → Prop :=
| effect_none op s' : peers s' = peers s → logins s' = logins s → peer_effect e s op s'
| effect_touch op s' id p p' :
    peers s !! id = Some p → touched p p' →
    (peer_QualityScore p' = peer_QualityScore p ∨ authentic e s op) →
    peers s' = <[id := p']> (peers s) → logins s' = logins s → peer_effect e s op s'
| effect_upsert req : peer_effect e s (OpUpsert req) (Upsert e s req).1
| effect_refresh req : peer_effect e s (OpRefresh req) (Refresh e s req).1
| effect_delete id : peer_effect e s (OpDelete id) (Delete s id).1.

Lemma SetChunkHash_peers e s f i req :
  peers (SetChunkHash e s f i req).1 = peers s ∧ logins (SetChunkHash e s f i req).1 = logins s ∧
  signals (SetChunkHash e s f i req).1 = signals s.
Proof. unfold SetChunkHash. cbn zeta. repeat case_match; done. Qed.

Lemma ReadChunk_peers e s req :
  peers (ReadChunk e s req).1 = peers s ∧ logins (ReadChunk e s req).1 = logins s.
Proof. unfold ReadChunk. cbn zeta. repeat case_match; done. Qed.

Lemma next_effect e s op : env_ok e → peers_ok s → peer_effect e s op (next e s op).
Proof.
  intros He Hok. destruct op; cbn; try (by apply effect_none); try (by constructor).
  - unfold Heartbeat. destruct (peers s !! id) as [p|] eqn:Hp; [|by apply effect_none].
    eapply (effect_touch _ _ _ _ id p); [done| | |done|done];
      destruct (Z.ltb_spec 0 ttlSeconds); [by constructor..|by left|by left].
  - destruct (SetChunkHash_peers e s fileID chunkIndex req) as (? & ? & _). by apply effect_none.
  - pose proof (ReportChunk_cases s sourcePeerID req) as H. cbn zeta in H.
    destruct (ReportChunk s sourcePeerID req) as [s' [r|err]].
    + destruct H as (_ & (reporter & Hrep & Hv) & peer & Hp & _ & Hr & ->).
      eapply effect_touch; [exact Hp| | |done|done]; [rewrite Hr; constructor|].
      right. by apply (authentic_report _ _ _ _ reporter).
    + destruct H as [-> _]. by apply effect_none.
  - destruct (ConfirmChunk e s req) as [s' [r|err]] eqn:Ec.
    + apply ConfirmChunk_success in Ec; [|done]. cbn zeta in Ec.
      destruct Ec as (_ & Hsig & i & entry & sender & _ & ([id Hid] & _) & _ & ->).
      destruct (Hok id sender Hid) as [<- _].
      eapply effect_touch; [exact Hid| | |done|done]; [constructor|]. right. by constructor.
    + apply ConfirmChunk_failure in Ec; [|done]. destruct Ec as [-> _]. by apply effect_none.
  - destruct (ReadChunk_peers e s req). by apply effect_none.
  - unfold SetSignal. cbn zeta. repeat case_match; by apply effect_none.
  - unfold PollSignals. cbn zeta. repeat case_match; by apply effect_none.
  - rewrite DeleteExpiredChunks_eq. by apply effect_none.
Qed.

(** ** Invariants of the registered peers *)

(** The score of a record is the initial score plus the good reports minus the
    bad ones, at the width of an int. *)
Definition balanced (p : Peer) : Prop :=
  peer_QualityScore p =
    wrap64 (InitialQualityScore + ValidReports (peer_Quality p) - InvalidReports (peer_Quality p)).

Lemma touched_balanced p p' : touched p p' → balanced p → balanced p'.
Proof.
  intros [t|ttl t Httl|v] Hb; [done|done|]. unfold balanced in *.
  unfold score_report. cbn -[wrap64]. rewrite Hb, wrap64_add_l.
  unfold QualityPointsValid, QualityPointsInvalid. destruct v; cbn -[wrap64].
  - set (v := ValidReports _). set (i := InvalidReports _).
    replace (InitialQualityScore + wrap64 (v + 1) - i)
      with (InitialQualityScore - i + wrap64 (v + 1)) by lia.
    rewrite wrap64_add_r. f_equal. lia.
  - rewrite wrap64_sub_r. f_equal. lia.
Qed.

Definition ledger_ok (s : MemoryStore) : Prop := map_Forall (λ _ p, balanced p) (peers s).

Lemma peers_ok_ext s s' : peers s' = peers s → peers_ok s → peers_ok s'.
Proof. unfold peers_ok. by intros ->. Qed.

Lemma ledger_ok_ext s s' : peers s' = peers s → ledger_ok s → ledger_ok s'.
Proof. unfold ledger_ok. by intros ->. Qed.

Lemma index_complete_ext s s' :
  peers s' = peers s → logins s' = logins s → index_complete s → index_complete s'.
Proof. unfold index_complete. by intros -> ->. Qed.

Lemma index_sound_ext s s' :
  peers s' = peers s → logins s' = logins s → index_sound s → index_sound s'.
Proof. unfold index_sound. by intros -> ->. Qed.

Lemma next_peers_ok e s op : env_ok e → peers_ok s → peers_ok (next e s op).
Proof.
  intros He H. destruct (next_effect e s op He H) as [op s' Hp Hl|op s' id p p' Hp Ht _ Hs Hl|req|req|id].
  - by apply (peers_ok_ext s).
  - apply (peers_ok_ext (mkMemoryStore (<[id := p']> (peers s)) (logins s') (chunks s') (signals s')));
      [done|]. by apply (peers_ok_update s id p), H; [|apply touched_identity].
  - by apply Upsert_peers_ok.
  - by apply Refresh_peers_ok.
  - by apply Delete_peers_ok.
Qed.

Lemma next_complete e s op :
  env_ok e → peers_ok s → index_complete s → index_complete (next e s op).
Proof.
  intros He Hok H.
  destruct (next_effect e s op He Hok) as [op s' Hp Hl|op s' id p p' Hp Ht _ Hs Hl|req|req|id].
  - by apply (index_complete_ext s).
  - apply (index_complete_ext (mkMemoryStore (<[id := p']> (peers s)) (logins s) (chunks s') (signals s')));
      [done..|]. by apply (index_complete_update s id p), H; [|apply touched_identity].
  - by apply Upsert_complete.
  - by apply Refresh_complete.
  - by apply Delete_complete.
Qed.

Lemma next_sound e s op :
  env_ok e → no_refresh op → peers_ok s → index_sound s → index_sound (next e s op).
Proof.
  intros He Hop Hok H.
  destruct (next_effect e s op He Hok) as [op s' Hp Hl|op s' id p p' Hp Ht _ Hs Hl|req|req|id].
  - by apply (index_sound_ext s).
  - apply (index_sound_ext (mkMemoryStore (<[id := p']> (peers s)) (logins s) (chunks s') (signals s')));
      [done..|]. by apply (index_sound_update s id p), H; [|apply touched_identity].
  - by apply Upsert_sound.
  - done.
  - by apply Delete_sound.
Qed.

Lemma next_ledger e s op : env_ok e → peers_ok s → ledger_ok s → ledger_ok (next e s op).
Proof.
  intros He Hok H.
  destruct (next_effect e s op He Hok) as [op s' Hp Hl|op s' id p p' Hp Ht _ Hs Hl|req|req|id].
  - by apply (ledger_ok_ext s).
  - unfold ledger_ok. rewrite Hs. apply map_Forall_insert_2; [|done].
    by apply (touched_balanced p), (H id p).
  - unfold ledger_ok. rewrite Upsert_eq. cbn zeta. case_match; [done|].
    apply map_Forall_insert_2; [|done]. unfold upsert_record.
    destruct (peers s !! _) as [p|] eqn:Hp; [by apply (H (TrimSpace (reg_ID req)) p)|done].
  - unfold ledger_ok, Refresh. repeat case_match; try done.
    apply map_Forall_insert_2; [|done]. by eapply (H _ p).
  - unfold ledger_ok, Delete. case_match; [|done]. by apply map_Forall_delete.
Qed.

(** *** The invariants of every reachable state *)

Lemma reach_peers_ok P s : reach P s → peers_ok s.
Proof. induction 1; [by apply map_Forall_empty|]. by apply next_peers_ok. Qed.

Lemma reach_complete P s : reach P s → index_complete s.
Proof.
  induction 1; [by apply map_Forall_empty|].
  apply next_complete; eauto using reach_peers_ok.
Qed.

Lemma reach_ledger P s : reach P s → ledger_ok s.
Proof.
  induction 1 as [|e s op Hs IH He _]; [by apply map_Forall_empty|].
  apply next_ledger; eauto using reach_peers_ok.
Qed.

Lemma reach_no_refresh_sound s : reach no_refresh s → index_sound s.
Proof.
  induction 1 as [|e s op Hs IH He Hop].
  - intros k. cbn. rewrite slice_at_empty. split; [constructor|]. by intros id ?%not_elem_of_nil.
  - apply next_sound; eauto using reach_peers_ok.
Qed.

(** C6: without [Refresh], the index is exact in every reachable store, so that
    [GetByKey] answers as a scan of the peers. *)
Theorem GetByKey_exact s e login signature out :
  reach no_refresh s → GetByKey e s login signature = Ok out →
  out ≡ₚ peers_with_key s (time_Now e 0 0) (TrimSpace login +:+ ":" +:+ TrimSpace signature).
Proof.
  intros Hs Hg. pose proof (GetByKey_cases e s login signature (reach_peers_ok _ _ Hs)
    (reach_complete _ _ Hs) (reach_no_refresh_sound _ Hs)) as H.
  cbn zeta in H. rewrite Hg in H. by destruct H.
Qed.

(** C3: in every reachable store each score is 1000 plus the good reports minus
    the bad ones: points come from nowhere else. *)
Theorem score_ledger s id p :
  reach any_op s → peers s !! id = Some p →
  peer_QualityScore p =
    wrap64 (1000 + ValidReports (peer_Quality p) - InvalidReports (peer_Quality p)).
Proof.
  intros Hs. apply (reach_ledger any_op s Hs).
Qed.

(** ** The history of a chunk entry *)

(** [c'] is a later version of [c]: what was announced never changes, and the
    confirmed and read marks are never taken back. *)
Definition later_entry (c c' : chunkRecordEntry) : Prop :=
  ce_key c' = ce_key c ∧ ce_Hash c' = ce_Hash c ∧ ce_SenderID c' = ce_SenderID c ∧
  ce_RecipientID c' = ce_RecipientID c ∧ ce_PeerID c' = ce_PeerID c ∧
  ce_Persist c' = ce_Persist c ∧ ce_CreatedAt c' = ce_CreatedAt c ∧ ce_TTL c' = ce_TTL c ∧
  (ce_Confirmed c = true → ce_Confirmed c' = true) ∧ (ce_Readed c = true → ce_Readed c' = true).

Lemma later_entry_refl c : later_entry c c.
Proof. by split_and!. Qed.

#[local] Hint Resolve later_entry_refl : core.

(** Entry [c'] was announced by operation [op], which succeeded. *)
Definition announced_by (e : Env) (s : MemoryStore) (op : Op) (c' : chunkRecordEntry) : Prop :=
  ∃ f i req, op = OpSetChunkHash f i req ∧ c' = registered_entry e f i req ∧
    (SetChunkHash e s f i req).2 = Ok tt ∧ register_input_ok f i req ∧
    signed_by e 0 s (ce_SenderID c') (rc_Signature req)
      (ExpectedPayload (TrimSpace f) i (ce_Hash c')).

Lemma next_chunks e s op c' :
  env_ok e → c' ∈ chunks (next e s op) →
  (∃ c, c ∈ chunks s ∧ later_entry c c') ∨ announced_by e s op c'.
Proof.
  intros He. destruct op; cbn; try (by eauto).
  - rewrite Upsert_eq. cbn zeta. case_match; eauto.
  - unfold Refresh. repeat case_match; eauto.
  - unfold Delete. repeat case_match; eauto.
  - unfold Heartbeat. repeat case_match; eauto.
  - pose proof (SetChunkHash_cases e s fileID chunkIndex req He) as H. cbn zeta in H.
    destruct (SetChunkHash _ _ _ _ _) as [s' [[]|err]] eqn:Es.
    + destruct H as (Hok & Hs & ->). cbn.
      intros [?| ->%list_elem_of_singleton]%elem_of_app; [eauto|]. right.
      exists fileID, chunkIndex, req. rewrite Es. by split_and!.
    + destruct H as [-> _]. eauto.
  - pose proof (ReportChunk_cases s sourcePeerID req) as H. cbn zeta in H.
    destruct (ReportChunk _ _ _) as [s' [r|err]].
    + destruct H as (_ & _ & peer & _ & _ & _ & ->). eauto.
    + destruct H as [-> _]. eauto.
  - destruct (ConfirmChunk e s req) as [s' [r|err]] eqn:Ec.
    + apply ConfirmChunk_success in Ec; [|done].
      destruct Ec as (_ & _ & i & c & p & (Hi & _ & _) & _ & _ & ->). cbn.
      case_match; [|eauto].
      intros [j Hj]%list_elem_of_lookup_1.
      apply list_lookup_insert_Some in Hj as [(<- & <- & _)|[_ Hj]].
      * left. exists c. split; [by eapply list_elem_of_lookup_2|by split_and!].
      * left. exists c'. split; [by eapply list_elem_of_lookup_2|done].
    + apply ConfirmChunk_failure in Ec; [|done]. destruct Ec as [-> _]. eauto.
  - pose proof (ReadChunk_cases e s req He) as H. cbn zeta in H.
    destruct (ReadChunk _ _ _) as [s' [r|err]].
    + destruct H as (_ & _ & _ & _ & ->). cbn.
      rewrite list_elem_of_In, in_map_iff. intros (c & <- & Hc%list_elem_of_In).
      left. exists c. split; [done|]. by case_match; split_and!.
    + destruct H as [-> _]. eauto.
  - unfold SetSignal. repeat case_match; eauto.
  - unfold PollSignals. repeat case_match; eauto.
  - rewrite DeleteExpiredChunks_eq. cbn. rewrite list_elem_of_In, filter_In.
    intros [?%list_elem_of_In _]. eauto.
Qed.

(** an operation either announces a chunk entry, under a valid signature of
    a live sender, or takes it over from before with the file, the hash, the
    parties and the lifetime unchanged and no mark taken back. *)
Theorem chunk_history e s op c' :
  env_ok e → c' ∈ chunks (next e s op) →
  (∃ c, c ∈ chunks s ∧ later_entry c c') ∨ announced_by e s op c'.
Proof. apply next_chunks. Qed.

End System.

(** ** The theorems on concrete runs *)

Local Existing Instance sample_tables.
Local Existing Instance toy_ed25519.

Lemma two_peers_reach P :
  (∀ req, P (OpUpsert req)) → reach P two_peers.
Proof.
  intros H. unfold two_peers.
  apply (reach_step P (env_second 100) _ (OpUpsert _)); [|apply env_second_ok|apply H].
  apply (reach_step P (env_second 100) _ (OpUpsert _)); [|apply env_second_ok|apply H].
  apply reach_init.
Qed.

Lemma announced_reach : reach any_op announced.
Proof.
  unfold announced.
  exact (reach_step any_op (env_second 110) two_peers (OpSetChunkHash "file" 0 (announce "file"))
    (two_peers_reach any_op (λ _, I)) (env_second_ok 110) I).
Qed.

Lemma GetByKey_exact_witness :
  ∃ out, GetByKey (env_second 120) two_peers "alice" (toy_pub "alice") = Ok out ∧
    out ≡ₚ peers_with_key two_peers (at_second 120)
      (TrimSpace "alice" +:+ ":" +:+ TrimSpace (toy_pub "alice")).
Proof.
  destruct (GetByKey (env_second 120) two_peers "alice" (toy_pub "alice")) as [out|err] eqn:Eg;
    [|by vm_compute in Eg].
  exists out. split; [done|].
  by apply (GetByKey_exact two_peers (env_second 120) _ _ _ (two_peers_reach no_refresh (λ _, I)) Eg).
Defined.

Lemma score_ledger_witness :
  ∃ p, peers announced !! "alice" = Some p ∧
    peer_QualityScore p =
      wrap64 (1000 + ValidReports (peer_Quality p) - InvalidReports (peer_Quality p)).
Proof.
  destruct (peers announced !! "alice") as [p|] eqn:Hp; [|by vm_compute in Hp].
  exists p. split; [done|]. by apply (score_ledger announced "alice" p announced_reach Hp).
Defined.

Lemma chunk_history_witness :
  ∃ c', c' ∈ chunks (next (env_second 120) announced (OpReadChunk reading)) ∧
    ((∃ c, c ∈ chunks announced ∧ later_entry c c') ∨
     announced_by (env_second 120) announced (OpReadChunk reading) c').
Proof.
  destruct (chunks (next (env_second 120) announced (OpReadChunk reading))) as [|c' l] eqn:Hc;
    [by vm_compute in Hc|].
  exists c'. split; [left|].
  apply (chunk_history _ _ _ _ (env_second_ok 120)). rewrite Hc. left.
Defined.
