(* ===== verification/MemoryRefresh.v ===== *)
(** [MemoryStore.Refresh] against the rest of the store.  It files the caller's
    id under whatever key the request names, and it runs without the store's
    mutex: the second half models it as the separate map accesses it performs,
    interleaved with other methods. *)
From S2P Require Import Prelude GoNum GoStrings GoSort Model Sign Hash StoreTypes MemoryStore.
From S2P Require Import Samples MemoryIndex MemoryChunks MemorySystem.

Local Open Scope Z_scope.

(** ** What a refresh writes into the index *)

Lemma Refresh_known e s req p :
  TrimSpace (refr_ID req) ≠ EmptyString → peers s !! TrimSpace (refr_ID req) = Some p →
  let id := TrimSpace (refr_ID req) in
  let key := refr_Login req +:+ ":" +:+ refr_SignatureKey req in
  Refresh e s req =
    (mkMemoryStore (<[id := with_LastSeen p (time_Now e 0 0)]> (peers s))
       (add_id (logins s) id key) (chunks s) (signals s), Ok tt).
Proof.
  intros Hid Hp. cbn zeta. unfold Refresh.
  by rewrite (proj2 (String.eqb_neq _ _) Hid), Hp.
Qed.

(** a refresh of a known id renews [LastSeen] and nothing else of the record,
    and appends the id to the entry of the request's key, which need not be the
    peer's; unknown ids are ignored without an error. *)
Theorem Refresh_spec e s req :
  let id := TrimSpace (refr_ID req) in
  let key := refr_Login req +:+ ":" +:+ refr_SignatureKey req in
  match Refresh e s req with
  | (s', Err err) => err = ErrInvalidPeer ∧ id = EmptyString ∧ s' = s
  | (s', Ok _) =>
    id ≠ EmptyString ∧
    match peers s !! id with
    | None => s' = s
    | Some p =>
      peers s' = <[id := with_LastSeen p (time_Now e 0 0)]> (peers s) ∧
      (∀ k, slice_at (logins s') k =
              slice_at (logins s) k ++ (if decide (key = k) then [id] else [])) ∧
      chunks s' = chunks s ∧ signals s' = signals s
    end
  end.
Proof.
  cbn zeta. destruct (decide (TrimSpace (refr_ID req) = EmptyString)) as [E0|Hid].
  { unfold Refresh. by rewrite E0. }
  destruct (peers s !! TrimSpace (refr_ID req)) as [p|] eqn:Hp.
  - rewrite (Refresh_known e s req p) by done. cbn. split_and!; try done.
    intros k. unfold add_id. rewrite slice_at_insert.
    case_decide as Ek; [by rewrite Ek|by rewrite app_nil_r].
  - unfold Refresh. rewrite (proj2 (String.eqb_neq _ _) Hid), Hp. done.
Qed.

(** C28: after a refresh naming any login and signature key at all, [GetByKey]
    with that pair answers with the refreshed peer: the index is no longer
    sound, and a peer can appear under a key it does not own. *)
Theorem Refresh_claims_any_key e e' s id login signature p :
  trimmed id → trimmed login → trimmed signature →
  id ≠ EmptyString → login ≠ EmptyString → signature ≠ EmptyString →
  peers s !! id = Some p →
  isExpired (with_LastSeen p (time_Now e 0 0)) (time_Now e' 0 0) = false →
  ∃ out,
    GetByKey e' (Refresh e s (mkRefreshRequest id login signature)).1 login signature = Ok out ∧
    with_LastSeen p (time_Now e 0 0) ∈ out.
Proof.
  intros Hti Htl Hts Hid Hl Hs Hp Hlive.
  rewrite (Refresh_known e s _ p) by (cbn [refr_ID]; by rewrite (TrimSpace_id id Hti)).
  cbn [fst refr_ID refr_Login refr_SignatureKey].
  rewrite (TrimSpace_id id Hti). unfold GetByKey. cbn [logins].
  rewrite (TrimSpace_id login Htl), (TrimSpace_id signature Hts).
  apply String.eqb_neq in Hl as ->, Hs as ->. cbn [orb].
  unfold add_id. rewrite lookup_insert_eq.
  set (s' := mkMemoryStore _ _ _ _).
  assert (with_LastSeen p (time_Now e 0 0) ∈ live_peers s' (time_Now e' 0 0)
    (slice_at (logins s) (login +:+ ":" +:+ signature) ++ [id])) as Hin.
  { apply elem_of_live_peers. exists id. split; [set_solver|].
    unfold s'. cbn. by rewrite lookup_insert_eq. }
  destruct (live_peers s' _ _) as [|q out]; [by apply not_elem_of_nil in Hin|eauto].
Qed.

(** Repeating a request. *)
Fixpoint refresh_times (n : nat) (e : Env) (s : MemoryStore) (req : RefreshRequest) : MemoryStore :=
  match n with O => s | S n => refresh_times n e (Refresh e s req).1 req end.

(** every refresh adds one more copy of the id to the index, which nothing
    removes while the peer stays registered under that key: the index grows
    with the number of refreshes, and [GetByKey] repeats the peer. *)
Theorem Refresh_accumulates n e s req :
  let id := TrimSpace (refr_ID req) in
  let key := refr_Login req +:+ ":" +:+ refr_SignatureKey req in
  id ≠ EmptyString → is_Some (peers s !! id) →
  slice_at (logins (refresh_times n e s req)) key = slice_at (logins s) key ++ replicate n id.
Proof.
  cbn zeta. intros Hid. revert s. induction n as [|n IH]; intros s [p Hp]; cbn [refresh_times].
  { by rewrite app_nil_r. }
  rewrite (Refresh_known e s req p) by done. cbn [fst]. rewrite IH by (cbn; rewrite lookup_insert_eq; eauto).
  cbn [logins]. unfold add_id. rewrite slice_at_insert, decide_True by done.
  by rewrite <- app_assoc.
Qed.

(** ** Refresh without the mutex *)

(** The body of [Refresh] between its accesses to the shared maps: it has yet
    to look the peer up, holds the copied record, holds the record and the
    slice it will append to, has written the slice back, or has returned. *)
Inductive RefreshPC :=
| RStart
| RFound (existing : Peer)
| RSlice (existing : Peer) (ids : list string)
| RFiled (existing : Peer)
| RDone (res : result StoreError unit).

(** The next access of the call. *)
Definition refresh_step (e : Env) (req : RefreshRequest) (c : MemoryStore * RefreshPC) :
    MemoryStore * RefreshPC :=
  let '(s, pc) := c in
  let id := TrimSpace (refr_ID req) in
  let key := refr_Login req +:+ ":" +:+ refr_SignatureKey req in
  match pc with
  | RStart =>
    if (id == "")%go then (s, RDone (Err ErrInvalidPeer)) else
    match peers s !! id with
    | Some existing => (s, RFound (with_LastSeen existing (time_Now e 0 0)))
    | None => (s, RDone (Ok tt))
    end
  | RFound existing => (s, RSlice existing (slice_at (logins s) key))
  | RSlice existing ids =>
    (mkMemoryStore (peers s) (<[key := ids ++ [id]]> (logins s)) (chunks s) (signals s),
     RFiled existing)
  | RFiled existing => (set_peers s (<[id := existing]> (peers s)), RDone (Ok tt))
  | RDone res => (s, RDone res)
  end.

Section Race.
Context {U : UnicodeTables} {E : Ed25519}.

(** A schedule: [None] lets the refresh do its next access, [Some] runs a whole
    other method, which holds the mutex that the refresh ignores. *)
Fixpoint race (e : Env) (req : RefreshRequest) (sched : list (option (Env * Op)))
    (c : MemoryStore * RefreshPC) : MemoryStore * RefreshPC :=
  match sched with
  | [] => c
  | None :: sched => race e req sched (refresh_step e req c)
  | Some (e', op) :: sched => race e req sched (next e' c.1 op, c.2)
  end.

(** The operations alone, without the refresh. *)
Fixpoint run (ops : list (Env * Op)) (s : MemoryStore) : MemoryStore :=
  match ops with [] => s | (e, op) :: ops => run ops (next e s op) end.

Lemma race_app e req sched1 sched2 c :
  race e req (sched1 ++ sched2) c = race e req sched2 (race e req sched1 c).
Proof. revert c. induction sched1 as [|[[e' op]|] l IH]; intros c; cbn; auto. Qed.

Lemma race_run e req ops s pc : race e req (Some <$> ops) (s, pc) = (run ops s, pc).
Proof. revert s. induction ops as [|[e' op] ops IH]; intros s; cbn; auto. Qed.

Lemma race_ops_step e req ops sched s pc :
  race e req ((Some <$> ops) ++ [None] ++ sched) (s, pc) =
    race e req sched (refresh_step e req (run ops s, pc)).
Proof. by rewrite race_app, race_run. Qed.

(** left alone, the accesses add up to the atomic [Refresh]. *)
Theorem race_alone e req s :
  race e req [None; None; None; None] (s, RStart) =
    ((Refresh e s req).1, RDone (Refresh e s req).2).
Proof.
  cbn [race refresh_step]. unfold Refresh.
  destruct (TrimSpace (refr_ID req) == "")%go; [done|].
  by destruct (peers s !! TrimSpace (refr_ID req)) as [p|].
Qed.

(** whatever other methods do between the look-up and the end of a refresh,
    the refresh writes back the record it read: score, counters, TTL, login
    and even a deleted peer come back as they were, and the methods' own
    answers stay given. *)
Theorem race_writes_stale_record e req s p ops1 ops2 ops3 :
  TrimSpace (refr_ID req) ≠ EmptyString →
  peers s !! TrimSpace (refr_ID req) = Some p →
  let c := race e req
    ([None] ++ (Some <$> ops1) ++ [None] ++ (Some <$> ops2) ++ [None] ++ (Some <$> ops3) ++ [None])
    (s, RStart) in
  peers c.1 !! TrimSpace (refr_ID req) = Some (with_LastSeen p (time_Now e 0 0)) ∧
  c.2 = RDone (Ok tt).
Proof.
  intros Hid Hp. cbn zeta. rewrite race_app. cbn [race refresh_step].
  rewrite (proj2 (String.eqb_neq _ _) Hid), Hp, race_ops_step. cbn [refresh_step].
  rewrite !race_ops_step. cbn [refresh_step].
  rewrite race_app, race_run. cbn [race refresh_step fst snd set_peers peers]. split; [|done].
  by rewrite lookup_insert_eq.
Qed.

End Race.

(** ** Concrete interleavings *)

Local Existing Instance sample_tables.
Local Existing Instance toy_ed25519.

Definition refresh_alice : RefreshRequest := mkRefreshRequest "alice" "alice" (toy_pub "alice").

(** A second device of Alice registers while the refresh of the first has read
    the entry of their common key and not yet written it back. *)
Definition lost_registration : MemoryStore * RefreshPC :=
  race (env_second 120) refresh_alice
    [None; None; Some (env_second 120, OpUpsert (register "phone" "alice")); None; None]
    (two_peers, RStart).

(** C27: an interleaving of a refresh with one registration leads from a
    well-formed reachable state to one where the new peer is registered but its
    key does not lead to it: [GetByKey] answers without it. *)
Theorem race_breaks_index :
  reach any_op two_peers ∧ lost_registration.2 = RDone (Ok tt) ∧
  ¬ index_complete lost_registration.1 ∧
  is_Some (peers lost_registration.1 !! "phone") ∧
  (∃ out, GetByKey (env_second 121) lost_registration.1 "alice" (toy_pub "alice") = Ok out ∧
     forallb (λ p, negb (peer_ID p =? "phone")%string) out = true).
Proof.
  split; [exact (two_peers_reach any_op (λ _, I))|].
  destruct (peers lost_registration.1 !! "phone") as [p|] eqn:Hp; [|by vm_compute in Hp].
  split_and!; [by vm_compute| |eauto|].
  - intros Hc. pose proof (Hc "phone" p Hp) as Hin. cbn beta in Hin.
    apply (bool_decide_eq_true_2 (_ ∈ _)) in Hin. revert Hin Hp.
    destruct p as [pid login ek sk seen ttl score q flag fake]. vm_compute.
    intros Hin [= <- <- <- <- <- <- <- <- <- <-]. by vm_compute in Hin.
  - destruct (GetByKey (env_second 121) lost_registration.1 "alice" (toy_pub "alice"))
      as [out|err] eqn:Hg; [|by vm_compute in Hg].
    exists out. split; [done|]. revert Hg. vm_compute. by intros [= <-].
Qed.

(** ** The theorems on concrete runs *)

Lemma Refresh_claims_any_key_witness :
  ∃ p out, peers two_peers !! "bob" = Some p ∧
    GetByKey (env_second 120)
      (Refresh (env_second 120) two_peers (mkRefreshRequest "bob" "alice" (toy_pub "alice"))).1
      "alice" (toy_pub "alice") = Ok out ∧
    with_LastSeen p (at_second 120) ∈ out.
Proof.
  assert (option_map (λ p, isExpired (with_LastSeen p (at_second 120)) (at_second 120))
    (peers two_peers !! "bob") = Some false) as H by (by vm_compute).
  destruct (peers two_peers !! "bob") as [p|] eqn:Hp; [|discriminate H].
  exists p.
  destruct (Refresh_claims_any_key (env_second 120) (env_second 120) two_peers "bob" "alice"
    (toy_pub "alice") p) as (out & H1 & H2).
  1-3: split; vm_compute; reflexivity.
  1-3: vm_compute; discriminate.
  - exact Hp.
  - exact (Some_inj _ _ H).
  - exact (ex_intro _ out (conj eq_refl (conj H1 H2))).
Defined.

Lemma Refresh_accumulates_witness :
  slice_at (logins (refresh_times 3 (env_second 120) two_peers refresh_alice))
    (key_of "alice") = ["alice"; "alice"; "alice"; "alice"].
Proof.
  etransitivity; [apply (Refresh_accumulates 3 (env_second 120) two_peers refresh_alice)|].
  - vm_compute. discriminate.
  - apply not_eq_None_Some. vm_compute. discriminate.
  - vm_compute. reflexivity.
Defined.

Lemma race_writes_stale_record_witness :
  ∃ p, peers announced !! "alice" = Some p ∧
    let c := race (env_second 120) refresh_alice
      ([None] ++ (Some <$> [(env_second 120, OpConfirmChunk (confirmation sample_hash))]) ++
       [None] ++ (Some <$> []) ++ [None] ++ (Some <$> [(env_second 120, OpDelete "alice")]) ++
       [None]) (announced, RStart) in
    peers c.1 !! "alice" = Some (with_LastSeen p (at_second 120)) ∧ c.2 = RDone (Ok tt).
Proof.
  destruct (peers announced !! "alice") as [p|] eqn:Hp; [|by vm_compute in Hp].
  exists p. split; [done|].
  apply (race_writes_stale_record (env_second 120) refresh_alice announced p
    [(env_second 120, OpConfirmChunk (confirmation sample_hash))] []
    [(env_second 120, OpDelete "alice")]); [by vm_compute|exact Hp].
Defined.
