(* ===== verification/MemoryConc.v ===== *)
(** The in-memory store as its callers share it.  A method that holds the mutex
    is one step; [Refresh], which holds none, is the accesses of
    [MemoryRefresh.refresh_step], and any number of its calls run at once with
    each other and with the other methods.  What holds of the registered peers
    and the chunks in every run of that machine, and what a run must keep apart
    for the index of keys to stay complete. *)
From S2P Require Import Prelude GoNum GoStrings GoSort Model Sign Hash StoreTypes MemoryStore.
From S2P Require Import Samples MemoryIndex MemoryChunks MemorySystem MemoryRefresh.

Local Open Scope Z_scope.

(** ** The machine *)

(** A call of [Refresh] and how far it has come. *)
Record RefreshCall := mkCall {
  call_env : Env;
  call_req : RefreshRequest;
  call_pc : RefreshPC;
}.

Definition call_id (c : RefreshCall) : string := TrimSpace (refr_ID (call_req c)).
Definition call_key (c : RefreshCall) : string :=
  refr_Login (call_req c) +:+ ":" +:+ refr_SignatureKey (call_req c).

Definition returned (pc : RefreshPC) : bool := match pc with RDone _ => true | _ => false end.

(** The store and every call of [Refresh] so far, in the order they began. *)
Record System := mkSystem { store : MemoryStore; refreshes : list RefreshCall }.

Inductive Label :=
| LCall (e : Env) (op : Op)
| LBegin (e : Env) (req : RefreshRequest)
| LAccess (i : nat).

(** The methods that write the map [logins]. *)
Definition moves (op : Op) : bool :=
  match op with OpUpsert _ | OpDelete _ => true | _ => false end.

(** The slice a call has read shares its array with the map: [removeID] shifts
    that array in place and [append] may write behind its end, so a write of the
    index may change the elements the call holds, but not their number. *)
Inductive shifted : RefreshCall → RefreshCall → Prop :=
| shifted_same c : shifted c c
| shifted_array e req p ids ids' :
    length ids' = length ids →
    shifted (mkCall e req (RSlice p ids)) (mkCall e req (RSlice p ids')).

Section Machine.
Context {U : UnicodeTables} {E : Ed25519}.

Inductive sys_step : System → Label → System → Prop :=
| sys_call s rs rs' e op :
    env_ok e → no_refresh op →
    (if moves op then Forall2 shifted rs rs' else rs' = rs) →
    sys_step (mkSystem s rs) (LCall e op) (mkSystem (next e s op) rs')
| sys_begin s rs e req :
    sys_step (mkSystem s rs) (LBegin e req) (mkSystem s (rs ++ [mkCall e req RStart]))
| sys_access s rs rs' i c s' pc :
    rs !! i = Some c → returned (call_pc c) = false →
    refresh_step (call_env c) (call_req c) (s, call_pc c) = (s', pc) → Forall2 shifted rs rs' →
    sys_step (mkSystem s rs) (LAccess i)
      (mkSystem s' (<[i := mkCall (call_env c) (call_req c) pc]> rs')).

Definition sys_steps : System → System → Prop := rtc (λ S S', ∃ l, sys_step S l S').
Definition sys_init : System := mkSystem NewMemory [].
Definition sys_reach : System → Prop := sys_steps sys_init.

(** No call of [Refresh] is under way. *)
Definition quiet (S : System) : Prop := Forall (λ c, returned (call_pc c) = true) (refreshes S).

(** A step that keeps a refresh apart from the methods that write the index and
    from other refreshes: those begin only when no refresh is under way. *)
Definition calm_step (S S' : System) : Prop :=
  ∃ l, sys_step S l S' ∧
    match l with
    | LCall _ op => moves op = true → quiet S
    | LBegin _ _ => quiet S
    | LAccess _ => True
    end.
Definition calm_reach : System → Prop := rtc calm_step sys_init.

Lemma sys_steps_once S l S' : sys_step S l S' → sys_steps S S'.
Proof. intros H. apply rtc_once. by exists l. Qed.

Lemma sys_reach_step S l S' : sys_reach S → sys_step S l S' → sys_reach S'.
Proof. intros H Hs. eapply rtc_r; [exact H|by exists l]. Qed.

Lemma sys_reach_ind (P : System → Prop) :
  P sys_init → (∀ S l S', sys_reach S → P S → sys_step S l S' → P S') → ∀ S, sys_reach S → P S.
Proof.
  intros H0 Hstep. apply rtc_ind_r; [exact H0|].
  intros S S' HS (l & Hl) IH. by eapply Hstep.
Qed.

Lemma sys_reach_steps S S' : sys_reach S → sys_steps S S' → sys_reach S'.
Proof. intros H1 H2. unfold sys_reach, sys_steps in *. by etrans. Qed.

(** A call while no refresh has begun. *)
Lemma sys_reach_call s e op :
  env_ok e → no_refresh op → sys_reach (mkSystem s []) → sys_reach (mkSystem (next e s op) []).
Proof.
  intros He Hop H. apply (sys_reach_step _ (LCall e op) _ H). constructor; [done..|].
  by case_match.
Qed.

Lemma calm_reach_sys S : calm_reach S → sys_reach S.
Proof.
  intros H. eapply rtc_subrel; [|exact H]. intros S1 S2 (l & Hl & _). by exists l.
Qed.

(** ** Records under way

    A record moves between the map and the calls that hold a copy of it. *)

Definition held (pc : RefreshPC) : option Peer :=
  match pc with RFound p | RSlice p _ | RFiled p => Some p | RStart | RDone _ => None end.

(** [Q S id p] holds of all the records of [S], those of the map and the copies. *)
Definition all_records (Q : System → string → Peer → Prop) (S : System) : Prop :=
  map_Forall (Q S) (peers (store S)) ∧
  Forall (λ c, ∀ p, held (call_pc c) = Some p → Q S (call_id c) p) (refreshes S).

Lemma shifted_held c c' : shifted c c' → held (call_pc c') = held (call_pc c) ∧ call_id c' = call_id c.
Proof. by destruct 1. Qed.

Lemma shifted_records (Q : string → Peer → Prop) rs rs' :
  Forall2 shifted rs rs' →
  Forall (λ c, ∀ p, held (call_pc c) = Some p → Q (call_id c) p) rs →
  Forall (λ c, ∀ p, held (call_pc c) = Some p → Q (call_id c) p) rs'.
Proof.
  induction 1 as [|c c' rs rs' Hc Hrs IH]; [done|].
  rewrite !Forall_cons. intros [H1 H2]. split; [|auto].
  apply shifted_held in Hc as [-> ->]. done.
Qed.

Lemma Forall2_shifted_refl rs : Forall2 shifted rs rs.
Proof. induction rs; constructor; [constructor|done]. Qed.

Lemma sys_call_shifted rs rs' (op : Op) :
  (if moves op then Forall2 shifted rs rs' else rs' = rs) → Forall2 shifted rs rs'.
Proof. case_match; [done|]. intros ->. apply Forall2_shifted_refl. Qed.

(** An access takes its record from the map or writes back the copy it took. *)
Lemma refresh_step_records (Q : string → Peer → Prop) c s s' pc :
  (∀ id p t, Q id p → Q id (with_LastSeen p t)) →
  refresh_step (call_env c) (call_req c) (s, call_pc c) = (s', pc) →
  map_Forall Q (peers s) → (∀ p, held (call_pc c) = Some p → Q (call_id c) p) →
  map_Forall Q (peers s') ∧ ∀ p, held pc = Some p → Q (call_id c) p.
Proof.
  intros Hseen Hstep Hm Hh. destruct (call_pc c) as [|p|p ids|p|res]; cbn in Hstep, Hh.
  - case_match; simplify_eq; [done|]. case_match; simplify_eq; [|done].
    split; [done|]. intros q [= <-]. by apply Hseen, (Hm (call_id c)).
  - simplify_eq. auto.
  - simplify_eq. auto.
  - simplify_eq. split; [|done]. apply map_Forall_insert_2; [by apply Hh|done].
  - by simplify_eq.
Qed.

(** What the methods keep true of every record is true of all records of every
    reachable state, however the refreshes interleave. *)
Lemma sys_records (Q : System → string → Peer → Prop) :
  (∀ S l S' id p, sys_step S l S' → Q S id p → Q S' id p) →
  (∀ S id p t, Q S id p → Q S id (with_LastSeen p t)) →
  (∀ S e op S', sys_reach S → sys_step S (LCall e op) S' → map_Forall (Q S) (peers (store S)) →
     map_Forall (Q S') (peers (store S'))) →
  ∀ S, sys_reach S → all_records Q S.
Proof.
  intros Hmono Hseen Hcall. apply sys_reach_ind.
  { split; [apply map_Forall_empty|constructor]. }
  intros S l S' HS [IHm IHh] Hstep.
  assert (map_Forall (Q S') (peers (store S)) ∧ Forall (λ c, ∀ p,
    held (call_pc c) = Some p → Q S' (call_id c) p) (refreshes S)) as [Hm Hh].
  { split; [by intros id p Hp%IHm; eapply Hmono|].
    eapply Forall_impl; [exact IHh|]. cbn. eauto. }
  inversion Hstep as [s rs rs' e op He Hop Hrs|s rs e req|s rs rs' i c s' pc Hi Hpc Href Hrs];
    subst; cbn [store refreshes] in *.
  - split; [by eapply (Hcall (mkSystem s rs))|].
    eapply shifted_records; [by eapply sys_call_shifted|exact Hh].
  - split; [done|]. cbn. apply Forall_app. split; [done|]. by repeat constructor.
  - destruct (refresh_step_records (Q (mkSystem s' (<[i:=mkCall (call_env c) (call_req c) pc]> rs')))
      c s s' pc) as [H1 H2]; [auto|done|done|by apply (Forall_lookup_1 _ _ i c Hh)|].
    split; [exact H1|]. cbn. apply Forall_insert; [|exact H2].
    by eapply (shifted_records (Q _)).
Qed.

(** ** What holds of every record *)

(** The invariant of a single record: it sits under its own id, trimmed and not
    empty, with a positive TTL, and its score is what its reports add up to. *)
Definition record_ok (id : string) (p : Peer) : Prop :=
  (peer_ID p = id ∧ trimmed id ∧ id ≠ EmptyString ∧ 0 < peer_TTLSeconds p) ∧ balanced p.

Lemma records_ok_split s : map_Forall record_ok (peers s) ↔ peers_ok s ∧ ledger_ok s.
Proof.
  unfold peers_ok, ledger_ok, record_ok. split.
  - intros H. split; intros id p Hp; by destruct (H id p Hp).
  - intros [H1 H2] id p Hp. split; [by apply H1|by apply (H2 id)].
Qed.

Lemma sys_records_ok S : sys_reach S → all_records (λ _, record_ok) S.
Proof.
  revert S. apply (sys_records (λ _, record_ok)); [auto|done|].
  intros S e op S' _ Hstep H. apply records_ok_split in H as [Hok Hl].
  inversion Hstep as [s rs rs' e' op' He Hop Hrs| |]; subst. cbn [store] in *.
  apply records_ok_split. eauto using next_peers_ok, next_ledger.
Qed.

Lemma sys_peers_ok S : sys_reach S → peers_ok (store S).
Proof. intros [H _]%sys_records_ok. by apply records_ok_split in H as []. Qed.

Lemma sys_ledger_ok S : sys_reach S → ledger_ok (store S).
Proof. intros [H _]%sys_records_ok. by apply records_ok_split in H as []. Qed.

(** ** Where the records come from *)

(** The keys and the fake mark of two records agree. *)
Definition same_keys (p p' : Peer) : Prop :=
  peer_SignatureKey p' = peer_SignatureKey p ∧ peer_EncryptionKey p' = peer_EncryptionKey p ∧
  peer_Fake p' = peer_Fake p.

(** They are what a registration asks for. *)
Definition keys_of_request (req : RegisterRequest) (p : Peer) : Prop :=
  peer_SignatureKey p = TrimSpace (reg_SignatureKey req) ∧
  peer_EncryptionKey p = TrimSpace (reg_EncryptionKey req) ∧
  peer_Fake p = default false (reg_Fake req).

(** [p'] counts one report more than [p], a good or a bad one. *)
Inductive scored (p p' : Peer) : Prop :=
| scored_good :
    peer_QualityScore p' = wrap64 (peer_QualityScore p + 1) →
    peer_Quality p' = mkQualityStats (wrap64 (ValidReports (peer_Quality p) + 1))
                        (InvalidReports (peer_Quality p)) → scored p p'
| scored_bad :
    peer_QualityScore p' = wrap64 (peer_QualityScore p - 1) →
    peer_Quality p' = mkQualityStats (ValidReports (peer_Quality p))
                        (wrap64 (InvalidReports (peer_Quality p) + 1)) → scored p p'.

Definition same_score (p p' : Peer) : Prop :=
  peer_QualityScore p' = peer_QualityScore p ∧ peer_Quality p' = peer_Quality p.

Definition initial_score (p : Peer) : Prop :=
  peer_QualityScore p = 1000 ∧ peer_Quality p = mkQualityStats 0 0.

(** A record after a method is a new registration, or the record of before with
    the same keys and its score moved by a signed call only. *)
Inductive record_origin (e : Env) (s : MemoryStore) (op : Op) (id : string) (p' : Peer) : Prop :=
| origin_new req :
    op = OpUpsert req → TrimSpace (reg_ID req) = id → peers s !! id = None →
    keys_of_request req p' → initial_score p' → record_origin e s op id p'
| origin_old p :
    peers s !! id = Some p → same_keys p p' →
    same_score p p' ∨ authentic e s op ∧ scored p p' → record_origin e s op id p'.

Lemma wrap64_moves x d : 0 < Z.abs d < 2 ^ 64 → wrap64 (x + d) ≠ x.
Proof. unfold wrap64. Z.div_mod_to_equations. lia. Qed.

Lemma touched_scored p p' : touched p p' → same_score p p' ∨ scored p p'.
Proof.
  destruct 1 as [| |[]]; [by left|by left|right; by apply scored_good|right; by apply scored_bad].
Qed.

Lemma scored_moves p p' : scored p p' → peer_QualityScore p' ≠ peer_QualityScore p.
Proof.
  destruct 1 as [H _|H _]; rewrite H; [apply wrap64_moves; lia|].
  apply (wrap64_moves _ (-1)). lia.
Qed.

Lemma next_origin e s op id p' :
  env_ok e → no_refresh op → peers_ok s → peers (next e s op) !! id = Some p' →
  record_origin e s op id p'.
Proof.
  intros He Hop Hok.
  destruct (next_effect e s op He Hok) as [op s' Hps _|op s' id0 q q' Hq Ht Ha Hps _|req|req|id0].
  - rewrite Hps. intros Hp. by apply (origin_old _ _ _ _ _ p'); [|split_and!|left].
  - rewrite Hps. intros [[<- <-]|[_ Hp]]%lookup_insert_Some.
    + apply (origin_old _ _ _ _ _ q); [done|by destruct Ht|].
      destruct (touched_scored q q' Ht) as [?|Hs]; [by left|right]. split; [|done].
      destruct Ha as [Ha|]; [|done]. by apply scored_moves in Hs.
    + by apply (origin_old _ _ _ _ _ p'); [|split_and!|left].
  - rewrite Upsert_eq. cbn zeta. case_match; cbn.
    { intros Hp. by apply (origin_old _ _ _ _ _ p'); [|split_and!|left]. }
    intros [[<- <-]|[_ Hp]]%lookup_insert_Some; unfold upsert_record.
    + destruct (peers s !! TrimSpace (reg_ID req)) as [p|] eqn:Hp.
      * by apply (origin_old _ _ _ _ _ p); [|split_and!|left].
      * by apply (origin_new _ _ _ _ _ req).
    + by apply (origin_old _ _ _ _ _ p'); [|split_and!|left].
  - done.
  - unfold Delete. case_match; cbn.
    + intros [_ Hp]%lookup_delete_Some. by apply (origin_old _ _ _ _ _ p'); [|split_and!|left].
    + intros Hp. by apply (origin_old _ _ _ _ _ p'); [|split_and!|left].
Qed.

(** The score of [p] was given to the id by a signed report or confirmation,
    earlier in the run that leads to [S]. *)
Definition score_given (S : System) (id : string) (p : Peer) : Prop :=
  ∃ S0 e op S1 q, sys_reach S0 ∧ sys_step S0 (LCall e op) S1 ∧ sys_steps S1 S ∧
    authentic e (store S0) op ∧ peers (store S0) !! id = Some q ∧ scored q p.

(** The keys of [p] came with a registration of the id when it was free. *)
Definition keys_registered (S : System) (id : string) (p : Peer) : Prop :=
  ∃ S0 e req S1, sys_reach S0 ∧ sys_step S0 (LCall e (OpUpsert req)) S1 ∧ sys_steps S1 S ∧
    TrimSpace (reg_ID req) = id ∧ peers (store S0) !! id = None ∧ keys_of_request req p.

Lemma sys_score_given S :
  sys_reach S → all_records (λ S id p, initial_score p ∨ score_given S id p) S.
Proof.
  revert S. apply sys_records.
  - intros S l S' id p Hstep [?|(S0 & e & op & S1 & q & H0 & H1 & H2 & H3)]; [by left|right].
    exists S0, e, op, S1, q. split_and!; [done|done| |apply H3..].
    eapply rtc_r; [exact H2|by exists l].
  - intros S id p t [?|(S0 & e & op & S1 & q & H0 & H1 & H2 & H3 & H4 & Hs)]; [by left|right].
    exists S0, e, op, S1, q. split_and!; try done. destruct Hs; by constructor.
  - intros S e op S' HS Hstep H id p' Hp'. pose proof (sys_peers_ok S HS) as Hok.
    assert (sys_reach S') as HS' by (by eapply sys_reach_step).
    inversion Hstep as [s rs rs' e' op' He Hop Hrs| |]; subst. cbn [store] in *.
    destruct (next_origin e s op id p' He Hop Hok Hp')
      as [req -> _ _ _ Hi|p Hp _ [[Hs Hq]|[Ha Hs]]]; [by left| |].
    + destruct (H id p Hp) as [[H1 H2]|(S0 & e0 & op0 & S1 & q & H0 & H1 & H2 & H3 & H4 & Hsc)];
        [left; split; congruence|right].
      exists S0, e0, op0, S1, q. split_and!; try done.
      * eapply rtc_r; [exact H2|by eexists].
      * destruct Hsc; [apply scored_good|apply scored_bad]; congruence.
    + right. exists (mkSystem s rs), e, op, (mkSystem (next e s op) rs'), p.
      by split_and!.
Qed.

Lemma sys_keys_registered S : sys_reach S → all_records keys_registered S.
Proof.
  revert S. apply sys_records.
  - intros S l S' id p Hstep (S0 & e & req & S1 & H0 & H1 & H2 & H3).
    exists S0, e, req, S1. split_and!; [done|done| |apply H3..].
    eapply rtc_r; [exact H2|by exists l].
  - intros S id p t (S0 & e & req & S1 & H). exists S0, e, req, S1. exact H.
  - intros S e op S' HS Hstep H id p' Hp'. pose proof (sys_peers_ok S HS) as Hok.
    inversion Hstep as [s rs rs' e' op' He Hop Hrs| |]; subst. cbn [store] in *.
    destruct (next_origin e s op id p' He Hop Hok Hp') as [req -> Hid Hn Hk _|p Hp (Hk1 & Hk2 & Hk3) _].
    + exists (mkSystem s rs), e, req, (mkSystem (next e s (OpUpsert req)) rs').
      by split_and!; try apply Hk.
    + destruct (H id p Hp) as (S0 & e0 & req & S1 & H0 & H1 & H2 & H3 & H4 & H5 & H6 & H7).
      exists S0, e0, req, S1. split_and!; try done; [eapply rtc_r; [exact H2|by eexists]|..];
        unfold keys_of_request; split_and!; congruence.
Qed.

(** Without a refresh under way, the records change by calls alone. *)
Lemma quiet_step S l S' id p' :
  sys_reach S → quiet S → sys_step S l S' → peers (store S') !! id = Some p' →
  peers (store S) !! id = Some p' ∨
  ∃ e op, l = LCall e op ∧ record_origin e (store S) op id p'.
Proof.
  intros HS Hq Hstep Hp'. pose proof (sys_peers_ok S HS) as Hok.
  inversion Hstep as [s rs rs' e op He Hop Hrs|s rs e req|s rs rs' i c s' pc Hi Hpc Href Hrs];
    subst; cbn [store] in *.
  - right. exists e, op. split; [done|]. by apply next_origin.
  - by left.
  - unfold quiet in Hq. cbn [refreshes] in Hq. pose proof (Forall_lookup_1 _ _ i c Hq Hi). congruence.
Qed.

(** ** Where the chunks come from *)

Lemma access_chunks e req s pc s' pc' :
  refresh_step e req (s, pc) = (s', pc') → chunks s' = chunks s ∧ signals s' = signals s.
Proof. destruct pc; cbn; intros; simplify_eq/=; try done; branches. Qed.

(** Entry [c] is a version of one that a signed call announced, earlier in the
    run that leads to [S]. *)
Definition chunk_announced (S : System) (c : chunkRecordEntry) : Prop :=
  ∃ S0 e op S1 c0, sys_reach S0 ∧ sys_step S0 (LCall e op) S1 ∧ sys_steps S1 S ∧
    announced_by e (store S0) op c0 ∧ later_entry c0 c.

Lemma later_entry_trans c c' c'' : later_entry c c' → later_entry c' c'' → later_entry c c''.
Proof.
  intros (?&?&?&?&?&?&?&?&?&?) (?&?&?&?&?&?&?&?&?&?). unfold later_entry.
  split_and!; try congruence; auto.
Qed.

Lemma sys_chunk_announced S c : sys_reach S → c ∈ chunks (store S) → chunk_announced S c.
Proof.
  intros HS. revert S HS c.
  apply (sys_reach_ind (λ S, ∀ c, c ∈ chunks (store S) → chunk_announced S c));
    [by intros c ?%not_elem_of_nil|].
  intros S l S' HS IH Hstep c Hc.
  assert (∀ c0, chunk_announced S c0 → later_entry c0 c → chunk_announced S' c) as Hlater.
  { intros c0 (S0 & e & op & S1 & c1 & H0 & H1 & H2 & H3 & H4) Hl.
    exists S0, e, op, S1, c1. split_and!; try done; [|by eapply later_entry_trans].
    eapply rtc_r; [exact H2|by exists l]. }
  inversion Hstep as [s rs rs' e op He Hop Hrs|s rs e req|s rs rs' i k s' pc Hi Hpc Href Hrs];
    subst; cbn [store] in *.
  - destruct (next_chunks e s op c He Hc) as [(c0 & Hc0 & Hl)|Ha]; [eauto|].
    exists (mkSystem s rs), e, op, (mkSystem (next e s op) rs'), c. by split_and!.
  - apply (Hlater c); [by apply IH|apply later_entry_refl].
  - apply access_chunks in Href as [Heq _]. rewrite Heq in Hc.
    apply (Hlater c); [by apply IH|apply later_entry_refl].
Qed.

(** ** The index in a calm run *)

(** The peer of the id is registered under the key of the held record. *)
Definition keyed (s : MemoryStore) (id : string) (p : Peer) : Prop :=
  ∃ q, peers s !! id = Some q ∧ Key q = Key p.

(** What a call under way knows of the store when nothing moves the index. *)
Definition call_calm (s : MemoryStore) (c : RefreshCall) : Prop :=
  match call_pc c with
  | RStart | RDone _ => True
  | RFound p | RFiled p => keyed s (call_id c) p
  | RSlice p ids => keyed s (call_id c) p ∧ ids = slice_at (logins s) (call_key c)
  end.

(** At most one call of [Refresh] is under way, the last one. *)
Definition calm_ok (S : System) : Prop :=
  index_complete (store S) ∧
  (quiet S ∨ ∃ rs c, refreshes S = rs ++ [c] ∧ Forall (λ c, returned (call_pc c) = true) rs ∧
     returned (call_pc c) = false ∧ call_calm (store S) c).

Lemma shifted_returned rs rs' :
  Forall2 shifted rs rs' → Forall (λ c, returned (call_pc c) = true) rs → rs' = rs.
Proof.
  induction 1 as [|c c' rs rs' Hc _ IH]; [done|]. rewrite Forall_cons. intros [H1 H2].
  rewrite (IH H2). by destruct Hc.
Qed.

(** A method that does not move the index keeps what the calls know. *)
Lemma call_calm_next e s op c :
  env_ok e → no_refresh op → moves op = false → peers_ok s → call_calm s c → call_calm (next e s op) c.
Proof.
  intros He Hop Hm Hok.
  assert ((∀ id p, keyed s id p → keyed (next e s op) id p) ∧ logins (next e s op) = logins s)
    as [Hk Hl].
  { destruct (next_effect e s op He Hok) as [op s' Hps Hl|op s' id0 q q' Hq Ht _ Hps Hl| | |];
      try discriminate Hm; try done; (split; [|done]).
    - intros id p. unfold keyed. by rewrite Hps.
    - intros id p (r & Hr & Hk). unfold keyed. rewrite Hps.
      destruct (decide (id0 = id)) as [<-|Hne].
      + exists q'. rewrite lookup_insert_eq. split; [done|].
        apply touched_identity in Ht as (_ & -> & _). congruence.
      + exists r. by rewrite lookup_insert_ne. }
  unfold call_calm. destruct (call_pc c); try done; [apply Hk| |apply Hk].
  rewrite Hl. intros [H1 H2]. auto.
Qed.

(** The accesses of a refresh that has the index for itself. *)
Lemma refresh_step_calm c s s' pc :
  refresh_step (call_env c) (call_req c) (s, call_pc c) = (s', pc) →
  index_complete s → call_calm s c →
  index_complete s' ∧ call_calm s' (mkCall (call_env c) (call_req c) pc).
Proof.
  intros Hstep Hc. unfold call_calm. cbn [call_pc].
  destruct (call_pc c) as [|p|p ids|p|res]; cbn in Hstep.
  - case_match; simplify_eq; [done|]. case_match; simplify_eq; [|done].
    intros _. split; [done|]. unfold keyed. eauto.
  - simplify_eq. auto.
  - simplify_eq. intros [Hk ->]. split; [|exact Hk].
    intros id q Hq. cbn in Hq |- *. rewrite slice_at_insert.
    pose proof (Hc id q Hq) as Hin. cbn beta in Hin.
    case_decide as Ek; [|done]. unfold call_key. rewrite elem_of_app. left.
    unfold call_key in Ek. by rewrite Ek.
  - simplify_eq. intros (q & Hq & Hk). split; [|done].
    apply (index_complete_ext (mkMemoryStore (<[call_id c := p]> (peers s)) (logins s) (chunks s)
      (signals s))); [done..|]. apply map_Forall_insert_2; [|done].
    cbn. rewrite <- Hk. by apply (Hc (call_id c)).
  - simplify_eq. auto.
Qed.

Lemma calm_step_ok S S' : sys_reach S → calm_step S S' → calm_ok S → calm_ok S'.
Proof.
  intros HS (l & Hstep & Hcalm) [Hc Hq]. pose proof (sys_peers_ok S HS) as Hok.
  inversion Hstep as [s rs rs' e op He Hop Hrs|s rs e req|s rs rs' i c s' pc Hi Hpc Href Hrs];
    subst; cbn [store refreshes] in *.
  - split; [by apply next_complete|]. destruct (moves op) eqn:Hm.
    + left. specialize (Hcalm eq_refl). unfold quiet in *. cbn in *.
      by rewrite (shifted_returned rs rs').
    + subst rs'. destruct Hq as [Hq|(rs0 & c & Hrs0 & Hd & Hr & Hcc)]; [by left|right].
      exists rs0, c. split_and!; try done. by apply call_calm_next.
  - split; [done|]. right. exists rs, (mkCall e req RStart). by split_and!.
  - destruct Hq as [Hq|(rs0 & c0 & Hrs0 & Hd & Hr & Hcc)]; cbn in *.
    { pose proof (Forall_lookup_1 _ _ i c Hq Hi). cbn in *. congruence. }
    subst rs. apply lookup_app_Some in Hi as [Hi|[Hle Hi]].
    { pose proof (Forall_lookup_1 _ _ i c Hd Hi). cbn in *. congruence. }
    apply list_lookup_singleton_Some in Hi as [Hlen <-].
    destruct (refresh_step_calm c0 s s' pc Href Hc Hcc) as [Hc' Hcc'].
    apply Forall2_app_inv_l in Hrs as (rs1 & rs2 & Hrs1 & Hrs2 & ->).
    rewrite (shifted_returned _ _ Hrs1 Hd) in *.
    apply Forall2_cons_inv_l in Hrs2 as (c1 & rs3 & _ & Hrs3%Forall2_nil_inv_l & ->). subst rs3.
    rewrite insert_app_r_alt by done. replace (i - length rs0)%nat with 0%nat by lia. cbn.
    split; [done|]. destruct (returned pc) eqn:Hpc'.
    + left. unfold quiet. cbn. apply Forall_app. split; [done|]. by repeat constructor.
    + right. exists rs0, (mkCall (call_env c0) (call_req c0) pc). by split_and!.
Qed.

Lemma calm_reach_ok S : calm_reach S → calm_ok S.
Proof.
  intros H. assert (sys_reach S ∧ calm_ok S) as [_ Hok]; [|done]. revert S H.
  apply (rtc_ind_r (λ S, sys_reach S ∧ calm_ok S)).
  - split; [apply rtc_refl|]. split; [apply map_Forall_empty|left; constructor].
  - intros S S' _ Hstep [HS Hok]. split; [|by eapply calm_step_ok].
    destruct Hstep as (l & Hstep & _). by eapply sys_reach_step.
Qed.

(** ** Calls that do not overlap

    The states of [MemorySystem.reach], in which [Refresh] is one operation, are
    states of the machine: those of the runs in which nothing overlaps it. *)

Lemma last_access e req s rs pc s' pc' :
  returned pc = false → refresh_step e req (s, pc) = (s', pc') →
  sys_step (mkSystem s (rs ++ [mkCall e req pc])) (LAccess (length rs))
    (mkSystem s' (rs ++ [mkCall e req pc'])).
Proof.
  intros Hpc Hstep.
  assert (rs ++ [mkCall e req pc'] = <[length rs := mkCall e req pc']> (rs ++ [mkCall e req pc]))
    as ->. { rewrite insert_app_r_alt, Nat.sub_diag by done. done. }
  apply (sys_access _ _ _ _ (mkCall e req pc)); [|done|exact Hstep|apply Forall2_shifted_refl].
  by rewrite lookup_app_r, Nat.sub_diag.
Qed.

Lemma refresh_alone e req s rs :
  quiet (mkSystem s rs) →
  ∃ res, rtc calm_step (mkSystem s rs)
    (mkSystem (Refresh e s req).1 (rs ++ [mkCall e req (RDone res)])).
Proof.
  intros Hq.
  assert (∀ s1 pc s2 pc2, returned pc = false → refresh_step e req (s1, pc) = (s2, pc2) →
    calm_step (mkSystem s1 (rs ++ [mkCall e req pc])) (mkSystem s2 (rs ++ [mkCall e req pc2])))
    as Hacc.
  { intros s1 pc s2 pc2 Hpc Hstep. exists (LAccess (length rs)). split; [by apply last_access|done]. }
  pose proof (race_alone e req s) as Ha. cbn [race] in Ha.
  assert (∀ s1 pc, ∃ s2 pc2, refresh_step e req (s1, pc) = (s2, pc2) ∧
    rtc calm_step (mkSystem s1 (rs ++ [mkCall e req pc])) (mkSystem s2 (rs ++ [mkCall e req pc2])))
    as Hstep.
  { intros s1 pc. destruct (refresh_step e req (s1, pc)) as [s2 pc2] eqn:E0.
    exists s2, pc2. split; [done|]. destruct (returned pc) eqn:Hpc; [|by apply rtc_once, Hacc].
    destruct pc; try done. cbn in E0. by simplify_eq. }
  destruct (Hstep s RStart) as (s1 & p1 & E1 & H1). rewrite E1 in Ha.
  destruct (Hstep s1 p1) as (s2 & p2 & E2 & H2). rewrite E2 in Ha.
  destruct (Hstep s2 p2) as (s3 & p3 & E3 & H3). rewrite E3 in Ha.
  destruct (Hstep s3 p3) as (s4 & p4 & E4 & H4). rewrite E4 in Ha. simplify_eq.
  eexists. eapply rtc_l; [exists (LBegin e req); split; [constructor|done]|].
  etrans; [exact H1|]. etrans; [exact H2|]. etrans; [exact H3|]. exact H4.
Qed.

Lemma reach_calm P s :
  reach P s → ∃ rs, calm_reach (mkSystem s rs) ∧ quiet (mkSystem s rs).
Proof.
  induction 1 as [|e s op Hs (rs & IH & Hq) He _].
  { exists []. split; [apply rtc_refl|constructor]. }
  assert ((∃ req, op = OpRefresh req) ∨ no_refresh op) as [(req & ->)|Hop]
    by (destruct op; cbn; eauto).
  - destruct (refresh_alone e req s rs Hq) as [res Hr].
    exists (rs ++ [mkCall e req (RDone res)]). split; [unfold calm_reach in *; by etrans|].
    unfold quiet in *. cbn in *. apply Forall_app. split; [done|]. by repeat constructor.
  - exists rs. split; [|done]. eapply rtc_r; [exact IH|]. exists (LCall e op). split; [|done].
    constructor; [done..|]. case_match; [apply Forall2_shifted_refl|done].
Qed.

(** A schedule of [race] is a run of the machine with one refresh. *)
Lemma race_sys e req sched s pc rs :
  Forall (λ o, match o with Some (e', op) => env_ok e' ∧ no_refresh op | None => True end) sched →
  sys_steps (mkSystem s (rs ++ [mkCall e req pc]))
    (mkSystem (race e req sched (s, pc)).1 (rs ++ [mkCall e req (race e req sched (s, pc)).2])).
Proof.
  intros Hsched. revert s pc. induction Hsched as [|[[e' op]|] sched Ho Hsched IH]; intros s pc.
  - apply rtc_refl.
  - cbn [race fst snd]. destruct Ho. eapply rtc_l; [|apply IH]. exists (LCall e' op).
    constructor; [done..|]. case_match; [apply Forall2_shifted_refl|done].
  - cbn [race]. destruct (refresh_step e req (s, pc)) as [s' pc'] eqn:Estep.
    destruct (returned pc) eqn:Hpc.
    { destruct pc; try done. cbn in Estep. simplify_eq. apply IH. }
    eapply rtc_l; [|apply IH]. exists (LAccess (length rs)). by apply last_access.
Qed.

(** ** Properties *)

(** C2: in every run, however calls of [Refresh] interleave with each other and
    with the methods that hold the mutex, each record sits under its own trimmed,
    non-empty id with a positive TTL.  In the runs that keep every call of
    [Refresh] apart from registrations, deletions and other refreshes, each
    record is moreover listed in the index under its key: no registered peer is
    unreachable by key. *)
Theorem machine_well_formed S :
  sys_reach S → peers_ok (store S) ∧ (calm_reach S → index_complete (store S)).
Proof. intros HS. split; [by apply sys_peers_ok|]. by intros [H _]%calm_reach_ok. Qed.

(** C4: in every state of every run, interleaved refreshes included, the score
    and the two counters of a peer are the initial ones, or what one report or
    confirmation, signed and checked at an earlier step of the run, made of the
    record that the same id had then.  While no refresh is under way, only a
    step by such a call moves a score, and it moves it by one point and counts
    one report. *)
Theorem scores_authentic S :
  sys_reach S →
  (∀ id p, peers (store S) !! id = Some p →
     peer_QualityScore p = 1000 ∧ peer_Quality p = mkQualityStats 0 0 ∨
     ∃ S0 e op S1 q, sys_reach S0 ∧ sys_step S0 (LCall e op) S1 ∧ sys_steps S1 S ∧
       authentic e (store S0) op ∧ peers (store S0) !! id = Some q ∧ scored q p) ∧
  (∀ l S' id p p', quiet S → sys_step S l S' →
     peers (store S) !! id = Some p → peers (store S') !! id = Some p' →
     peer_QualityScore p' ≠ peer_QualityScore p →
     ∃ e op, l = LCall e op ∧ authentic e (store S) op ∧ scored p p').
Proof.
  intros HS. split.
  - intros id p Hp. by destruct (sys_score_given S HS) as [H _]; apply (H id p).
  - intros l S' id p p' Hq Hstep Hp Hp' Hne.
    destruct (quiet_step S l S' id p' HS Hq Hstep Hp') as [?|(e & op & -> & Ho)]; [by simplify_eq|].
    exists e, op. split; [done|]. destruct Ho as [req _ _ Hn|q Hq' _ [[Hs _]|Ha]]; [congruence|..];
      by simplify_eq.
Qed.

(** C5: in every state of every run, interleaved refreshes included, the keys
    and the fake mark of a peer are those of a registration of its id at an
    earlier step, made when the id was free: nobody takes over an id that is
    registered by registering it again.  While no refresh is under way, no step
    changes them. *)
Theorem keys_from_registration S :
  sys_reach S →
  (∀ id p, peers (store S) !! id = Some p →
     ∃ S0 e req S1, sys_reach S0 ∧ sys_step S0 (LCall e (OpUpsert req)) S1 ∧ sys_steps S1 S ∧
       TrimSpace (reg_ID req) = id ∧ peers (store S0) !! id = None ∧
       peer_SignatureKey p = TrimSpace (reg_SignatureKey req) ∧
       peer_EncryptionKey p = TrimSpace (reg_EncryptionKey req) ∧
       peer_Fake p = default false (reg_Fake req)) ∧
  (∀ l S' id p p', quiet S → sys_step S l S' →
     peers (store S) !! id = Some p → peers (store S') !! id = Some p' →
     peer_SignatureKey p' = peer_SignatureKey p ∧ peer_EncryptionKey p' = peer_EncryptionKey p ∧
     peer_Fake p' = peer_Fake p).
Proof.
  intros HS. split.
  - intros id p Hp. by destruct (sys_keys_registered S HS) as [H _]; apply (H id p).
  - intros l S' id p p' Hq Hstep Hp Hp'.
    destruct (quiet_step S l S' id p' HS Hq Hstep Hp') as [?|(e & op & -> & Ho)]; [by simplify_eq|].
    destruct Ho as [req _ _ Hn|q Hq' Hk _]; [congruence|]. by simplify_eq.
Qed.


End Machine.

(** ** The theorems on a run that overlaps *)

Local Existing Instance sample_tables.
Local Existing Instance toy_ed25519.

(** Alice has announced a chunk; her refresh reads her record, Bob confirms the
    chunk, and the refresh files the id. *)
Definition confirm_op : Op := OpConfirmChunk (confirmation sample_hash).
Definition confirmed : MemoryStore := next (env_second 120) announced confirm_op.
Definition refreshing (s : MemoryStore) (pc : RefreshPC) : System :=
  mkSystem s [mkCall (env_second 120) refresh_alice pc].
Definition overlapped : MemoryStore * RefreshPC :=
  race (env_second 120) refresh_alice [None; Some (env_second 120, confirm_op); None; None]
    (announced, RStart).

Lemma two_peers_sys : sys_reach (mkSystem two_peers []).
Proof.
  exact (sys_reach_call _ (env_second 100) (OpUpsert (register " bob " "bob")) (env_second_ok 100) I
    (sys_reach_call NewMemory (env_second 100) (OpUpsert (register "alice" "alice"))
       (env_second_ok 100) I (rtc_refl _ _))).
Qed.

Lemma announced_sys : sys_reach (mkSystem announced []).
Proof.
  exact (sys_reach_call _ (env_second 110) (OpSetChunkHash "file" 0 (announce "file"))
    (env_second_ok 110) I two_peers_sys).
Qed.

Lemma overlapped_sys : sys_reach (refreshing overlapped.1 overlapped.2).
Proof.
  apply (sys_reach_steps (refreshing announced RStart)).
  - apply (sys_reach_step _ (LBegin (env_second 120) refresh_alice) _ announced_sys), sys_begin.
  - apply (race_sys (env_second 120) refresh_alice _ announced RStart []).
    constructor; [done|]. constructor; [split; [apply env_second_ok|done]|]. by repeat constructor.
Qed.

Lemma machine_well_formed_witness :
  peers_ok overlapped.1 ∧ ∃ rs, index_complete (store (mkSystem announced rs)).
Proof.
  split; [apply (machine_well_formed _ overlapped_sys)|].
  destruct (reach_calm any_op announced announced_reach) as (rs & Hc & _). exists rs.
  by apply (machine_well_formed (mkSystem announced rs) (calm_reach_sys _ Hc)).
Defined.

(** The confirmation shows while the refresh still holds the record of before. *)
Lemma scores_authentic_witness :
  ∃ S0 e op S1 q p, peers overlapped.1 !! "alice" = Some p ∧ peer_QualityScore p = 1001 ∧
    sys_step S0 (LCall e op) S1 ∧ sys_steps S1 (refreshing overlapped.1 overlapped.2) ∧
    authentic e (store S0) op ∧ scored q p.
Proof.
  destruct (peers overlapped.1 !! "alice") as [p|] eqn:Hp; [|by vm_compute in Hp].
  assert (peer_QualityScore <$> peers overlapped.1 !! "alice" = Some 1001) as Hs by (by vm_compute).
  rewrite Hp in Hs. injection Hs as Hs.
  destruct (scores_authentic _ overlapped_sys) as [H _].
  destruct (H "alice" p Hp) as [[Hi _]|(S0 & e & op & S1 & q & _ & H1 & H2 & H3 & _ & H4)];
    [congruence|].
  exists S0, e, op, S1, q, p. split_and!; done.
Defined.

Lemma keys_from_registration_witness :
  ∃ p req, peers overlapped.1 !! "alice" = Some p ∧ TrimSpace (reg_ID req) = "alice" ∧
    peer_SignatureKey p = TrimSpace (reg_SignatureKey req).
Proof.
  destruct (peers overlapped.1 !! "alice") as [p|] eqn:Hp; [|by vm_compute in Hp].
  destruct (keys_from_registration _ overlapped_sys) as [H _].
  destruct (H "alice" p Hp) as (S0 & e & req & S1 & _ & _ & _ & H1 & _ & H2 & _).
  exists p, req. split_and!; done.
Defined.

