(* ===== verification/Store.v ===== *)
(** The [Store] interface of [internal/store/store.go], and the contract its
    clients rely on.  A method takes the state of the store and one call's
    environment (clock readings, map orders) to the next state and its result;
    a method that only reads has no next state. *)
From S2P Require Import Prelude GoNum GoStrings GoSort Model Sign Hash StoreTypes MemoryStore.
From S2P Require Import MemoryIndex MemoryChunks MemorySystem.

Local Open Scope Z_scope.

Class Store (St : Type) := mkStore {
  store_Upsert : Env → St → RegisterRequest → St * result StoreError unit;
  store_Refresh : Env → St → RefreshRequest → St * result StoreError unit;
  store_Get : Env → St → string → result StoreError Peer;
  store_GetByKey : Env → St → string → string → result StoreError (list Peer);
  store_Delete : Env → St → string → St * result StoreError unit;
  store_List : Env → St → result StoreError (list Peer);
  store_Heartbeat : Env → St → string → Z → St * result StoreError Peer;
  store_SetChunkHash : Env → St → string → Z → RegisterChunkRequest →
    St * result StoreError unit;
  store_GetBestPeers : Env → St → Z → result StoreError (list Peer);
  store_ReportChunk : Env → St → string → ChunkReportRequest →
    St * result StoreError ChunkReportResult;
  store_ConfirmChunk : Env → St → ConfirmChunkRequest → St * result StoreError ConfirmChunkResult;
  store_ReadChunk : Env → St → ReadChunkRequest → St * result StoreError ReadChunkResult;
  store_GetChunksByRecipient : Env → St → string → Z → result StoreError (list ChunkRecord);
  store_GetChunksByFileID : Env → St → string → result StoreError (list ChunkRecord);
  store_GetBestThickPeers : Env → St → Z → result StoreError (list Peer);
  store_SetSignal : Env → St → string → Signal → St * result StoreError unit;
  store_PollSignals : Env → St → string → St * result StoreError (list Signal);
  store_DeleteExpiredChunks : Env → St → St * result StoreError Z;
}.

(** A method that reports an error has done nothing. *)
Definition atomic {St A} (s : St) (out : St * result StoreError A) : Prop :=
  ∀ err, out.2 = Err err → out.1 = s.

(** The contract the handlers rely on: every method is atomic. *)
Class StoreAtomic {St} (S : Store St) : Prop := mkStoreAtomic {
  Upsert_atomic e s req : env_ok e → atomic s (store_Upsert e s req);
  Refresh_atomic e s req : env_ok e → atomic s (store_Refresh e s req);
  Delete_atomic e s id : env_ok e → atomic s (store_Delete e s id);
  Heartbeat_atomic e s id ttl : env_ok e → atomic s (store_Heartbeat e s id ttl);
  SetChunkHash_atomic e s f i req : env_ok e → atomic s (store_SetChunkHash e s f i req);
  ReportChunk_atomic e s src req : env_ok e → atomic s (store_ReportChunk e s src req);
  ConfirmChunk_atomic e s req : env_ok e → atomic s (store_ConfirmChunk e s req);
  ReadChunk_atomic e s req : env_ok e → atomic s (store_ReadChunk e s req);
  SetSignal_atomic e s id sig : env_ok e → atomic s (store_SetSignal e s id sig);
  PollSignals_atomic e s id : env_ok e → atomic s (store_PollSignals e s id);
  DeleteExpiredChunks_atomic e s : env_ok e → atomic s (store_DeleteExpiredChunks e s);
}.

#[export] Hint Resolve Upsert_atomic Refresh_atomic Delete_atomic Heartbeat_atomic
  SetChunkHash_atomic ReportChunk_atomic ConfirmChunk_atomic ReadChunk_atomic SetSignal_atomic
  PollSignals_atomic DeleteExpiredChunks_atomic : muninn.

(** The errors a client can be told about: those of the interface's documentation
    that are answered with a status of their own. *)
Definition documented (err : StoreError) : bool :=
  match err with
  | ErrInternal _ | ErrWrap _ _ | ErrNoPendingMessages => false
  | _ => true
  end.

Definition reports {A} (out : result StoreError A) : Prop :=
  ∀ err, out = Err err → documented err = true.

(** A store that fails in no other way. *)
Class StoreReports {St} (S : Store St) : Prop := mkStoreReports {
  Upsert_reports e s req : reports (store_Upsert e s req).2;
  Refresh_reports e s req : reports (store_Refresh e s req).2;
  Get_reports e s id : reports (store_Get e s id);
  GetByKey_reports e s login signature : reports (store_GetByKey e s login signature);
  Delete_reports e s id : reports (store_Delete e s id).2;
  List_reports e s : reports (store_List e s);
  Heartbeat_reports e s id ttl : reports (store_Heartbeat e s id ttl).2;
  SetChunkHash_reports e s f i req : reports (store_SetChunkHash e s f i req).2;
  GetBestPeers_reports e s n : reports (store_GetBestPeers e s n);
  ReportChunk_reports e s src req : reports (store_ReportChunk e s src req).2;
  ConfirmChunk_reports e s req : reports (store_ConfirmChunk e s req).2;
  ReadChunk_reports e s req : reports (store_ReadChunk e s req).2;
  GetChunksByRecipient_reports e s id from : reports (store_GetChunksByRecipient e s id from);
  GetChunksByFileID_reports e s id : reports (store_GetChunksByFileID e s id);
  GetBestThickPeers_reports e s n : reports (store_GetBestThickPeers e s n);
  SetSignal_reports e s id sig : reports (store_SetSignal e s id sig).2;
  PollSignals_reports e s id : reports (store_PollSignals e s id).2;
}.

#[export] Hint Resolve Upsert_reports Refresh_reports Get_reports GetByKey_reports Delete_reports
  List_reports Heartbeat_reports SetChunkHash_reports GetBestPeers_reports ReportChunk_reports
  ConfirmChunk_reports ReadChunk_reports GetChunksByRecipient_reports GetChunksByFileID_reports
  GetBestThickPeers_reports SetSignal_reports PollSignals_reports : muninn.

(** ** The in-memory store implements it *)

Section Memory.
Context {U : UnicodeTables} {E : Ed25519} {S : SliceSort}.

#[export] Instance memory_store : Store MemoryStore := {
  store_Upsert := Upsert;
  store_Refresh := Refresh;
  store_Get := Get;
  store_GetByKey := GetByKey;
  store_Delete _ := Delete;
  store_List := List;
  store_Heartbeat := Heartbeat;
  store_SetChunkHash := SetChunkHash;
  store_GetBestPeers := GetBestPeers;
  store_ReportChunk _ := ReportChunk;
  store_ConfirmChunk := ConfirmChunk;
  store_ReadChunk := ReadChunk;
  store_GetChunksByRecipient _ := GetChunksByRecipient;
  store_GetChunksByFileID _ := GetChunksByFileID;
  store_GetBestThickPeers := GetBestThickPeers;
  store_SetSignal _ := SetSignal;
  store_PollSignals _ := PollSignals;
  store_DeleteExpiredChunks := DeleteExpiredChunks;
}.

(** It keeps the contract: no method of the in-memory store leaves a trace of
    a call it refuses. *)
#[export] Instance memory_store_atomic : StoreAtomic memory_store.
Proof.
  split; unfold atomic; cbn.
  - intros e s req _ err H. unfold Upsert in *. cbn zeta in *. branches.
  - intros e s req _ err H. unfold Refresh in *. cbn zeta in *. branches.
  - intros e s id _ err H. unfold Delete in *. branches.
  - intros e s id ttl _ err H. unfold Heartbeat in *. branches.
  - intros e s f i req He err H. pose proof (SetChunkHash_cases e s f i req He) as Hc.
    destruct (SetChunkHash e s f i req) as [s' [r|err']]; [done|]. apply Hc.
  - intros e s src req _ err H. pose proof (ReportChunk_cases s src req) as Hc.
    destruct (ReportChunk s src req) as [s' [r|err']]; [done|]. apply Hc.
  - intros e s req He err H. destruct (ConfirmChunk e s req) as [s' [r|err']] eqn:Ec; [done|].
    by apply (ConfirmChunk_failure e s req s' err' He) in Ec as [-> _].
  - intros e s req He err H. pose proof (ReadChunk_cases e s req He) as Hc.
    destruct (ReadChunk e s req) as [s' [r|err']]; [done|]. apply Hc.
  - intros e s id sig _ err H. unfold SetSignal in *. cbn zeta in *. branches.
  - intros e s id _ err H. unfold PollSignals in *. cbn zeta in *. branches.
  - intros e s _ err H. unfold DeleteExpiredChunks in *. cbn zeta in *. branches.
Qed.

(** Its errors are all documented ones. *)
Lemma verifyPeerSignature_reports p sg m err :
  verifyPeerSignature p sg m = Err err → documented err = true.
Proof. by intros [-> | ->]%verifyPeerSignature_error. Qed.

#[export] Instance memory_store_reports : StoreReports memory_store.
Proof.
  split; unfold reports; cbn; intros;
    match goal with H : _ = Err ?err |- documented ?err = true =>
      unfold Upsert, Refresh, Get, GetByKey, Delete, List, Heartbeat, SetChunkHash, GetBestPeers,
        ReportChunk, ConfirmChunk, ReadChunk, GetChunksByRecipient, GetChunksByFileID,
        GetBestThickPeers, SetSignal, PollSignals in H;
      cbn zeta in H; revert H
    end; intros; try discriminate; branches; eapply verifyPeerSignature_reports; eassumption.
Qed.

End Memory.
