(* ===== verification/Handler.v ===== *)
(** [internal/handler/phonebook.go]: the HTTP handlers.  A handler takes the
    store's state and a request to the next state and a response, and is written
    against the [Store] interface.  A request holds what the handlers read of
    [http.Request]; [es i] is the environment of the i-th store call. *)
From S2P Require Import Prelude GoNum GoStrings Model StoreTypes Store.

Local Open Scope Z_scope.

(** ** Requests and responses *)

Record Request := mkRequest {
  path_values : list (string * string);
  query : list (string * string);
  body : string;
}.

(** The first value under a name, or the empty string: [r.PathValue] and
    [r.URL.Query().Get]. *)
Fixpoint value_of (l : list (string * string)) (name : string) : string :=
  match l with
  | [] => EmptyString
  | (k, v) :: l => if (k == name)%go then v else value_of l name
  end.
Definition PathValue (r : Request) : string → string := value_of (path_values r).
Definition QueryGet (r : Request) : string → string := value_of (query r).

(** [json.NewDecoder(r.Body).Decode(&req)] for each type the handlers decode:
    [None] is an error.  [json_ttl] is the TTLSeconds field after decoding the
    body of a heartbeat, whose error is ignored. *)
Class JSONDecoder := {
  json_RegisterRequest : string → option RegisterRequest;
  json_RefreshRequest : string → option RefreshRequest;
  json_RegisterChunkRequest : string → option RegisterChunkRequest;
  json_RegisterChunkBatchRequest : string → option RegisterChunkBatchRequest;
  json_ChunkReportRequest : string → option ChunkReportRequest;
  json_ConfirmChunkRequest : string → option ConfirmChunkRequest;
  json_ConfirmChunkBatchRequest : string → option ConfirmChunkBatchRequest;
  json_ReadChunkRequest : string → option ReadChunkRequest;
  json_Signal : string → option Signal;
  json_ttl : string → Z;
}.

(** What [writeJSON] is given to encode; [NoContent] when it is not called, and
    [Text] for the plain answers of [net/http] itself. *)
Inductive Payload :=
| NoContent
| Text (msg : string)
| JEmpty
| JStatusOk
| JError (msg : string)
| JPeer (peer : Peer)
| JPeers (peers : list Peer)
| JReport (r : ChunkReportResult)
| JConfirm (r : ConfirmChunkResult)
| JRead (r : ReadChunkResult)
| JChunks (l : list ChunkRecord)
| JSignals (l : list Signal).

Record Response := mkResponse { status : Z; payload : Payload }.

Definition StatusOK : Z := 200.
Definition StatusNoContent : Z := 204.
Definition StatusBadRequest : Z := 400.
Definition StatusUnauthorized : Z := 401.
Definition StatusNotFound : Z := 404.
Definition StatusInternalServerError : Z := 500.

Definition writeError (code : Z) (msg : string) : Response := mkResponse code (JError msg).

Definition writeStoreError (err : StoreError) : Response :=
  if errors_Is err ErrNotFound then writeError StatusNotFound (Error err)
  else if errors_Is err ErrInvalidPeer || errors_Is err ErrInvalidKey
          || errors_Is err ErrKeyTaken || errors_Is err ErrInvalidChunk
          || errors_Is err ErrNoSigningKey
  then writeError StatusBadRequest (Error err)
  else if errors_Is err ErrInvalidSignature then writeError StatusUnauthorized (Error err)
  else if errors_Is err ErrChunkNotFound then writeError StatusNotFound (Error err)
  else writeError StatusInternalServerError "internal error".

(** ** What the handlers share *)

Section Shared.
Context {St : Type}.

(** The tail of the handlers: the store's error, or the answer to its value. *)
Definition answer {A} (ok : A → Response) (out : St * result StoreError A) : St * Response :=
  match out with
  | (s, Ok a) => (s, ok a)
  | (s, Err err) => (s, writeStoreError err)
  end.

Definition ok_json {A} (p : A → Payload) (a : A) : Response := mkResponse StatusOK (p a).
Definition no_content {A} (_ : A) : Response := mkResponse StatusNoContent NoContent.

(** The head of the handlers that read a body. *)
Definition decoded {A} (s : St) (d : option A) (k : A → St * Response) : St * Response :=
  match d with
  | None => (s, writeError StatusBadRequest "invalid json body")
  | Some req => k req
  end.

(** The head of the handlers that need a value of the path or the query. *)
Definition required (s : St) (v msg : string) (k : St * Response) : St * Response :=
  if (v == "")%go then (s, writeError StatusBadRequest msg) else k.

(** The parameter [n]: 10 when absent, [None] when it is not a positive int. *)
Definition parse_n (r : Request) : option Z :=
  let nStr := QueryGet r "n" in
  if (nStr != "")%go then
    match Atoi nStr with
    | (parsed, None) => if parsed <=? 0 then None else Some parsed
    | (_, Some _) => None
    end
  else Some 10.

(** A date_from that does not parse counts as absent. *)
Definition parse_date_from (r : Request) : Z :=
  let df := QueryGet r "date_from" in
  if (df != "")%go then
    match ParseInt df with (parsed, None) => parsed | (_, Some _) => 0 end
  else 0.

(** The loops of the batch handlers: one store call per entry, in order, until
    the first error. *)
Fixpoint run_batch {X A} (call : Env → St → X → St * result StoreError A) (es : nat → Env)
    (s : St) (l : list X) : St * result StoreError unit :=
  match l with
  | [] => (s, Ok tt)
  | x :: l =>
    match call (es 0%nat) s x with
    | (s, Ok _) => run_batch call (λ i, es (1 + i)%nat) s l
    | (s, Err err) => (s, Err err)
    end
  end.

(** The request of one entry; its TTL is not copied. *)
Definition batch_request (entry : RegisterChunkBatchEntry) : RegisterChunkRequest :=
  mkRegisterChunkRequest (rb_SenderID entry) (rb_RecipientID entry) (rb_Hash entry)
    (rb_Signature entry) (rb_PeerID entry) (rb_Persist entry) 0.

Definition confirm_request (recipientID : string) (entry : ConfirmChunkBatchEntry) :
    ConfirmChunkRequest :=
  mkConfirmChunkRequest recipientID (cb_FileID entry) (cb_ChunkIndex entry) (cb_Hash entry)
    (cb_Signature entry).

End Shared.

(** ** The handlers *)

Module Phonebook.
Section Handlers.
Context {J : JSONDecoder} {St : Type} {S : Store St}.

Definition Register (es : nat → Env) (s : St) (r : Request) : St * Response :=
  decoded s (json_RegisterRequest (body r)) (λ req,
    answer (ok_json (λ _, JEmpty)) (store_Upsert (es 0%nat) s req)).

Definition Refresh (es : nat → Env) (s : St) (r : Request) : St * Response :=
  decoded s (json_RefreshRequest (body r)) (λ req,
    answer (ok_json (λ _, JEmpty)) (store_Refresh (es 0%nat) s req)).

Definition Get (es : nat → Env) (s : St) (r : Request) : St * Response :=
  let id := PathValue r "id" in
  required s id "peer id required"
    (answer (ok_json JPeer) (s, store_Get (es 0%nat) s id)).

(** The lists stand for nil slices too, which the handlers replace by empty
    ones before encoding: the payload is always an array. *)
Definition GetByKey (es : nat → Env) (s : St) (r : Request) : St * Response :=
  let login := PathValue r "login" in
  let signature := QueryGet r "signature" in
  required s login "login required"
    (required s signature "signature required"
      (answer (ok_json JPeers) (s, store_GetByKey (es 0%nat) s login signature))).

Definition Delete (es : nat → Env) (s : St) (r : Request) : St * Response :=
  let id := PathValue r "id" in
  required s id "peer id required"
    (answer no_content (store_Delete (es 0%nat) s id)).

Definition List (es : nat → Env) (s : St) (r : Request) : St * Response :=
  answer (ok_json JPeers) (s, store_List (es 0%nat) s).

Definition GetBestPeers (es : nat → Env) (s : St) (r : Request) : St * Response :=
  match parse_n r with
  | None => (s, writeError StatusBadRequest "invalid n")
  | Some n => answer (ok_json JPeers) (s, store_GetBestPeers (es 0%nat) s n)
  end.

Definition GetBestThickPeers (es : nat → Env) (s : St) (r : Request) : St * Response :=
  match parse_n r with
  | None => (s, writeError StatusBadRequest "invalid n")
  | Some n => answer (ok_json JPeers) (s, store_GetBestThickPeers (es 0%nat) s n)
  end.

Definition Heartbeat (es : nat → Env) (s : St) (r : Request) : St * Response :=
  let id := PathValue r "id" in
  required s id "peer id required"
    (answer (ok_json JPeer) (store_Heartbeat (es 0%nat) s id (json_ttl (body r)))).

Definition RegisterChunk (es : nat → Env) (s : St) (r : Request) : St * Response :=
  let fileID := PathValue r "file_id" in
  let bad_index := (s, writeError StatusBadRequest "invalid chunk index") in
  match Atoi (PathValue r "index") with
  | (_, Some _) => bad_index
  | (index, None) =>
    if index <? 0 then bad_index else
    decoded s (json_RegisterChunkRequest (body r)) (λ req,
      answer no_content (store_SetChunkHash (es 0%nat) s fileID index req))
  end.

Definition RegisterChunkBatch (es : nat → Env) (s : St) (r : Request) : St * Response :=
  let fileID := PathValue r "file_id" in
  decoded s (json_RegisterChunkBatchRequest (body r)) (λ req,
    answer no_content
      (run_batch (λ e s entry,
         store_SetChunkHash e s fileID (rb_ChunkIndex entry) (batch_request entry))
       es s (rb_Chunks req))).

Definition ReportChunk (es : nat → Env) (s : St) (r : Request) : St * Response :=
  let sourceID := PathValue r "id" in
  required s sourceID "peer id required"
    (decoded s (json_ChunkReportRequest (body r)) (λ req,
      answer (ok_json JReport) (store_ReportChunk (es 0%nat) s sourceID req))).

Definition ConfirmChunk (es : nat → Env) (s : St) (r : Request) : St * Response :=
  decoded s (json_ConfirmChunkRequest (body r)) (λ req,
    answer (ok_json JConfirm) (store_ConfirmChunk (es 0%nat) s req)).

Definition ConfirmChunkBatch (es : nat → Env) (s : St) (r : Request) : St * Response :=
  decoded s (json_ConfirmChunkBatchRequest (body r)) (λ req,
    answer no_content
      (run_batch (λ e s entry, store_ConfirmChunk e s (confirm_request (cb_RecipientID req) entry))
       es s (cb_Chunks req))).

Definition GetChunksByRecipient (es : nat → Env) (s : St) (r : Request) : St * Response :=
  let recipientID := QueryGet r "recipient_id" in
  required s recipientID "recipient_id required"
    (answer (ok_json JChunks)
      (s, store_GetChunksByRecipient (es 0%nat) s recipientID (parse_date_from r))).

Definition GetChunksByFileID (es : nat → Env) (s : St) (r : Request) : St * Response :=
  let fileID := PathValue r "file_id" in
  required s fileID "file_id required"
    (answer (ok_json JChunks) (s, store_GetChunksByFileID (es 0%nat) s fileID)).

Definition ReadChunk (es : nat → Env) (s : St) (r : Request) : St * Response :=
  decoded s (json_ReadChunkRequest (body r)) (λ req,
    answer (ok_json JRead) (store_ReadChunk (es 0%nat) s req)).

Definition SetSignal (es : nat → Env) (s : St) (r : Request) : St * Response :=
  let peerID := PathValue r "id" in
  required s peerID "peer id required"
    (decoded s (json_Signal (body r)) (λ sig,
      answer no_content (store_SetSignal (es 0%nat) s peerID sig))).

Definition PollSignals (es : nat → Env) (s : St) (r : Request) : St * Response :=
  let peerID := PathValue r "id" in
  required s peerID "peer id required"
    (answer (ok_json JSignals) (store_PollSignals (es 0%nat) s peerID)).

Definition Health (es : nat → Env) (s : St) (r : Request) : St * Response :=
  (s, mkResponse StatusOK JStatusOk).

End Handlers.
End Phonebook.
