(* ===== verification/Mux.v ===== *)
(** The part of [net/http.ServeMux] the server uses: patterns of a method and a
    path whose segments are literal or single-segment wildcards.  The search is
    the one of the routing tree: at each segment the literal child first, then
    the wildcard child. *)
From S2P Require Import Prelude.

(** ** Patterns *)

Inductive Seg := Lit (s : string) | Wild (name : string).

#[export] Instance Seg_eq_dec : EqDecision Seg.
Proof. solve_decision. Defined.

(** A pattern without a method serves all of them. *)
Record Pattern (R : Type) := mkPattern {
  pat_method : option string;
  pat_path : list Seg;
  pat_route : R;
}.
Arguments mkPattern {R}.
Arguments pat_method {R}.
Arguments pat_path {R}.
Arguments pat_route {R}.

(** ** The search *)

(** A path is the list of its unescaped segments; a trailing slash is a last
    segment that is a slash, which no wildcard matches. *)
Section Search.
Context {A : Type}.

(** The node of the tree that remains after a literal, and after a wildcard. *)
Definition lit_child (seg : string) (pats : list (list Seg * A)) : list (list Seg * A) :=
  omap (λ p, match p with
             | (Lit l :: rest, a) => if String.eqb l seg then Some (rest, a) else None
             | _ => None
             end) pats.
Definition wild_child (pats : list (list Seg * A)) : list (list Seg * A) :=
  omap (λ p, match p with (Wild _ :: rest, a) => Some (rest, a) | _ => None end) pats.

(** The pattern of a node, if one ends there. *)
Fixpoint leaf (pats : list (list Seg * A)) : option A :=
  match pats with
  | [] => None
  | ([], a) :: _ => Some a
  | _ :: pats => leaf pats
  end.

Fixpoint match_path (pats : list (list Seg * A)) (path matches : list string) :
    option (A * list string) :=
  match path with
  | [] => match leaf pats with Some a => Some (a, matches) | None => None end
  | seg :: rest =>
    match match_path (lit_child seg pats) rest matches with
    | Some r => Some r
    | None =>
      if String.eqb seg "/" then None
      else match_path (wild_child pats) rest (matches ++ [seg])
    end
  end.

End Search.

Section Routing.
Context {R : Type}.

Fixpoint wild_names (segs : list Seg) : list string :=
  match segs with
  | [] => []
  | Lit _ :: segs => wild_names segs
  | Wild n :: segs => n :: wild_names segs
  end.

(** The patterns registered for a method ([None]: for all). *)
Definition for_method (m : option string) (pats : list (Pattern R)) :
    list (list Seg * Pattern R) :=
  omap (λ p, if decide (pat_method p = m) then Some (pat_path p, p) else None) pats.

(** The method's own patterns first, GET's for HEAD, then those of no method. *)
Definition match_request (pats : list (Pattern R)) (method : string) (path : list string) :
    option (Pattern R * list string) :=
  match match_path (for_method (Some method) pats) path [] with
  | Some r => Some r
  | None =>
    match (if String.eqb method "HEAD" then match_path (for_method (Some "GET") pats) path []
           else None) with
    | Some r => Some r
    | None => match_path (for_method None pats) path []
    end
  end.

Inductive Routed :=
| Matched (route : R) (values : list (string * string))
| MethodNotAllowed
| NoRoute.

(** 405 when the path would match under another method, 404 otherwise. *)
Definition route (pats : list (Pattern R)) (method : string) (path : list string) : Routed :=
  match match_request pats method path with
  | Some (p, values) => Matched (pat_route p) (zip (wild_names (pat_path p)) values)
  | None =>
    if existsb (λ p, match pat_method p with
                     | Some m => match match_path (for_method (Some m) pats) path [] with
                                 | Some _ => true | None => false end
                     | None => false
                     end) pats
    then MethodNotAllowed else NoRoute
  end.

End Routing.
Arguments Routed : clear implicits.

(** ** What a match means *)

(** A path matches a pattern segment by segment; the wildcards take the values. *)
Inductive seg_match : list Seg → list string → list string → Prop :=
| sm_nil : seg_match [] [] []
| sm_lit s segs path vs : seg_match segs path vs → seg_match (Lit s :: segs) (s :: path) vs
| sm_wild n s segs path vs :
    s ≠ "/" → seg_match segs path vs → seg_match (Wild n :: segs) (s :: path) (s :: vs).

(** One pattern is at least as specific as another, at the first segment where
    one has a literal and the other a wildcard. *)
Inductive more_specific : list Seg → list Seg → Prop :=
| ms_nil : more_specific [] []
| ms_lit s l k : more_specific l k → more_specific (Lit s :: l) (Lit s :: k)
| ms_wild m n l k : more_specific l k → more_specific (Wild m :: l) (Wild n :: k)
| ms_lit_wild s n l k : more_specific (Lit s :: l) (Wild n :: k).

Section SearchLemmas.
Context {A : Type}.
Implicit Types pats : list (list Seg * A).

Lemma elem_of_lit_child seg pats segs a :
  (segs, a) ∈ lit_child seg pats ↔ (Lit seg :: segs, a) ∈ pats.
Proof.
  unfold lit_child. rewrite list_elem_of_omap. split.
  - intros ([[|[l|n] rest] b] & Hin & H); try done.
    destruct (String.eqb_spec l seg); by simplify_eq.
  - intros H. exists (Lit seg :: segs, a). by rewrite String.eqb_refl.
Qed.

Lemma elem_of_wild_child pats segs a :
  (segs, a) ∈ wild_child pats ↔ ∃ n, (Wild n :: segs, a) ∈ pats.
Proof.
  unfold wild_child. rewrite list_elem_of_omap. split.
  - intros ([[|[l|n] rest] b] & Hin & H); simplify_eq; eauto.
  - intros [n H]. by exists (Wild n :: segs, a).
Qed.

Lemma leaf_Some pats a : leaf pats = Some a → ([], a) ∈ pats.
Proof.
  induction pats as [|[[|seg segs] b] pats IH]; cbn; intros; simplify_eq.
  - left.
  - right; auto.
Qed.

Lemma leaf_None pats a : leaf pats = None → ([], a) ∉ pats.
Proof.
  induction pats as [|[[|seg segs] b] pats IH]; cbn; intros H; [apply not_elem_of_nil|done|].
  rewrite elem_of_cons. intros [?|?]; [done|by apply IH].
Qed.

Lemma match_path_lit pats seg path acc r :
  match_path (lit_child seg pats) path acc = Some r → match_path pats (seg :: path) acc = Some r.
Proof. intros H. cbn [match_path]. by rewrite H. Qed.

Lemma match_path_None pats path acc segs a vs :
  match_path pats path acc = None → (segs, a) ∈ pats → ¬ seg_match segs path vs.
Proof.
  revert pats acc segs vs. induction path as [|seg path IH]; intros pats acc segs vs; cbn.
  - destruct (leaf pats) eqn:El; [done|]. intros _ Hin Hm. inversion Hm; subst.
    by apply (leaf_None pats a).
  - destruct (match_path (lit_child seg pats) path acc) as [r|] eqn:El; [done|].
    intros Hw Hin Hm. inversion Hm; subst.
    + eapply (IH _ _ _ _ El); [by apply elem_of_lit_child|done].
    + rewrite (proj2 (String.eqb_neq seg "/")) in Hw by done.
      eapply (IH _ _ _ _ Hw); [apply elem_of_wild_child; eauto|done].
Qed.

Lemma match_path_sound pats path acc a vs :
  match_path pats path acc = Some (a, vs) →
  ∃ segs vs', (segs, a) ∈ pats ∧ seg_match segs path vs' ∧ vs = acc ++ vs' ∧
    ∀ segs2 b vs2, (segs2, b) ∈ pats → seg_match segs2 path vs2 → more_specific segs segs2.
Proof.
  revert pats acc. induction path as [|seg path IH]; intros pats acc; cbn.
  - destruct (leaf pats) eqn:El; intros; simplify_eq. exists [], [].
    split_and!; [by apply leaf_Some|constructor|by rewrite app_nil_r|].
    intros segs2 b vs2 _ Hm. inversion Hm. constructor.
  - destruct (match_path (lit_child seg pats) path acc) as [[b ws]|] eqn:El.
    + intros ?; simplify_eq. apply IH in El as (segs & vs' & Hin & Hm & -> & Hs).
      apply elem_of_lit_child in Hin. exists (Lit seg :: segs), vs'.
      split_and!; [done|by constructor|done|].
      intros segs2 b vs2 Hin2 Hm2. inversion Hm2; subst; [|constructor].
      apply ms_lit, (Hs _ b vs2); [|done]. by apply elem_of_lit_child.
    + destruct (String.eqb_spec seg "/") as [->|Hne]; [done|]. intros Hw.
      apply IH in Hw as (segs & vs' & Hin & Hm & -> & Hs).
      apply elem_of_wild_child in Hin as [n Hin]. exists (Wild n :: segs), (seg :: vs').
      split_and!; [done|by constructor|by rewrite <- app_assoc|].
      intros segs2 b vs2 Hin2 Hm2. inversion Hm2; subst.
      * exfalso. eapply match_path_None; [exact El|by apply elem_of_lit_child|done].
      * eapply ms_wild, Hs; [|done]. apply elem_of_wild_child. eauto.
Qed.

End SearchLemmas.

(** ** The search finds the most specific pattern *)

(** The search over a set of patterns is exact: it finds a pattern whenever
    one matches the path, what it finds matches with the values it returns, and
    no other matching pattern is more specific. *)
Lemma match_path_spec {A} (pats : list (list Seg * A)) path :
  match match_path pats path [] with
  | Some (a, vs) =>
    ∃ segs, (segs, a) ∈ pats ∧ seg_match segs path vs ∧
      ∀ segs2 b vs2, (segs2, b) ∈ pats → seg_match segs2 path vs2 → more_specific segs segs2
  | None => ∀ segs a vs, (segs, a) ∈ pats → ¬ seg_match segs path vs
  end.
Proof.
  destruct (match_path pats path []) as [[a vs]|] eqn:E.
  - apply match_path_sound in E as (segs & vs' & ? & ? & -> & ?). by exists segs.
  - intros segs a vs. by apply (match_path_None pats path []).
Qed.

(** ** What the router answers *)

Section RouteLemmas.
Context {R : Type}.
Implicit Types pats : list (Pattern R).

(** The pattern serves the method: its own, HEAD under GET, or all. *)
Definition serves (method : string) (p : Pattern R) : Prop :=
  pat_method p = Some method ∨ method = "HEAD" ∧ pat_method p = Some "GET" ∨ pat_method p = None.

Lemma elem_of_for_method m pats segs p :
  (segs, p) ∈ for_method m pats ↔ p ∈ pats ∧ pat_method p = m ∧ segs = pat_path p.
Proof.
  unfold for_method. rewrite list_elem_of_omap. split.
  - intros (q & Hin & H). case_decide; by simplify_eq.
  - intros (Hin & <- & ->). exists p. by rewrite decide_True.
Qed.

(** What [match_path] finds among the patterns of one method. *)
Definition found_for (m : option string) pats path (p : Pattern R) (vs : list string) : Prop :=
  p ∈ pats ∧ pat_method p = m ∧ seg_match (pat_path p) path vs ∧
  ∀ q ws, q ∈ pats → pat_method q = m → seg_match (pat_path q) path ws →
    more_specific (pat_path p) (pat_path q).

Lemma match_path_for_method m pats path :
  match match_path (for_method m pats) path [] with
  | Some (p, vs) => found_for m pats path p vs
  | None => ∀ p vs, p ∈ pats → pat_method p = m → ¬ seg_match (pat_path p) path vs
  end.
Proof.
  pose proof (match_path_spec (for_method m pats) path) as H.
  destruct (match_path _ path []) as [[p vs]|].
  - destruct H as (segs & (Hin & Hm & ->)%elem_of_for_method & Hs & Hmin).
    split_and!; [done..|]. intros q ws Hq Hmq. apply (Hmin _ q).
    by apply elem_of_for_method.
  - intros p vs Hp Hm. apply (H _ p). by apply elem_of_for_method.
Qed.

Lemma found_for_serves m method pats path p vs :
  found_for m pats path p vs → (m = Some method ∨ method = "HEAD" ∧ m = Some "GET" ∨ m = None) →
  serves method p ∧ found_for (pat_method p) pats path p vs.
Proof. intros H Hm. pose proof H as (_ & Hp & _). unfold serves. by rewrite Hp. Qed.

Lemma match_request_spec pats method path :
  match match_request pats method path with
  | Some (p, vs) => serves method p ∧ found_for (pat_method p) pats path p vs
  | None => ∀ p vs, p ∈ pats → serves method p → ¬ seg_match (pat_path p) path vs
  end.
Proof.
  unfold match_request.
  pose proof (match_path_for_method (Some method) pats path) as H1.
  destruct (match_path (for_method (Some method) pats) path []) as [[p vs]|];
    [by eapply found_for_serves; [|left]|].
  pose proof (match_path_for_method (Some "GET") pats path) as H2.
  pose proof (match_path_for_method None pats path) as H3.
  destruct (String.eqb_spec method "HEAD") as [->|Hne].
  1: destruct (match_path (for_method (Some "GET") pats) path []) as [[p vs]|];
    [by eapply found_for_serves; [|right; left]|].
  all: destruct (match_path (for_method None pats) path []) as [[p vs]|];
    [by eapply found_for_serves; [|right; right]|].
  all: intros p vs Hp [Hm|[[? Hm]|Hm]]; by eauto.
Qed.

Lemma route_spec pats method path :
  match route pats method path with
  | Matched ep values =>
    ∃ p vs, pat_route p = ep ∧ values = zip (wild_names (pat_path p)) vs ∧ serves method p ∧
      found_for (pat_method p) pats path p vs
  | MethodNotAllowed =>
    (∀ p vs, p ∈ pats → serves method p → ¬ seg_match (pat_path p) path vs) ∧
    ∃ p vs, p ∈ pats ∧ seg_match (pat_path p) path vs
  | NoRoute => ∀ p vs, p ∈ pats → ¬ seg_match (pat_path p) path vs
  end.
Proof.
  unfold route. pose proof (match_request_spec pats method path) as H.
  destruct (match_request pats method path) as [[p vs]|].
  { exists p, vs. destruct H. by split_and!. }
  destruct (existsb _ pats) eqn:Ex.
  - split; [exact H|]. apply existsb_exists in Ex as (p & _ & Hp).
    destruct (pat_method p) as [m|]; [|done].
    pose proof (match_path_for_method (Some m) pats path) as Hm.
    destruct (match_path _ path []) as [[q vs]|]; [|done].
    exists q, vs. by destruct Hm as (? & _ & ? & _).
  - intros p vs Hp Hs. destruct (pat_method p) as [m|] eqn:Em.
    + pose proof (match_path_for_method (Some m) pats path) as Hm.
      apply not_true_iff_false in Ex. apply Ex, existsb_exists. exists p.
      rewrite <- list_elem_of_In, Em. split; [done|].
      destruct (match_path _ path []); [done|]. by destruct (Hm p vs).
    + apply (H p vs Hp); [by right; right|done].
Qed.

End RouteLemmas.
