(* ===== verification/Server.v ===== *)
(** [internal/api/server.go]: the configuration, the table of routes, and what
    one request and one tick of the chunk cleaner do.  ConcServer.v runs many of
    them at once. *)
From S2P Require Import Prelude GoNum GoStrings GoSort Model Sign Hash StoreTypes MemoryStore.
From S2P Require Import MemoryIndex MemoryChunks MemorySystem Store Handler Mux.

Local Open Scope Z_scope.

(** ** Configuration *)

Record Config := mkConfig {
  cfg_Addr : string;
  cfg_ReadTimeout : Z;
  cfg_WriteTimeout : Z;
  cfg_ShutdownTimeout : Z;
  cfg_PurgeInterval : Z;
}.

Definition DefaultConfig : Config :=
  mkConfig ":8080" (10 * Second) (10 * Second) (15 * Second) (3600 * Second).

(** ** Routes *)

Inductive Endpoint :=
| EHealth | EList | ERegister | ERefresh | EGet | EGetByKey | EGetBestThickPeers | EGetBestPeers
| EDelete | EHeartbeat | EReportChunk | EConfirmChunk | EConfirmChunkBatch | ERegisterChunk
| ERegisterChunkBatch | EGetChunksByFileID | EGetChunksByRecipient | ESetSignal | EPollSignals
| EReadChunk | EWebSocket.

#[export] Instance Endpoint_eq_dec : EqDecision Endpoint.
Proof. solve_decision. Defined.

(** The calls of [mux.HandleFunc] in [NewServer]. *)
Definition routes : list (Pattern Endpoint) :=
  let api l := Lit "api" :: Lit "v1" :: l in
  let GET := mkPattern (Some "GET") in
  let POST := mkPattern (Some "POST") in
  let PUT := mkPattern (Some "PUT") in
  let DELETE := mkPattern (Some "DELETE") in
  [ GET [Lit "health"] EHealth;
    GET (api [Lit "peers"]) EList;
    POST (api [Lit "peers"]) ERegister;
    PUT (api [Lit "peers"]) ERefresh;
    GET (api [Lit "peers"; Wild "id"]) EGet;
    GET (api [Lit "keys"; Wild "login"]) EGetByKey;
    GET (api [Lit "peers"; Lit "best"; Lit "thick"]) EGetBestThickPeers;
    GET (api [Lit "peers"; Lit "best"]) EGetBestPeers;
    DELETE (api [Lit "peers"; Wild "id"]) EDelete;
    POST (api [Lit "peers"; Wild "id"; Lit "heartbeat"]) EHeartbeat;
    POST (api [Lit "peers"; Wild "id"; Lit "chunk-reports"]) EReportChunk;
    POST (api [Lit "chunks"; Lit "confirm"]) EConfirmChunk;
    POST (api [Lit "chunks"; Lit "confirm-batch"]) EConfirmChunkBatch;
    PUT (api [Lit "files"; Wild "file_id"; Lit "chunks"; Wild "index"]) ERegisterChunk;
    POST (api [Lit "files"; Wild "file_id"; Lit "chunks"]) ERegisterChunkBatch;
    GET (api [Lit "files"; Wild "file_id"; Lit "chunks"]) EGetChunksByFileID;
    GET (api [Lit "recipient"; Lit "chunks"]) EGetChunksByRecipient;
    POST (api [Lit "peers"; Wild "id"; Lit "signals"]) ESetSignal;
    GET (api [Lit "peers"; Wild "id"; Lit "signals"]) EPollSignals;
    POST (api [Lit "chunks"; Lit "read"]) EReadChunk;
    mkPattern None (api [Lit "ws"]) EWebSocket ].

(** What arrives: the method, the segments of the clean path, the query and the
    body. *)
Record RawRequest := mkRawRequest {
  raw_method : string;
  raw_path : list string;
  raw_query : list (string * string);
  raw_body : string;
}.

Section Server.
Context {J : JSONDecoder} {St : Type} {S : Store St}.

Definition handle (ep : Endpoint) : (nat → Env) → St → Request → St * Response :=
  match ep with
  | EHealth => Phonebook.Health
  | EList => Phonebook.List
  | ERegister => Phonebook.Register
  | ERefresh => Phonebook.Refresh
  | EGet => Phonebook.Get
  | EGetByKey => Phonebook.GetByKey
  | EGetBestThickPeers => Phonebook.GetBestThickPeers
  | EGetBestPeers => Phonebook.GetBestPeers
  | EDelete => Phonebook.Delete
  | EHeartbeat => Phonebook.Heartbeat
  | EReportChunk => Phonebook.ReportChunk
  | EConfirmChunk => Phonebook.ConfirmChunk
  | EConfirmChunkBatch => Phonebook.ConfirmChunkBatch
  | ERegisterChunk => Phonebook.RegisterChunk
  | ERegisterChunkBatch => Phonebook.RegisterChunkBatch
  | EGetChunksByFileID => Phonebook.GetChunksByFileID
  | EGetChunksByRecipient => Phonebook.GetChunksByRecipient
  | ESetSignal => Phonebook.SetSignal
  | EPollSignals => Phonebook.PollSignals
  | EReadChunk => Phonebook.ReadChunk
  | EWebSocket => λ _ s _, (s, mkResponse 101 NoContent)
  end.

(** One request, through the mux, on a server that does nothing else meanwhile;
    ConcServer.v has requests that overlap.  The switch to the WebSocket protocol
    is the only part of that route seen here; WebRTC.v has the rest. *)
Definition serve (es : nat → Env) (s : St) (r : RawRequest) : St * Response :=
  match route routes (raw_method r) (raw_path r) with
  | Matched ep values => handle ep es s (mkRequest values (raw_query r) (raw_body r))
  | MethodNotAllowed => (s, mkResponse 405 (Text "Method Not Allowed"))
  | NoRoute => (s, mkResponse 404 (Text "404 page not found"))
  end.

(** A tick of the cleaner; it is started for positive intervals only, and its
    result is only logged. *)
Definition chunkCleaner_tick (interval : Z) (e : Env) (s : St) : St :=
  if interval <=? 0 then s else (store_DeleteExpiredChunks e s).1.

End Server.
