(* ===== verification/ServerProps.v ===== *)
(** What one request to the server promises: which pattern serves a path, and
    what a response says about the store. *)
From S2P Require Import Prelude GoNum GoStrings GoSort Model Sign Hash StoreTypes MemoryStore.
From S2P Require Import Samples MemoryIndex MemoryChunks MemorySystem Store Handler Mux Server.

Local Open Scope Z_scope.

(** ** Responses of the handlers *)

Section Handlers.
Context {J : JSONDecoder} {St : Type} {S : Store St}.

(** The endpoints that make several store calls. *)
Definition is_batch (ep : Endpoint) : bool :=
  match ep with ERegisterChunkBatch | EConfirmChunkBatch => true | _ => false end.

Lemma writeStoreError_status err : 400 ≤ status (writeStoreError err).
Proof. unfold writeStoreError. repeat case_match; by vm_compute. Qed.

(** The answers to a store's error keep its state; the others are successes. *)
Lemma answer_atomic {A} (ok : A → Response) (s : St) out :
  atomic s out → (∀ a, status (ok a) < 400) →
  400 ≤ status (answer ok out).2 → (answer ok out).1 = s.
Proof.
  intros Ha Hok. destruct out as [s' [a|err]]; cbn.
  - specialize (Hok a). lia.
  - intros _. by apply (Ha err).
Qed.

Lemma atomic_read {A} (s : St) (r : result StoreError A) : atomic s (s, r).
Proof. by intros err. Qed.

Lemma decoded_elim {A} (P : St * Response → Prop) s (d : option A) k :
  P (s, writeError StatusBadRequest "invalid json body") → (∀ a, d = Some a → P (k a)) →
  P (decoded s d k).
Proof. intros Hn Hs. destruct d; cbn; auto. Qed.

Lemma required_elim (P : St * Response → Prop) s v msg k :
  P (s, writeError StatusBadRequest msg) → (v ≠ EmptyString → P k) → P (required s v msg k).
Proof. intros He Hk. unfold required. case_match; bool_hyps; auto. Qed.

End Handlers.

(** Reduce a claim about a handler to one about its store calls. *)
Ltac handler_cases :=
  unfold Phonebook.Health, Phonebook.List, Phonebook.Register, Phonebook.Refresh, Phonebook.Get,
    Phonebook.GetByKey, Phonebook.GetBestThickPeers, Phonebook.GetBestPeers, Phonebook.Delete,
    Phonebook.Heartbeat, Phonebook.ReportChunk, Phonebook.ConfirmChunk, Phonebook.RegisterChunk,
    Phonebook.GetChunksByFileID, Phonebook.GetChunksByRecipient, Phonebook.SetSignal,
    Phonebook.PollSignals, Phonebook.ReadChunk, Phonebook.RegisterChunkBatch,
    Phonebook.ConfirmChunkBatch;
  repeat case_match; try done;
  repeat first
    [ apply decoded_elim; [|intros ? _]
    | apply required_elim; [|intros ?] ]; try done.

Section Responses.
Context {J : JSONDecoder} {St : Type} {S : Store St} {HS : StoreAtomic S}.

(** Over a store whose failing methods change nothing, an error response of an
    endpoint that makes one store call means that the store is as it was. *)
Lemma error_keeps_store ep es s r :
  (∀ i, env_ok (es i)) → is_batch ep = false →
  400 ≤ status (handle ep es s r).2 → (handle ep es s r).1 = s.
Proof using HS.
  intros He. destruct ep; intros Hb; try discriminate Hb; cbn [handle]; clear Hb;
    handler_cases; apply answer_atomic; auto using atomic_read with muninn;
    intros ?; by vm_compute.
Qed.

End Responses.

(** ** Status codes *)

Section Status.
Context {J : JSONDecoder} {St : Type} {S : Store St} {HR : StoreReports S}.

Definition http_status (r : Response) : Prop :=
  status r ∈ [StatusOK; StatusNoContent; StatusBadRequest; StatusUnauthorized; StatusNotFound].

Lemma writeStoreError_documented err :
  documented err = true → http_status (writeStoreError err).
Proof. destruct err; try discriminate; intros _; apply list_elem_of_In; vm_compute; tauto. Qed.

Lemma answer_status {A} (ok : A → Response) (out : St * result StoreError A) :
  reports out.2 → (∀ a, http_status (ok a)) → http_status (answer ok out).2.
Proof.
  intros Hr Hok. destruct out as [s [a|err]]; cbn; [apply Hok|].
  by apply writeStoreError_documented, Hr.
Qed.

Lemma run_batch_reports {X A} (call : Env → St → X → St * result StoreError A) es s l :
  (∀ e s x, reports (call e s x).2) → reports (run_batch call es s l).2.
Proof.
  intros Hc. revert es s. induction l as [|x l IH]; intros es s; cbn; [by intros err|].
  pose proof (Hc (es 0%nat) s x) as Hx.
  destruct (call (es 0%nat) s x) as [s' [a|err]]; [apply IH|].
  cbn. intros err' [= <-]. by apply Hx.
Qed.

Lemma http_status_error msg : http_status (writeError StatusBadRequest msg).
Proof. apply list_elem_of_In. vm_compute. tauto. Qed.
Lemma http_status_json {A} (p : A → Payload) a : http_status (ok_json p a).
Proof. unfold ok_json, http_status. cbn. set_solver. Qed.
Lemma http_status_no_content {A} (a : A) : http_status (no_content a).
Proof. unfold no_content, http_status. cbn. set_solver. Qed.

Hint Resolve http_status_error http_status_json http_status_no_content : muninn.

(** over a store that fails in the documented ways only, no endpoint answers
    500: every response is 200, 204, 400, 401 or 404. *)
Theorem handle_status ep es s r :
  ep ≠ EWebSocket → http_status (handle ep es s r).2.
Proof using HR.
  intros Hep. destruct ep; try done; cbn [handle]; handler_cases; cbn [snd]; auto with muninn;
    try apply answer_status; try apply run_batch_reports; intros; cbn [snd];
    auto with muninn.
  apply list_elem_of_In. vm_compute. tauto.
Qed.

End Status.

(** ** Batches *)

Section Batches.
Context {J : JSONDecoder} {St : Type} {S : Store St}.

(** Every entry's call succeeds, in order, from one state to another. *)
Inductive runs {X A} (call : Env → St → X → St * result StoreError A) :
    (nat → Env) → St → list X → St → Prop :=
| runs_nil es s : runs call es s [] s
| runs_cons es s x a s1 l s' :
    call (es 0%nat) s x = (s1, Ok a) → runs call (λ i, es (1 + i)%nat) s1 l s' →
    runs call es s (x :: l) s'.

(** Up to the first error, whose entry leaves no trace. *)
Definition stops_at {X A} (call : Env → St → X → St * result StoreError A) (es : nat → Env)
    (s : St) (l : list X) (s' : St) (err : StoreError) : Prop :=
  ∃ l1 x l2, l = l1 ++ x :: l2 ∧ runs call es s l1 s' ∧ call (es (length l1)) s' x = (s', Err err).

Lemma run_batch_prefix {X A} (call : Env → St → X → St * result StoreError A) es s l :
  (∀ i s x, atomic s (call (es i) s x)) →
  match run_batch call es s l with
  | (s', Ok _) => runs call es s l s'
  | (s', Err err) => stops_at call es s l s' err
  end.
Proof.
  revert es s. induction l as [|x l IH]; intros es s Ha; cbn; [constructor|].
  destruct (call (es 0%nat) s x) as [s1 [a|err]] eqn:Ec; cbn.
  - specialize (IH (λ i, es (1 + i)%nat) s1 (λ i, Ha (1 + i)%nat)).
    destruct (run_batch call _ s1 l) as [s' [[]|err]]; [by econstructor|].
    destruct IH as (l1 & y & l2 & -> & Hr & Hy). exists (x :: l1), y, l2.
    split_and!; [done|by econstructor|done].
  - exists [], x, l. pose proof (Ha 0%nat s x err) as H. rewrite Ec in H.
    cbn in H. rewrite (H eq_refl) in Ec |- *. split_and!; [done|constructor|done].
Qed.

(** The answer of a batch endpoint whose body decodes. *)
Lemma answer_batch {X A} (call : Env → St → X → St * result StoreError A) es s l :
  (∀ i s x, atomic s (call (es i) s x)) →
  ∃ s', runs call es s l s' ∧
          answer no_content (run_batch call es s l) = (s', mkResponse StatusNoContent NoContent) ∨
        ∃ err, stops_at call es s l s' err ∧
          answer no_content (run_batch call es s l) = (s', writeStoreError err).
Proof.
  intros Ha. pose proof (run_batch_prefix call es s l Ha) as H.
  destruct (run_batch call es s l) as [s' [[]|err]]; exists s'; [by left|right; by exists err].
Qed.

(** The store call of one entry of each batch endpoint. *)
Definition register_entry (r : Request) (e : Env) (s : St) (entry : RegisterChunkBatchEntry) :=
  store_SetChunkHash e s (PathValue r "file_id") (rb_ChunkIndex entry) (batch_request entry).
Definition confirm_entry (req : ConfirmChunkBatchRequest) (e : Env) (s : St)
    (entry : ConfirmChunkBatchEntry) :=
  store_ConfirmChunk e s (confirm_request (cb_RecipientID req) entry).

(** a batch of chunks is applied entry by entry; it is answered 204 when all
    of them were registered, and otherwise with the error of the first entry
    that was refused, while the entries before it stay registered. *)
Theorem RegisterChunkBatch_prefix {HS : StoreAtomic S} es s r req :
  (∀ i, env_ok (es i)) → json_RegisterChunkBatchRequest (body r) = Some req →
  ∃ s', runs (register_entry r) es s (rb_Chunks req) s' ∧
          Phonebook.RegisterChunkBatch es s r = (s', mkResponse StatusNoContent NoContent) ∨
        ∃ err, stops_at (register_entry r) es s (rb_Chunks req) s' err ∧
          Phonebook.RegisterChunkBatch es s r = (s', writeStoreError err).
Proof.
  intros He Hd. unfold Phonebook.RegisterChunkBatch. rewrite Hd. cbn [decoded].
  apply (answer_batch (register_entry r)). unfold register_entry. auto with muninn.
Qed.

(** the same of a batch of confirmations; being applied is all that the 204
    says: the verdicts of the store are not reported. *)
Theorem ConfirmChunkBatch_prefix {HS : StoreAtomic S} es s r req :
  (∀ i, env_ok (es i)) → json_ConfirmChunkBatchRequest (body r) = Some req →
  ∃ s', runs (confirm_entry req) es s (cb_Chunks req) s' ∧
          Phonebook.ConfirmChunkBatch es s r = (s', mkResponse StatusNoContent NoContent) ∨
        ∃ err, stops_at (confirm_entry req) es s (cb_Chunks req) s' err ∧
          Phonebook.ConfirmChunkBatch es s r = (s', writeStoreError err).
Proof.
  intros He Hd. unfold Phonebook.ConfirmChunkBatch. rewrite Hd. cbn [decoded].
  apply (answer_batch (confirm_entry req)). unfold confirm_entry. auto with muninn.
Qed.

End Batches.

(** ** The in-memory store behind the server *)

Section Memory.
Context {J : JSONDecoder} {U : UnicodeTables} {E : Ed25519} {S : SliceSort}.

(** C25: over the in-memory store, an endpoint that makes one store call, run on
    its own, leaves the store exactly as it was whenever it answers an error. *)
Theorem handle_error_unchanged ep es (s : MemoryStore) r :
  (∀ i, env_ok (es i)) → is_batch ep = false →
  400 ≤ status (handle ep es s r).2 → (handle ep es s r).1 = s.
Proof. apply (error_keeps_store (S := memory_store)). Qed.

Lemma runs_register_ttl r es s l s' :
  (∀ i, env_ok (es i)) → runs (St := MemoryStore) (register_entry r) es s l s' →
  ∃ new, chunks s' = chunks s ++ new ∧ length new = length l ∧
    Forall (λ c, ce_TTL c = defaultChunkTTL) new.
Proof.
  intros He Hr. induction Hr as [es s|es s x a s1 l s' Hc Hr IH].
  - exists []. rewrite app_nil_r. auto.
  - destruct (IH (λ i, He (1 + i)%nat)) as (new & Heq & Hlen & Hnew). clear IH.
    unfold register_entry in Hc. cbn in Hc.
    pose proof (SetChunkHash_cases (es 0%nat) s (PathValue r "file_id") (rb_ChunkIndex x)
      (batch_request x) (He 0%nat)) as H. cbn zeta in H. rewrite Hc in H.
    destruct H as (_ & _ & ->). cbn in Heq. rewrite Heq, <- app_assoc.
    eexists. split_and!; [done|cbn; by rewrite Hlen|by constructor].
Qed.

(** the batch endpoint drops the TTLs of its entries: all the chunks it adds
    expire after the default time. *)
Theorem RegisterChunkBatch_drops_ttl es s r :
  (∀ i, env_ok (es i)) →
  ∃ new, chunks (Phonebook.RegisterChunkBatch es s r).1 = chunks s ++ new ∧
    Forall (λ c, ce_TTL c = defaultChunkTTL) new.
Proof.
  intros He. unfold Phonebook.RegisterChunkBatch.
  destruct (json_RegisterChunkBatchRequest (body r)) as [req|]; cbn [decoded fst];
    [|exists []; by rewrite app_nil_r].
  destruct (answer_batch (register_entry r) es s (rb_Chunks req)) as (s' & Hs).
  { unfold register_entry. intros. by apply SetChunkHash_atomic. }
  assert (∃ l, runs (register_entry r) es s l s' ∧
    (answer no_content (run_batch (register_entry r) es s (rb_Chunks req))).1 = s')
    as (l & Hr & Ha).
  { destruct Hs as [[Hr ->]|(err & (l1 & x & l2 & _ & Hr & _) & ->)]; eauto. }
  apply runs_register_ttl in Hr as (new & Heq & _ & Hnew); [|done].
  exists new. unfold register_entry in Ha. by rewrite Ha.
Qed.

End Memory.

(** ** Routing *)

(** [GET /api/v1/peers/{id}] serves every id but one: the ranking's path
    hides a peer registered as "best", and an unescaped slash is no id. *)
Theorem peer_path_routing id :
  route routes "GET" ["api"; "v1"; "peers"; id] =
    if (id == "best")%go then Matched EGetBestPeers []
    else if (id == "/")%go then NoRoute
    else Matched EGet [("id", id)].
Proof.
  destruct (String.eqb_spec id "best") as [->|Hb]; [by vm_compute|].
  destruct (String.eqb_spec id "/") as [->|Hs]; [by vm_compute|].
  set (K := lit_child "peers" (lit_child "v1" (lit_child "api" (for_method (Some "GET") routes)))).
  assert (match_path K [id] [] =
    Some (mkPattern (Some "GET") [Lit "api"; Lit "v1"; Lit "peers"; Wild "id"] EGet, [id]))
    as Hm.
  { vm_compute in K. subst K. apply String.eqb_neq in Hb, Hs. rewrite String.eqb_sym in Hb.
    cbn [match_path lit_child omap list_omap]. rewrite Hb, Hs. done. }
  apply match_path_lit, match_path_lit, match_path_lit in Hm.
  unfold route, match_request. by rewrite Hm.
Qed.

(** The endpoints GET and HEAD requests reach. *)
Lemma read_endpoints method p :
  method = "GET" ∨ method = "HEAD" → p ∈ routes → serves method p →
  pat_route p ∈ [EHealth; EList; EGet; EGetByKey; EGetBestThickPeers; EGetBestPeers;
                 EGetChunksByFileID; EGetChunksByRecipient; EPollSignals; EWebSocket].
Proof.
  intros Hm Hp Hs. apply list_elem_of_In. apply list_elem_of_In in Hp.
  assert (pat_method p = None ∨ pat_method p = Some "GET" ∨ pat_method p = Some "HEAD") as Hq
    by (destruct Hm as [-> | ->], Hs as [?|[[? ?]|?]]; auto).
  clear Hm Hs. unfold routes in Hp. cbn [In] in Hp.
  repeat destruct Hp as [<-|Hp]; cbn in Hq |- *; try tauto; naive_solver.
Qed.

(** reading is safe: a GET or HEAD request changes nothing in the store,
    except that polling a mailbox empties it; opening a WebSocket, which polls
    as well, is the business of WebRTC.v. *)
Theorem reading_is_safe {J : JSONDecoder} {St : Type} {S : Store St} es s r :
  raw_method r = "GET" ∨ raw_method r = "HEAD" →
  (∀ ep values, route routes (raw_method r) (raw_path r) = Matched ep values →
     ep ≠ EPollSignals ∧ ep ≠ EWebSocket) →
  (serve es s r).1 = s.
Proof.
  intros Hm Hp. unfold serve. pose proof (route_spec routes (raw_method r) (raw_path r)) as H.
  destruct (route routes (raw_method r) (raw_path r)) as [ep values| |]; [|done..].
  destruct H as (p & vs & <- & -> & Hs & Hin & _). pose proof (read_endpoints _ p Hm Hin Hs) as He.
  rewrite !elem_of_cons, elem_of_nil in He. destruct (Hp _ _ eq_refl) as [Hp1 Hp2].
  destruct (pat_route p); try (exfalso; intuition congruence); cbn [handle]; handler_cases;
    by match goal with |- (answer _ (s, ?r)).1 = _ => destruct r end.
Qed.

(** ** The theorems on concrete runs *)

Local Existing Instance sample_tables.
Local Existing Instance toy_ed25519.
Local Existing Instance insertion_slice_sort.

(** Two chunks of one file, the second with a hash that is none. *)
Definition batch_entry (hash : string) : RegisterChunkBatchEntry :=
  mkRegisterChunkBatchEntry 0 (key_of "alice") (key_of "bob") hash
    (toy_sign "alice" (ExpectedPayload "file" 0 hash)) "bob" false 60.

Definition sample_batch : RegisterChunkBatchRequest :=
  mkRegisterChunkBatchRequest [batch_entry sample_hash; batch_entry "short"].

Definition confirm_batch : ConfirmChunkBatchRequest :=
  mkConfirmChunkBatchRequest (key_of "bob")
    [mkConfirmChunkBatchEntry "file" 0 sample_hash (conf_Signature (confirmation sample_hash))].

(** A decoder that gives every body one meaning per type. *)
Definition sample_json : JSONDecoder := {|
  json_RegisterRequest _ := Some (register "alice" "alice");
  json_RefreshRequest _ := None;
  json_RegisterChunkRequest _ := Some (announce "file");
  json_RegisterChunkBatchRequest _ := Some sample_batch;
  json_ChunkReportRequest _ := Some (report sample_hash);
  json_ConfirmChunkRequest _ := Some (confirmation sample_hash);
  json_ConfirmChunkBatchRequest _ := Some confirm_batch;
  json_ReadChunkRequest _ := Some reading;
  json_Signal _ := None;
  json_ttl _ := 0;
|}.
Local Existing Instance sample_json.

Definition seconds_from (n : Z) (i : nat) : Env := env_second (n + Z.of_nat i).
Lemma seconds_from_ok n i : env_ok (seconds_from n i).
Proof. apply env_second_ok. Qed.

Definition file_request : Request := mkRequest [("file_id", "file"); ("id", "bob")] [] "".

Lemma handle_error_unchanged_witness :
  (handle ESetSignal (seconds_from 120) two_peers file_request).1 = two_peers.
Proof.
  apply (handle_error_unchanged ESetSignal (seconds_from 120) two_peers file_request);
    [apply seconds_from_ok|done|by vm_compute].
Defined.

Lemma handle_status_witness :
  http_status (handle EConfirmChunk (seconds_from 120) announced file_request).2.
Proof. by apply (handle_status EConfirmChunk). Defined.

Lemma RegisterChunkBatch_prefix_witness :
  ∃ s' err, stops_at (register_entry file_request) (seconds_from 120) two_peers
              (rb_Chunks sample_batch) s' err ∧ length (chunks s') = 1%nat.
Proof.
  destruct (RegisterChunkBatch_prefix (J := sample_json) (S := memory_store) (seconds_from 120) two_peers file_request sample_batch
    (seconds_from_ok 120) eq_refl) as (s' & [[_ H]|(err & Hstop & H)]).
  - assert (status (Phonebook.RegisterChunkBatch (seconds_from 120) two_peers file_request).2 = 400)
      as Hc by (by vm_compute). by rewrite H in Hc.
  - exists s', err. split; [exact Hstop|].
    assert (length (chunks (Phonebook.RegisterChunkBatch (seconds_from 120) two_peers
      file_request).1) = 1%nat) as Hl by (by vm_compute).
    by rewrite H in Hl.
Defined.

Lemma ConfirmChunkBatch_prefix_witness :
  ∃ s', runs (confirm_entry confirm_batch) (seconds_from 120) announced (cb_Chunks confirm_batch) s'.
Proof.
  destruct (ConfirmChunkBatch_prefix (J := sample_json) (S := memory_store) (seconds_from 120) announced file_request confirm_batch
    (seconds_from_ok 120) eq_refl) as (s' & [[Hr _]|(err & _ & H)]); [by exists s'|].
  assert (status (Phonebook.ConfirmChunkBatch (seconds_from 120) announced file_request).2 = 204)
    as Hc by (by vm_compute).
  rewrite H in Hc. pose proof (writeStoreError_status err) as Hw. cbn [snd] in Hc. lia.
Defined.

Lemma RegisterChunkBatch_drops_ttl_witness :
  ∃ new, chunks (Phonebook.RegisterChunkBatch (seconds_from 120) two_peers file_request).1 =
           chunks two_peers ++ new ∧ Forall (λ c, ce_TTL c = defaultChunkTTL) new.
Proof. apply (RegisterChunkBatch_drops_ttl _ _ _ (seconds_from_ok 120)). Defined.

Definition get_best : RawRequest := mkRawRequest "GET" ["api"; "v1"; "peers"; "best"] [] "".

Lemma reading_is_safe_witness : (serve (seconds_from 120) announced get_best).1 = announced.
Proof.
  apply (reading_is_safe (seconds_from 120) announced get_best); [by left|].
  intros ep values. vm_compute. by intros [= <- <-].
Defined.
