(* ===== verification/Routes.v ===== *)
(** The HTTP interface: which handler answers which method and path, written down
    operation by operation, and that the server's table of routes implements it. *)
From S2P Require Import Prelude GoNum GoStrings GoSort Model Sign Hash StoreTypes MemoryStore.
From S2P Require Import MemoryIndex MemoryChunks MemorySystem Samples Store Handler Mux Server.
From S2P Require Import ServerProps.

Local Open Scope Z_scope.

Section Routes.
Context {J : JSONDecoder} {St : Type} {S : Store St}.

(** What a handler does with its request. *)
Definition HandlerFunc : Type := (nat → Env) → St → Request → St * Response.

(** HEAD is answered as GET is. *)
Definition reads (method : string) : Prop := method = "GET" ∨ method = "HEAD".

(** The value of a wildcard is one segment of the path, which is no slash. *)
Definition segment (id : string) : Prop := id ≠ "/".

(** The upgrade to a WebSocket. *)
Definition upgrade : HandlerFunc := λ _ s _, (s, mkResponse 101 NoContent).

(** The operations: method, path, handler, and the values of the path. *)
Inductive documented :
  string → list string → HandlerFunc → list (string * string) → Prop :=
| doc_health m : reads m → documented m ["health"] Phonebook.Health []
| doc_list m : reads m → documented m ["api"; "v1"; "peers"] Phonebook.List []
| doc_register : documented "POST" ["api"; "v1"; "peers"] Phonebook.Register []
| doc_refresh : documented "PUT" ["api"; "v1"; "peers"] Phonebook.Refresh []
| doc_get m id : reads m → segment id → id ≠ "best" →
    documented m ["api"; "v1"; "peers"; id] Phonebook.Get [("id", id)]
| doc_best m : reads m → documented m ["api"; "v1"; "peers"; "best"] Phonebook.GetBestPeers []
| doc_thick m : reads m →
    documented m ["api"; "v1"; "peers"; "best"; "thick"] Phonebook.GetBestThickPeers []
| doc_key m login : reads m → segment login →
    documented m ["api"; "v1"; "keys"; login] Phonebook.GetByKey [("login", login)]
| doc_delete id : segment id →
    documented "DELETE" ["api"; "v1"; "peers"; id] Phonebook.Delete [("id", id)]
| doc_heartbeat id : segment id →
    documented "POST" ["api"; "v1"; "peers"; id; "heartbeat"] Phonebook.Heartbeat [("id", id)]
| doc_report id : segment id →
    documented "POST" ["api"; "v1"; "peers"; id; "chunk-reports"] Phonebook.ReportChunk [("id", id)]
| doc_confirm : documented "POST" ["api"; "v1"; "chunks"; "confirm"] Phonebook.ConfirmChunk []
| doc_confirm_batch :
    documented "POST" ["api"; "v1"; "chunks"; "confirm-batch"] Phonebook.ConfirmChunkBatch []
| doc_read : documented "POST" ["api"; "v1"; "chunks"; "read"] Phonebook.ReadChunk []
| doc_chunk file index : segment file → segment index →
    documented "PUT" ["api"; "v1"; "files"; file; "chunks"; index] Phonebook.RegisterChunk
      [("file_id", file); ("index", index)]
| doc_chunk_batch file : segment file →
    documented "POST" ["api"; "v1"; "files"; file; "chunks"] Phonebook.RegisterChunkBatch
      [("file_id", file)]
| doc_file m file : reads m → segment file →
    documented m ["api"; "v1"; "files"; file; "chunks"] Phonebook.GetChunksByFileID
      [("file_id", file)]
| doc_recipient m : reads m →
    documented m ["api"; "v1"; "recipient"; "chunks"] Phonebook.GetChunksByRecipient []
| doc_signal id : segment id →
    documented "POST" ["api"; "v1"; "peers"; id; "signals"] Phonebook.SetSignal [("id", id)]
| doc_poll m id : reads m → segment id →
    documented m ["api"; "v1"; "peers"; id; "signals"] Phonebook.PollSignals [("id", id)]
| doc_ws m : documented m ["api"; "v1"; "ws"] upgrade [].

(** An operation is determined by its method and path. *)
Lemma documented_unique m path f v f' v' :
  documented m path f v → documented m path f' v' → f = f' ∧ v = v'.
Proof.
  intros H H'. destruct H; inversion H'; subst; try done;
    repeat match goal with H : reads _ |- _ => destruct H end; done.
Qed.

(** *** From an operation to its pattern *)

Lemma reads_serves m (p : Pattern Endpoint) : reads m → pat_method p = Some "GET" → serves m p.
Proof. intros [-> | ->] Hp; [by left|by right; left]. Qed.

Ltac match_segments :=
  repeat first [apply sm_nil | apply sm_lit | apply sm_wild; [assumption|]].
Ltac pattern_from k :=
  let p := eval cbv in (nth_error routes k) in
  match p with Some ?p =>
    first [ exists p; eexists; split_and!;
            [apply list_elem_of_In; cbn; tauto
            |first [by left | by right; right | by apply reads_serves]|solve [match_segments]]
          | pattern_from (Datatypes.S k) ]
  end.

Lemma documented_pattern m path f v :
  documented m path f v → ∃ p vs, p ∈ routes ∧ serves m p ∧ seg_match (pat_path p) path vs.
Proof. intros []; pattern_from 0%nat. Qed.

(** *** From a pattern to its operation *)

Lemma serves_own m (p : Pattern Endpoint) M :
  serves m p → pat_method p = Some M → M ≠ "GET" → m = M.
Proof. intros [H|[[_ H]|H]] HM HG; congruence. Qed.

Lemma serves_reads m (p : Pattern Endpoint) : serves m p → pat_method p = Some "GET" → reads m.
Proof. intros [H|[[-> _]|H]] HM; [left|by right|]; congruence. Qed.

Ltac path_segments :=
  repeat match goal with H : seg_match (_ :: _) _ _ |- _ => inversion H; subst; clear H end;
  repeat match goal with H : seg_match [] _ _ |- _ => inversion H; subst; clear H end.

(** What is left to show of an operation: its method, and that the ranking's own
    pattern is more specific than the one of a peer. *)
Lemma found_documented m p path vs :
  serves m p → found_for (pat_method p) routes path p vs →
  documented m path (handle (pat_route p)) (zip (wild_names (pat_path p)) vs).
Proof.
  intros Hs (Hp & _ & Hm & Hbest). apply list_elem_of_In in Hp.
  unfold routes in Hp. cbn [In] in Hp.
  repeat destruct Hp as [<-|Hp]; cbn [pat_path pat_route pat_method handle] in *; path_segments;
    try (apply serves_reads in Hs; [|done]); try (eapply serves_own in Hs as ->; [|done|done]);
    try done; cbn [wild_names zip zip_with]; constructor; try done.
  intros ->. specialize (Hbest (mkPattern (Some "GET")
    [Lit "api"; Lit "v1"; Lit "peers"; Lit "best"] EGetBestPeers) []).
  cbn [pat_path pat_method] in Hbest.
  assert (more_specific [Lit "api"; Lit "v1"; Lit "peers"; Wild "id"]
    [Lit "api"; Lit "v1"; Lit "peers"; Lit "best"]) as H
    by (apply Hbest; [apply list_elem_of_In; cbn; tauto|done|match_segments]).
  repeat match goal with H : more_specific _ _ |- _ => inversion H; subst; clear H end.
Qed.

(** A path of the table is one of an operation, under some method. *)
Lemma pattern_documented p path vs :
  p ∈ routes → seg_match (pat_path p) path vs → ∃ m f v, documented m path f v.
Proof.
  intros Hp Hm. pose proof (route_spec routes (default "GET" (pat_method p)) path) as H.
  assert (serves (default "GET" (pat_method p)) p) as Hs.
  { unfold serves. destruct (pat_method p); [by left|by right; right]. }
  destruct (route routes _ path) as [ep values| |].
  - destruct H as (q & ws & _ & _ & Hq & Hf). eauto using found_documented.
  - destruct H as [H _]. by destruct (H p vs).
  - by destruct (H p vs).
Qed.

(** *** The table implements the interface *)

(** C36: the server answers each operation of its interface with the handler of
    that operation, given the values of the path: twenty-one operations, of
    which those that read are also served to HEAD, and the ranking's path is no
    peer's.  A method that is not one of the operations of its path is answered
    405, a path that has no operation 404, and neither touches the store. *)
Theorem interface_served es s r :
  let m := raw_method r in let path := raw_path r in
  (∀ f values, documented m path f values →
     serve es s r = f es s (mkRequest values (raw_query r) (raw_body r))) ∧
  ((∀ f values, ¬ documented m path f values) → (∃ m' f values, documented m' path f values) →
     serve es s r = (s, mkResponse 405 (Text "Method Not Allowed"))) ∧
  ((∀ m' f values, ¬ documented m' path f values) →
     serve es s r = (s, mkResponse 404 (Text "404 page not found"))).
Proof.
  cbn zeta. unfold serve. pose proof (route_spec routes (raw_method r) (raw_path r)) as H.
  destruct (route routes (raw_method r) (raw_path r)) as [ep values| |].
  - destruct H as (p & vs & <- & -> & Hs & Hf). pose proof (found_documented _ _ _ _ Hs Hf) as Hd.
    split_and!.
    + intros f values Hd'. by destruct (documented_unique _ _ _ _ _ _ Hd Hd') as [-> ->].
    + intros Hn. by apply Hn in Hd.
    + intros Hn. by apply Hn in Hd.
  - destruct H as [H (p & vs & Hp & Hm)]. split_and!; [|done|].
    + intros f values (q & ws & Hq & Hs & Hw)%documented_pattern. by destruct (H q ws).
    + intros Hn. destruct (pattern_documented p _ vs Hp Hm) as (m & f & v & Hd). by apply Hn in Hd.
  - split_and!; [| |done].
    + intros f values (q & ws & Hq & _ & Hw)%documented_pattern. by destruct (H q ws).
    + intros _ (m & f & v & (q & ws & Hq & _ & Hw)%documented_pattern). by destruct (H q ws).
Qed.

End Routes.

(** ** The theorem on concrete requests *)

Local Existing Instances sample_tables toy_ed25519 insertion_slice_sort sample_json.

(** HEAD on the ranking's path is the ranking; PATCH on it is refused. *)
Lemma interface_served_witness :
  let best m := mkRawRequest m ["api"; "v1"; "peers"; "best"] [("n", "1")] "" in
  serve (seconds_from 120) announced (best "HEAD") =
    Phonebook.GetBestPeers (seconds_from 120) announced (mkRequest [] [("n", "1")] "") ∧
  serve (seconds_from 120) announced (best "PATCH") =
    (announced, mkResponse 405 (Text "Method Not Allowed")).
Proof.
  intros best. split.
  - destruct (interface_served (seconds_from 120) announced (best "HEAD")) as (H & _).
    apply H, doc_best. by right.
  - destruct (interface_served (seconds_from 120) announced (best "PATCH")) as (_ & H & _).
    apply H.
    + intros f values Hd. inversion Hd;
        repeat match goal with H : reads _ |- _ => destruct H end; done.
    + exists "GET", Phonebook.GetBestPeers, []. apply doc_best. by left.
Defined.
