(* ===== verification/WebRTC.v ===== *)
(** [internal/webrtc/handler.go]: signalling over WebSocket.  The state is the
    store, the map from peer ids to open connections, and the frames written so
    far; [net c] says whether a write to connection [c] succeeds now. *)
From S2P Require Import Prelude GoNum GoStrings GoSort Model Sign Hash StoreTypes MemoryStore.
From S2P Require Import Samples MemoryIndex MemoryChunks MemorySignals MemorySystem Store.

Local Open Scope Z_scope.

(** ** Messages *)

Record rpcRequest := mkrpcRequest { rpc_ID : string; rpc_Method : string; rpc_Params : string }.

Record SignalRelayRequest := mkSignalRelayRequest {
  sr_TargetID : string;
  sr_From : string;
  sr_Type : string;
  sr_Data : string;
}.

Record ConnectToPeerRequest := mkConnectToPeerRequest { cp_TargetID : string; cp_Offer : string }.

Definition rpcMethodSignalRelay : string := "signal_relay".
Definition rpcMethodConnectToPeer : string := "connect_to_peer".

(** [json.Unmarshal] of the three types; [None] is an error. *)
Class RPCDecoder := {
  json_rpcRequest : string → option rpcRequest;
  json_SignalRelayRequest : string → option SignalRelayRequest;
  json_ConnectToPeerRequest : string → option ConnectToPeerRequest;
}.

(** What is written to a connection: the notification [incoming_signal], an
    empty result, or an error. *)
Inductive Frame :=
| Incoming (sig : Signal)
| Result (id : string)
| RPCError (id msg : string).

#[export] Instance Frame_eq_dec : EqDecision Frame.
Proof. solve_decision. Defined.

(** ** State *)

(** Connections are the pointers the map holds. *)
Definition Conn := nat.

Record Hub (St : Type) := mkHub {
  hub_store : St;
  wsConns : gmap string Conn;
  written : list (Conn * Frame);
}.
Arguments mkHub {St}.
Arguments hub_store {St}.
Arguments wsConns {St}.
Arguments written {St}.

Section Hub.
Context {D : RPCDecoder} {St : Type} {S : Store St}.
Context (net : Conn → bool).

Definition NewHandler (s : St) : Hub St := mkHub s ∅ [].

(** [conn.WriteMessage]: whether the frame was written. *)
Definition WriteMessage (h : Hub St) (c : Conn) (f : Frame) : Hub St * bool :=
  if net c then (mkHub (hub_store h) (wsConns h) (written h ++ [(c, f)]), true) else (h, false).

Definition sendNotification (h : Hub St) (peerID : string) (sig : Signal) : Hub St * bool :=
  match wsConns h !! peerID with
  | None => (h, false)
  | Some p => WriteMessage h p (Incoming sig)
  end.

Definition sendResult (h : Hub St) (peerID reqID : string) : Hub St :=
  match wsConns h !! peerID with
  | None => h
  | Some p => (WriteMessage h p (Result reqID)).1
  end.

Definition sendError (h : Hub St) (peerID reqID errMsg : string) : Hub St :=
  match wsConns h !! peerID with
  | None => h
  | Some p => (WriteMessage h p (RPCError reqID errMsg)).1
  end.

(** The store fallback of both relays, and the answer to the sender. *)
Definition store_signal (e : Env) (h : Hub St) (fromPeerID reqID target : string) (sig : Signal) :
    Hub St :=
  match store_SetSignal e (hub_store h) target sig with
  | (s, Err err) =>
    sendError (mkHub s (wsConns h) (written h)) fromPeerID reqID ("store signal: " +:+ Error err)
  | (s, Ok _) => sendResult (mkHub s (wsConns h) (written h)) fromPeerID reqID
  end.

(** Notify the target if it is connected, leave the signal in the store
    otherwise: what both relays do with their signal. *)
Definition relay (e : Env) (h : Hub St) (fromPeerID reqID target : string) (sig : Signal) :
    Hub St :=
  match sendNotification h target sig with
  | (h, true) => sendResult h fromPeerID reqID
  | (h, false) => store_signal e h fromPeerID reqID target sig
  end.

Definition handleSignalRelay (e : Env) (h : Hub St) (fromPeerID : string) (req : rpcRequest) :
    Hub St :=
  match json_SignalRelayRequest (rpc_Params req) with
  | None => sendError h fromPeerID (rpc_ID req) "invalid signal_relay params"
  | Some params =>
    relay e h fromPeerID (rpc_ID req) (sr_TargetID params)
      (mkSignal (sr_From params) (sr_Type params) (sr_Data params))
  end.

Definition handleConnectToPeer (e : Env) (h : Hub St) (fromPeerID : string) (req : rpcRequest) :
    Hub St :=
  match json_ConnectToPeerRequest (rpc_Params req) with
  | None => sendError h fromPeerID (rpc_ID req) "invalid connect_to_peer params"
  | Some params =>
    relay e h fromPeerID (rpc_ID req) (cp_TargetID params)
      (mkSignal fromPeerID "offer" (cp_Offer params))
  end.

Definition handleMessage (e : Env) (h : Hub St) (peerID data : string) : Hub St :=
  match json_rpcRequest data with
  | None => h
  | Some req =>
    if ((rpc_ID req == "") || (rpc_Method req == ""))%go then h
    else if (rpc_Method req == rpcMethodSignalRelay)%go then handleSignalRelay e h peerID req
    else if (rpc_Method req == rpcMethodConnectToPeer)%go then handleConnectToPeer e h peerID req
    else sendError h peerID (rpc_ID req) ("unknown method: " +:+ rpc_Method req)
  end.

(** *** The life of a connection *)

(** [HandleWebSocket] up to its loop: enter the connection in the map, ... *)
Definition ws_register (h : Hub St) (peerID : string) (c : Conn) : Hub St :=
  mkHub (hub_store h) (<[peerID := c]> (wsConns h)) (written h).

(** ... then empty the mailbox into it, whatever becomes of the writes. *)
Definition ws_drain (e : Env) (h : Hub St) (peerID : string) (c : Conn) : Hub St :=
  match store_PollSignals e (hub_store h) peerID with
  | (s, Ok signals) =>
    fold_left (λ h sig, (WriteMessage h c (Incoming sig)).1) signals
      (mkHub s (wsConns h) (written h))
  | (s, Err _) => mkHub s (wsConns h) (written h)
  end.

(** The deferred function: it deletes the peer's entry, whichever connection
    the entry holds. *)
Definition ws_close (h : Hub St) (peerID : string) : Hub St :=
  mkHub (hub_store h) (delete peerID (wsConns h)) (written h).

Definition CloseAll (h : Hub St) : Hub St := mkHub (hub_store h) ∅ (written h).

(** ** Lemmas *)

Lemma WriteMessage_ok h c f :
  net c = true →
  WriteMessage h c f = (mkHub (hub_store h) (wsConns h) (written h ++ [(c, f)]), true).
Proof. unfold WriteMessage. by intros ->. Qed.

Lemma WriteMessage_fail h c f : net c = false → WriteMessage h c f = (h, false).
Proof. unfold WriteMessage. by intros ->. Qed.

(** Sending changes neither the store nor the map. *)
Lemma sendResult_state h peerID id :
  hub_store (sendResult h peerID id) = hub_store h ∧ wsConns (sendResult h peerID id) = wsConns h.
Proof. unfold sendResult, WriteMessage. by repeat case_match. Qed.

Lemma sendError_state h peerID id msg :
  hub_store (sendError h peerID id msg) = hub_store h ∧
  wsConns (sendError h peerID id msg) = wsConns h.
Proof. unfold sendError, WriteMessage. by repeat case_match. Qed.

Lemma sendNotification_state h peerID sig :
  hub_store (sendNotification h peerID sig).1 = hub_store h ∧
  wsConns (sendNotification h peerID sig).1 = wsConns h.
Proof. unfold sendNotification, WriteMessage. by repeat case_match. Qed.

Lemma write_all h c sigs :
  fold_left (λ h sig, (WriteMessage h c (Incoming sig)).1) sigs h =
    mkHub (hub_store h) (wsConns h)
      (written h ++ if net c then (λ sig, (c, Incoming sig)) <$> sigs else []).
Proof.
  revert h. induction sigs as [|sig sigs IH]; intros h; cbn [fold_left].
  - destruct h. cbn. destruct (net c); by rewrite app_nil_r.
  - rewrite IH. unfold WriteMessage. destruct (net c); cbn; [by rewrite <- app_assoc|done].
Qed.

End Hub.
