(* ===== verification/Wire.v ===== *)
(** The texts on the wire: the struct tags of [internal/model] and
    [internal/webrtc] as decoders of the requests and encoders of the responses
    and of the frames, with the instances of [JSONDecoder] and [RPCDecoder] that
    read texts as [encoding/json] does. *)
From S2P Require Import Prelude GoNum GoStrings Json JsonGrammar JsonString JsonEncode JsonDecode.
From S2P Require Import Model StoreTypes Handler WebRTC.

Local Open Scope Z_scope.

(** ** Requests *)

(** The fields of every struct a request is decoded into, in source order, and
    the value the handlers declare. *)
Definition RegisterRequest_fields : list (field RegisterRequest) :=
  [ typed_field "id" reg_ID
      (λ q x, mkRegisterRequest x (reg_Login q) (reg_EncryptionKey q) (reg_SignatureKey q)
        (reg_TTLSeconds q) (reg_PeerFlag q) (reg_Fake q)) dec_string;
    typed_field "login" reg_Login
      (λ q x, mkRegisterRequest (reg_ID q) x (reg_EncryptionKey q) (reg_SignatureKey q)
        (reg_TTLSeconds q) (reg_PeerFlag q) (reg_Fake q)) dec_string;
    typed_field "encryption_key" reg_EncryptionKey
      (λ q x, mkRegisterRequest (reg_ID q) (reg_Login q) x (reg_SignatureKey q) (reg_TTLSeconds
        q) (reg_PeerFlag q) (reg_Fake q)) dec_string;
    typed_field "signature_key" reg_SignatureKey
      (λ q x, mkRegisterRequest (reg_ID q) (reg_Login q) (reg_EncryptionKey q) x (reg_TTLSeconds
        q) (reg_PeerFlag q) (reg_Fake q)) dec_string;
    typed_field "ttl_seconds" reg_TTLSeconds
      (λ q x, mkRegisterRequest (reg_ID q) (reg_Login q) (reg_EncryptionKey q) (reg_SignatureKey
        q) x (reg_PeerFlag q) (reg_Fake q)) dec_int;
    typed_field "peer_flag" reg_PeerFlag
      (λ q x, mkRegisterRequest (reg_ID q) (reg_Login q) (reg_EncryptionKey q) (reg_SignatureKey
        q) (reg_TTLSeconds q) x (reg_Fake q)) dec_string;
    typed_field "fake" reg_Fake
      (λ q x, mkRegisterRequest (reg_ID q) (reg_Login q) (reg_EncryptionKey q) (reg_SignatureKey
        q) (reg_TTLSeconds q) (reg_PeerFlag q) x) dec_boolptr ].
Definition RegisterRequest_zero : RegisterRequest := mkRegisterRequest "" "" "" "" 0 "" None.

Definition RefreshRequest_fields : list (field RefreshRequest) :=
  [ typed_field "id" refr_ID
      (λ q x, mkRefreshRequest x (refr_Login q) (refr_SignatureKey q)) dec_string;
    typed_field "login" refr_Login
      (λ q x, mkRefreshRequest (refr_ID q) x (refr_SignatureKey q)) dec_string;
    typed_field "signature_key" refr_SignatureKey
      (λ q x, mkRefreshRequest (refr_ID q) (refr_Login q) x) dec_string ].
Definition RefreshRequest_zero : RefreshRequest := mkRefreshRequest "" "" "".

Definition RegisterChunkRequest_fields : list (field RegisterChunkRequest) :=
  [ typed_field "sender_id" rc_SenderID
      (λ q x, mkRegisterChunkRequest x (rc_RecipientID q) (rc_Hash q) (rc_Signature q) (rc_PeerID
        q) (rc_Persist q) (rc_TTL q)) dec_string;
    typed_field "recipient_id" rc_RecipientID
      (λ q x, mkRegisterChunkRequest (rc_SenderID q) x (rc_Hash q) (rc_Signature q) (rc_PeerID q)
        (rc_Persist q) (rc_TTL q)) dec_string;
    typed_field "hash" rc_Hash
      (λ q x, mkRegisterChunkRequest (rc_SenderID q) (rc_RecipientID q) x (rc_Signature q)
        (rc_PeerID q) (rc_Persist q) (rc_TTL q)) dec_string;
    typed_field "signature" rc_Signature
      (λ q x, mkRegisterChunkRequest (rc_SenderID q) (rc_RecipientID q) (rc_Hash q) x (rc_PeerID
        q) (rc_Persist q) (rc_TTL q)) dec_string;
    typed_field "peer_id" rc_PeerID
      (λ q x, mkRegisterChunkRequest (rc_SenderID q) (rc_RecipientID q) (rc_Hash q) (rc_Signature
        q) x (rc_Persist q) (rc_TTL q)) dec_string;
    typed_field "persist" rc_Persist
      (λ q x, mkRegisterChunkRequest (rc_SenderID q) (rc_RecipientID q) (rc_Hash q) (rc_Signature
        q) (rc_PeerID q) x (rc_TTL q)) dec_bool;
    typed_field "ttl" rc_TTL
      (λ q x, mkRegisterChunkRequest (rc_SenderID q) (rc_RecipientID q) (rc_Hash q) (rc_Signature
        q) (rc_PeerID q) (rc_Persist q) x) dec_int ].
Definition RegisterChunkRequest_zero : RegisterChunkRequest := mkRegisterChunkRequest "" "" "" ""
        "" false 0.

Definition RegisterChunkBatchEntry_fields : list (field RegisterChunkBatchEntry) :=
  [ typed_field "chunk_index" rb_ChunkIndex
      (λ q x, mkRegisterChunkBatchEntry x (rb_SenderID q) (rb_RecipientID q) (rb_Hash q)
        (rb_Signature q) (rb_PeerID q) (rb_Persist q) (rb_TTL q)) dec_int;
    typed_field "sender_id" rb_SenderID
      (λ q x, mkRegisterChunkBatchEntry (rb_ChunkIndex q) x (rb_RecipientID q) (rb_Hash q)
        (rb_Signature q) (rb_PeerID q) (rb_Persist q) (rb_TTL q)) dec_string;
    typed_field "recipient_id" rb_RecipientID
      (λ q x, mkRegisterChunkBatchEntry (rb_ChunkIndex q) (rb_SenderID q) x (rb_Hash q)
        (rb_Signature q) (rb_PeerID q) (rb_Persist q) (rb_TTL q)) dec_string;
    typed_field "hash" rb_Hash
      (λ q x, mkRegisterChunkBatchEntry (rb_ChunkIndex q) (rb_SenderID q) (rb_RecipientID q) x
        (rb_Signature q) (rb_PeerID q) (rb_Persist q) (rb_TTL q)) dec_string;
    typed_field "signature" rb_Signature
      (λ q x, mkRegisterChunkBatchEntry (rb_ChunkIndex q) (rb_SenderID q) (rb_RecipientID q)
        (rb_Hash q) x (rb_PeerID q) (rb_Persist q) (rb_TTL q)) dec_string;
    typed_field "peer_id" rb_PeerID
      (λ q x, mkRegisterChunkBatchEntry (rb_ChunkIndex q) (rb_SenderID q) (rb_RecipientID q)
        (rb_Hash q) (rb_Signature q) x (rb_Persist q) (rb_TTL q)) dec_string;
    typed_field "persist" rb_Persist
      (λ q x, mkRegisterChunkBatchEntry (rb_ChunkIndex q) (rb_SenderID q) (rb_RecipientID q)
        (rb_Hash q) (rb_Signature q) (rb_PeerID q) x (rb_TTL q)) dec_bool;
    typed_field "ttl" rb_TTL
      (λ q x, mkRegisterChunkBatchEntry (rb_ChunkIndex q) (rb_SenderID q) (rb_RecipientID q)
        (rb_Hash q) (rb_Signature q) (rb_PeerID q) (rb_Persist q) x) dec_int ].
Definition RegisterChunkBatchEntry_zero : RegisterChunkBatchEntry := mkRegisterChunkBatchEntry 0
        "" "" "" "" "" false 0.

Definition ChunkReportRequest_fields : list (field ChunkReportRequest) :=
  [ typed_field "reporter_id" rep_ReporterID
      (λ q x, mkChunkReportRequest x (rep_FileID q) (rep_ChunkIndex q) (rep_Hash q)
        (rep_Signature q)) dec_string;
    typed_field "file_id" rep_FileID
      (λ q x, mkChunkReportRequest (rep_ReporterID q) x (rep_ChunkIndex q) (rep_Hash q)
        (rep_Signature q)) dec_string;
    typed_field "chunk_index" rep_ChunkIndex
      (λ q x, mkChunkReportRequest (rep_ReporterID q) (rep_FileID q) x (rep_Hash q)
        (rep_Signature q)) dec_int;
    typed_field "hash" rep_Hash
      (λ q x, mkChunkReportRequest (rep_ReporterID q) (rep_FileID q) (rep_ChunkIndex q) x
        (rep_Signature q)) dec_string;
    typed_field "signature" rep_Signature
      (λ q x, mkChunkReportRequest (rep_ReporterID q) (rep_FileID q) (rep_ChunkIndex q) (rep_Hash
        q) x) dec_string ].
Definition ChunkReportRequest_zero : ChunkReportRequest := mkChunkReportRequest "" "" 0 "" "".

Definition ConfirmChunkRequest_fields : list (field ConfirmChunkRequest) :=
  [ typed_field "recipient_id" conf_RecipientID
      (λ q x, mkConfirmChunkRequest x (conf_FileID q) (conf_ChunkIndex q) (conf_Hash q)
        (conf_Signature q)) dec_string;
    typed_field "file_id" conf_FileID
      (λ q x, mkConfirmChunkRequest (conf_RecipientID q) x (conf_ChunkIndex q) (conf_Hash q)
        (conf_Signature q)) dec_string;
    typed_field "chunk_index" conf_ChunkIndex
      (λ q x, mkConfirmChunkRequest (conf_RecipientID q) (conf_FileID q) x (conf_Hash q)
        (conf_Signature q)) dec_int;
    typed_field "hash" conf_Hash
      (λ q x, mkConfirmChunkRequest (conf_RecipientID q) (conf_FileID q) (conf_ChunkIndex q) x
        (conf_Signature q)) dec_string;
    typed_field "signature" conf_Signature
      (λ q x, mkConfirmChunkRequest (conf_RecipientID q) (conf_FileID q) (conf_ChunkIndex q)
        (conf_Hash q) x) dec_string ].
Definition ConfirmChunkRequest_zero : ConfirmChunkRequest := mkConfirmChunkRequest "" "" 0 "" "".

Definition ReadChunkRequest_fields : list (field ReadChunkRequest) :=
  [ typed_field "recipient_id" read_RecipientID
      (λ q x, mkReadChunkRequest x (read_FileID q) (read_Signature q)) dec_string;
    typed_field "file_id" read_FileID
      (λ q x, mkReadChunkRequest (read_RecipientID q) x (read_Signature q)) dec_string;
    typed_field "signature" read_Signature
      (λ q x, mkReadChunkRequest (read_RecipientID q) (read_FileID q) x) dec_string ].
Definition ReadChunkRequest_zero : ReadChunkRequest := mkReadChunkRequest "" "" "".

Definition ConfirmChunkBatchEntry_fields : list (field ConfirmChunkBatchEntry) :=
  [ typed_field "file_id" cb_FileID
      (λ q x, mkConfirmChunkBatchEntry x (cb_ChunkIndex q) (cb_Hash q) (cb_Signature q)) dec_string;
    typed_field "chunk_index" cb_ChunkIndex
      (λ q x, mkConfirmChunkBatchEntry (cb_FileID q) x (cb_Hash q) (cb_Signature q)) dec_int;
    typed_field "hash" cb_Hash
      (λ q x, mkConfirmChunkBatchEntry (cb_FileID q) (cb_ChunkIndex q) x (cb_Signature q))
        dec_string;
    typed_field "signature" cb_Signature
      (λ q x, mkConfirmChunkBatchEntry (cb_FileID q) (cb_ChunkIndex q) (cb_Hash q) x) dec_string ].
Definition ConfirmChunkBatchEntry_zero : ConfirmChunkBatchEntry := mkConfirmChunkBatchEntry "" 0
        "" "".

Definition Signal_fields : list (field Signal) :=
  [ typed_field "from" sig_From
      (λ q x, mkSignal x (sig_Type q) (sig_Data q)) dec_string;
    typed_field "type" sig_Type
      (λ q x, mkSignal (sig_From q) x (sig_Data q)) dec_string;
    typed_field "data" sig_Data
      (λ q x, mkSignal (sig_From q) (sig_Type q) x) dec_string ].
Definition Signal_zero : Signal := mkSignal "" "" "".

Definition rpcRequest_fields : list (field rpcRequest) :=
  [ typed_field "id" rpc_ID
      (λ q x, mkrpcRequest x (rpc_Method q) (rpc_Params q)) dec_string;
    typed_field "method" rpc_Method
      (λ q x, mkrpcRequest (rpc_ID q) x (rpc_Params q)) dec_string;
    raw_field "params" (λ q x, mkrpcRequest (rpc_ID q) (rpc_Method q) x) ].
Definition rpcRequest_zero : rpcRequest := mkrpcRequest "" "" "".

Definition SignalRelayRequest_fields : list (field SignalRelayRequest) :=
  [ typed_field "target_id" sr_TargetID
      (λ q x, mkSignalRelayRequest x (sr_From q) (sr_Type q) (sr_Data q)) dec_string;
    typed_field "from" sr_From
      (λ q x, mkSignalRelayRequest (sr_TargetID q) x (sr_Type q) (sr_Data q)) dec_string;
    typed_field "type" sr_Type
      (λ q x, mkSignalRelayRequest (sr_TargetID q) (sr_From q) x (sr_Data q)) dec_string;
    typed_field "data" sr_Data
      (λ q x, mkSignalRelayRequest (sr_TargetID q) (sr_From q) (sr_Type q) x) dec_string ].
Definition SignalRelayRequest_zero : SignalRelayRequest := mkSignalRelayRequest "" "" "" "".

Definition ConnectToPeerRequest_fields : list (field ConnectToPeerRequest) :=
  [ typed_field "target_id" cp_TargetID
      (λ q x, mkConnectToPeerRequest x (cp_Offer q)) dec_string;
    typed_field "offer" cp_Offer
      (λ q x, mkConnectToPeerRequest (cp_TargetID q) x) dec_string ].
Definition ConnectToPeerRequest_zero : ConnectToPeerRequest := mkConnectToPeerRequest "" "".

(** The batches hold a slice. *)
Definition RegisterChunkBatchRequest_fields : list (field (slice RegisterChunkBatchEntry)) :=
  [ typed_field "chunks" (λ s, s) (λ _ x, x)
      (dec_slice RegisterChunkBatchEntry_zero (dec_struct RegisterChunkBatchEntry_fields)) ].

Definition ConfirmChunkBatchRequest_fields :
    list (field (string * slice ConfirmChunkBatchEntry)) :=
  [ typed_field "recipient_id" fst (λ q x, (x, q.2)) dec_string;
    typed_field "chunks" snd (λ q x, (q.1, x))
      (dec_slice ConfirmChunkBatchEntry_zero (dec_struct ConfirmChunkBatchEntry_fields)) ].

(** The struct that [Heartbeat] declares has one field. *)
Definition heartbeat_fields : list (field Z) :=
  [ typed_field "ttl_seconds" (λ n, n) (λ _ x, x) dec_int ].

#[export] Instance go_json : JSONDecoder := {|
  json_RegisterRequest body :=
    checked (Decode (dec_struct RegisterRequest_fields) RegisterRequest_zero body);
  json_RefreshRequest body :=
    checked (Decode (dec_struct RefreshRequest_fields) RefreshRequest_zero body);
  json_RegisterChunkRequest body :=
    checked (Decode (dec_struct RegisterChunkRequest_fields) RegisterChunkRequest_zero body);
  json_RegisterChunkBatchRequest body :=
    s ← checked (Decode (dec_struct RegisterChunkBatchRequest_fields) nil_slice body);
    Some (mkRegisterChunkBatchRequest (visible s));
  json_ChunkReportRequest body :=
    checked (Decode (dec_struct ChunkReportRequest_fields) ChunkReportRequest_zero body);
  json_ConfirmChunkRequest body :=
    checked (Decode (dec_struct ConfirmChunkRequest_fields) ConfirmChunkRequest_zero body);
  json_ConfirmChunkBatchRequest body :=
    '(recipient, s) ← checked (Decode (dec_struct ConfirmChunkBatchRequest_fields) (""%string, nil_slice) body);
    Some (mkConfirmChunkBatchRequest recipient (visible s));
  json_ReadChunkRequest body :=
    checked (Decode (dec_struct ReadChunkRequest_fields) ReadChunkRequest_zero body);
  json_Signal body := checked (Decode (dec_struct Signal_fields) Signal_zero body);
  json_ttl body := (Decode (dec_struct heartbeat_fields) 0 body).1;
|}.

#[export] Instance go_rpc : RPCDecoder := {|
  json_rpcRequest data := checked (Unmarshal (dec_struct rpcRequest_fields) rpcRequest_zero data);
  json_SignalRelayRequest data :=
    checked (Unmarshal (dec_struct SignalRelayRequest_fields) SignalRelayRequest_zero data);
  json_ConnectToPeerRequest data :=
    checked (Unmarshal (dec_struct ConnectToPeerRequest_fields) ConnectToPeerRequest_zero data);
|}.

(** ** Responses *)

(** A field with [omitempty]. *)
Definition omit_string (name s : string) : list (string * Out) :=
  if String.eqb s "" then [] else [(name, OString s)].
Definition omit_bool (name : string) (b : bool) : list (string * Out) :=
  if b then [(name, OBool b)] else [].

(** The tag [json:ignore] has no quotes, so it is no tag: the two fields keep
    their Go names. *)
Definition out_Quality (q : QualityStats) : Out :=
  OObject [("valid_reports", OInt (ValidReports q)); ("invalid_reports", OInt (InvalidReports q))].

Definition out_Peer (p : Peer) : option Out :=
  t ← MarshalTime (peer_LastSeen p);
  Some (OObject
    ([("id", OString (peer_ID p)); ("login", OString (peer_Login p))] ++
     omit_string "encryption_key" (peer_EncryptionKey p) ++
     omit_string "signature_key" (peer_SignatureKey p) ++
     [("last_seen", OString t); ("ttl_seconds", OInt (peer_TTLSeconds p));
      ("QualityScore", OInt (peer_QualityScore p)); ("Quality", out_Quality (peer_Quality p))] ++
     omit_string "peer_flag" (peer_PeerFlag p) ++ omit_bool "is_fake" (peer_Fake p))).

Definition out_ChunkRecord (c : ChunkRecord) : Out :=
  OObject
    ([("file_id", OString (rec_FileID c)); ("chunk_index", OInt (rec_ChunkIndex c));
      ("sender_id", OString (rec_SenderID c)); ("recipient_id", OString (rec_RecipientID c));
      ("hash", OString (rec_Hash c)); ("peer_id", OString (rec_PeerID c));
      ("persist", OBool (rec_Persist c)); ("confirmed", OBool (rec_Confirmed c))] ++
     omit_bool "readed" (rec_Readed c) ++
     [("created_at", OInt (rec_CreatedAt c)); ("updated_at", OInt (rec_UpdatedAt c));
      ("ttl", OInt (rec_TTL c))]).

Definition out_ReportResult (r : ChunkReportResult) : option Out :=
  p ← out_Peer (rr_Peer r);
  Some (OObject [("valid", OBool (rr_Valid r)); ("expected_hash", OString (rr_ExpectedHash r));
    ("reported_hash", OString (rr_ReportedHash r)); ("delta", OInt (rr_Delta r)); ("peer", p)]).

Definition out_ConfirmResult (r : ConfirmChunkResult) : option Out :=
  p ← out_Peer (cr_Peer r);
  Some (OObject [("valid", OBool (cr_Valid r)); ("expected_hash", OString (cr_ExpectedHash r));
    ("confirmed_hash", OString (cr_ConfirmedHash r)); ("delta", OInt (cr_Delta r)); ("peer", p)]).

Definition out_ReadResult (r : ReadChunkResult) : Out := OObject [("valid", OBool (rd_Valid r))].

Definition out_Signal (sig : Signal) : Out :=
  OObject [("from", OString (sig_From sig)); ("type", OString (sig_Type sig));
    ("data", OString (sig_Data sig))].

(** What [writeJSON] is given; [None] when the encoder fails, or when the answer
    is not JSON. *)
Definition out_Payload (p : Payload) : option Out :=
  match p with
  | NoContent | Text _ => None
  | JEmpty => Some (OString "")
  | JStatusOk => Some (OObject [("status", OString "ok")])
  | JError msg => Some (OObject [("error", OString msg)])
  | JPeer peer => out_Peer peer
  | JPeers peers => OArray <$> mapM out_Peer peers
  | JReport r => out_ReportResult r
  | JConfirm r => out_ConfirmResult r
  | JRead r => Some (out_ReadResult r)
  | JChunks l => Some (OArray (out_ChunkRecord <$> l))
  | JSignals l => Some (OArray (out_Signal <$> l))
  end.

(** The body of a response that [writeJSON] wrote; an encoder that fails leaves
    it empty, and its error is ignored. *)
Definition writeJSON_body (p : Payload) : string := default "" (Encode <$> out_Payload p).

(** ** Frames *)

(** [sendNotification] encodes the struct [IncomingSignal] in the struct
    [rpcNotification], in the order of their fields; [HandleWebSocket] encodes
    maps, whose keys are sorted. *)
Definition out_relayed (sig : Signal) : Out :=
  OObject [("method", OString "incoming_signal"); ("params", out_Signal sig)].

Definition out_drained (sig : Signal) : Out :=
  OObject [("method", OString "incoming_signal");
    ("params", OObject [("data", OString (sig_Data sig)); ("from", OString (sig_From sig));
      ("type", OString (sig_Type sig))])].

(** [rpcResponse], whose result and error are omitted when they are empty. *)
Definition out_result (id : string) : Out := OObject [("id", OString id); ("result", OObject [])].
Definition out_error (id msg : string) : Out :=
  OObject ([("id", OString id)] ++ omit_string "error" msg).

(** ** What a client written in Go reads *)

Definition client_signals (body : string) : option (list Signal) :=
  visible <$> checked (Decode (dec_slice Signal_zero (dec_struct Signal_fields)) nil_slice body).

Record notification := mkNotification { note_Method : string; note_Params : string }.

Definition notification_fields : list (field notification) :=
  [ typed_field "method" note_Method (λ n x, mkNotification x (note_Params n)) dec_string;
    raw_field "params" (λ n x, mkNotification (note_Method n) x) ].

(** The signal of a frame. *)
Definition client_incoming (frame : string) : option Signal :=
  n ← checked (Unmarshal (dec_struct notification_fields) (mkNotification "" "") frame);
  if String.eqb (note_Method n) "incoming_signal"
  then checked (Unmarshal (dec_struct Signal_fields) Signal_zero (note_Params n)) else None.

(** A client that asks for the score under the Go name of the field. *)
Definition score_fields : list (field Z) :=
  [ typed_field "QualityScore" (λ n, n) (λ _ x, x) dec_int ].
Definition client_score (body : string) : option Z :=
  checked (Decode (dec_struct score_fields) 0 body).
Definition client_scores (body : string) : option (list Z) :=
  visible <$> checked (Decode (dec_slice 0 (dec_struct score_fields)) nil_slice body).
(** ... and in the member "peer" of a result. *)
Definition peer_score_fields : list (field Z) :=
  [ typed_field "peer" (λ n, n) (λ _ x, x) (dec_struct score_fields) ].
Definition client_peer_score (body : string) : option Z :=
  checked (Decode (dec_struct peer_score_fields) 0 body).
