(* ===== verification/WireProps.v ===== *)
(** What the texts on the wire guarantee: decoded requests are typed, signals come
    out as they went in, and the score that the model means to hide is public.
    WireRoundtrip.v has the requests and the other answers. *)
From S2P Require Import Prelude GoNum GoStrings GoSort Json JsonGrammar JsonString JsonEncode JsonDecode.
From S2P Require Import Model Sign Hash StoreTypes MemoryStore Samples MemoryIndex MemorySignals Store.
From S2P Require Import Handler WebRTC Wire.

Local Open Scope Z_scope.

(** ** Types *)

Definition str_ok (s : string) : Prop := utf8 (bytes s).

Lemma str_ok_ascii s : is_ascii (bytes s) = true → str_ok s.
Proof.
  unfold is_ascii, str_ok. induction (bytes s) as [|c l IH]; cbn; intros H; [apply utf8_nil|].
  apply andb_true_iff in H as [Hc Hl]. apply (utf8_app [c] l); [|by apply IH].
  apply utf8_ascii. unfold RuneSelf in Hc. lia.
Qed.

(** Strings are UTF-8 and integers are int64. *)
Definition typed_RegisterRequest (q : RegisterRequest) : Prop :=
  str_ok (reg_ID q) ∧ str_ok (reg_Login q) ∧ str_ok (reg_EncryptionKey q) ∧
  str_ok (reg_SignatureKey q) ∧ int64 (reg_TTLSeconds q) ∧ str_ok (reg_PeerFlag q).
Definition typed_RefreshRequest (q : RefreshRequest) : Prop :=
  str_ok (refr_ID q) ∧ str_ok (refr_Login q) ∧ str_ok (refr_SignatureKey q).
Definition typed_RegisterChunkRequest (q : RegisterChunkRequest) : Prop :=
  str_ok (rc_SenderID q) ∧ str_ok (rc_RecipientID q) ∧ str_ok (rc_Hash q) ∧
  str_ok (rc_Signature q) ∧ str_ok (rc_PeerID q) ∧ int64 (rc_TTL q).
Definition typed_RegisterChunkBatchEntry (q : RegisterChunkBatchEntry) : Prop :=
  int64 (rb_ChunkIndex q) ∧ str_ok (rb_SenderID q) ∧ str_ok (rb_RecipientID q) ∧
  str_ok (rb_Hash q) ∧ str_ok (rb_Signature q) ∧ str_ok (rb_PeerID q) ∧ int64 (rb_TTL q).
Definition typed_ChunkReportRequest (q : ChunkReportRequest) : Prop :=
  str_ok (rep_ReporterID q) ∧ str_ok (rep_FileID q) ∧ int64 (rep_ChunkIndex q) ∧
  str_ok (rep_Hash q) ∧ str_ok (rep_Signature q).
Definition typed_ConfirmChunkRequest (q : ConfirmChunkRequest) : Prop :=
  str_ok (conf_RecipientID q) ∧ str_ok (conf_FileID q) ∧ int64 (conf_ChunkIndex q) ∧
  str_ok (conf_Hash q) ∧ str_ok (conf_Signature q).
Definition typed_ReadChunkRequest (q : ReadChunkRequest) : Prop :=
  str_ok (read_RecipientID q) ∧ str_ok (read_FileID q) ∧ str_ok (read_Signature q).
Definition typed_ConfirmChunkBatchEntry (q : ConfirmChunkBatchEntry) : Prop :=
  str_ok (cb_FileID q) ∧ int64 (cb_ChunkIndex q) ∧ str_ok (cb_Hash q) ∧
  str_ok (cb_Signature q).
Definition typed_Signal (q : Signal) : Prop :=
  str_ok (sig_From q) ∧ str_ok (sig_Type q) ∧ str_ok (sig_Data q).
Definition typed_rpcRequest (q : rpcRequest) : Prop :=
  str_ok (rpc_ID q) ∧ str_ok (rpc_Method q).
Definition typed_SignalRelayRequest (q : SignalRelayRequest) : Prop :=
  str_ok (sr_TargetID q) ∧ str_ok (sr_From q) ∧ str_ok (sr_Type q) ∧ str_ok (sr_Data q).
Definition typed_ConnectToPeerRequest (q : ConnectToPeerRequest) : Prop :=
  str_ok (cp_TargetID q) ∧ str_ok (cp_Offer q).
Definition typed_RegisterChunkBatchRequest (q : RegisterChunkBatchRequest) : Prop :=
  Forall typed_RegisterChunkBatchEntry (rb_Chunks q).
Definition typed_ConfirmChunkBatchRequest (q : ConfirmChunkBatchRequest) : Prop :=
  str_ok (cb_RecipientID q) ∧ Forall typed_ConfirmChunkBatchEntry (cb_Chunks q).

Lemma str_ok_empty : str_ok "".
Proof. apply utf8_nil. Qed.
Lemma int64_0 : int64 0.
Proof. unfold int64, min_int64, max_int64. lia. Qed.
#[local] Hint Resolve str_ok_empty int64_0 keeps_string keeps_int keeps_bool keeps_boolptr : core.

Lemma typed_field_keeps {A B} (P : A → Prop) (Q : B → Prop) name get set dec :
  (∀ a, P a → Q (get a)) → (∀ a b, P a → Q b → P (set a b)) → keeps Q dec →
  field_keeps P (typed_field name get set dec).
Proof.
  intros Hg Hs Hd a raw v Ha Hv. cbn. pose proof (Hd (get a) v (Hg a Ha) Hv) as H.
  destruct (dec (get a) v) as [b ok]. by apply Hs.
Qed.

Lemma raw_field_keeps {A} (P : A → Prop) name set :
  (∀ a s, P a → P (set a s)) → field_keeps P (raw_field name set).
Proof. intros Hs a raw v Ha _. by apply Hs. Qed.

(** The zero value of a struct. *)
Ltac typed_zero typed := unfold typed; cbn; repeat match goal with |- _ ∧ _ => split end; auto.

(** Each field of a struct in turn. *)
Ltac typed_fields typed :=
  apply keeps_struct;
  repeat first
    [ apply Forall_cons_2 | apply Forall_nil_2
    | eapply (typed_field_keeps _ str_ok); [| |exact keeps_string]
    | eapply (typed_field_keeps _ int64); [| |exact keeps_int]
    | eapply (typed_field_keeps _ (λ _, True)); [| |first [exact keeps_bool|exact keeps_boolptr]]
    | apply raw_field_keeps ];
  unfold typed; cbn; intuition.

Lemma keeps_RegisterRequest :
  keeps typed_RegisterRequest (dec_struct RegisterRequest_fields).
Proof. typed_fields typed_RegisterRequest. Qed.

Lemma keeps_RefreshRequest :
  keeps typed_RefreshRequest (dec_struct RefreshRequest_fields).
Proof. typed_fields typed_RefreshRequest. Qed.

Lemma keeps_RegisterChunkRequest :
  keeps typed_RegisterChunkRequest (dec_struct RegisterChunkRequest_fields).
Proof. typed_fields typed_RegisterChunkRequest. Qed.

Lemma keeps_RegisterChunkBatchEntry :
  keeps typed_RegisterChunkBatchEntry (dec_struct RegisterChunkBatchEntry_fields).
Proof. typed_fields typed_RegisterChunkBatchEntry. Qed.

Lemma keeps_ChunkReportRequest :
  keeps typed_ChunkReportRequest (dec_struct ChunkReportRequest_fields).
Proof. typed_fields typed_ChunkReportRequest. Qed.

Lemma keeps_ConfirmChunkRequest :
  keeps typed_ConfirmChunkRequest (dec_struct ConfirmChunkRequest_fields).
Proof. typed_fields typed_ConfirmChunkRequest. Qed.

Lemma keeps_ReadChunkRequest :
  keeps typed_ReadChunkRequest (dec_struct ReadChunkRequest_fields).
Proof. typed_fields typed_ReadChunkRequest. Qed.

Lemma keeps_ConfirmChunkBatchEntry :
  keeps typed_ConfirmChunkBatchEntry (dec_struct ConfirmChunkBatchEntry_fields).
Proof. typed_fields typed_ConfirmChunkBatchEntry. Qed.

Lemma keeps_Signal :
  keeps typed_Signal (dec_struct Signal_fields).
Proof. typed_fields typed_Signal. Qed.

Lemma keeps_rpcRequest :
  keeps typed_rpcRequest (dec_struct rpcRequest_fields).
Proof. typed_fields typed_rpcRequest. Qed.

Lemma keeps_SignalRelayRequest :
  keeps typed_SignalRelayRequest (dec_struct SignalRelayRequest_fields).
Proof. typed_fields typed_SignalRelayRequest. Qed.

Lemma keeps_ConnectToPeerRequest :
  keeps typed_ConnectToPeerRequest (dec_struct ConnectToPeerRequest_fields).
Proof. typed_fields typed_ConnectToPeerRequest. Qed.

Lemma keeps_RegisterChunkBatchRequest :
  keeps (slice_ok typed_RegisterChunkBatchEntry) (dec_struct RegisterChunkBatchRequest_fields).
Proof.
  apply keeps_struct. apply Forall_cons_2; [|constructor].
  apply (typed_field_keeps _ (slice_ok typed_RegisterChunkBatchEntry)); [done|done|].
  apply keeps_slice; [typed_zero typed_RegisterChunkBatchEntry|apply keeps_RegisterChunkBatchEntry].
Qed.

Definition typed_recipient (q : string * slice ConfirmChunkBatchEntry) : Prop :=
  str_ok q.1 ∧ slice_ok typed_ConfirmChunkBatchEntry q.2.

Lemma keeps_ConfirmChunkBatchRequest :
  keeps typed_recipient (dec_struct ConfirmChunkBatchRequest_fields).
Proof.
  apply keeps_struct. apply Forall_cons_2; [|apply Forall_cons_2; [|constructor]].
  - apply (typed_field_keeps _ str_ok); [| |exact keeps_string]; unfold typed_recipient; cbn; intuition.
  - apply (typed_field_keeps _ (slice_ok typed_ConfirmChunkBatchEntry));
      [unfold typed_recipient; cbn; intuition..|].
    apply keeps_slice; [typed_zero typed_ConfirmChunkBatchEntry|apply keeps_ConfirmChunkBatchEntry].
Qed.

Lemma Decode_typed {A} (P : A → Prop) dec zero body q :
  P zero → keeps P dec → checked (Decode dec zero body) = Some q → P q.
Proof. intros Hz Hd <-%checked_Some. by apply Decode_keeps. Qed.

Lemma Unmarshal_typed {A} (P : A → Prop) dec zero data q :
  P zero → keeps P dec → checked (Unmarshal dec zero data) = Some q → P q.
Proof. intros Hz Hd <-%checked_Some. by apply Unmarshal_keeps. Qed.

Lemma json_Signal_typed body sig : json_Signal body = Some sig → typed_Signal sig.
Proof. apply Decode_typed; [typed_zero typed_Signal|apply keeps_Signal]. Qed.

(** What the handlers decode is typed: every string is UTF-8, every integer
    an int64, whatever bytes the body of the request or the frame holds. *)
Lemma requests_typed text :
  (∀ q, json_RegisterRequest text = Some q → typed_RegisterRequest q) ∧
  (∀ q, json_RefreshRequest text = Some q → typed_RefreshRequest q) ∧
  (∀ q, json_RegisterChunkRequest text = Some q → typed_RegisterChunkRequest q) ∧
  (∀ q, json_RegisterChunkBatchRequest text = Some q → typed_RegisterChunkBatchRequest q) ∧
  (∀ q, json_ChunkReportRequest text = Some q → typed_ChunkReportRequest q) ∧
  (∀ q, json_ConfirmChunkRequest text = Some q → typed_ConfirmChunkRequest q) ∧
  (∀ q, json_ConfirmChunkBatchRequest text = Some q → typed_ConfirmChunkBatchRequest q) ∧
  (∀ q, json_ReadChunkRequest text = Some q → typed_ReadChunkRequest q) ∧
  (∀ q, json_Signal text = Some q → typed_Signal q) ∧
  int64 (json_ttl text) ∧
  (∀ q, json_rpcRequest text = Some q → typed_rpcRequest q) ∧
  (∀ q, json_SignalRelayRequest text = Some q → typed_SignalRelayRequest q) ∧
  (∀ q, json_ConnectToPeerRequest text = Some q → typed_ConnectToPeerRequest q).
Proof.
  split_and!.
  - intros q. apply Decode_typed; [typed_zero typed_RegisterRequest|apply keeps_RegisterRequest].
  - intros q. apply Decode_typed; [typed_zero typed_RefreshRequest|apply keeps_RefreshRequest].
  - intros q. apply Decode_typed; [typed_zero typed_RegisterChunkRequest|apply keeps_RegisterChunkRequest].
  - intros q. cbn. destruct (checked _) as [s|] eqn:E; intros [= <-].
    apply (Decode_typed (slice_ok typed_RegisterChunkBatchEntry)) in E as [Hv _]; [done|by split|].
    apply keeps_RegisterChunkBatchRequest.
  - intros q. apply Decode_typed; [typed_zero typed_ChunkReportRequest|apply keeps_ChunkReportRequest].
  - intros q. apply Decode_typed; [typed_zero typed_ConfirmChunkRequest|apply keeps_ConfirmChunkRequest].
  - intros q. cbn. destruct (checked _) as [[r s]|] eqn:E; intros [= <-].
    apply (Decode_typed typed_recipient) in E as [Hr [Hv _]]; [by split|by repeat split|].
    apply keeps_ConfirmChunkBatchRequest.
  - intros q. apply Decode_typed; [typed_zero typed_ReadChunkRequest|apply keeps_ReadChunkRequest].
  - apply json_Signal_typed.
  - apply (Decode_keeps int64 (dec_struct heartbeat_fields) 0 text); [auto|]. apply keeps_struct. apply Forall_cons_2; [|constructor].
    by apply (typed_field_keeps _ int64).
  - intros q. apply Unmarshal_typed; [typed_zero typed_rpcRequest|apply keeps_rpcRequest].
  - intros q. apply Unmarshal_typed; [typed_zero typed_SignalRelayRequest|apply keeps_SignalRelayRequest].
  - intros q. apply Unmarshal_typed; [typed_zero typed_ConnectToPeerRequest|apply keeps_ConnectToPeerRequest].
Qed.

(** ** Signals *)

Lemma typed_Signal_value sig :
  typed_Signal sig → dec_struct Signal_fields Signal_zero (value (out_Signal sig)) = (sig, true).
Proof.
  intros (Hf & Ht & Hd). cbn [out_Signal value map fst snd].
  rewrite (unquote_appendString (sig_From sig)), (unquote_appendString (sig_Type sig)),
    (unquote_appendString (sig_Data sig)) by done.
  by destruct sig.
Qed.

(** The keys of the map that [HandleWebSocket] writes come in another order. *)
Lemma drained_value sig :
  typed_Signal sig →
  dec_struct Signal_fields Signal_zero (value (OObject [("data", OString (sig_Data sig));
    ("from", OString (sig_From sig)); ("type", OString (sig_Type sig))])) = (sig, true).
Proof.
  intros (Hf & Ht & Hd). cbn [value map fst snd].
  rewrite (unquote_appendString (sig_From sig)), (unquote_appendString (sig_Type sig)),
    (unquote_appendString (sig_Data sig)) by done.
  by destruct sig.
Qed.

Lemma signals_items old l :
  Forall typed_Signal l → Forall (λ sig, sig = Signal_zero) old →
  dec_items Signal_zero (dec_struct Signal_fields) old (map value (out_Signal <$> l)) = (l, true).
Proof.
  intros Hl. revert old. induction Hl as [|sig l Hs _ IH]; intros old Ho; [done|].
  cbn [fmap list_fmap map dec_items].
  assert (default Signal_zero (head old) = Signal_zero) as -> by (by destruct Ho).
  rewrite typed_Signal_value by done. rewrite IH; [done|]. by destruct Ho.
Qed.

Lemma height_array n l : Forall (λ o, (height o ≤ n)%nat) l → (height (OArray l) ≤ S n)%nat.
Proof. cbn [height]. induction 1; cbn in *; lia. Qed.

Lemma height_signals l : (height (OArray (out_Signal <$> l)) ≤ 2)%nat.
Proof. apply height_array. induction l; cbn; constructor; [cbn; lia|done]. Qed.

Lemma ints_signals l : ints_ok (OArray (out_Signal <$> l)).
Proof. by induction l; cbn. Qed.

(** A client reads the list of signals the server wrote. *)
Lemma client_signals_read l :
  Forall typed_Signal l → client_signals (writeJSON_body (JSignals l)) = Some l.
Proof.
  intros Hl. unfold client_signals, Decode. pose proof (height_signals l) as Hh.
  assert (json_first (writeJSON_body (JSignals l)) = Some (value (OArray (out_Signal <$> l)))) as ->.
  { apply (Encode_read _ (ints_signals l)). unfold maxNestingDepth. lia. }
  cbn [decode_into value]. destruct l as [|sig l]; [done|].
  pose proof (signals_items [] (sig :: l) Hl (Forall_nil_2 _)) as Hi.
  unfold dec_slice. cbn [fmap list_fmap map] in *. cbn [visible hidden nil_slice app].
  by rewrite Hi.
Qed.

Section Delivery.
Context {U : UnicodeTables} {E : Ed25519} {S : SliceSort}.

(** C16: a signal posted over HTTP is read by the next poll exactly as the sender's
    text gave it, after the signals that were waiting: encoding and decoding
    neither change nor reorder anything, escapes and non-ASCII text included. *)
Theorem posted_signal_is_read es es' s r r' sig :
  let id := TrimSpace (PathValue r "id") in
  json_Signal (body r) = Some sig → status (Phonebook.SetSignal es s r).2 = StatusNoContent →
  PathValue r' "id" = PathValue r "id" → Forall typed_Signal (slice_at (signals s) id) →
  let s' := (Phonebook.SetSignal es s r).1 in
  client_signals (writeJSON_body (payload (Phonebook.PollSignals es' s' r').2)) =
    Some (slice_at (signals s) id ++ [sig]).
Proof.
  cbn zeta. intros Hsig Hst Hid Hold. apply json_Signal_typed in Hsig as Ht.
  unfold Phonebook.SetSignal in *. unfold required, decoded in *. rewrite Hsig in *.
  destruct (PathValue r "id" == "")%go eqn:E0; [done|].
  change (store_SetSignal (es 0%nat) s) with (SetSignal s) in *.
  pose proof (SetSignal_spec s (PathValue r "id") sig) as Hs. cbn zeta in Hs.
  destruct (SetSignal s (PathValue r "id") sig) as [s1 [u|err]]; cbn [answer fst snd] in *.
  - destruct Hs as (Hne & _ & _ & Hbox & _). unfold Phonebook.PollSignals, required. rewrite Hid, E0.
    change (store_PollSignals (es' 0%nat) s1) with (PollSignals s1).
    rewrite PollSignals_eq by done. cbn [answer snd payload ok_json]. rewrite Hbox.
    apply client_signals_read. apply Forall_app. split; [done|by constructor].
  - exfalso. revert Hst. unfold writeStoreError. by repeat case_match.
Qed.
End Delivery.

(** A notification carries the text of its parameters. *)
Lemma client_incoming_read o sig :
  ints_ok o → (height o ≤ 1)%nat → dec_struct Signal_fields Signal_zero (value o) = (sig, true) →
  client_incoming (Marshal (OObject [("method", OString "incoming_signal"); ("params", o)])) =
    Some sig.
Proof.
  intros Hi Hh Hd. unfold client_incoming, Unmarshal.
  rewrite Marshal_read by (cbn; unfold maxNestingDepth; first [by split|lia]).
  change (decode_into (dec_struct notification_fields) (mkNotification "" "")
    (Some (value (OObject [("method", OString "incoming_signal"); ("params", o)]))))
    with (mkNotification "incoming_signal" (Marshal o), true).
  cbn [checked fst snd mbind option_bind note_Method note_Params]. rewrite String.eqb_refl.
  rewrite Marshal_read by (done || unfold maxNestingDepth; lia).
  cbn [decode_into]. by rewrite Hd.
Qed.

(** C21: the two texts in which the server announces a signal, the struct of a relay
    and the sorted map of the mailbox of a new connection, are read as the same
    signal. *)
Theorem frames_read_alike sig :
  typed_Signal sig →
  client_incoming (Marshal (out_relayed sig)) = Some sig ∧
  client_incoming (Marshal (out_drained sig)) = Some sig ∧
  Marshal (out_relayed sig) ≠ Marshal (out_drained sig).
Proof.
  intros Hs. split_and!.
  - by apply client_incoming_read, typed_Signal_value; cbn; auto.
  - by apply client_incoming_read, drained_value; cbn; auto.
  - intros H%of_bytes_inj. apply (f_equal (λ l, nth_error l 39)) in H. lazy in H. done.
Qed.

Lemma frames_read_alike_witness :
  let sig := mkSignal "alice" "offer" "v=0 <sdp> &" in
  client_incoming (Marshal (out_relayed sig)) = client_incoming (Marshal (out_drained sig)).
Proof.
  intros sig. destruct (frames_read_alike sig) as (-> & -> & _); [|done].
  split_and!; by apply str_ok_ascii.
Defined.

(** ** The score *)

Lemma dec_members_app {A} (fs : list (field A)) a l k :
  dec_members fs a (l ++ k) =
    let '(b, ok) := dec_members fs a l in
    let '(c, oks) := dec_members fs b k in (c, ok && oks).
Proof.
  revert a. induction l as [|[key [raw v]] l IH]; intros a; cbn [app dec_members].
  - by destruct (dec_members fs a k).
  - destruct (match find_field fs key with Some f => _ | None => _ end) as [a' ok]. rewrite IH.
    destruct (dec_members fs a' l) as [b okl]. destruct (dec_members fs b k). by rewrite andb_assoc.
Qed.

(** Members of other fields leave the target alone. *)
Lemma dec_members_skip {A} (fs : list (field A)) a ms :
  Forall (λ m, find_field fs m.1 = None) ms → dec_members fs a ms = (a, true).
Proof.
  intros Hm. induction Hm as [|[key [raw v]] ms Hk _ IH]; [done|].
  cbn [dec_members] in *. cbn in Hk. by rewrite Hk, IH.
Qed.

Definition peer_ints (p : Peer) : Prop :=
  int64 (peer_TTLSeconds p) ∧ int64 (peer_QualityScore p) ∧
  int64 (ValidReports (peer_Quality p)) ∧ int64 (InvalidReports (peer_Quality p)).

Lemma out_Peer_ok p o : out_Peer p = Some o → peer_ints p → ints_ok o ∧ (height o ≤ 2)%nat.
Proof.
  unfold out_Peer, omit_string, omit_bool. destruct (MarshalTime _) as [t|]; cbn; [|done].
  intros [= <-] (H1 & H2 & H3 & H4). repeat case_match; cbn; (split; [tauto|lia]).
Qed.

(** Members whose names are not among the fields. *)
Definition other {A} (fs : list (field A)) (m : string * Out) : Prop :=
  find_field fs (unquote (appendString m.1)) = None.

Lemma skip_members {A} (fs : list (field A)) a l :
  Forall (other fs) l → dec_members fs a (map member l) = (a, true).
Proof. intros Hl. apply dec_members_skip. induction Hl; constructor; auto. Qed.

Lemma score_read p o :
  out_Peer p = Some o → peer_ints p →
  dec_struct score_fields 0 (value o) = (peer_QualityScore p, true).
Proof.
  unfold out_Peer. destruct (MarshalTime _) as [t|]; cbn [mbind option_bind]; [|done].
  intros [= <-] (_ & Hq & _). cbn [value dec_struct]. fold member.
  match goal with |- dec_members _ _ (map _ ?l) = _ =>
    pose (pre := [("id", OString (peer_ID p)); ("login", OString (peer_Login p))] ++
      omit_string "encryption_key" (peer_EncryptionKey p) ++
      omit_string "signature_key" (peer_SignatureKey p) ++
      [("last_seen", OString t); ("ttl_seconds", OInt (peer_TTLSeconds p))]);
    pose (post := ("Quality", out_Quality (peer_Quality p)) ::
      omit_string "peer_flag" (peer_PeerFlag p) ++ omit_bool "is_fake" (peer_Fake p));
    replace l with (pre ++ ("QualityScore", OInt (peer_QualityScore p)) :: post)
      by (unfold pre, post; cbn [app]; by rewrite <- !app_assoc)
  end.
  assert (Forall (other score_fields) pre ∧ Forall (other score_fields) post) as [Hpre Hpost].
  { unfold pre, post, omit_string, omit_bool.
    repeat case_match; split; repeat constructor; by vm_compute. }
  rewrite map_app, dec_members_app.
  rewrite (skip_members score_fields 0 pre Hpre : dec_members _ _ (map _ pre) = _).
  cbn [map dec_members]. unfold member at 1. cbn [fst snd].
  change (find_field score_fields (unquote (appendString "QualityScore"))) with (head score_fields).
  cbn [head score_fields field_set typed_field value dec_int snd fst].
  pose proof (Atoi_Itoa (peer_QualityScore p) Hq) as Hr. unfold Atoi, Itoa in Hr. rewrite Hr.
  by rewrite (skip_members score_fields _ post Hpost : dec_members _ _ (map _ post) = _).
Qed.

(** The peers of a list, each read as its score. *)
Lemma scores_read ps os :
  mapM out_Peer ps = Some os → Forall peer_ints ps →
  dec_items 0 (dec_struct score_fields) [] (map value os) = (peer_QualityScore <$> ps, true).
Proof.
  intros Hm Hp. apply mapM_Some_1 in Hm.
  induction Hm as [|p o ps os Ho _ IH]; [done|]. apply Forall_cons in Hp as [Hp Hps].
  cbn [map dec_items head tail default]. rewrite (score_read p o Ho Hp). by rewrite (IH Hps).
Qed.

Lemma peers_ok_out ps os :
  mapM out_Peer ps = Some os → Forall peer_ints ps →
  ints_ok (OArray os) ∧ (height (OArray os) ≤ 3)%nat.
Proof.
  intros Hm Hp. apply mapM_Some_1 in Hm.
  assert (Forall (λ o, ints_ok o ∧ (height o ≤ 2)%nat) os) as Hos.
  { induction Hm as [|p o ps os Ho _ IH]; constructor; apply Forall_cons in Hp as [Hp Hps]; [|auto].
    by apply (out_Peer_ok p). }
  split.
  - clear Hm. by induction Hos as [|o os [Ho _] _ IH].
  - apply height_array. by eapply Forall_impl; [exact Hos|intros o []].
Qed.

(** The member "peer" of a result, whose other members a client may not know. *)
Lemma peer_member_read pre p o :
  Forall (other peer_score_fields) pre → out_Peer p = Some o → peer_ints p →
  dec_struct peer_score_fields 0 (value (OObject (pre ++ [("peer", o)]))) =
    (peer_QualityScore p, true).
Proof.
  intros Hpre Ho Hp. cbn [value dec_struct]. fold member.
  rewrite map_app, dec_members_app.
  rewrite (skip_members peer_score_fields 0 pre Hpre : dec_members _ _ (map _ pre) = _).
  cbn [map dec_members]. unfold member. cbn [fst snd].
  change (find_field peer_score_fields (unquote (appendString "peer")))
    with (head peer_score_fields).
  cbn [head peer_score_fields field_set typed_field]. by rewrite (score_read p o Ho Hp).
Qed.

(** C17: every answer with peers carries their scores in the clear: a single peer,
    the lists of peers, and the results of reports and confirmations.  The tag
    that should leave the field out is malformed, so the encoder writes it under
    its Go name, QualityScore, where any client reads it. *)
Theorem score_is_public :
  (∀ p, is_Some (MarshalTime (peer_LastSeen p)) → peer_ints p →
     client_score (writeJSON_body (JPeer p)) = Some (peer_QualityScore p)) ∧
  (∀ ps, Forall (λ p, is_Some (MarshalTime (peer_LastSeen p)) ∧ peer_ints p) ps →
     client_scores (writeJSON_body (JPeers ps)) = Some (peer_QualityScore <$> ps)) ∧
  (∀ r, is_Some (MarshalTime (peer_LastSeen (rr_Peer r))) → peer_ints (rr_Peer r) →
     int64 (rr_Delta r) →
     client_peer_score (writeJSON_body (JReport r)) = Some (peer_QualityScore (rr_Peer r))) ∧
  (∀ r, is_Some (MarshalTime (peer_LastSeen (cr_Peer r))) → peer_ints (cr_Peer r) →
     int64 (cr_Delta r) →
     client_peer_score (writeJSON_body (JConfirm r)) = Some (peer_QualityScore (cr_Peer r))).
Proof.
  assert (∀ p, is_Some (MarshalTime (peer_LastSeen p)) → ∃ o, out_Peer p = Some o) as Hout.
  { intros p [t Ht]. unfold out_Peer. rewrite Ht. cbn. eauto. }
  split_and!.
  - intros p Ht Hp. destruct (Hout p Ht) as [o Ho]. destruct (out_Peer_ok p o Ho Hp) as [Hi Hh].
    assert (writeJSON_body (JPeer p) = Encode o) as ->
      by (unfold writeJSON_body; cbn [out_Payload]; by rewrite Ho).
    unfold client_score, Decode. rewrite (proj1 (Encode_read o Hi ltac:(unfold maxNestingDepth; lia))). cbn [decode_into].
    by rewrite (score_read p o).
  - intros ps Hps. assert (∃ os, mapM out_Peer ps = Some os) as [os Hos].
    { apply mapM_is_Some. eapply Forall_impl; [exact Hps|]. intros p [Ht _]. by apply Hout. }
    assert (Forall peer_ints ps) as Hp by (eapply Forall_impl; [exact Hps|by intros p []]).
    destruct (peers_ok_out ps os Hos Hp) as [Hi Hh].
    assert (writeJSON_body (JPeers ps) = Encode (OArray os)) as ->
      by (unfold writeJSON_body; cbn [out_Payload]; by rewrite Hos).
    unfold client_scores, Decode. rewrite (proj1 (Encode_read _ Hi ltac:(unfold maxNestingDepth; lia))). cbn [decode_into].
    pose proof (scores_read ps os Hos Hp) as Hr. cbn [value]. unfold dec_slice.
    destruct (map value os) as [|v vs]; [|cbn [visible hidden nil_slice app]; by rewrite Hr].
    cbn in Hr. by destruct ps.
  - intros r Ht Hp Hd. destruct (Hout _ Ht) as [o Ho]. destruct (out_Peer_ok _ o Ho Hp) as [Hi Hh].
    set (pre := [("valid", OBool (rr_Valid r)); ("expected_hash", OString (rr_ExpectedHash r));
      ("reported_hash", OString (rr_ReportedHash r)); ("delta", OInt (rr_Delta r))]).
    assert (writeJSON_body (JReport r) = Encode (OObject (pre ++ [("peer", o)]))) as ->
      by (unfold writeJSON_body; cbn [out_Payload]; unfold out_ReportResult; by rewrite Ho).
    unfold client_peer_score, Decode.
    rewrite (proj1 (Encode_read (OObject (pre ++ [("peer", o)])) ltac:(cbn; tauto)
      ltac:(unfold maxNestingDepth; cbn; lia))). cbn [decode_into].
    rewrite (peer_member_read pre (rr_Peer r) o); [done| |done..].
    repeat constructor; by vm_compute.
  - intros r Ht Hp Hd. destruct (Hout _ Ht) as [o Ho]. destruct (out_Peer_ok _ o Ho Hp) as [Hi Hh].
    set (pre := [("valid", OBool (cr_Valid r)); ("expected_hash", OString (cr_ExpectedHash r));
      ("confirmed_hash", OString (cr_ConfirmedHash r)); ("delta", OInt (cr_Delta r))]).
    assert (writeJSON_body (JConfirm r) = Encode (OObject (pre ++ [("peer", o)]))) as ->
      by (unfold writeJSON_body; cbn [out_Payload]; unfold out_ConfirmResult; by rewrite Ho).
    unfold client_peer_score, Decode.
    rewrite (proj1 (Encode_read (OObject (pre ++ [("peer", o)])) ltac:(cbn; tauto)
      ltac:(unfold maxNestingDepth; cbn; lia))). cbn [decode_into].
    rewrite (peer_member_read pre (cr_Peer r) o); [done| |done..].
    repeat constructor; by vm_compute.
Qed.

Lemma score_is_public_witness :
  let p := mkPeer "alice" "alice" "" "key" (Unix_time 1700000000) 30 1006 (mkQualityStats 6 0) "" false in
  client_scores (writeJSON_body (JPeers [p; p])) = Some [1006; 1006].
Proof.
  intros p. destruct score_is_public as (_ & H & _). apply (H [p; p]).
  assert (is_Some (MarshalTime (peer_LastSeen p)) ∧ peer_ints p); [|by repeat constructor].
  split; [exists "2023-11-14T22:13:20Z"; by vm_compute|by vm_compute].
Defined.

(** ** Bodies that are not JSON *)

Section Malformed.
Context {St : Type} {S : Store St}.

(** a body that does not begin with a JSON value is answered 400 by every
    handler whose request is its body, and changes nothing; a heartbeat takes
    it for the TTL 0. *)
Theorem malformed_body es s r :
  json_first (body r) = None →
  (∀ f, f ∈ [Phonebook.Register; Phonebook.Refresh; Phonebook.RegisterChunkBatch;
     Phonebook.ConfirmChunk; Phonebook.ConfirmChunkBatch; Phonebook.ReadChunk] →
   f es s r = (s, writeError StatusBadRequest "invalid json body")) ∧
  json_ttl (body r) = 0.
Proof.
  intros H. split.
  - intros f Hf. assert (∀ A (dec : decoder A) zero, checked (Decode dec zero (body r)) = None) as Hn.
    { intros A dec zero. unfold Decode. by rewrite H. }
    repeat (apply elem_of_cons in Hf as [->|Hf]); [..|by apply elem_of_nil in Hf];
      unfold Phonebook.Register, Phonebook.Refresh, Phonebook.RegisterChunkBatch,
        Phonebook.ConfirmChunk, Phonebook.ConfirmChunkBatch, Phonebook.ReadChunk, decoded;
      cbn [go_json json_RegisterRequest json_RefreshRequest json_RegisterChunkBatchRequest
        json_ConfirmChunkRequest json_ConfirmChunkBatchRequest json_ReadChunkRequest];
      by rewrite Hn.
  - cbn [go_json json_ttl]. unfold Decode. by rewrite H.
Qed.
End Malformed.

(** ** Witnesses on concrete texts *)

Local Existing Instances sample_tables toy_ed25519 insertion_slice_sort.

(** A text with its quotes written as apostrophes. *)
Definition text (s : string) : string :=
  of_bytes ((λ c, if Ascii.eqb c "'" then quote else c) <$> bytes s).

Definition offer_text : string := text "{'from': 'alice', 'TYPE': 'offer', 'data': 'a\u00e9\ud83d\ude00\n'}".
Definition bob_request (body : string) : Request := mkRequest [("id", "bob")] [] body.

Example rpcRequest_examples :
  json_rpcRequest (text " {'id': '1', 'method': 'm', 'params': [1, 2]} ") =
    Some (mkrpcRequest "1" "m" "[1, 2]") ∧
  json_rpcRequest (text "{'id': '1'} x") = None ∧ json_rpcRequest (text "{'id': 1}") = None.
Proof. by vm_compute. Qed.

Lemma malformed_body_witness :
  Phonebook.Register (λ _, env_second 120) two_peers (bob_request "{") =
    (two_peers, writeError StatusBadRequest "invalid json body").
Proof. by apply (malformed_body (λ _, env_second 120) two_peers (bob_request "{")); [|left]. Defined.

Lemma posted_signal_is_read_witness :
  let s' := (Phonebook.SetSignal (λ _, env_second 120) two_peers (bob_request offer_text)).1 in
  client_signals (writeJSON_body
    (payload (Phonebook.PollSignals (λ _, env_second 121) s' (bob_request "")).2)) =
    Some [mkSignal "alice" "offer" (of_bytes (bytes "a" ++ encode_rune 233 ++ encode_rune 128512 ++ [Z_byte 10]))].
Proof.
  apply (posted_signal_is_read (λ _, env_second 120) (λ _, env_second 121) two_peers
    (bob_request offer_text) (bob_request "")); [by vm_compute|by vm_compute|done|constructor].
Defined.
