(* ===== verification/WebRTCProps.v ===== *)
(** What signalling promises over the in-memory store: a signal is delivered or
    stored, once; connecting empties the mailbox; and the two orders of events
    in which a peer stays connected without being served. *)
From S2P Require Import Prelude GoNum GoStrings GoSort Model Sign Hash StoreTypes MemoryStore.
From S2P Require Import Samples MemoryIndex MemoryChunks MemorySignals MemorySystem Store WebRTC.
From S2P Require Import Handler Server ServerProps.

Local Open Scope Z_scope.

Section Signalling.
Context {D : RPCDecoder} {U : UnicodeTables} {E : Ed25519} {S : SliceSort}.
Context (net : Conn → bool).
Implicit Types h : Hub MemoryStore.

(** ** Relaying *)

(** The frame [f] on the connection of a peer, when it has one that works. *)
Definition frame_to (h : Hub MemoryStore) (peerID : string) (f : Frame) : list (Conn * Frame) :=
  match wsConns h !! peerID with
  | Some c => if net c then [(c, f)] else []
  | None => []
  end.

Lemma sendResult_written h peerID id :
  sendResult net h peerID id =
    mkHub (hub_store h) (wsConns h) (written h ++ frame_to h peerID (Result id)).
Proof.
  unfold sendResult, frame_to, WriteMessage. destruct h as [s m w]; cbn.
  repeat case_match; by rewrite ?app_nil_r.
Qed.

Lemma sendError_written h peerID id msg :
  sendError net h peerID id msg =
    mkHub (hub_store h) (wsConns h) (written h ++ frame_to h peerID (RPCError id msg)).
Proof.
  unfold sendError, frame_to, WriteMessage. destruct h as [s m w]; cbn.
  repeat case_match; by rewrite ?app_nil_r.
Qed.

Lemma sendNotification_written h peerID sig :
  sendNotification net h peerID sig =
    (mkHub (hub_store h) (wsConns h) (written h ++ frame_to h peerID (Incoming sig)),
     negb (bool_decide (frame_to h peerID (Incoming sig) = []))).
Proof.
  unfold sendNotification, frame_to, WriteMessage. destruct h as [s m w]; cbn.
  repeat case_match; simplify_eq/=; by rewrite ?app_nil_r.
Qed.

(** C34: a relayed signal goes to exactly one place: to the target's connection
    when a write to it succeeds, else to the end of the target's mailbox, else
    nowhere and the sender is told why. *)
Theorem relay_once e h from reqID target sig :
  let live := frame_to h target (Incoming sig) in
  let h' := relay net e h from reqID target sig in
  wsConns h' = wsConns h ∧
  (live ≠ [] ∧ hub_store h' = hub_store h ∧
     written h' = written h ++ live ++ frame_to h from (Result reqID) ∨
   live = [] ∧ hub_store h' = (SetSignal (hub_store h) target sig).1 ∧
     slice_at (signals (hub_store h')) (TrimSpace target) =
       slice_at (signals (hub_store h)) (TrimSpace target) ++ [sig] ∧
     written h' = written h ++ frame_to h from (Result reqID) ∨
   live = [] ∧ hub_store h' = hub_store h ∧
     ∃ err, (SetSignal (hub_store h) target sig).2 = Err err ∧
       written h' = written h ++
         frame_to h from (RPCError reqID ("store signal: " +:+ Error err))).
Proof.
  cbn zeta. unfold relay. rewrite sendNotification_written.
  destruct (decide (frame_to h target (Incoming sig) = [])) as [Hl|Hl].
  - rewrite Hl, app_nil_r, bool_decide_true by done. cbn [negb]. unfold store_signal.
    destruct h as [s m w]. cbn [hub_store wsConns written store_SetSignal memory_store].
    destruct (SetSignal s target sig) as [s' [[]|err]] eqn:Es.
    + rewrite sendResult_written. cbn. split; [done|]. right. left. split_and!; try done.
      apply SetSignal_Ok in Es as ->. cbn. by rewrite slice_at_insert, decide_True.
    + rewrite sendError_written. cbn. split; [done|]. right. right.
      apply SetSignal_Err in Es as ->. eauto.
  - rewrite bool_decide_false by done. cbn [negb]. rewrite sendResult_written. cbn.
    split; [done|]. left. by rewrite <- app_assoc.
Qed.

(** ** Connecting *)

(** a connecting peer is entered in the map, its mailbox is emptied and
    its signals are written in order; when the writes fail they are lost. *)
Theorem connect_drains e h peerID c :
  TrimSpace peerID ≠ EmptyString →
  let box := slice_at (signals (hub_store h)) (TrimSpace peerID) in
  let h' := ws_drain net e (ws_register h peerID c) peerID c in
  wsConns h' !! peerID = Some c ∧
  slice_at (signals (hub_store h')) (TrimSpace peerID) = [] ∧
  written h' = written h ++ (if net c then (λ sig, (c, Incoming sig)) <$> box else []).
Proof.
  intros Hid. cbn zeta. unfold ws_drain, ws_register.
  cbn [hub_store wsConns written store_PollSignals memory_store].
  rewrite PollSignals_eq by done. rewrite write_all. cbn. split_and!; [|  |done].
  - by rewrite lookup_insert_eq.
  - unfold slice_at. by rewrite lookup_delete_eq.
Qed.

(** ** Orders of events *)

(** What [store_signal] writes is an answer to the sender. *)
Lemma store_signal_written e h from reqID target sig c sig' :
  (c, Incoming sig') ∉
    drop (length (written h)) (written (store_signal net e h from reqID target sig)).
Proof.
  unfold store_signal. destruct (store_SetSignal e (hub_store h) target sig) as [s [u|err]];
    rewrite ?sendResult_written, ?sendError_written; cbn [written hub_store wsConns];
    rewrite drop_app_length; unfold frame_to; cbn; repeat case_match; set_solver.
Qed.

(** C35: when a peer connects again before its first connection is noticed to be
    gone, the end of the first removes the second from the map: a relay to the
    peer then writes the signal to no connection, though the second is open. *)
Theorem reconnect_unreachable e e1 e2 h peerID c1 c2 from reqID sig :
  let h1 := ws_drain net e1 (ws_register h peerID c1) peerID c1 in
  let h2 := ws_drain net e2 (ws_register h1 peerID c2) peerID c2 in
  let h3 := ws_close h2 peerID in
  let h4 := relay net e h3 from reqID peerID sig in
  wsConns h2 !! peerID = Some c2 ∧
  ∀ c sig', (c, Incoming sig') ∉ drop (length (written h3)) (written h4).
Proof.
  cbn zeta. split.
  - unfold ws_drain at 1. destruct (store_PollSignals _ _ _) as [s [sigs|err]];
      [rewrite write_all|]; cbn; by rewrite lookup_insert_eq.
  - intros c sig'. unfold relay, sendNotification.
    unfold ws_close at 2. cbn [wsConns]. rewrite lookup_delete_eq. apply store_signal_written.
Qed.

(** C26: a relay that finds its target not connected and stores the signal only
    after the target has connected and read its mailbox leaves the signal in
    the mailbox of a connected peer, to whom nothing is written. *)
Theorem relay_connect_race e e' h target c from reqID sig p :
  TrimSpace target ≠ EmptyString → signal_ok sig →
  peers (hub_store h) !! TrimSpace target = Some p →
  wsConns h !! target = None → slice_at (signals (hub_store h)) (TrimSpace target) = [] →
  let found := sendNotification net h target sig in
  let h1 := ws_drain net e (ws_register found.1 target c) target c in
  let h2 := store_signal net e' h1 from reqID target sig in
  found.2 = false ∧ wsConns h2 !! target = Some c ∧
  slice_at (signals (hub_store h2)) (TrimSpace target) = [sig] ∧
  (c, Incoming sig) ∉ drop (length (written h)) (written h2).
Proof.
  intros Hid Hsig Hp Hc Hbox. cbn zeta.
  unfold sendNotification. rewrite Hc. cbn [fst snd]. split; [done|].
  unfold ws_drain, ws_register. cbn [hub_store wsConns written store_PollSignals memory_store].
  rewrite PollSignals_eq by done. rewrite write_all. cbn [hub_store wsConns written].
  rewrite Hbox. unfold store_signal. cbn [hub_store wsConns written store_SetSignal memory_store].
  rewrite (SetSignal_eq _ _ _ p) by done. rewrite sendResult_written.
  cbn [hub_store wsConns written]. split_and!.
  - by rewrite lookup_insert_eq.
  - cbn. rewrite slice_at_insert, decide_True by done. unfold slice_at. by rewrite lookup_delete_eq.
  - cbn [fmap list_fmap]. replace (if net c then [] else []) with (@nil (Conn * Frame))
      by (by destruct (net c)).
    rewrite app_nil_r, drop_app_length. unfold frame_to. cbn.
    repeat case_match; set_solver.
Qed.

End Signalling.

(** ** The theorems on concrete runs *)

Local Existing Instance sample_tables.
Local Existing Instance toy_ed25519.
Local Existing Instance insertion_slice_sort.

Definition offer : Signal := mkSignal "alice" "offer" "sdp".

(** Bob's mailbox holds an offer of Alice. *)
Definition mail_for_bob : MemoryStore := (SetSignal two_peers "bob" offer).1.

Lemma connect_drains_witness :
  let h := NewHandler mail_for_bob in
  written (ws_drain (λ _, true) (env_second 120) (ws_register h "bob" 7%nat) "bob" 7%nat) =
    [(7%nat, Incoming offer)].
Proof.
  cbn zeta.
  destruct (connect_drains (λ _, true) (env_second 120) (NewHandler mail_for_bob) "bob" 7%nat)
    as (_ & _ & H); [by vm_compute|].
  rewrite H. by vm_compute.
Defined.

Lemma relay_connect_race_witness :
  let h := NewHandler two_peers in
  let h1 := ws_drain (λ _, true) (env_second 120) (ws_register h "bob" 7%nat) "bob" 7%nat in
  let h2 := store_signal (λ _, true) (env_second 120) h1 "alice" "1" "bob" offer in
  wsConns h2 !! "bob" = Some 7%nat ∧ slice_at (signals (hub_store h2)) "bob" = [offer].
Proof.
  cbn zeta. destruct (peers two_peers !! "bob") as [p|] eqn:Hp; [|by vm_compute in Hp].
  destruct (relay_connect_race (λ _, true) (env_second 120) (env_second 120)
    (NewHandler two_peers) "bob" 7%nat "alice" "1" offer p) as (_ & H1 & H2 & _);
    [by vm_compute|by split|exact Hp|by vm_compute|by vm_compute|].
  exact (conj H1 H2).
Defined.

(** A decoder that knows one frame. *)
Definition sample_rpc : RPCDecoder := {|
  json_rpcRequest data :=
    if String.eqb data "relay" then Some (mkrpcRequest "1" "signal_relay" "offer for bob") else None;
  json_SignalRelayRequest data :=
    if String.eqb data "offer for bob" then Some (mkSignalRelayRequest "bob" "alice" "offer" "sdp")
    else None;
  json_ConnectToPeerRequest _ := None;
|}.
Local Existing Instances sample_rpc sample_json.
