(* ===== verification/WireRoundtrip.v ===== *)
(** The names on the wire.  A client that writes a request with the documented
    member names is understood, one that reads an answer by the documented names
    gets what the handler answered, and a relayed signal arrives. *)
From S2P Require Import Prelude GoNum GoStrings GoSort Json JsonGrammar JsonString JsonEncode JsonDecode.
From S2P Require Import Model Sign Hash StoreTypes MemoryStore Samples MemoryIndex MemorySignals.
From S2P Require Import MemorySystem Store Handler Server ServerProps WebRTC Wire WireProps WebRTCProps.

Local Open Scope Z_scope.

(** ** Reading the members of an object *)

Lemma read_nil {A} (fs : list (field A)) a q : a = q → dec_members fs a (map member []) = (q, true).
Proof. by intros ->. Qed.

(** One member, decoded by the field of its name. *)
Lemma read_cons {A B} (fs : list (field A)) a name o l n get set (dec : decoder B) b r :
  find_field fs (unquote (appendString name)) = Some (typed_field n get set dec) →
  dec (get a) (value o) = (b, true) → dec_members fs (set a b) (map member l) = r →
  dec_members fs a (map member ((name, o) :: l)) = r.
Proof.
  intros Hf Hd <-. cbn [map dec_members]. unfold member at 1. cbn [fst snd]. rewrite Hf.
  cbn [field_set typed_field]. rewrite Hd. by destruct (dec_members fs (set a b) (map member l)).
Qed.

Lemma read_raw {A} (fs : list (field A)) a name o l n set r :
  find_field fs (unquote (appendString name)) = Some (raw_field n set) →
  dec_members fs (set a (Marshal o)) (map member l) = r →
  dec_members fs a (map member ((name, o) :: l)) = r.
Proof.
  intros Hf <-. cbn [map dec_members]. unfold member at 1. cbn [fst snd]. rewrite Hf.
  cbn [field_set raw_field]. change (of_bytes (print o)) with (Marshal o).
  by destruct (dec_members fs (set a (Marshal o)) (map member l)).
Qed.

Lemma read_string cur s : str_ok s → dec_string cur (value (OString s)) = (s, true).
Proof. intros Hs. cbn. by rewrite unquote_appendString. Qed.

Lemma read_int cur z : int64 z → dec_int cur (value (OInt z)) = (z, true).
Proof.
  intros Hz. cbn. pose proof (Atoi_Itoa z Hz) as H. unfold Atoi, Itoa in H. by rewrite H.
Qed.

Lemma read_bool cur b : dec_bool cur (value (OBool b)) = (b, true).
Proof. done. Qed.

Lemma read_boolptr b : dec_boolptr None (value (OBool b)) = (Some b, true).
Proof. done. Qed.

Lemma read_struct {A} (fs : list (field A)) a l r :
  dec_members fs a (map member l) = r → dec_struct fs a (value (OObject l)) = r.
Proof. done. Qed.

(** A list of values of one kind, decoded into a nil slice. *)
Lemma read_items {A B} (zero : A) dec (f : B → Out) (g : B → A) (P : B → Prop) l :
  (∀ b, P b → dec zero (value (f b)) = (g b, true)) → Forall P l →
  dec_slice zero dec nil_slice (value (OArray (f <$> l))) = (mkSlice (g <$> l) [], true).
Proof.
  intros Hf Hl. assert (dec_items zero dec [] (map value (f <$> l)) = (g <$> l, true)) as Hi.
  { induction Hl as [|b l Hb _ IH]; [done|]. cbn [fmap list_fmap map dec_items head tail default].
    rewrite (Hf b Hb). cbn in IH. by rewrite IH. }
  destruct l as [|b l]; [done|]. unfold dec_slice. cbn [visible hidden nil_slice app].
  cbn [value] in *. rewrite Hi. by rewrite drop_nil.
Qed.

(** Read the members one after the other. *)
Ltac read_value :=
  first [apply read_string; assumption | apply read_int; assumption | apply read_bool
        | apply read_boolptr | solve [trivial] | eassumption ].
Ltac read_target :=
  match goal with |- dec_members ?fs ?a ?ms = ?r =>
    let b := eval cbn in a in change (dec_members fs b ms = r) end.
Ltac read_members :=
  read_target; repeat (eapply read_cons; [reflexivity|read_value|]; read_target);
  try (apply read_nil).

(** The depth of the texts below is far from the limit. *)
Lemma shallow o : (height o ≤ 9)%nat → Z.of_nat (height o) ≤ maxNestingDepth.
Proof. unfold maxNestingDepth. lia. Qed.

Lemma Decode_object {A} (dec : decoder A) zero o q :
  ints_ok o → (height o ≤ 9)%nat → dec zero (value o) = (q, true) →
  checked (Decode dec zero (Encode o)) = Some q.
Proof.
  intros Hi Hh Hd. unfold Decode. rewrite (proj1 (Encode_read o Hi (shallow o Hh))).
  cbn [decode_into]. by rewrite Hd.
Qed.

Lemma Unmarshal_object {A} (dec : decoder A) zero o q :
  ints_ok o → (height o ≤ 9)%nat → dec zero (value o) = (q, true) →
  checked (Unmarshal dec zero (Marshal o)) = Some q.
Proof.
  intros Hi Hh Hd. unfold Unmarshal. rewrite (Marshal_read o Hi (shallow o Hh)).
  cbn [decode_into]. by rewrite Hd.
Qed.

Lemma ints_items {B} (f : B → Out) (P : B → Prop) l :
  (∀ b, P b → ints_ok (f b)) → Forall P l → ints_ok (OArray (f <$> l)).
Proof. intros Hf. induction 1; cbn in *; auto. Qed.

Lemma height_items {B} (f : B → Out) n l :
  (∀ b, (height (f b) ≤ n)%nat) → (height (OArray (f <$> l)) ≤ S n)%nat.
Proof. intros Hf. apply height_array. induction l; constructor; auto. Qed.

(** ** Requests, as their clients write them *)

Definition api_RegisterRequest (q : RegisterRequest) : Out :=
  OObject ([("id", OString (reg_ID q)); ("login", OString (reg_Login q));
    ("encryption_key", OString (reg_EncryptionKey q));
    ("signature_key", OString (reg_SignatureKey q)); ("ttl_seconds", OInt (reg_TTLSeconds q));
    ("peer_flag", OString (reg_PeerFlag q))] ++
    match reg_Fake q with Some b => [("fake", OBool b)] | None => [] end).

Definition api_RefreshRequest (q : RefreshRequest) : Out :=
  OObject [("id", OString (refr_ID q)); ("login", OString (refr_Login q));
    ("signature_key", OString (refr_SignatureKey q))].

Definition api_RegisterChunkRequest (q : RegisterChunkRequest) : Out :=
  OObject [("sender_id", OString (rc_SenderID q)); ("recipient_id", OString (rc_RecipientID q));
    ("hash", OString (rc_Hash q)); ("signature", OString (rc_Signature q));
    ("peer_id", OString (rc_PeerID q)); ("persist", OBool (rc_Persist q));
    ("ttl", OInt (rc_TTL q))].

Definition api_RegisterChunkBatchEntry (q : RegisterChunkBatchEntry) : Out :=
  OObject [("chunk_index", OInt (rb_ChunkIndex q)); ("sender_id", OString (rb_SenderID q));
    ("recipient_id", OString (rb_RecipientID q)); ("hash", OString (rb_Hash q));
    ("signature", OString (rb_Signature q)); ("peer_id", OString (rb_PeerID q));
    ("persist", OBool (rb_Persist q)); ("ttl", OInt (rb_TTL q))].

Definition api_RegisterChunkBatchRequest (q : RegisterChunkBatchRequest) : Out :=
  OObject [("chunks", OArray (api_RegisterChunkBatchEntry <$> rb_Chunks q))].

Definition api_ChunkReportRequest (q : ChunkReportRequest) : Out :=
  OObject [("reporter_id", OString (rep_ReporterID q)); ("file_id", OString (rep_FileID q));
    ("chunk_index", OInt (rep_ChunkIndex q)); ("hash", OString (rep_Hash q));
    ("signature", OString (rep_Signature q))].

Definition api_ConfirmChunkRequest (q : ConfirmChunkRequest) : Out :=
  OObject [("recipient_id", OString (conf_RecipientID q)); ("file_id", OString (conf_FileID q));
    ("chunk_index", OInt (conf_ChunkIndex q)); ("hash", OString (conf_Hash q));
    ("signature", OString (conf_Signature q))].

Definition api_ConfirmChunkBatchEntry (q : ConfirmChunkBatchEntry) : Out :=
  OObject [("file_id", OString (cb_FileID q)); ("chunk_index", OInt (cb_ChunkIndex q));
    ("hash", OString (cb_Hash q)); ("signature", OString (cb_Signature q))].

Definition api_ConfirmChunkBatchRequest (q : ConfirmChunkBatchRequest) : Out :=
  OObject [("recipient_id", OString (cb_RecipientID q));
    ("chunks", OArray (api_ConfirmChunkBatchEntry <$> cb_Chunks q))].

Definition api_ReadChunkRequest (q : ReadChunkRequest) : Out :=
  OObject [("recipient_id", OString (read_RecipientID q)); ("file_id", OString (read_FileID q));
    ("signature", OString (read_Signature q))].

Definition api_Signal (q : Signal) : Out :=
  OObject [("from", OString (sig_From q)); ("type", OString (sig_Type q));
    ("data", OString (sig_Data q))].

Definition api_ttl (n : Z) : Out := OObject [("ttl_seconds", OInt n)].

(** A frame, with its parameters. *)
Definition api_frame (id method : string) (params : Out) : Out :=
  OObject [("id", OString id); ("method", OString method); ("params", params)].

Definition api_SignalRelayRequest (q : SignalRelayRequest) : Out :=
  OObject [("target_id", OString (sr_TargetID q)); ("from", OString (sr_From q));
    ("type", OString (sr_Type q)); ("data", OString (sr_Data q))].

Definition api_ConnectToPeerRequest (q : ConnectToPeerRequest) : Out :=
  OObject [("target_id", OString (cp_TargetID q)); ("offer", OString (cp_Offer q))].

(** Each struct in turn. *)
Ltac read_request typed :=
  intros Hq; unfold typed in Hq; repeat match goal with H : _ ∧ _ |- _ => destruct H end;
  match goal with |- _ (_ ?o) = Some ?q =>
    first [ refine (Decode_object _ _ o q _ _ _) | refine (Unmarshal_object _ _ o q _ _ _) ];
    [cbn; tauto|cbn; lia|apply read_struct; read_members; by destruct q] end.

Lemma read_RegisterRequest q :
  typed_RegisterRequest q → json_RegisterRequest (Encode (api_RegisterRequest q)) = Some q.
Proof.
  unfold api_RegisterRequest. destruct q as [id login enc sk ttl flag [b|]];
    cbn [reg_Fake app]; read_request typed_RegisterRequest.
Qed.

Lemma read_RefreshRequest q :
  typed_RefreshRequest q → json_RefreshRequest (Encode (api_RefreshRequest q)) = Some q.
Proof. read_request typed_RefreshRequest. Qed.

Lemma read_RegisterChunkRequest q :
  typed_RegisterChunkRequest q →
  json_RegisterChunkRequest (Encode (api_RegisterChunkRequest q)) = Some q.
Proof. read_request typed_RegisterChunkRequest. Qed.

Lemma read_ChunkReportRequest q :
  typed_ChunkReportRequest q → json_ChunkReportRequest (Encode (api_ChunkReportRequest q)) = Some q.
Proof. read_request typed_ChunkReportRequest. Qed.

Lemma read_ConfirmChunkRequest q :
  typed_ConfirmChunkRequest q →
  json_ConfirmChunkRequest (Encode (api_ConfirmChunkRequest q)) = Some q.
Proof. read_request typed_ConfirmChunkRequest. Qed.

Lemma read_ReadChunkRequest q :
  typed_ReadChunkRequest q → json_ReadChunkRequest (Encode (api_ReadChunkRequest q)) = Some q.
Proof. read_request typed_ReadChunkRequest. Qed.

Lemma read_Signal q : typed_Signal q → json_Signal (Encode (api_Signal q)) = Some q.
Proof. read_request typed_Signal. Qed.

Lemma read_SignalRelayRequest q :
  typed_SignalRelayRequest q →
  json_SignalRelayRequest (Marshal (api_SignalRelayRequest q)) = Some q.
Proof. read_request typed_SignalRelayRequest. Qed.

Lemma read_ConnectToPeerRequest q :
  typed_ConnectToPeerRequest q →
  json_ConnectToPeerRequest (Marshal (api_ConnectToPeerRequest q)) = Some q.
Proof. read_request typed_ConnectToPeerRequest. Qed.

(** A frame keeps the text of its parameters for the method's own decoder. *)
Lemma read_frame id method params :
  str_ok id → str_ok method → ints_ok params → (height params ≤ 8)%nat →
  json_rpcRequest (Marshal (api_frame id method params)) =
    Some (mkrpcRequest id method (Marshal params)).
Proof.
  intros Hid Hm Hi Hh. refine (Unmarshal_object _ _ (api_frame id method params) _ _ _ _).
  - by cbn.
  - cbn. lia.
  - apply read_struct. read_members. eapply read_raw; [reflexivity|]. by apply read_nil.
Qed.

Lemma read_ttl n : int64 n → json_ttl (Encode (api_ttl n)) = n.
Proof.
  intros Hn. assert (checked (Decode (dec_struct heartbeat_fields) 0 (Encode (api_ttl n))) = Some n)
    as H%checked_Some; [|exact H].
  apply Decode_object; [by split|cbn; lia|]. apply read_struct. read_members. done.
Qed.

(** *** Batches *)

Lemma read_chunk_entry q :
  typed_RegisterChunkBatchEntry q →
  dec_struct RegisterChunkBatchEntry_fields RegisterChunkBatchEntry_zero
    (value (api_RegisterChunkBatchEntry q)) = (q, true).
Proof. intros (?&?&?&?&?&?&?). apply read_struct. read_members. by destruct q. Qed.

Lemma read_confirm_entry q :
  typed_ConfirmChunkBatchEntry q →
  dec_struct ConfirmChunkBatchEntry_fields ConfirmChunkBatchEntry_zero
    (value (api_ConfirmChunkBatchEntry q)) = (q, true).
Proof. intros (?&?&?&?). apply read_struct. read_members. by destruct q. Qed.

Lemma read_RegisterChunkBatchRequest q :
  typed_RegisterChunkBatchRequest q →
  json_RegisterChunkBatchRequest (Encode (api_RegisterChunkBatchRequest q)) = Some q.
Proof.
  intros Hq. destruct q as [l]. unfold typed_RegisterChunkBatchRequest in Hq. cbn [rb_Chunks] in Hq.
  cbn [json_RegisterChunkBatchRequest go_json].
  rewrite (Decode_object _ _ _ (mkSlice l [])); [done|split; [|done]| |].
  - apply (ints_items _ typed_RegisterChunkBatchEntry); [|done].
    intros b (?&?&?&?&?&?&?). by cbn.
  - cbn [api_RegisterChunkBatchRequest height map max_list foldr snd].
    pose proof (height_items api_RegisterChunkBatchEntry 1 l ltac:(intros b; cbn; lia)). cbn in *. lia.
  - apply read_struct. eapply read_cons; [reflexivity| |by apply read_nil].
    rewrite (read_items _ _ _ (λ b, b) typed_RegisterChunkBatchEntry);
      [by rewrite list_fmap_id|apply read_chunk_entry|done].
Qed.

Lemma read_ConfirmChunkBatchRequest q :
  typed_ConfirmChunkBatchRequest q →
  json_ConfirmChunkBatchRequest (Encode (api_ConfirmChunkBatchRequest q)) = Some q.
Proof.
  intros [Hr Hq]. destruct q as [r l]. cbn [cb_Chunks cb_RecipientID] in *.
  cbn [json_ConfirmChunkBatchRequest go_json].
  rewrite (Decode_object _ _ _ (r, mkSlice l [])); [done|split; [done|split; [|done]]| |].
  - apply (ints_items _ typed_ConfirmChunkBatchEntry); [|done]. intros b (?&?&?&?). by cbn.
  - cbn [api_ConfirmChunkBatchRequest height map max_list foldr snd].
    pose proof (height_items api_ConfirmChunkBatchEntry 1 l ltac:(intros b; cbn; lia)). cbn in *. lia.
  - apply read_struct. eapply read_cons; [reflexivity|by apply read_string|].
    eapply read_cons; [reflexivity| |by apply read_nil].
    rewrite (read_items _ _ _ (λ b, b) typed_ConfirmChunkBatchEntry);
      [by rewrite list_fmap_id|apply read_confirm_entry|done].
Qed.


(** ** Answers, as their clients read them *)

(** A peer as an answer shows it: the time is a text. *)
Record PeerView := mkPeerView {
  pv_id : string; pv_login : string; pv_encryption_key : string; pv_signature_key : string;
  pv_last_seen : string; pv_ttl_seconds : Z; pv_score : Z; pv_valid : Z; pv_invalid : Z;
  pv_peer_flag : string; pv_is_fake : bool;
}.

Definition view (p : Peer) (last_seen : string) : PeerView :=
  mkPeerView (peer_ID p) (peer_Login p) (peer_EncryptionKey p) (peer_SignatureKey p) last_seen
    (peer_TTLSeconds p) (peer_QualityScore p) (ValidReports (peer_Quality p))
    (InvalidReports (peer_Quality p)) (peer_PeerFlag p) (peer_Fake p).

Definition view_zero : PeerView := mkPeerView "" "" "" "" "" 0 0 0 0 "" false.

Definition quality_view : list (field (Z * Z)) :=
  [ typed_field "valid_reports" fst (λ q x, (x, q.2)) dec_int;
    typed_field "invalid_reports" snd (λ q x, (q.1, x)) dec_int ].

Definition peer_view : list (field PeerView) :=
  [ typed_field "id" pv_id (λ q x, mkPeerView x (pv_login q) (pv_encryption_key q)
      (pv_signature_key q) (pv_last_seen q) (pv_ttl_seconds q) (pv_score q) (pv_valid q)
      (pv_invalid q) (pv_peer_flag q) (pv_is_fake q)) dec_string;
    typed_field "login" pv_login (λ q x, mkPeerView (pv_id q) x (pv_encryption_key q)
      (pv_signature_key q) (pv_last_seen q) (pv_ttl_seconds q) (pv_score q) (pv_valid q)
      (pv_invalid q) (pv_peer_flag q) (pv_is_fake q)) dec_string;
    typed_field "encryption_key" pv_encryption_key (λ q x, mkPeerView (pv_id q) (pv_login q) x
      (pv_signature_key q) (pv_last_seen q) (pv_ttl_seconds q) (pv_score q) (pv_valid q)
      (pv_invalid q) (pv_peer_flag q) (pv_is_fake q)) dec_string;
    typed_field "signature_key" pv_signature_key (λ q x, mkPeerView (pv_id q) (pv_login q)
      (pv_encryption_key q) x (pv_last_seen q) (pv_ttl_seconds q) (pv_score q) (pv_valid q)
      (pv_invalid q) (pv_peer_flag q) (pv_is_fake q)) dec_string;
    typed_field "last_seen" pv_last_seen (λ q x, mkPeerView (pv_id q) (pv_login q)
      (pv_encryption_key q) (pv_signature_key q) x (pv_ttl_seconds q) (pv_score q) (pv_valid q)
      (pv_invalid q) (pv_peer_flag q) (pv_is_fake q)) dec_string;
    typed_field "ttl_seconds" pv_ttl_seconds (λ q x, mkPeerView (pv_id q) (pv_login q)
      (pv_encryption_key q) (pv_signature_key q) (pv_last_seen q) x (pv_score q) (pv_valid q)
      (pv_invalid q) (pv_peer_flag q) (pv_is_fake q)) dec_int;
    typed_field "QualityScore" pv_score (λ q x, mkPeerView (pv_id q) (pv_login q)
      (pv_encryption_key q) (pv_signature_key q) (pv_last_seen q) (pv_ttl_seconds q) x (pv_valid q)
      (pv_invalid q) (pv_peer_flag q) (pv_is_fake q)) dec_int;
    typed_field "Quality" (λ q, (pv_valid q, pv_invalid q)) (λ q x, mkPeerView (pv_id q) (pv_login q)
      (pv_encryption_key q) (pv_signature_key q) (pv_last_seen q) (pv_ttl_seconds q) (pv_score q)
      x.1 x.2 (pv_peer_flag q) (pv_is_fake q)) (dec_struct quality_view);
    typed_field "peer_flag" pv_peer_flag (λ q x, mkPeerView (pv_id q) (pv_login q)
      (pv_encryption_key q) (pv_signature_key q) (pv_last_seen q) (pv_ttl_seconds q) (pv_score q)
      (pv_valid q) (pv_invalid q) x (pv_is_fake q)) dec_string;
    typed_field "is_fake" pv_is_fake (λ q x, mkPeerView (pv_id q) (pv_login q)
      (pv_encryption_key q) (pv_signature_key q) (pv_last_seen q) (pv_ttl_seconds q) (pv_score q)
      (pv_valid q) (pv_invalid q) (pv_peer_flag q) x) dec_bool ].

Definition chunk_zero : ChunkRecord := mkChunkRecord "" 0 "" "" "" "" false false false 0 0 0.

Definition chunk_view : list (field ChunkRecord) :=
  [ typed_field "file_id" rec_FileID (λ c x, mkChunkRecord x (rec_ChunkIndex c) (rec_SenderID c)
      (rec_RecipientID c) (rec_Hash c) (rec_PeerID c) (rec_Persist c) (rec_Confirmed c)
      (rec_Readed c) (rec_CreatedAt c) (rec_UpdatedAt c) (rec_TTL c)) dec_string;
    typed_field "chunk_index" rec_ChunkIndex (λ c x, mkChunkRecord (rec_FileID c) x (rec_SenderID c)
      (rec_RecipientID c) (rec_Hash c) (rec_PeerID c) (rec_Persist c) (rec_Confirmed c)
      (rec_Readed c) (rec_CreatedAt c) (rec_UpdatedAt c) (rec_TTL c)) dec_int;
    typed_field "sender_id" rec_SenderID (λ c x, mkChunkRecord (rec_FileID c) (rec_ChunkIndex c) x
      (rec_RecipientID c) (rec_Hash c) (rec_PeerID c) (rec_Persist c) (rec_Confirmed c)
      (rec_Readed c) (rec_CreatedAt c) (rec_UpdatedAt c) (rec_TTL c)) dec_string;
    typed_field "recipient_id" rec_RecipientID (λ c x, mkChunkRecord (rec_FileID c)
      (rec_ChunkIndex c) (rec_SenderID c) x (rec_Hash c) (rec_PeerID c) (rec_Persist c)
      (rec_Confirmed c) (rec_Readed c) (rec_CreatedAt c) (rec_UpdatedAt c) (rec_TTL c)) dec_string;
    typed_field "hash" rec_Hash (λ c x, mkChunkRecord (rec_FileID c) (rec_ChunkIndex c)
      (rec_SenderID c) (rec_RecipientID c) x (rec_PeerID c) (rec_Persist c) (rec_Confirmed c)
      (rec_Readed c) (rec_CreatedAt c) (rec_UpdatedAt c) (rec_TTL c)) dec_string;
    typed_field "peer_id" rec_PeerID (λ c x, mkChunkRecord (rec_FileID c) (rec_ChunkIndex c)
      (rec_SenderID c) (rec_RecipientID c) (rec_Hash c) x (rec_Persist c) (rec_Confirmed c)
      (rec_Readed c) (rec_CreatedAt c) (rec_UpdatedAt c) (rec_TTL c)) dec_string;
    typed_field "persist" rec_Persist (λ c x, mkChunkRecord (rec_FileID c) (rec_ChunkIndex c)
      (rec_SenderID c) (rec_RecipientID c) (rec_Hash c) (rec_PeerID c) x (rec_Confirmed c)
      (rec_Readed c) (rec_CreatedAt c) (rec_UpdatedAt c) (rec_TTL c)) dec_bool;
    typed_field "confirmed" rec_Confirmed (λ c x, mkChunkRecord (rec_FileID c) (rec_ChunkIndex c)
      (rec_SenderID c) (rec_RecipientID c) (rec_Hash c) (rec_PeerID c) (rec_Persist c) x
      (rec_Readed c) (rec_CreatedAt c) (rec_UpdatedAt c) (rec_TTL c)) dec_bool;
    typed_field "readed" rec_Readed (λ c x, mkChunkRecord (rec_FileID c) (rec_ChunkIndex c)
      (rec_SenderID c) (rec_RecipientID c) (rec_Hash c) (rec_PeerID c) (rec_Persist c)
      (rec_Confirmed c) x (rec_CreatedAt c) (rec_UpdatedAt c) (rec_TTL c)) dec_bool;
    typed_field "created_at" rec_CreatedAt (λ c x, mkChunkRecord (rec_FileID c) (rec_ChunkIndex c)
      (rec_SenderID c) (rec_RecipientID c) (rec_Hash c) (rec_PeerID c) (rec_Persist c)
      (rec_Confirmed c) (rec_Readed c) x (rec_UpdatedAt c) (rec_TTL c)) dec_int;
    typed_field "updated_at" rec_UpdatedAt (λ c x, mkChunkRecord (rec_FileID c) (rec_ChunkIndex c)
      (rec_SenderID c) (rec_RecipientID c) (rec_Hash c) (rec_PeerID c) (rec_Persist c)
      (rec_Confirmed c) (rec_Readed c) (rec_CreatedAt c) x (rec_TTL c)) dec_int;
    typed_field "ttl" rec_TTL (λ c x, mkChunkRecord (rec_FileID c) (rec_ChunkIndex c)
      (rec_SenderID c) (rec_RecipientID c) (rec_Hash c) (rec_PeerID c) (rec_Persist c)
      (rec_Confirmed c) (rec_Readed c) (rec_CreatedAt c) (rec_UpdatedAt c) x) dec_int ].

(** The result of a report or a confirmation; they differ in the name of the hash
    that was sent. *)
Record ResultView := mkResultView {
  rv_valid : bool; rv_expected : string; rv_sent : string; rv_delta : Z; rv_peer : PeerView;
}.
Definition result_zero : ResultView := mkResultView false "" "" 0 view_zero.

Definition result_view (sent : string) : list (field ResultView) :=
  [ typed_field "valid" rv_valid (λ r x, mkResultView x (rv_expected r) (rv_sent r) (rv_delta r)
      (rv_peer r)) dec_bool;
    typed_field "expected_hash" rv_expected (λ r x, mkResultView (rv_valid r) x (rv_sent r)
      (rv_delta r) (rv_peer r)) dec_string;
    typed_field sent rv_sent (λ r x, mkResultView (rv_valid r) (rv_expected r) x (rv_delta r)
      (rv_peer r)) dec_string;
    typed_field "delta" rv_delta (λ r x, mkResultView (rv_valid r) (rv_expected r) (rv_sent r) x
      (rv_peer r)) dec_int;
    typed_field "peer" rv_peer (λ r x, mkResultView (rv_valid r) (rv_expected r) (rv_sent r)
      (rv_delta r) x) (dec_struct peer_view) ].

Definition text_view (name : string) : list (field string) :=
  [ typed_field name (λ s, s) (λ _ x, x) dec_string ].
Definition flag_view (name : string) : list (field bool) :=
  [ typed_field name (λ b, b) (λ _ x, x) dec_bool ].

(** What a client makes of the body of an answer. *)
Definition client {A} (fs : list (field A)) (zero : A) (body : string) : option A :=
  checked (Decode (dec_struct fs) zero body).
Definition client_list {A} (fs : list (field A)) (zero : A) (body : string) : option (list A) :=
  visible <$> checked (Decode (dec_slice zero (dec_struct fs)) nil_slice body).

(** *** Times are ASCII *)

Lemma digit_ascii n : n < 10 → byte_Z (digit n) < 128.
Proof.
  intros Hn. unfold digit, Z_byte, byte_Z.
  rewrite N_ascii_embedding by (destruct (decide (0 ≤ 48 + n)); lia). lia.
Qed.

Lemma digits_ascii fuel n : Forall (λ c, byte_Z c < 128) (digits fuel n).
Proof.
  revert n. induction fuel as [|fuel IH]; intros n; cbn [digits]; [constructor|].
  destruct (Z.ltb_spec n 10); [by repeat constructor; apply digit_ascii|].
  apply Forall_app. split; [apply IH|]. repeat constructor. apply digit_ascii.
  pose proof (Z.mod_pos_bound n 10 ltac:(done)). lia.
Qed.

Lemma padded_ascii w n : Forall (λ c, byte_Z c < 128) (padded w n).
Proof.
  unfold padded. apply Forall_app. split; [|apply digits_ascii].
  apply Forall_forall. intros c Hc%list_elem_of_In%repeat_spec. by subst.
Qed.

Lemma drop_zeros_Forall P l : Forall P l → Forall P (drop_zeros l).
Proof. induction 1 as [|c l Hc Hl IH]; cbn; [constructor|]. case_match; [done|by constructor]. Qed.

Lemma MarshalTime_ok t s : MarshalTime t = Some s → str_ok s.
Proof.
  unfold MarshalTime. destruct (civil _) as [[y m] d]. destruct (in_range 0 9999 y); [|done].
  intros [= <-]. apply str_ok_ascii. unfold is_ascii. rewrite bytes_of_bytes.
  apply forallb_Forall.
  eapply (Forall_impl (λ c, byte_Z c < 128)); [|intros c Hc; apply Z.ltb_lt; unfold RuneSelf; lia].
  assert (∀ c, c ∈ ["-"; "T"; ":"; "."; "Z"]%char → byte_Z c < 128) as Hp.
  { intros c Hc. apply list_elem_of_In in Hc. cbn in Hc. by destruct Hc as [<-|[<-|[<-|[<-|[<-|[]]]]]]. }
  repeat first [apply padded_ascii | apply Forall_app; split | apply Forall_cons_2
               | apply Forall_nil_2 | apply Hp, list_elem_of_In; cbn; tauto ].
  case_bool_decide; [constructor|]. apply Forall_cons_2; [apply Hp, list_elem_of_In; cbn; tauto|].
  apply Forall_rev, drop_zeros_Forall, Forall_rev, padded_ascii.
Qed.

(** *** Peers *)

Definition typed_Peer (p : Peer) : Prop :=
  str_ok (peer_ID p) ∧ str_ok (peer_Login p) ∧ str_ok (peer_EncryptionKey p) ∧
  str_ok (peer_SignatureKey p) ∧ str_ok (peer_PeerFlag p) ∧ peer_ints p.

(** A peer whose time the encoder can write, and the text of the time. *)
Definition shown (p : Peer) (t : string) : Prop :=
  MarshalTime (peer_LastSeen p) = Some t ∧ typed_Peer p.

Lemma omit_string_eq name s : omit_string name s = if bool_decide (s = "") then [] else [(name, OString s)].
Proof.
  unfold omit_string. by destruct (String.eqb_spec s "");
    [rewrite bool_decide_true|rewrite bool_decide_false].
Qed.

Lemma out_Peer_read p t :
  shown p t →
  ∃ o, out_Peer p = Some o ∧ ints_ok o ∧ (height o ≤ 2)%nat ∧
    dec_struct peer_view view_zero (value o) = (view p t, true).
Proof.
  intros [Ht (H1 & H2 & H3 & H4 & H5 & Hp)]. pose proof (MarshalTime_ok _ _ Ht) as Hs.
  assert (∃ o, out_Peer p = Some o) as [o Ho] by (unfold out_Peer; rewrite Ht; cbn; eauto).
  destruct (out_Peer_ok p o Ho Hp) as [Hi Hh]. exists o. split_and!; try done.
  unfold out_Peer in Ho. rewrite Ht in Ho. cbn [mbind option_bind] in Ho. injection Ho as <-.
  destruct Hp as (Hp1 & Hp2 & Hp3 & Hp4). apply read_struct.
  assert (∀ q, dec_struct quality_view q (value (out_Quality (peer_Quality p))) =
    ((ValidReports (peer_Quality p), InvalidReports (peer_Quality p)), true)) as Hq.
  { intros q. apply read_struct. read_members. done. }
  rewrite !omit_string_eq. destruct p as [id login enc sk seen ttl score q flag fake].
  cbn [peer_ID peer_Login peer_EncryptionKey peer_SignatureKey peer_LastSeen peer_TTLSeconds
    peer_QualityScore peer_Quality peer_PeerFlag peer_Fake] in *.
  unfold omit_bool. repeat case_bool_decide; destruct fake; subst; cbn [app];
    read_members; done.
Qed.

(** *** Chunks and results *)

Definition typed_ChunkRecord (c : ChunkRecord) : Prop :=
  str_ok (rec_FileID c) ∧ int64 (rec_ChunkIndex c) ∧ str_ok (rec_SenderID c) ∧
  str_ok (rec_RecipientID c) ∧ str_ok (rec_Hash c) ∧ str_ok (rec_PeerID c) ∧
  int64 (rec_CreatedAt c) ∧ int64 (rec_UpdatedAt c) ∧ int64 (rec_TTL c).

Lemma out_ChunkRecord_read c :
  typed_ChunkRecord c → dec_struct chunk_view chunk_zero (value (out_ChunkRecord c)) = (c, true).
Proof.
  intros (?&?&?&?&?&?&?&?&?). apply read_struct. unfold omit_bool.
  destruct (rec_Readed c) eqn:Hr; cbn [app]; read_members; destruct c; cbn in *; congruence.
Qed.

Lemma out_ChunkRecord_ok c :
  typed_ChunkRecord c → ints_ok (out_ChunkRecord c).
Proof.
  intros (?&?&?&?&?&?&?&?&?). unfold out_ChunkRecord, omit_bool. case_match; cbn; tauto.
Qed.

Lemma out_ChunkRecord_height c : (height (out_ChunkRecord c) ≤ 1)%nat.
Proof. unfold out_ChunkRecord, omit_bool. case_match; cbn; lia. Qed.

(** The members of a result around its peer. *)
Lemma result_read sent valid expected hash delta p t o :
  sent = "reported_hash" ∨ sent = "confirmed_hash" →
  str_ok expected → str_ok hash → int64 delta →
  dec_struct peer_view view_zero (value o) = (view p t, true) →
  dec_struct (result_view sent) result_zero
    (value (OObject [("valid", OBool valid); ("expected_hash", OString expected);
      (sent, OString hash); ("delta", OInt delta); ("peer", o)])) =
    (mkResultView valid expected hash delta (view p t), true).
Proof.
  intros [-> | ->] He Hh Hd Ho; apply read_struct; read_members; done.
Qed.

Lemma client_object {A} (fs : list (field A)) zero o a :
  ints_ok o → (height o ≤ 9)%nat → dec_struct fs zero (value o) = (a, true) →
  client fs zero (Encode o) = Some a.
Proof. apply Decode_object. Qed.

Lemma client_array {A B} (fs : list (field A)) zero (f : B → Out) (g : B → A) (P : B → Prop) l :
  (∀ b, P b → dec_struct fs zero (value (f b)) = (g b, true) ∧ ints_ok (f b) ∧ (height (f b) ≤ 2)%nat) →
  Forall P l → client_list fs zero (Encode (OArray (f <$> l))) = Some (g <$> l).
Proof.
  intros Hf Hl. unfold client_list.
  rewrite (Decode_object _ _ _ (mkSlice (g <$> l) [])); [done| | |].
  - apply (ints_items _ P); [|done]. intros b Hb. by apply Hf.
  - transitivity 3%nat; [|lia]. apply height_array. apply Forall_fmap. eapply Forall_impl; [exact Hl|].
    intros b Hb. by apply Hf.
  - apply (read_items _ _ _ g P); [|done]. intros b Hb. by apply Hf.
Qed.

(** C20: a client that reads an answer by the documented member names gets what
    the handler answered: every field of a peer, with its time as RFC 3339 text,
    of each peer of a list, of each chunk of a list, of the results of a report
    and a confirmation with the peer they judge, the verdict of a reading, the
    error message and the health status. *)
Theorem answers_read_back :
  (∀ p t, shown p t → client peer_view view_zero (writeJSON_body (JPeer p)) = Some (view p t)) ∧
  (∀ pts, Forall (λ pt, shown pt.1 pt.2) pts →
     client_list peer_view view_zero (writeJSON_body (JPeers (pts.*1))) =
       Some ((λ pt, view pt.1 pt.2) <$> pts)) ∧
  (∀ l, Forall typed_ChunkRecord l →
     client_list chunk_view chunk_zero (writeJSON_body (JChunks l)) = Some l) ∧
  (∀ r t, shown (rr_Peer r) t → str_ok (rr_ExpectedHash r) → str_ok (rr_ReportedHash r) →
     int64 (rr_Delta r) →
     client (result_view "reported_hash") result_zero (writeJSON_body (JReport r)) =
       Some (mkResultView (rr_Valid r) (rr_ExpectedHash r) (rr_ReportedHash r) (rr_Delta r)
               (view (rr_Peer r) t))) ∧
  (∀ r t, shown (cr_Peer r) t → str_ok (cr_ExpectedHash r) → str_ok (cr_ConfirmedHash r) →
     int64 (cr_Delta r) →
     client (result_view "confirmed_hash") result_zero (writeJSON_body (JConfirm r)) =
       Some (mkResultView (cr_Valid r) (cr_ExpectedHash r) (cr_ConfirmedHash r) (cr_Delta r)
               (view (cr_Peer r) t))) ∧
  (∀ r, client (flag_view "valid") false (writeJSON_body (JRead r)) = Some (rd_Valid r)) ∧
  (∀ msg, str_ok msg → client (text_view "error") "" (writeJSON_body (JError msg)) = Some msg) ∧
  client (text_view "status") "" (writeJSON_body JStatusOk) = Some "ok".
Proof.
  split_and!.
  - intros p t Hs. destruct (out_Peer_read p t Hs) as (o & Ho & Hi & Hh & Hr).
    unfold writeJSON_body. cbn [out_Payload]. rewrite Ho. apply (client_object _ _ o); [done|lia|done].
  - intros pts Hp. set (f := λ pt : Peer * string, default (OString "") (out_Peer pt.1)).
    assert (mapM out_Peer (pts.*1) = Some (f <$> pts)) as Hm.
    { apply mapM_Some_2, Forall2_fmap, Forall_Forall2_diag. eapply Forall_impl; [exact Hp|].
      intros pt Hs. unfold f. by destruct (out_Peer_read _ _ Hs) as (o & -> & _). }
    unfold writeJSON_body. cbn [out_Payload]. rewrite Hm.
    apply (client_array _ _ f _ (λ pt, shown pt.1 pt.2)); [|done].
    intros [p t] Hs. unfold f. cbn [fst snd] in *.
    destruct (out_Peer_read p t Hs) as (o & Ho & Hi & Hh & Hr). by rewrite Ho.
  - intros l Hl. transitivity (Some ((λ c : ChunkRecord, c) <$> l)); [|by rewrite list_fmap_id].
    apply (client_array _ _ out_ChunkRecord (λ c, c) typed_ChunkRecord); [|done]. intros c Hc.
    pose proof (out_ChunkRecord_height c).
    split_and!; [by apply out_ChunkRecord_read|by apply out_ChunkRecord_ok|lia].
  - intros r t Hs H1 H2 H3. destruct (out_Peer_read _ t Hs) as (o & Ho & Hi & Hh & Hr).
    unfold writeJSON_body. cbn [out_Payload]. unfold out_ReportResult. rewrite Ho.
    apply client_object; [cbn; tauto|cbn; lia|]. apply result_read; auto.
  - intros r t Hs H1 H2 H3. destruct (out_Peer_read _ t Hs) as (o & Ho & Hi & Hh & Hr).
    unfold writeJSON_body. cbn [out_Payload]. unfold out_ConfirmResult. rewrite Ho.
    apply client_object; [cbn; tauto|cbn; lia|]. apply result_read; auto.
  - intros r. apply client_object; [by cbn|cbn; lia|]. apply read_struct. read_members. done.
  - intros msg Hm. apply client_object; [by cbn|cbn; lia|]. apply read_struct. read_members. done.
  - by vm_compute.
Qed.

(** ** A relayed signal, from the sender's frame to the target *)

Section Relay.
Context {U : UnicodeTables} {E : Ed25519} {S : SliceSort}.
Context (net : Conn → bool).

(** The frames with which a connected peer asks for a relay: the text, the
    target and the signal that the target is to read. *)
Inductive Asks (from id : string) : string → string → Signal → Prop :=
| asks_relay target sender type data :
    str_ok target → str_ok sender → str_ok type → str_ok data →
    Asks from id (Marshal (api_frame id "signal_relay"
        (api_SignalRelayRequest (mkSignalRelayRequest target sender type data))))
      target (mkSignal sender type data)
| asks_connect target offer :
    str_ok from → str_ok target → str_ok offer →
    Asks from id (Marshal (api_frame id "connect_to_peer"
        (api_ConnectToPeerRequest (mkConnectToPeerRequest target offer))))
      target (mkSignal from "offer" offer).

Lemma asked_typed from id data target sig : Asks from id data target sig → typed_Signal sig.
Proof. intros []; repeat split; try done. by apply str_ok_ascii. Qed.

(** The frame reaches the relay of its method with its parameters. *)
Lemma asked_relay e h from id data target sig :
  id ≠ "" → str_ok id → Asks from id data target sig →
  handleMessage net e h from data = relay net e h from id target sig.
Proof.
  intros Hne Hid Ha. apply String.eqb_neq in Hne.
  destruct Ha as [to sender type text|to offer]; unfold handleMessage;
    (rewrite read_frame; [|done|by apply str_ok_ascii|by cbn|cbn; lia]);
    cbn [rpc_ID rpc_Method]; rewrite Hne; cbn [orb].
  - transitivity (handleSignalRelay net e h from (mkrpcRequest id "signal_relay" (Marshal
      (api_SignalRelayRequest (mkSignalRelayRequest to sender type text))))); [done|].
    unfold handleSignalRelay. cbn [rpc_Params rpc_ID]. by rewrite read_SignalRelayRequest.
  - transitivity (handleConnectToPeer net e h from (mkrpcRequest id "connect_to_peer" (Marshal
      (api_ConnectToPeerRequest (mkConnectToPeerRequest to offer))))); [done|].
    unfold handleConnectToPeer. cbn [rpc_Params rpc_ID]. by rewrite read_ConnectToPeerRequest.
Qed.

(** The next poll of a mailbox reads the texts of all its signals. *)
Lemma poll_reads es s r box :
  TrimSpace (PathValue r "id") ≠ "" → slice_at (signals s) (TrimSpace (PathValue r "id")) = box →
  Forall typed_Signal box →
  client_signals (writeJSON_body (payload (Phonebook.PollSignals es s r).2)) = Some box.
Proof.
  intros Hne Hbox Ht. unfold Phonebook.PollSignals, required.
  destruct (String.eqb_spec (PathValue r "id") "") as [E0|_]; [by rewrite E0 in Hne|].
  change (store_PollSignals (es 0%nat) s) with (PollSignals s).
  rewrite PollSignals_eq by done. cbn [answer snd payload ok_json]. rewrite Hbox.
  by apply client_signals_read.
Qed.

(** Whether a peer has a connection that works. *)
Lemma connected (h : Hub MemoryStore) target :
  (∃ c, wsConns h !! target = Some c ∧ net c = true) ∨
  (∀ c, wsConns h !! target = Some c → net c = false).
Proof.
  destruct (wsConns h !! target) as [c|]; [|by right].
  destruct (net c) eqn:Hn; [left; eauto|right; by intros ? [= <-]].
Qed.

Lemma frame_to_live h target c f :
  wsConns h !! target = Some c → net c = true → frame_to net h target f = [(c, f)].
Proof. unfold frame_to. by intros -> ->. Qed.

Lemma frame_to_dead h target f :
  (∀ c, wsConns h !! target = Some c → net c = false) → frame_to net h target f = [].
Proof. unfold frame_to. intros H. destruct (wsConns h !! target) as [c|]; [|done]. by rewrite (H c). Qed.

(** C19: when a connected peer sends the text of a relay (or of a connection
    request) for a registered peer, it is sent the empty result, and the signal it wrote
    is read by the target: from the frame that is written to the target's
    connection when that works, or else by the target's next poll, after the
    signals that were waiting, and from the frames of its next connection.  No
    other step comes in between here; [relay_connect_race] has one that does. *)
Theorem relayed_signal_is_read e h from id data target sig :
  id ≠ "" → str_ok id → Asks from id data target sig →
  TrimSpace target ≠ "" → is_Some (peers (hub_store h) !! TrimSpace target) → signal_ok sig →
  Forall typed_Signal (slice_at (signals (hub_store h)) (TrimSpace target)) →
  let h' := handleMessage net e h from data in
  let box := slice_at (signals (hub_store h)) (TrimSpace target) in
  (∃ c, wsConns h !! target = Some c ∧ net c = true ∧ hub_store h' = hub_store h ∧
     written h' = written h ++ (c, Incoming sig) :: frame_to net h from (Result id) ∧
     client_incoming (Marshal (out_relayed sig)) = Some sig) ∨
  ((∀ c, wsConns h !! target = Some c → net c = false) ∧
   written h' = written h ++ frame_to net h from (Result id) ∧
   (∀ es r, PathValue r "id" = target →
      client_signals (writeJSON_body (payload (Phonebook.PollSignals es (hub_store h') r).2)) =
        Some (box ++ [sig])) ∧
   (∀ e' c, net c = true →
      written (ws_drain net e' (ws_register h' target c) target c) =
        written h' ++ ((λ sig, (c, Incoming sig)) <$> box ++ [sig])) ∧
   client_incoming (Marshal (out_drained sig)) = Some sig).
Proof.
  intros Hne Hid Ha Ht [p Hp] Hsig Hold. cbn zeta. pose proof (asked_typed _ _ _ _ _ Ha) as Hs.
  rewrite (asked_relay _ _ _ _ _ _ _ Hne Hid Ha). unfold relay. rewrite sendNotification_written.
  destruct (connected h target) as [(c & Hc & Hn)|Hc].
  - left. exists c. rewrite (frame_to_live _ _ c) by done.
    rewrite bool_decide_false by done. cbn [negb]. rewrite sendResult_written.
    cbn [hub_store written]. unfold frame_to. cbn [wsConns]. split_and!; try done.
    + by rewrite <- app_assoc.
    + by apply client_incoming_read, typed_Signal_value; cbn; auto.
  - right. rewrite frame_to_dead by done. rewrite bool_decide_true by done. cbn [negb].
    unfold store_signal. cbn [hub_store wsConns written store_SetSignal memory_store].
    rewrite (SetSignal_eq _ _ _ p), sendResult_written by done. cbn [hub_store wsConns written].
    rewrite app_nil_r. split_and!; try done.
    + intros es r Hr. apply poll_reads; rewrite ?Hr; [done| |].
      * cbn. by rewrite slice_at_insert, decide_True.
      * apply Forall_app. split; [done|by constructor].
    + intros e' c Hn. unfold ws_drain, ws_register.
      cbn [hub_store wsConns written store_PollSignals memory_store].
      rewrite PollSignals_eq, write_all, Hn by done. cbn [hub_store wsConns written signals set_signals].
      by rewrite slice_at_insert, decide_True.
    + by apply client_incoming_read, drained_value; cbn; auto.
Qed.
End Relay.

(** ** Witnesses *)

Local Existing Instances sample_tables toy_ed25519 insertion_slice_sort.

(** Alice is connected and relays an offer to Bob, who is not. *)
Definition alice_online : Hub MemoryStore := mkHub two_peers {[ "alice" := 1%nat ]} [].
Definition relay_text : string :=
  Marshal (api_frame "7" "signal_relay"
    (api_SignalRelayRequest (mkSignalRelayRequest "bob" "alice" "offer" "v=0 <sdp> &"))).

Lemma relayed_signal_is_read_witness :
  let h' := handleMessage (λ _, true) (env_second 120) alice_online "alice" relay_text in
  written h' = [(1%nat, Result "7")] ∧
  client_signals (writeJSON_body
    (payload (Phonebook.PollSignals (λ _, env_second 121) (hub_store h') (bob_request "")).2)) =
    Some [mkSignal "alice" "offer" "v=0 <sdp> &"].
Proof.
  cbn zeta.
  destruct (relayed_signal_is_read (λ _, true) (env_second 120) alice_online "alice" "7" relay_text
    "bob" (mkSignal "alice" "offer" "v=0 <sdp> &")) as [(c & Hc & _)|(_ & -> & Hpoll & _)].
  - done.
  - by apply str_ok_ascii.
  - constructor; by apply str_ok_ascii.
  - by vm_compute.
  - vm_compute. eauto.
  - by split.
  - constructor.
  - by vm_compute in Hc.
  - split; [by vm_compute|]. by apply Hpoll.
Defined.


Lemma answers_read_back_witness :
  match peers two_peers !! "alice" with
  | Some p => client peer_view view_zero (writeJSON_body (JPeer p)) =
      Some (mkPeerView "alice" "alice" "enc" (toy_pub "alice") "1970-01-01T00:01:40Z" 300 1000 0 0 "" false)
  | None => False
  end.
Proof.
  destruct (peers two_peers !! "alice") as [p|] eqn:Hp; [|by vm_compute in Hp].
  vm_compute in Hp. injection Hp as <-.
  destruct answers_read_back as (H & _). rewrite (H _ "1970-01-01T00:01:40Z"); [by vm_compute|].
  split; [by vm_compute|]. split_and!; first [by apply str_ok_ascii|done].
Defined.
