(* ===== verification/ConcServer.v ===== *)
(** The server as [net/http] runs it: one thread per request and per WebSocket
    connection, all under way at once, over the store of [MemoryConc.v].  A
    handler is a program of store calls and uses of the connection map; between
    any two of them other threads, the chunk cleaner and [CloseAll] may run, and
    a call of [Refresh] is spread over its accesses.  A program run without
    interruption is the handler of Handler.v and WebRTC.v. *)
From S2P Require Import Prelude GoNum GoStrings GoSort Model Sign Hash StoreTypes MemoryStore.
From S2P Require Import Samples MemoryIndex MemoryChunks MemorySystem MemoryRefresh MemoryConc.
From S2P Require Import Store Handler Mux Server ServerProps WebRTC WebRTCProps.

Local Open Scope Z_scope.

(** ** Programs *)

(** What a thread has yet to do: answer, call the store, look a peer up in the
    map of connections, write a frame, or enter and remove an entry of the map. *)
Inductive Prog :=
| Ret (r : option Response)
| Call (op : Op) (k : result StoreError Payload → Prog)
| Lookup (peerID : string) (k : option Conn → Prog)
| Write (c : Conn) (f : Frame) (k : bool → Prog)
| Enter (peerID : string) (c : Conn) (k : Prog)
| Leave (peerID : string) (k : Prog).

Section Programs.
Context {U : UnicodeTables} {E : Ed25519} {S : SliceSort}.

Definition result_map {A B} (f : A → B) (r : result StoreError A) : result StoreError B :=
  match r with Ok a => Ok (f a) | Err err => Err err end.

(** A method of the store with its result as the payload of an answer. *)
Definition exec (e : Env) (s : MemoryStore) (op : Op) : MemoryStore * result StoreError Payload :=
  let at_ {A} (f : A → Payload) (out : MemoryStore * result StoreError A) :=
    (out.1, result_map f out.2) in
  match op with
  | OpUpsert req => at_ (λ _, JEmpty) (Upsert e s req)
  | OpRefresh req => at_ (λ _, JEmpty) (Refresh e s req)
  | OpGet id => at_ JPeer (s, Get e s id)
  | OpGetByKey login signature => at_ JPeers (s, GetByKey e s login signature)
  | OpDelete id => at_ (λ _, NoContent) (Delete s id)
  | OpList => at_ JPeers (s, List e s)
  | OpHeartbeat id ttl => at_ JPeer (Heartbeat e s id ttl)
  | OpSetChunkHash f i req => at_ (λ _, NoContent) (SetChunkHash e s f i req)
  | OpGetBestPeers n => at_ JPeers (s, GetBestPeers e s n)
  | OpReportChunk src req => at_ JReport (ReportChunk s src req)
  | OpConfirmChunk req => at_ JConfirm (ConfirmChunk e s req)
  | OpReadChunk req => at_ JRead (ReadChunk e s req)
  | OpGetChunksByRecipient id from => at_ JChunks (s, GetChunksByRecipient s id from)
  | OpGetChunksByFileID id => at_ JChunks (s, GetChunksByFileID s id)
  | OpGetBestThickPeers n => at_ JPeers (s, GetBestThickPeers e s n)
  | OpSetSignal id sig => at_ (λ _, NoContent) (SetSignal s id sig)
  | OpPollSignals id => at_ JSignals (PollSignals s id)
  | OpDeleteExpiredChunks => at_ (λ _, NoContent) (DeleteExpiredChunks e s)
  end.

Lemma exec_next e s op : (exec e s op).1 = next e s op.
Proof. by destruct op. Qed.

(** *** HTTP handlers *)

(** The end of a handler: the store's error, or the payload. *)
Definition respond (out : result StoreError Payload) : Response :=
  match out with
  | Ok NoContent => mkResponse StatusNoContent NoContent
  | Ok p => mkResponse StatusOK p
  | Err err => writeStoreError err
  end.
Definition finish (out : result StoreError Payload) : Prog := Ret (Some (respond out)).

Definition bad_request (msg : string) : Prog := Ret (Some (writeError StatusBadRequest msg)).

Definition with_body {A} (d : option A) (k : A → Prog) : Prog :=
  match d with None => bad_request "invalid json body" | Some req => k req end.
Definition with_value (v msg : string) (k : Prog) : Prog :=
  if (v == "")%go then bad_request msg else k.

(** The loop of a batch handler. *)
Fixpoint batch (ops : list Op) : Prog :=
  match ops with
  | [] => Ret (Some (mkResponse StatusNoContent NoContent))
  | op :: ops =>
    Call op (λ out, match out with Ok _ => batch ops | Err err => finish (Err err) end)
  end.

Context {J : JSONDecoder}.

Definition program (ep : Endpoint) (r : Request) : Prog :=
  let id := PathValue r "id" in
  let file_id := PathValue r "file_id" in
  match ep with
  | EHealth => Ret (Some (mkResponse StatusOK JStatusOk))
  | EList => Call OpList finish
  | ERegister => with_body (json_RegisterRequest (body r)) (λ req, Call (OpUpsert req) finish)
  | ERefresh => with_body (json_RefreshRequest (body r)) (λ req, Call (OpRefresh req) finish)
  | EGet => with_value id "peer id required" (Call (OpGet id) finish)
  | EGetByKey =>
    with_value (PathValue r "login") "login required"
      (with_value (QueryGet r "signature") "signature required"
        (Call (OpGetByKey (PathValue r "login") (QueryGet r "signature")) finish))
  | EGetBestThickPeers =>
    match parse_n r with
    | None => bad_request "invalid n"
    | Some n => Call (OpGetBestThickPeers n) finish
    end
  | EGetBestPeers =>
    match parse_n r with
    | None => bad_request "invalid n"
    | Some n => Call (OpGetBestPeers n) finish
    end
  | EDelete => with_value id "peer id required" (Call (OpDelete id) finish)
  | EHeartbeat =>
    with_value id "peer id required" (Call (OpHeartbeat id (json_ttl (body r))) finish)
  | EReportChunk =>
    with_value id "peer id required"
      (with_body (json_ChunkReportRequest (body r)) (λ req, Call (OpReportChunk id req) finish))
  | EConfirmChunk =>
    with_body (json_ConfirmChunkRequest (body r)) (λ req, Call (OpConfirmChunk req) finish)
  | EConfirmChunkBatch =>
    with_body (json_ConfirmChunkBatchRequest (body r)) (λ req,
      batch ((λ entry, OpConfirmChunk (confirm_request (cb_RecipientID req) entry)) <$> cb_Chunks req))
  | ERegisterChunk =>
    match Atoi (PathValue r "index") with
    | (_, Some _) => bad_request "invalid chunk index"
    | (index, None) =>
      if index <? 0 then bad_request "invalid chunk index" else
      with_body (json_RegisterChunkRequest (body r)) (λ req,
        Call (OpSetChunkHash file_id index req) finish)
    end
  | ERegisterChunkBatch =>
    with_body (json_RegisterChunkBatchRequest (body r)) (λ req,
      batch ((λ entry, OpSetChunkHash file_id (rb_ChunkIndex entry) (batch_request entry)) <$>
        rb_Chunks req))
  | EGetChunksByFileID =>
    with_value file_id "file_id required" (Call (OpGetChunksByFileID file_id) finish)
  | EGetChunksByRecipient =>
    with_value (QueryGet r "recipient_id") "recipient_id required"
      (Call (OpGetChunksByRecipient (QueryGet r "recipient_id") (parse_date_from r)) finish)
  | ESetSignal =>
    with_value id "peer id required"
      (with_body (json_Signal (body r)) (λ sig, Call (OpSetSignal id sig) finish))
  | EPollSignals => with_value id "peer id required" (Call (OpPollSignals id) finish)
  | EReadChunk => with_body (json_ReadChunkRequest (body r)) (λ req, Call (OpReadChunk req) finish)
  | EWebSocket => Ret (Some (mkResponse 101 NoContent))
  end.

(** *** WebSocket connections *)

Context {D : RPCDecoder}.

(** [sendResult] and [sendError]. *)
Definition send (peerID : string) (f : Frame) (k : Prog) : Prog :=
  Lookup peerID (λ conn, match conn with None => k | Some c => Write c f (λ _, k) end).

(** [sendNotification], then the fallback when it fails. *)
Definition notify (peerID : string) (sig : Signal) (k : bool → Prog) : Prog :=
  Lookup peerID (λ conn, match conn with None => k false | Some c => Write c (Incoming sig) k end).

Definition relay_prog (from reqID target : string) (sig : Signal) (k : Prog) : Prog :=
  notify target sig (λ sent,
    if sent then send from (Result reqID) k else
    Call (OpSetSignal target sig) (λ out,
      match out with
      | Err err => send from (RPCError reqID ("store signal: " +:+ Error err)) k
      | Ok _ => send from (Result reqID) k
      end)).

Definition message (peerID data : string) (k : Prog) : Prog :=
  match json_rpcRequest data with
  | None => k
  | Some req =>
    if ((rpc_ID req == "") || (rpc_Method req == ""))%go then k
    else if (rpc_Method req == rpcMethodSignalRelay)%go then
      match json_SignalRelayRequest (rpc_Params req) with
      | None => send peerID (RPCError (rpc_ID req) "invalid signal_relay params") k
      | Some params =>
        relay_prog peerID (rpc_ID req) (sr_TargetID params)
          (mkSignal (sr_From params) (sr_Type params) (sr_Data params)) k
      end
    else if (rpc_Method req == rpcMethodConnectToPeer)%go then
      match json_ConnectToPeerRequest (rpc_Params req) with
      | None => send peerID (RPCError (rpc_ID req) "invalid connect_to_peer params") k
      | Some params =>
        relay_prog peerID (rpc_ID req) (cp_TargetID params)
          (mkSignal peerID "offer" (cp_Offer params)) k
      end
    else send peerID (RPCError (rpc_ID req) ("unknown method: " +:+ rpc_Method req)) k
  end.

(** The stored signals, written to the new connection in order. *)
Definition write_signals (c : Conn) (signals : list Signal) (k : Prog) : Prog :=
  foldr (λ sig k, Write c (Incoming sig) (λ _, k)) k signals.

(** [HandleWebSocket] on a connection from which the texts [frames] are read
    before it ends. *)
Definition connection (peerID : string) (c : Conn) (frames : list string) : Prog :=
  let loop := foldr (message peerID) (Leave peerID (Ret None)) frames in
  Enter peerID c
    (Call (OpPollSignals peerID) (λ out,
      match out with Ok (JSignals signals) => write_signals c signals loop | _ => loop end)).

(** The thread of a request.  A WebSocket request gets the connection [c] and
    reads [frames] from it, or its upgrade fails. *)
Definition accept (upgrade : option (Conn * list string)) (r : RawRequest) : Prog :=
  match route routes (raw_method r) (raw_path r) with
  | Matched EWebSocket values =>
    match upgrade with
    | Some (c, frames) =>
      connection (QueryGet (mkRequest values (raw_query r) (raw_body r)) "peer_id") c frames
    | None => Ret None
    end
  | Matched ep values => program ep (mkRequest values (raw_query r) (raw_body r))
  | MethodNotAllowed => Ret (Some (mkResponse 405 (Text "Method Not Allowed")))
  | NoRoute => Ret (Some (mkResponse 404 (Text "404 page not found")))
  end.

(** ** A program on its own *)

Section Alone.
Context (net : Conn → bool).

(** No other thread runs: [Refresh] is one step, and so is every other call. *)
Fixpoint run_alone (es : nat → Env) (h : Hub MemoryStore) (p : Prog) :
    Hub MemoryStore * option Response :=
  match p with
  | Ret r => (h, r)
  | Call op k =>
    let out := exec (es 0%nat) (hub_store h) op in
    run_alone (λ i, es (1 + i)%nat) (mkHub out.1 (wsConns h) (written h)) (k out.2)
  | Lookup peerID k => run_alone es h (k (wsConns h !! peerID))
  | Write c f k => let out := WriteMessage net h c f in run_alone es out.1 (k out.2)
  | Enter peerID c k => run_alone es (ws_register h peerID c) k
  | Leave peerID k => run_alone es (ws_close h peerID) k
  end.

Lemma alone_bind es h op k :
  run_alone es h (Call op k) =
    run_alone (λ i, es (1 + i)%nat)
      (mkHub (exec (es 0%nat) (hub_store h) op).1 (wsConns h) (written h))
      (k (exec (es 0%nat) (hub_store h) op).2).
Proof. done. Qed.

(** Both sides decode and check the same things and call the same method. *)
Lemma alone_call {A} es h op (ok : A → Response) (out : MemoryStore * result StoreError A) f :
  exec (es 0%nat) (hub_store h) op = (out.1, result_map f out.2) →
  (∀ a, ok a = respond (Ok (f a))) →
  run_alone es h (Call op finish) =
    (mkHub (answer ok out).1 (wsConns h) (written h), Some (answer ok out).2).
Proof.
  intros He Hok. cbn [run_alone]. rewrite He. destruct out as [s [a|err]]; cbn; by rewrite ?Hok.
Qed.

Lemma alone_batch {X A} es h (call : Env → MemoryStore → X → MemoryStore * result StoreError A)
    (op : X → Op) (f : A → Payload) l :
  (∀ e s x, exec e s (op x) = ((call e s x).1, result_map f (call e s x).2)) →
  run_alone es h (batch (op <$> l)) =
    (mkHub (answer no_content (run_batch call es (hub_store h) l)).1 (wsConns h) (written h),
     Some (answer no_content (run_batch call es (hub_store h) l)).2).
Proof.
  intros Hop. revert es h. induction l as [|x l IH]; intros es h; cbn.
  { by destruct h. }
  rewrite Hop. cbn [fst snd]. destruct (call (es 0%nat) (hub_store h) x) as [s [a|err]]; cbn; [|done].
  by rewrite IH.
Qed.

Definition answered (h : Hub MemoryStore) (out : MemoryStore * Response) :
    Hub MemoryStore * option Response :=
  (mkHub out.1 (wsConns h) (written h), Some out.2).

(** the program of an endpoint, run on its own, is the handler. *)
Lemma program_alone ep es h r :
  run_alone es h (program ep r) = answered h (handle ep es (hub_store h) r).
Proof.
  destruct ep; cbn [handle program]; unfold with_body, with_value, answered,
    Phonebook.Health, Phonebook.List, Phonebook.Register, Phonebook.Refresh, Phonebook.Get,
    Phonebook.GetByKey, Phonebook.GetBestThickPeers, Phonebook.GetBestPeers, Phonebook.Delete,
    Phonebook.Heartbeat, Phonebook.ReportChunk, Phonebook.ConfirmChunk, Phonebook.RegisterChunk,
    Phonebook.GetChunksByFileID, Phonebook.GetChunksByRecipient, Phonebook.SetSignal,
    Phonebook.PollSignals, Phonebook.ReadChunk, Phonebook.RegisterChunkBatch,
    Phonebook.ConfirmChunkBatch, decoded, required;
    repeat case_match; try (by destruct h); try (by eapply alone_call).
  - by eapply (alone_batch es h (λ e s entry, store_ConfirmChunk e s _) (λ entry, OpConfirmChunk _)).
  - by eapply (alone_batch es h (λ e s entry, store_SetChunkHash e s _ _ _)
      (λ entry, OpSetChunkHash _ _ _)).
Qed.

(** A frame sent and then the rest. *)
Lemma alone_send es h peerID f k :
  run_alone es h (send peerID f k) =
    run_alone es (mkHub (hub_store h) (wsConns h) (written h ++ frame_to net h peerID f)) k.
Proof.
  unfold send, frame_to, WriteMessage. destruct h as [s m w]. cbn.
  destruct (m !! peerID) as [c|]; cbn; [|by rewrite app_nil_r].
  unfold WriteMessage. destruct (net c); cbn; [done|by rewrite app_nil_r].
Qed.

Lemma alone_notify es h peerID sig k :
  run_alone es h (notify peerID sig k) =
    run_alone es (sendNotification net h peerID sig).1 (k (sendNotification net h peerID sig).2).
Proof. unfold notify, sendNotification. cbn. by destruct (wsConns h !! peerID). Qed.

Lemma alone_relay es h from reqID target sig r :
  run_alone es h (relay_prog from reqID target sig (Ret r)) =
    (relay net (es 0%nat) h from reqID target sig, r).
Proof.
  unfold relay_prog, relay. rewrite alone_notify.
  destruct (sendNotification net h target sig) as [h' [|]]; cbn [fst snd].
  - by rewrite alone_send, sendResult_written.
  - unfold store_signal. rewrite alone_bind. cbn [exec store_SetSignal memory_store].
    destruct (SetSignal (hub_store h') target sig) as [s [u|err]]; cbn [fst snd result_map].
    + by rewrite alone_send, sendResult_written.
    + by rewrite alone_send, sendError_written.
Qed.

(** the program of a message, run on its own, is the handler. *)
Lemma message_alone es h peerID data r :
  run_alone es h (message peerID data (Ret r)) =
    (handleMessage net (es 0%nat) h peerID data, r).
Proof.
  unfold message, handleMessage, handleSignalRelay, handleConnectToPeer.
  repeat case_match; try done; by rewrite ?alone_relay, ?alone_send, ?sendError_written.
Qed.

Lemma alone_signals es h c sigs k :
  run_alone es h (write_signals c sigs k) =
    run_alone es (fold_left (λ h sig, (WriteMessage net h c (Incoming sig)).1) sigs h) k.
Proof. revert h. induction sigs as [|sig sigs IH]; intros h; cbn; auto. Qed.

(** a connection that ends at once runs the steps of its life in order. *)
Lemma connection_alone es h peerID c :
  run_alone es h (connection peerID c []) =
    (ws_close (ws_drain net (es 0%nat) (ws_register h peerID c) peerID c) peerID, None).
Proof.
  unfold connection, ws_drain. cbn.
  destruct (PollSignals (hub_store h) peerID) as [s [sigs|err]]; cbn; [by rewrite alone_signals|done].
Qed.

End Alone.
End Programs.

(** ** The threads of the server *)

(** A thread runs its program, or waits in the [i]-th call of [Refresh]. *)
Inductive Thread :=
| Running (p : Prog)
| Waiting (i : nat) (k : result StoreError Payload → Prog).

(** The store and the connection map that the threads share, and every thread
    there has been. *)
Record Server := mkServer { hub : Hub System; threads : list Thread }.

Definition with_store (h : Hub System) (S : System) : Hub System :=
  mkHub S (wsConns h) (written h).

Inductive SLabel :=
| SAccept
| STick
| SCloseAll
| SThread (t : nat).

Section Threads.
Context {U : UnicodeTables} {E : Ed25519} {S : SliceSort} {J : JSONDecoder} {D : RPCDecoder}.

(** One step of a thread: a whole method that holds the mutex, one access of a
    call of [Refresh], or one use of the connection map. *)
Inductive thread_step (h : Hub System) : Thread → Hub System → Thread → Prop :=
| thread_call op k e S' :
    sys_step (hub_store h) (LCall e op) S' →
    thread_step h (Running (Call op k)) (with_store h S')
      (Running (k (exec e (store (hub_store h)) op).2))
| thread_refresh req k e S' :
    sys_step (hub_store h) (LBegin e req) S' →
    thread_step h (Running (Call (OpRefresh req) k)) (with_store h S')
      (Waiting (length (refreshes (hub_store h))) k)
| thread_access i k S' :
    sys_step (hub_store h) (LAccess i) S' →
    thread_step h (Waiting i k) (with_store h S') (Waiting i k)
| thread_return i k c res :
    refreshes (hub_store h) !! i = Some c → call_pc c = RDone res →
    thread_step h (Waiting i k) h (Running (k (result_map (λ _, JEmpty) res)))
| thread_lookup peerID k :
    thread_step h (Running (Lookup peerID k)) h (Running (k (wsConns h !! peerID)))
| thread_write net c f k :
    thread_step h (Running (Write c f k)) (WriteMessage net h c f).1
      (Running (k (WriteMessage net h c f).2))
| thread_enter peerID c k :
    thread_step h (Running (Enter peerID c k)) (ws_register h peerID c) (Running k)
| thread_leave peerID k :
    thread_step h (Running (Leave peerID k)) (ws_close h peerID) (Running k).

(** A step of the server: a request arrives, the ticker of a positive purge
    interval fires, [main] calls [CloseAll], or some thread goes on. *)
Inductive srv_step (cfg : Config) : Server → SLabel → Server → Prop :=
| srv_accept h ts upgrade r :
    srv_step cfg (mkServer h ts) SAccept (mkServer h (ts ++ [Running (accept upgrade r)]))
| srv_tick h ts e S' :
    0 < cfg_PurgeInterval cfg → sys_step (hub_store h) (LCall e OpDeleteExpiredChunks) S' →
    srv_step cfg (mkServer h ts) STick (mkServer (with_store h S') ts)
| srv_close_all h ts :
    srv_step cfg (mkServer h ts) SCloseAll (mkServer (CloseAll h) ts)
| srv_thread h ts t th h' th' :
    ts !! t = Some th → thread_step h th h' th' →
    srv_step cfg (mkServer h ts) (SThread t) (mkServer h' (<[t := th']> ts)).

Definition srv_init : Server := mkServer (NewHandler sys_init) [].
Definition srv_steps (cfg : Config) : Server → Server → Prop :=
  rtc (λ Σ Σ', ∃ l, srv_step cfg Σ l Σ').
Definition srv_reach (cfg : Config) : Server → Prop := srv_steps cfg srv_init.

(** The store of a server, with the refreshes under way. *)
Definition system (Σ : Server) : System := hub_store (hub Σ).

(** A step of the server is at most one step of the store's machine. *)
Lemma thread_step_sys h th h' th' :
  thread_step h th h' th' →
  hub_store h' = hub_store h ∨ ∃ l, sys_step (hub_store h) l (hub_store h').
Proof.
  destruct 1; cbn; eauto. left. unfold WriteMessage. by case_match.
Qed.

Lemma srv_step_sys cfg Σ l Σ' :
  srv_step cfg Σ l Σ' →
  system Σ' = system Σ ∨ ∃ l, sys_step (system Σ) l (system Σ').
Proof.
  destruct 1 as [h ts up r|h ts e S' Hp Hs|h ts|h ts t th h' th' Ht Hs]; unfold system; cbn; eauto.
  by eapply thread_step_sys.
Qed.

Lemma srv_steps_sys cfg Σ Σ' : srv_steps cfg Σ Σ' → sys_steps (system Σ) (system Σ').
Proof.
  induction 1 as [Σ|Σ Σ1 Σ' [l Hl] _ IH]; [apply rtc_refl|].
  apply srv_step_sys in Hl as [Heq|Hs]; [by rewrite <- Heq|]. eapply rtc_l; [exact Hs|exact IH].
Qed.

Lemma srv_reach_sys cfg Σ : srv_reach cfg Σ → sys_reach (system Σ).
Proof. apply srv_steps_sys. Qed.

(** Until the first [PUT /peers] the store's runs are those without [Refresh]. *)
Lemma sys_no_refresh S0 : sys_reach S0 → refreshes S0 = [] → reach no_refresh (store S0).
Proof.
  revert S0. apply (sys_reach_ind (λ S0, refreshes S0 = [] → reach no_refresh (store S0))).
  { intros _. constructor. }
  intros S1 l S2 _ IH Hstep.
  inversion Hstep as [s rs rs' e op He Hop Hrs|s rs e req|s rs rs' i c s' pc Hi Hpc Href Hrs];
    subst; cbn [store refreshes] in *.
  - intros ->. apply reach_step; [|done..]. apply IH.
    case_match; [by apply Forall2_nil_inv_r in Hrs|done].
  - by intros []%app_nil.
  - intros Heq. apply lookup_lt_Some in Hi. apply Forall2_length in Hrs.
    apply (f_equal length) in Heq. rewrite length_insert in Heq. cbn in Heq. lia.
Qed.

(** C1: whatever requests and WebSocket connections a server over the in-memory
    store has under way at once, and however their store calls, the accesses of
    their refreshes, their uses of the connection map, the ticks of the cleaner
    and [CloseAll] interleave, its store is in a state of the machine of store
    calls and refresh accesses; so each record sits under its own trimmed id
    with a positive TTL and every score is 1000 plus the good minus the bad
    reports.  As long as no [PUT /peers] has been accepted, the index of keys
    lists every peer exactly once, under its key, and nothing else. *)
Theorem server_store_ok cfg Σ :
  srv_reach cfg Σ →
  sys_reach (system Σ) ∧ peers_ok (store (system Σ)) ∧
  (∀ id p, peers (store (system Σ)) !! id = Some p →
     peer_QualityScore p =
       wrap64 (1000 + ValidReports (peer_Quality p) - InvalidReports (peer_Quality p))) ∧
  (refreshes (system Σ) = [] →
     index_complete (store (system Σ)) ∧ index_sound (store (system Σ))).
Proof.
  intros H%srv_reach_sys. split_and!; [done|by apply sys_peers_ok|by apply sys_ledger_ok|].
  intros Hr. pose proof (sys_no_refresh _ H Hr).
  split; [by eapply reach_complete|by apply reach_no_refresh_sound].
Qed.

(** ** Every request is answered *)

(** The accesses a call of [Refresh] has yet to make, at most. *)
Definition pc_left (pc : RefreshPC) : nat :=
  match pc with RStart => 4 | RFound _ => 3 | RSlice _ _ => 2 | RFiled _ => 1 | RDone _ => 0 end.

Definition pc_reports (pc : RefreshPC) : Prop :=
  match pc with RDone res => reports res | _ => True end.

Lemma refresh_step_left e req s pc s' pc' :
  refresh_step e req (s, pc) = (s', pc') → returned pc = false →
  (pc_left pc' < pc_left pc)%nat ∧ pc_reports pc'.
Proof.
  destruct pc as [|p|p ids|p|res]; cbn; intros; simplify_eq; try done; try (split; [cbn; lia|done]).
  repeat case_match; simplify_eq; (split; [cbn; lia|]); try done. by intros err [= <-].
Qed.

(** How far a call under way is after a step of the machine. *)
Lemma sys_step_left S0 l S1 i c :
  sys_step S0 l S1 → refreshes S0 !! i = Some c → pc_reports (call_pc c) →
  ∃ c', refreshes S1 !! i = Some c' ∧ (pc_left (call_pc c') ≤ pc_left (call_pc c))%nat ∧
    pc_reports (call_pc c') ∧ (l = LAccess i → (pc_left (call_pc c') < pc_left (call_pc c))%nat).
Proof.
  assert (∀ rs rs', Forall2 shifted rs rs' → rs !! i = Some c → pc_reports (call_pc c) →
    ∃ c', rs' !! i = Some c' ∧ (pc_left (call_pc c') ≤ pc_left (call_pc c))%nat ∧
      pc_reports (call_pc c')) as Hsh.
  { intros rs rs' Hrs Hi Hr. destruct (Forall2_lookup_l _ _ _ _ _ Hrs Hi) as (c' & Hc' & H).
    exists c'. split; [done|]. by destruct H. }
  intros Hstep. inversion Hstep as [s rs rs' e op He Hop Hrs|s rs e req|s rs rs' j k s' pc Hj Hpc Href Hrs];
    subst; cbn [refreshes]; intros Hi Hr.
  - apply sys_call_shifted in Hrs. destruct (Hsh _ _ Hrs Hi Hr) as (c' & H1 & H2 & H3). by exists c'.
  - exists c. split_and!; try done. by apply lookup_app_l_Some.
  - destruct (decide (j = i)) as [->|Hne].
    + simplify_eq. destruct (refresh_step_left _ _ _ _ _ _ Href Hpc) as [Hlt Hrep].
      eexists. split.
      { apply list_lookup_insert_eq. rewrite <- (Forall2_length _ _ _ Hrs).
        by eapply lookup_lt_Some. }
      cbn. split_and!; [lia|done|done].
    + destruct (Hsh _ _ Hrs Hi Hr) as (c' & H1 & H2 & H3). exists c'.
      rewrite list_lookup_insert_ne by done. split_and!; try done. by intros [= ->].
Qed.

(** The statuses a request over the in-memory store is answered with. *)
Definition statuses : list Z := [200; 204; 400; 401; 404; 405].

(** The program answers within [n] steps of its own, whatever the store says. *)
Inductive ends : nat → Prog → Prop :=
| ends_ret n r : status r ∈ statuses → ends n (Ret (Some r))
| ends_call n op k :
    no_refresh op → (∀ out, reports out → ends n (k out)) → ends (1 + n) (Call op k)
| ends_refresh n req k :
    (∀ out, reports out → ends n (k out)) → ends (6 + n) (Call (OpRefresh req) k).

Definition thread_ends (S0 : System) (n : nat) (th : Thread) : Prop :=
  match th with
  | Running p => ends n p
  | Waiting i k =>
    ∃ c m, refreshes S0 !! i = Some c ∧ pc_reports (call_pc c) ∧
      (pc_left (call_pc c) + 1 + m ≤ n)%nat ∧ (∀ out, reports out → ends m (k out))
  end.

Lemma ends_le n m p : (n ≤ m)%nat → ends n p → ends m p.
Proof.
  intros Hle H. revert m Hle. induction H as [n r Hr|n op k Hop _ IH|n req k _ IH]; intros m Hle.
  - by constructor.
  - destruct m as [|m]; [lia|]. constructor; [done|]. intros out Ho. apply IH; [done|lia].
  - replace m with (6 + (m - 6))%nat by lia. apply ends_refresh. intros out Ho.
    apply IH; [done|lia].
Qed.

Lemma thread_ends_stable S0 l S1 n th :
  sys_step S0 l S1 → thread_ends S0 n th → thread_ends S1 n th.
Proof.
  intros Hstep. destruct th as [p|i k]; cbn; [done|].
  intros (c & m & Hc & Hr & Hle & Hk).
  destruct (sys_step_left _ _ _ _ _ Hstep Hc Hr) as (c' & H1 & H2 & H3 & _).
  exists c', m. split_and!; [done..|lia|done].
Qed.

Lemma exec_reports e s op : reports (exec e s op).2.
Proof.
  assert (∀ A B (f : A → B) (r : result StoreError A), reports r → reports (result_map f r)) as Hm.
  { intros A B f [a|err] H err' Heq; [done|]. apply H. by injection Heq as ->. }
  destruct op; cbn [exec snd]; apply Hm.
  - apply (Upsert_reports (S := memory_store) e).
  - apply (Refresh_reports (S := memory_store) e).
  - apply (Get_reports (S := memory_store) e).
  - apply (GetByKey_reports (S := memory_store) e).
  - apply (Delete_reports (S := memory_store) e).
  - apply (List_reports (S := memory_store) e).
  - apply (Heartbeat_reports (S := memory_store) e).
  - apply (SetChunkHash_reports (S := memory_store) e).
  - apply (GetBestPeers_reports (S := memory_store) e).
  - apply (ReportChunk_reports (S := memory_store) e).
  - apply (ConfirmChunk_reports (S := memory_store) e).
  - apply (ReadChunk_reports (S := memory_store) e).
  - apply (GetChunksByRecipient_reports (S := memory_store) e).
  - apply (GetChunksByFileID_reports (S := memory_store) e).
  - apply (GetBestThickPeers_reports (S := memory_store) e).
  - apply (SetSignal_reports (S := memory_store) e).
  - apply (PollSignals_reports (S := memory_store) e).
  - intros err. unfold DeleteExpiredChunks. case_match. by destruct p.
Qed.

(** A step of the thread itself brings its answer nearer. *)
Lemma thread_ends_own h n th h' th' :
  thread_step h th h' th' → thread_ends (hub_store h) n th →
  ∃ m, n = (1 + m)%nat ∧ thread_ends (hub_store h') m th'.
Proof.
  intros Hstep. destruct Hstep as [op k e S' Hs|req k e S' Hs|i k S' Hs|i k c res Hc Hres| | | |];
    cbn [thread_ends with_store hub_store]; try (intros H; by inversion H).
  - intros H. inversion H as [|n' op' k' Hop Hk|n' req k' Hk]; subst; [|by inversion Hs].
    exists n'. split; [done|]. apply Hk, exec_reports.
  - intros H. inversion H as [|n' op' k' Hop Hk|n' req' k' Hk]; subst; [done|].
    exists (5 + n')%nat. split; [lia|]. inversion Hs as [|s rs e' req' Hh|]; subst.
    cbn [refreshes]. exists (mkCall e req RStart), n'.
    rewrite lookup_app_r, Nat.sub_diag by done. split_and!; [done..|cbn; lia|done].
  - intros (c & m & Hc & Hr & Hle & Hk).
    destruct (sys_step_left _ _ _ _ _ Hs Hc Hr) as (c' & H1 & _ & H3 & Hlt).
    specialize (Hlt eq_refl). exists (n - 1)%nat. split; [lia|]. exists c', m.
    split_and!; [done..|lia|done].
  - intros (c' & m & Hc' & Hr & Hle & Hk). simplify_eq. exists (n - 1)%nat. split; [lia|].
    rewrite Hres in Hr, Hle. apply (ends_le m); [cbn in Hle; lia|]. apply Hk.
    destruct res as [a|err]; intros err' Heq; [done|]. apply Hr. by injection Heq as ->.
Qed.

(** A thread that has not answered can go on. *)
Lemma thread_goes_on h n th :
  thread_ends (hub_store h) n th →
  (∃ r, th = Running (Ret (Some r)) ∧ status r ∈ statuses) ∨ ∃ h' th', thread_step h th h' th'.
Proof.
  destruct h as [[s rs] m w]. destruct th as [p|i k]; cbn [thread_ends hub_store].
  - destruct 1 as [n r Hr|n op k Hop _|n req k _]; [by left; eauto|right..].
    + eexists _, _. eapply (thread_call _ op k (env_second 0) (mkSystem _ rs)).
      constructor; [apply env_second_ok|done|]. case_match; [apply Forall2_shifted_refl|done].
    + eexists _, _. eapply (thread_refresh _ req k (env_second 0)), sys_begin.
  - intros (c & n' & Hc & _ & _ & _). right. destruct (returned (call_pc c)) eqn:Hr.
    + destruct (call_pc c) eqn:Hpc; try done. eexists _, _. by eapply thread_return.
    + destruct (refresh_step (call_env c) (call_req c) (s, call_pc c)) as [s' pc] eqn:Hstep.
      eexists _, _. eapply thread_access. eapply (sys_access s rs rs); try done.
      apply Forall2_shifted_refl.
Qed.

(** The number of its own steps a request needs: one for each store call, six
    for a refresh, with its four accesses, its begin and its return. *)
Definition request_bound (r : RawRequest) : nat :=
  match route routes (raw_method r) (raw_path r) with
  | Matched EHealth _ => 0
  | Matched ERefresh _ => 6
  | Matched ERegisterChunkBatch _ =>
    match json_RegisterChunkBatchRequest (raw_body r) with
    | Some req => length (rb_Chunks req)
    | None => 0
    end
  | Matched EConfirmChunkBatch _ =>
    match json_ConfirmChunkBatchRequest (raw_body r) with
    | Some req => length (cb_Chunks req)
    | None => 0
    end
  | Matched _ _ => 1
  | _ => 0
  end%nat.

Definition is_websocket (r : RawRequest) : Prop :=
  ∃ values, route routes (raw_method r) (raw_path r) = Matched EWebSocket values.

Lemma respond_status out : reports out → status (respond out) ∈ statuses.
Proof.
  intros Hr. destruct out as [p|err].
  - destruct p; cbn; set_solver.
  - specialize (Hr err eq_refl). destruct err; try discriminate Hr; cbn; set_solver.
Qed.

Lemma ends_bad n msg : ends n (bad_request msg).
Proof. apply ends_ret. cbn. set_solver. Qed.

Lemma ends_finish n out : reports out → ends n (finish out).
Proof. intros Hr. by apply ends_ret, respond_status. Qed.

Lemma ends_one n op : no_refresh op → ends (1 + n) (Call op finish).
Proof. intros Hop. apply ends_call; [done|]. intros out Hr. by apply ends_finish. Qed.

Lemma ends_batch ops : Forall no_refresh ops → ends (length ops) (batch ops).
Proof.
  induction 1 as [|op ops Hop _ IH]; cbn.
  - apply ends_ret. cbn. set_solver.
  - apply (ends_call (length ops)); [done|]. intros [a|err] Hr; [done|by apply ends_finish].
Qed.

Lemma accept_ends upgrade r :
  ¬ is_websocket r → ends (request_bound r) (accept upgrade r).
Proof.
  intros Hws. unfold accept, request_bound, is_websocket in *.
  destruct (route routes _ _) as [ep values| |]; [|apply ends_ret; cbn; set_solver..].
  destruct ep; [..|exfalso; eauto]; cbn [program]; unfold with_value, with_body; cbn [body];
    repeat case_match; try apply ends_bad; try (by apply (ends_one 0)).
  - apply ends_ret. cbn. set_solver.
  - apply (ends_refresh 0). intros out Hr. by apply ends_finish.
  - rewrite <- (length_map (λ entry, OpConfirmChunk (confirm_request (cb_RecipientID c) entry))).
    apply ends_batch, Forall_forall. by intros op (x & -> & _)%list_elem_of_fmap.
  - match goal with |- ends _ (batch (?f <$> _)) => rewrite <- (length_map f) end.
    apply ends_batch, Forall_forall. by intros op (x & -> & _)%list_elem_of_fmap.
Qed.

(** [n] steps of thread [t] among those of a run. *)
Inductive srv_run (cfg : Config) (t : nat) : nat → Server → Server → Prop :=
| run_refl Σ : srv_run cfg t 0 Σ Σ
| run_other n Σ l Σ1 Σ2 :
    l ≠ SThread t → srv_step cfg Σ l Σ1 → srv_run cfg t n Σ1 Σ2 → srv_run cfg t n Σ Σ2
| run_own n Σ Σ1 Σ2 :
    srv_step cfg Σ (SThread t) Σ1 → srv_run cfg t n Σ1 Σ2 → srv_run cfg t (1 + n) Σ Σ2.

Lemma run_ends cfg t n Σ Σ' m th :
  srv_run cfg t n Σ Σ' → threads Σ !! t = Some th → thread_ends (system Σ) m th →
  (n ≤ m)%nat ∧ ∃ th', threads Σ' !! t = Some th' ∧ thread_ends (system Σ') (m - n) th'.
Proof.
  intros Hrun. revert m th.
  induction Hrun as [Σ|n Σ l Σ1 Σ2 Hl Hstep _ IH|n Σ Σ1 Σ2 Hstep _ IH]; intros m th Ht Hth.
  - split; [lia|]. exists th. by rewrite Nat.sub_0_r.
  - assert (threads Σ1 !! t = Some th ∧ thread_ends (system Σ1) m th) as [? ?]; [|eauto].
    assert (thread_ends (system Σ1) m th).
    { apply srv_step_sys in Hstep as [-> | [l' Hs]]; [done|]. by eapply thread_ends_stable. }
    split; [|done]. destruct Hstep; cbn in *; try done; [by apply lookup_app_l_Some|].
    rewrite list_lookup_insert_ne; [done|congruence].
  - inversion Hstep as [| | |h ts t' th1 h' th' Ht' Hs]; subst. cbn in Ht, Hth, IH. simplify_eq.
    destruct (thread_ends_own _ _ _ _ _ Hs Hth) as (m' & -> & Hth').
    destruct (IH m' th') as [Hle H]; [|done|].
    { apply list_lookup_insert_eq. by eapply lookup_lt_Some. }
    split; [lia|]. by replace (1 + m' - (1 + n))%nat with (m' - n)%nat by lia.
Qed.


(** ** Schedules

    The steps as a function, to run concrete schedules. *)

Definition thread_exec (net : Conn → bool) (e : Env) (h : Hub System) (th : Thread) :
    option (Hub System * Thread) :=
  let '(mkSystem s rs) := hub_store h in
  match th with
  | Running (Ret _) => None
  | Running (Call (OpRefresh req) k) =>
    Some (with_store h (mkSystem s (rs ++ [mkCall e req RStart])), Waiting (length rs) k)
  | Running (Call op k) =>
    Some (with_store h (mkSystem (next e s op) rs), Running (k (exec e s op).2))
  | Running (Lookup peerID k) => Some (h, Running (k (wsConns h !! peerID)))
  | Running (Write c f k) =>
    let '(h, sent) := WriteMessage net h c f in Some (h, Running (k sent))
  | Running (Enter peerID c k) => Some (ws_register h peerID c, Running k)
  | Running (Leave peerID k) => Some (ws_close h peerID, Running k)
  | Waiting i k =>
    match rs !! i with
    | None => None
    | Some c =>
      match call_pc c with
      | RDone res => Some (h, Running (k (result_map (λ _, JEmpty) res)))
      | pc =>
        let '(s', pc') := refresh_step (call_env c) (call_req c) (s, pc) in
        Some (with_store h (mkSystem s' (<[i := mkCall (call_env c) (call_req c) pc']> rs)),
              Waiting i k)
      end
    end
  end.

Inductive Event :=
| EvAccept (upgrade : option (Conn * list string)) (r : RawRequest)
| EvTick (e : Env)
| EvCloseAll
| EvThread (net : Conn → bool) (e : Env) (t : nat).

Definition event_ok (ev : Event) : Prop :=
  match ev with EvTick e | EvThread _ e _ => env_ok e | _ => True end.

Definition event_label (ev : Event) : SLabel :=
  match ev with
  | EvAccept _ _ => SAccept | EvTick _ => STick | EvCloseAll => SCloseAll
  | EvThread _ _ t => SThread t
  end.

Definition srv_exec (cfg : Config) (Σ : Server) (ev : Event) : option Server :=
  match ev with
  | EvAccept upgrade r => Some (mkServer (hub Σ) (threads Σ ++ [Running (accept upgrade r)]))
  | EvTick e =>
    if cfg_PurgeInterval cfg <=? 0 then None else
    let '(mkSystem s rs) := system Σ in
    Some (mkServer (with_store (hub Σ) (mkSystem (next e s OpDeleteExpiredChunks) rs)) (threads Σ))
  | EvCloseAll => Some (mkServer (CloseAll (hub Σ)) (threads Σ))
  | EvThread net e t =>
    match threads Σ !! t with
    | None => None
    | Some th =>
      match thread_exec net e (hub Σ) th with
      | None => None
      | Some (h, th') => Some (mkServer h (<[t := th']> (threads Σ)))
      end
    end
  end.

Fixpoint srv_execs (cfg : Config) (Σ : Server) (evs : list Event) : option Server :=
  match evs with
  | [] => Some Σ
  | ev :: evs =>
    match srv_exec cfg Σ ev with None => None | Some Σ' => srv_execs cfg Σ' evs end
  end.

Lemma call_step s rs e op :
  env_ok e → no_refresh op → sys_step (mkSystem s rs) (LCall e op) (mkSystem (next e s op) rs).
Proof. intros He Hop. constructor; [done..|]. case_match; [apply Forall2_shifted_refl|done]. Qed.

Lemma thread_exec_step net e h th h' th' :
  env_ok e → thread_exec net e h th = Some (h', th') → thread_step h th h' th'.
Proof.
  intros He. unfold thread_exec. destruct h as [[s rs] m w]. cbn [hub_store].
  destruct th as [[r|op k|id k|c f k|id c k|id k]|i k]; try done.
  - pose proof (λ Hop, thread_call (mkHub (mkSystem s rs) m w) op k e _ (call_step s rs e op He Hop))
      as Hcall.
    destruct op; intros [= <- <-]; try exact (Hcall I).
    exact (thread_refresh (mkHub (mkSystem s rs) m w) req k e _ (sys_begin s rs e req)).
  - intros [= <- <-]. constructor.
  - pose proof (thread_write (mkHub (mkSystem s rs) m w) net c f k) as H.
    destruct (WriteMessage _ _ _ _). by intros [= <- <-].
  - intros [= <- <-]. constructor.
  - intros [= <- <-]. constructor.
  - destruct (rs !! i) as [c|] eqn:Hc; [|done].
    destruct (returned (call_pc c)) eqn:Hr.
    { destruct (call_pc c) eqn:Hpc; try done. intros [= <- <-]. by eapply thread_return. }
    destruct (refresh_step (call_env c) (call_req c) (s, call_pc c)) as [s' pc'] eqn:Hstep.
    intros H. assert (th' = Waiting i k ∧ h' = with_store (mkHub (mkSystem s rs) m w)
      (mkSystem s' (<[i := mkCall (call_env c) (call_req c) pc']> rs))) as [-> ->].
    { destruct (call_pc c); try done; rewrite Hstep in H; by simplify_eq. }
    apply thread_access, (sys_access s rs rs i c); [done..|]. apply Forall2_shifted_refl.
Qed.

Lemma srv_exec_step cfg Σ ev Σ' :
  event_ok ev → srv_exec cfg Σ ev = Some Σ' → srv_step cfg Σ (event_label ev) Σ'.
Proof.
  destruct Σ as [[[s rs] m w] ts]. destruct ev as [upgrade r|e| |net e t];
    cbn [event_ok event_label srv_exec system hub threads hub_store]; intros He.
  - intros [= <-]. constructor.
  - destruct (Z.leb_spec (cfg_PurgeInterval cfg) 0); [done|]. intros [= <-].
    apply (srv_tick cfg (mkHub (mkSystem s rs) m w) ts e); [lia|]. by apply call_step.
  - intros [= <-]. apply (srv_close_all cfg (mkHub (mkSystem s rs) m w)).
  - destruct (ts !! t) as [th|] eqn:Ht; [|done].
    destruct (thread_exec net e (mkHub (mkSystem s rs) m w) th) as [[h' th']|] eqn:Hx; [|done]. intros [= <-].
    eapply srv_thread; [done|]. by eapply thread_exec_step.
Qed.

Lemma srv_execs_steps cfg Σ evs Σ' :
  Forall event_ok evs → srv_execs cfg Σ evs = Some Σ' → srv_steps cfg Σ Σ'.
Proof.
  intros Hok. revert Σ. induction Hok as [|ev evs Hev _ IH]; intros Σ; cbn.
  - intros [= ->]. apply rtc_refl.
  - destruct (srv_exec cfg Σ ev) as [Σ1|] eqn:Hx; [|done]. intros H.
    eapply rtc_l; [eexists; by eapply srv_exec_step|by apply IH].
Qed.

(** The steps of thread [t] in a schedule. *)
Fixpoint own_events (t : nat) (evs : list Event) : nat :=
  match evs with
  | [] => 0
  | EvThread _ _ t' :: evs => (if decide (t' = t) then 1 else 0) + own_events t evs
  | _ :: evs => own_events t evs
  end%nat.

Lemma srv_execs_run cfg t Σ evs Σ' :
  Forall event_ok evs → srv_execs cfg Σ evs = Some Σ' → srv_run cfg t (own_events t evs) Σ Σ'.
Proof.
  intros Hok. revert Σ. induction Hok as [|ev evs Hev _ IH]; intros Σ; cbn [srv_execs].
  - intros [= ->]. constructor.
  - destruct (srv_exec cfg Σ ev) as [Σ1|] eqn:Hx; [|done]. intros H.
    apply srv_exec_step in Hx; [|done]. specialize (IH Σ1 H).
    destruct ev as [upgrade r|e| |net e t']; cbn [own_events event_label] in *;
      try (refine (run_other _ _ _ _ _ _ _ _ Hx IH); discriminate).
    destruct (decide (t' = t)) as [->|Hne]; [by eapply run_own|].
    refine (run_other _ _ _ _ _ _ _ _ Hx IH). congruence.
Qed.

End Threads.

(** ** The theorems on a concrete run *)

Local Existing Instance sample_tables.
Local Existing Instance toy_ed25519.
Local Existing Instance insertion_slice_sort.

(** A decoder that makes of every body a request of Alice. *)
Definition alice_json : JSONDecoder := {|
  json_RegisterRequest _ := Some (register "alice" "alice");
  json_RefreshRequest _ := Some refresh_alice;
  json_RegisterChunkRequest _ := None;
  json_RegisterChunkBatchRequest _ := None;
  json_ChunkReportRequest _ := None;
  json_ConfirmChunkRequest _ := None;
  json_ConfirmChunkBatchRequest _ := None;
  json_ReadChunkRequest _ := None;
  json_Signal _ := None;
  json_ttl _ := 600;
|}.
Local Existing Instances sample_rpc alice_json.

Definition all_up (_ : Conn) : bool := true.
Definition peers_path : list string := ["api"; "v1"; "peers"].

(** Alice registers; then a refresh, a heartbeat and a WebSocket of hers are
    under way together, while the cleaner ticks. *)
Definition busy_events : list Event :=
  let run t := EvThread all_up (env_second 120) t in
  [ EvAccept None (mkRawRequest "POST" peers_path [] ""); run 0%nat;
    EvAccept None (mkRawRequest "PUT" peers_path [] ""); run 1%nat; run 1%nat;
    EvAccept None (mkRawRequest "POST" (peers_path ++ ["alice"; "heartbeat"]) [] "");
    EvAccept (Some (7%nat, [])) (mkRawRequest "GET" ["api"; "v1"; "ws"] [("peer_id", "alice")] "");
    run 3%nat; run 2%nat; EvTick (env_second 121); run 3%nat; run 1%nat ].

Definition busy : Server := default srv_init (srv_execs DefaultConfig srv_init busy_events).

Lemma busy_reach : srv_reach DefaultConfig busy.
Proof.
  apply (srv_execs_steps _ _ busy_events).
  - repeat (constructor; [try apply env_second_ok; done|]). constructor.
  - unfold busy. destruct (srv_execs DefaultConfig srv_init busy_events) eqn:H; [done|].
    by vm_compute in H.
Qed.

(** Four threads, and a refresh in the middle of its accesses. *)
Lemma server_store_ok_witness :
  length (threads busy) = 4%nat ∧ length (refreshes (system busy)) = 1%nat ∧
  is_Some (peers (store (system busy)) !! "alice") ∧ peers_ok (store (system busy)).
Proof.
  split; [by vm_compute|]. split; [by vm_compute|].
  split; [apply not_eq_None_Some; by vm_compute|].
  by destruct (server_store_ok DefaultConfig busy busy_reach) as (_ & H & _).
Defined.

(** The refresh of [busy], with a deletion and a tick between its accesses. *)
Definition refresh_events : list Event :=
  let run t := EvThread all_up (env_second 120) t in
  [ run 1%nat; run 1%nat;
    EvAccept None (mkRawRequest "DELETE" (peers_path ++ ["alice"]) [] ""); run 2%nat;
    run 1%nat; EvTick (env_second 121); run 1%nat; run 1%nat; run 1%nat ].
Definition refresh_start : Server :=
  default srv_init (srv_execs DefaultConfig srv_init (take 3 busy_events)).

