(* ===== verification/WebRTCLocks.v ===== *)
(** The two mutexes of [internal/webrtc/handler.go].  Each routine is the sequence
    of its lock operations and of its accesses to the shared map and to
    connections; goroutines are such sequences, of which one steps at a time.
    Two goroutines about to make conflicting accesses are a data race. *)
From S2P Require Import Prelude GoNum GoStrings Model StoreTypes WebRTC.

(** ** Routines *)

Inductive mutex := mu | wsMu.
#[export] Instance mutex_eq_dec : EqDecision mutex.
Proof. solve_decision. Defined.

(** [MapRead] and [MapWrite] are accesses to [wsConns]; writing to a connection
    is not safe for concurrent use either. *)
Inductive action :=
| Lock (m : mutex)
| Unlock (m : mutex)
| RLock (m : mutex)
| RUnlock (m : mutex)
| MapRead
| MapWrite
| StoreCall
| ConnWrite (c : Conn).

(** [HandleWebSocket] up to its loop, with [n] signals in the mailbox; and the
    deferred function. *)
Definition register_code : list action := [Lock wsMu; MapWrite; Unlock wsMu].
Definition drain_code (c : Conn) (n : nat) : list action :=
  [Lock mu; StoreCall; Unlock mu] ++ replicate n (ConnWrite c).
Definition close_code : list action := [Lock wsMu; MapWrite; Unlock wsMu].

(** The writes of the senders, to the connection that they found. *)
Definition write_to (found : option Conn) : list action :=
  match found with Some c => [ConnWrite c] | None => [] end.

Definition sendNotification_code (found : option Conn) : list action :=
  [RLock wsMu; MapRead; RUnlock wsMu] ++ write_to found.
Definition sendResult_code (found : option Conn) : list action :=
  [RLock mu; MapRead; RUnlock mu] ++ write_to found.
Definition sendError_code (found : option Conn) : list action :=
  [RLock mu; MapRead; RUnlock mu] ++ write_to found.

(** [CloseAll] with [n] connections: the loop reads the map for each key, and
    deletes it. *)
Definition CloseAll_code (n : nat) : list action :=
  [Lock mu; MapRead] ++ concat (replicate n [MapWrite; MapRead]) ++ [Unlock mu].

(** What handling a message comes to: nothing, an error, a delivery and a result,
    or a signal stored (after a failed write, perhaps) and a result or an error. *)
Inductive Handling :=
| Ignored
| Refused (from : option Conn)
| Delivered (target : Conn) (from : option Conn)
| Stored (target from : option Conn)
| NotStored (target from : option Conn).

Definition message_code (x : Handling) : list action :=
  match x with
  | Ignored => []
  | Refused from => sendError_code from
  | Delivered target from => sendNotification_code (Some target) ++ sendResult_code from
  | Stored target from => sendNotification_code target ++ [StoreCall] ++ sendResult_code from
  | NotStored target from => sendNotification_code target ++ [StoreCall] ++ sendError_code from
  end.

(** The goroutine of a connection. *)
Definition HandleWebSocket_code (c : Conn) (n : nat) (messages : list Handling) : list action :=
  register_code ++ drain_code c n ++ concat (map message_code messages) ++ close_code.

(** ** Goroutines *)

(** What a goroutine holds, last acquired first ([true]: for writing), and what
    it has left to do. *)
Record Thread := mkThread { held : list (mutex * bool); code : list action }.

Abbreviation Pool := (list Thread).
Definition start (codes : list (list action)) : Pool := mkThread [] <$> codes.

(** Nobody holds the mutex; nobody holds it for writing. *)
Definition free (m : mutex) (pool : Pool) : Prop := ∀ t b, t ∈ pool → (m, b) ∉ held t.
Definition readable (m : mutex) (pool : Pool) : Prop := ∀ t, t ∈ pool → (m, true) ∉ held t.

Inductive act (pool : Pool) : Thread → Thread → Prop :=
| act_lock m h k : free m pool → act pool (mkThread h (Lock m :: k)) (mkThread ((m, true) :: h) k)
| act_rlock m h k :
    readable m pool → act pool (mkThread h (RLock m :: k)) (mkThread ((m, false) :: h) k)
| act_unlock m h k : act pool (mkThread ((m, true) :: h) (Unlock m :: k)) (mkThread h k)
| act_runlock m h k : act pool (mkThread ((m, false) :: h) (RUnlock m :: k)) (mkThread h k)
| act_access a h k :
    match a with MapRead | MapWrite | StoreCall | ConnWrite _ => True | _ => False end →
    act pool (mkThread h (a :: k)) (mkThread h k).

Inductive pool_step (pool : Pool) : Pool → Prop :=
| step_thread i t t' :
    pool !! i = Some t → act pool t t' → pool_step pool (<[i := t']> pool).

(** Goroutine [i] is about to do [a]. *)
Definition about_to (pool : Pool) (i : nat) (a : action) : Prop :=
  ∃ h k, pool !! i = Some (mkThread h (a :: k)).

Definition map_race (pool : Pool) : Prop :=
  ∃ i j a, i ≠ j ∧ about_to pool i MapWrite ∧ about_to pool j a ∧ (a = MapRead ∨ a = MapWrite).
Definition write_race (pool : Pool) : Prop :=
  ∃ i j c, i ≠ j ∧ about_to pool i (ConnWrite c) ∧ about_to pool j (ConnWrite c).

(** ** One mutex for all accesses *)

(** The code makes every access to the map under [m], and writes under its
    exclusive mode; [h] is what is held. *)
Fixpoint guarded (m : mutex) (h : list (mutex * bool)) (k : list action) : Prop :=
  match k with
  | [] => True
  | Lock m' :: k => guarded m ((m', true) :: h) k
  | RLock m' :: k => guarded m ((m', false) :: h) k
  | (Unlock _ | RUnlock _) :: k => guarded m (tail h) k
  | MapRead :: k => ((m, true) ∈ h ∨ (m, false) ∈ h) ∧ guarded m h k
  | MapWrite :: k => (m, true) ∈ h ∧ guarded m h k
  | (StoreCall | ConnWrite _) :: k => guarded m h k
  end.

(** A mutex held for writing is held by nobody else. *)
Definition exclusive (pool : Pool) : Prop :=
  ∀ i j t u m b, i ≠ j → pool !! i = Some t → pool !! j = Some u →
    (m, true) ∈ held t → (m, b) ∉ held u.

Lemma act_held pool t t' m (b : bool) :
  act pool t t' → (m, b) ∈ held t' → (m, b) ∈ held t ∨ (if b then free m pool else readable m pool).
Proof.
  destruct 1; cbn; intros Hm; try (by left); try (by left; right);
    apply elem_of_cons in Hm as [[= -> ->]|?]; auto.
Qed.

Lemma pool_step_exclusive pool pool' : exclusive pool → pool_step pool pool' → exclusive pool'.
Proof.
  intros Hx [i t t' Ht Ha] j1 j2 u1 u2 m b Hne.
  rewrite !list_lookup_insert_Some.
  intros [(<- & <- & _)|[Hj1 Hu1]] [(<- & <- & _)|[Hj2 Hu2]] Hm; [done| | |by eapply (Hx j1 j2)].
  - destruct (act_held _ _ _ _ _ Ha Hm) as [Hold|Hfree]; [by eapply (Hx i j2)|].
    by apply Hfree, (list_elem_of_lookup_2 _ j2).
  - intros Hb. destruct (act_held _ _ _ _ _ Ha Hb) as [Hold|Hfree]; [by eapply (Hx j1 i)|].
    apply list_elem_of_lookup_2 in Hu1. destruct b; [by eapply Hfree|by eapply Hfree].
Qed.

Lemma act_guarded pool t t' m :
  act pool t t' → guarded m (held t) (code t) → guarded m (held t') (code t').
Proof. destruct 1 as [| | | |a]; cbn; try done. destruct a; cbn; tauto. Qed.

Lemma pool_step_guarded m pool pool' :
  Forall (λ t, guarded m (held t) (code t)) pool → pool_step pool pool' →
  Forall (λ t, guarded m (held t) (code t)) pool'.
Proof.
  intros Hg [i t t' Ht Ha]. apply Forall_insert; [done|].
  eapply act_guarded; [exact Ha|]. by eapply Forall_lookup_1 in Hg.
Qed.

Lemma exclusive_start codes : exclusive (start codes).
Proof.
  intros i j t u m b _ Ht _. unfold start in Ht. rewrite list_lookup_fmap in Ht.
  destruct (codes !! i); simplify_eq/=. by intros ?%not_elem_of_nil.
Qed.

Lemma rtc_pool (I : Pool → Prop) pool pool' :
  (∀ p p', I p → pool_step p p' → I p') → rtc pool_step pool pool' → I pool → I pool'.
Proof. intros Hs Hr. induction Hr; eauto. Qed.

(** Goroutines whose accesses are all under one mutex never race. *)
Lemma one_mutex_no_race m codes pool :
  Forall (guarded m []) codes → rtc pool_step (start codes) pool → ¬ map_race pool.
Proof.
  intros Hg Hr (i & j & a & Hne & (hi & ki & Hi) & (hj & kj & Hj) & Ha).
  assert (Forall (λ t, guarded m (held t) (code t)) pool) as Hgp.
  { apply (rtc_pool _ (start codes) _ (pool_step_guarded m) Hr). by apply Forall_fmap. }
  assert (exclusive pool) as Hx
    by apply (rtc_pool _ (start codes) _ pool_step_exclusive Hr), exclusive_start.
  rewrite Forall_lookup in Hgp.
  destruct (Hgp i _ Hi) as [Hmi _]. pose proof (Hgp j _ Hj) as Hmj.
  assert (∃ b, (m, b) ∈ hj) as [b Hb].
  { destruct Ha as [-> | ->]; destruct Hmj as [Hmj _]; [destruct Hmj|]; eauto. }
  by apply (Hx i j _ _ m b Hne Hi Hj Hmi).
Qed.

(** The routines that use [wsMu], and those that use [mu]. *)
Inductive wsMu_routine : list action → Prop :=
| routine_register : wsMu_routine register_code
| routine_close : wsMu_routine close_code
| routine_sendNotification found : wsMu_routine (sendNotification_code found).

Inductive mu_routine : list action → Prop :=
| routine_drain c n : mu_routine (drain_code c n)
| routine_sendResult found : mu_routine (sendResult_code found)
| routine_sendError found : mu_routine (sendError_code found)
| routine_CloseAll n : mu_routine (CloseAll_code n).

Lemma guarded_writes m h c n : guarded m h (replicate n (ConnWrite c)).
Proof. by induction n. Qed.

Lemma wsMu_guarded k : wsMu_routine k → guarded wsMu [] k.
Proof. destruct 1 as [| |[]]; cbn; split_and?; try done; by repeat constructor. Qed.

Lemma mu_guarded k : mu_routine k → guarded mu [] k.
Proof.
  destruct 1 as [c n|[]|[]|n]; cbn; try (split_and?; try done; right; left).
  - apply guarded_writes.
  - assert ((mu, true) ∈ [(mu, true)]) as Hm by left.
    split; [by left|]. induction n as [|n IH]; cbn; [done|]. auto.
Qed.

(** C32: the routines that take [wsMu] never race with one another on the map of
    connections, however many run, and neither do those that take [mu]. *)
Theorem one_mutex_safe codes pool :
  Forall wsMu_routine codes ∨ Forall mu_routine codes →
  rtc pool_step (start codes) pool → ¬ map_race pool.
Proof.
  intros [H|H]; [apply (one_mutex_no_race wsMu codes)|apply (one_mutex_no_race mu codes)];
    (eapply Forall_impl; [exact H|]); [apply wsMu_guarded|apply mu_guarded].
Qed.

(** ** Two mutexes for one map *)

(** What is held after running [k]; [None] when [k] unlocks what it does not hold
    or locks what it does. *)
Fixpoint holds (h : list (mutex * bool)) (k : list action) : option (list (mutex * bool)) :=
  match k with
  | [] => Some h
  | Lock m :: k => if decide (m ∈ h.*1) then None else holds ((m, true) :: h) k
  | RLock m :: k => if decide (m ∈ h.*1) then None else holds ((m, false) :: h) k
  | Unlock m :: k =>
    match h with (m', true) :: h => if decide (m = m') then holds h k else None | _ => None end
  | RUnlock m :: k =>
    match h with (m', false) :: h => if decide (m = m') then holds h k else None | _ => None end
  | (MapRead | MapWrite | StoreCall | ConnWrite _) :: k => holds h k
  end.

(** Nobody but [i] holds a mutex that [k] locks. *)
Definition undisturbed (pool : Pool) (i : nat) (k : list action) : Prop :=
  ∀ j t m b, j ≠ i → pool !! j = Some t → (m, b) ∈ held t → (Lock m ∉ k) ∧ (RLock m ∉ k).

Lemma lockable pool i h m k k2 :
  undisturbed pool i k → pool !! i = Some (mkThread h k2) → m ∉ h.*1 →
  Lock m ∈ k ∨ RLock m ∈ k → free m pool.
Proof.
  intros Hu Hi Hm Hk t b [j Hj]%list_elem_of_lookup_1 Hb.
  destruct (decide (j = i)) as [->|Hne].
  - rewrite Hi in Hj. injection Hj as <-. apply Hm.
    by apply (list_elem_of_fmap_2 fst h (m, b)).
  - destruct (Hu j t m b Hne Hj Hb) as [? ?]. by destruct Hk.
Qed.

Lemma free_readable m pool : free m pool → readable m pool.
Proof. intros Hf t Ht. by apply Hf. Qed.

(** A goroutine that nobody disturbs can run. *)
Lemma run_code k1 k2 h h' pool i :
  undisturbed pool i k1 → pool !! i = Some (mkThread h (k1 ++ k2)) → holds h k1 = Some h' →
  rtc pool_step pool (<[i := mkThread h' k2]> pool).
Proof.
  revert h pool. induction k1 as [|a k1 IH]; intros h pool Hu Hi Hh.
  { injection Hh as <-. by rewrite list_insert_id. }
  assert (∀ h1, act pool (mkThread h (a :: k1 ++ k2)) (mkThread h1 (k1 ++ k2)) →
    holds h1 k1 = Some h' → rtc pool_step pool (<[i := mkThread h' k2]> pool)) as Hstep.
  { intros h1 Ha Hh1. eapply rtc_l; [by eapply step_thread|].
    pose proof (IH h1 (<[i := mkThread h1 (k1 ++ k2)]> pool)) as H.
    rewrite list_insert_insert_eq in H. apply H; [| |done].
    - intros j t m b Hne Hj Hb. rewrite list_lookup_insert_ne in Hj by done.
      destruct (Hu j t m b Hne Hj Hb). set_solver.
    - apply list_lookup_insert_eq. by eapply lookup_lt_Some. }
  assert (∀ m, m ∉ h.*1 → Lock m ∈ a :: k1 ∨ RLock m ∈ a :: k1 → free m pool) as Hfree
    by (intros; by eapply lockable).
  destruct a; cbn in Hh; repeat case_match; simplify_eq;
    (eapply Hstep; [|exact Hh]); constructor; try done.
  - apply Hfree; [done|left; left].
  - apply free_readable, Hfree; [done|right; left].
Qed.

Lemma holds_app h k k' : holds h (k ++ k') = holds h k ≫= λ h', holds h' k'.
Proof.
  revert h. induction k as [|a k IH]; intros h; [done|].
  destruct a; cbn; repeat case_match; auto.
Qed.

Lemma holds_writes h c n : holds h (replicate n (ConnWrite c)) = Some h.
Proof. by induction n. Qed.

(** Up to the loop a connection ends with nothing held. *)
Lemma holds_opening c n k : holds [] ((register_code ++ drain_code c n) ++ k) = holds [] k.
Proof.
  unfold drain_code. rewrite !holds_app.
  replace (holds [] register_code) with (Some (@nil (mutex * bool))) by done.
  replace (holds [] [Lock mu; StoreCall; Unlock mu]) with (Some (@nil (mutex * bool))) by done.
  change (((holds [] (replicate n (ConnWrite c))) ≫= λ h, holds h k) = holds [] k).
  by rewrite holds_writes.
Qed.

(** Bring goroutine [i] of a pool of two to the end of [k1]. *)
Lemma run_two (i : nat) (t0 t1 : Thread) h k1 k2 h' :
  [t0; t1] !! i = Some (mkThread h (k1 ++ k2)) → holds h k1 = Some h' →
  (∀ j m b, j ≠ i → (m, b) ∈ held (if j is 0%nat then t0 else t1) →
     (Lock m ∉ k1) ∧ (RLock m ∉ k1)) →
  rtc pool_step [t0; t1] (<[i := mkThread h' k2]> [t0; t1]).
Proof.
  intros Hi Hh Hu. eapply run_code; [|exact Hi|exact Hh].
  intros j t m b Hne Hj Hb. destruct j as [|[|j]]; cbn in Hj; simplify_eq; [by apply (Hu 0%nat m b)|].
  by apply (Hu 1%nat m b).
Qed.

Section Races.
Context (c1 c2 : Conn) (n1 n2 : nat) (ms1 ms2 : list Handling).

(** A connection opens while another is sent an error. *)
Lemma map_race_reachable from :
  ∃ pool, map_race pool ∧
    rtc pool_step (start [HandleWebSocket_code c1 n1 ms1;
                          HandleWebSocket_code c2 n2 (Refused from :: ms2)]) pool.
Proof.
  set (rest := MapRead :: RUnlock mu :: write_to from ++ concat (map message_code ms2) ++ close_code).
  set (t1 := mkThread [(mu, false)] rest).
  set (t0 := mkThread [] (HandleWebSocket_code c1 n1 ms1)).
  set (rest0 := MapWrite :: Unlock wsMu :: drain_code c1 n1 ++
                  concat (map message_code ms1) ++ close_code).
  exists [mkThread [(wsMu, true)] rest0; t1]. split.
  - exists 0%nat, 1%nat, MapRead. split; [done|]. split; [by eexists _, _|].
    split; [by eexists _, _|by left].
  - etransitivity.
    + apply (run_two 1 t0 _ [] ((register_code ++ drain_code c2 n2) ++ [RLock mu]) rest [(mu, false)]).
      * cbn. by rewrite <- !app_assoc.
      * by rewrite holds_opening.
      * intros [|j] m b Hne; [by intros ?%not_elem_of_nil|]. by intros ?%not_elem_of_nil.
    + apply (run_two 0 t0 t1 [] [Lock wsMu] rest0 [(wsMu, true)]); [done|done|].
      intros [|j] m b Hne; [done|]. intros [= -> ->]%list_elem_of_singleton. set_solver.
Qed.

(** Two connections relay to a third. *)
Lemma write_race_reachable target from1 from2 :
  ∃ pool, write_race pool ∧
    rtc pool_step (start [HandleWebSocket_code c1 n1 (Delivered target from1 :: ms1);
                          HandleWebSocket_code c2 n2 (Delivered target from2 :: ms2)]) pool.
Proof.
  set (rest from ms := ConnWrite target :: sendResult_code from ++
         concat (map message_code ms) ++ close_code).
  exists [mkThread [] (rest from1 ms1); mkThread [] (rest from2 ms2)]. split.
  - exists 0%nat, 1%nat, target. split; [done|]. split; by eexists _, _.
  - etransitivity.
    + apply (run_two 1 _ _ [] ((register_code ++ drain_code c2 n2) ++
        [RLock wsMu; MapRead; RUnlock wsMu]) (rest from2 ms2) []).
      * cbn. by rewrite <- !app_assoc.
      * by rewrite holds_opening.
      * intros [|j] m b Hne; by intros ?%not_elem_of_nil.
    + apply (run_two 0 _ _ [] ((register_code ++ drain_code c1 n1) ++
        [RLock wsMu; MapRead; RUnlock wsMu]) (rest from1 ms1) []).
      * cbn. by rewrite <- !app_assoc.
      * by rewrite holds_opening.
      * intros [|j] m b Hne; by intros ?%not_elem_of_nil.
Qed.

(** C31: registering and closing a connection change the map under [wsMu], but the
    results and errors of messages read it under [mu]: whatever connections are
    open, a data race on the map is reachable.  And no mutex covers the writes:
    two connections that relay to the same peer come to write to its
    connection at once. *)
Theorem connections_race target from from1 from2 :
  (∃ pool, map_race pool ∧
     rtc pool_step (start [HandleWebSocket_code c1 n1 ms1;
                           HandleWebSocket_code c2 n2 (Refused from :: ms2)]) pool) ∧
  (∃ pool, write_race pool ∧
     rtc pool_step (start [HandleWebSocket_code c1 n1 (Delivered target from1 :: ms1);
                           HandleWebSocket_code c2 n2 (Delivered target from2 :: ms2)]) pool).
Proof. split; [apply map_race_reachable|apply write_race_reachable]. Qed.

End Races.

(** ** No deadlock *)

(** Critical sections are closed and not nested. *)
Fixpoint sectioned (h : list (mutex * bool)) (k : list action) : Prop :=
  match k with
  | [] => h = []
  | Lock m :: k => h = [] ∧ sectioned [(m, true)] k
  | RLock m :: k => h = [] ∧ sectioned [(m, false)] k
  | Unlock m :: k => h = [(m, true)] ∧ sectioned [] k
  | RUnlock m :: k => h = [(m, false)] ∧ sectioned [] k
  | (MapRead | MapWrite | StoreCall | ConnWrite _) :: k => sectioned h k
  end.

Lemma sectioned_app h k k' : sectioned h k → sectioned [] k' → sectioned h (k ++ k').
Proof.
  revert h. induction k as [|a k IH]; intros h; [by intros ->|].
  destruct a; cbn; try (intros [-> ?] ?; split; [done|auto]); auto.
Qed.

Lemma sectioned_writes c n : sectioned [] (replicate n (ConnWrite c)).
Proof. by induction n. Qed.

Lemma act_sectioned pool t t' :
  act pool t t' → sectioned (held t) (code t) → sectioned (held t') (code t').
Proof.
  destruct 1 as [| | | |a]; cbn; try (intros [Hh ?]; by simplify_eq). by destruct a.
Qed.

(** The goroutines of the handler, and those that close all connections. *)
Inductive goroutine : list action → Prop :=
| goroutine_connection c n messages : goroutine (HandleWebSocket_code c n messages)
| goroutine_CloseAll n : goroutine (CloseAll_code n).

Lemma message_sectioned x : sectioned [] (message_code x).
Proof. by destruct x as [|[]|? []|[] []|[] []]. Qed.

Lemma goroutine_sectioned k : goroutine k → sectioned [] k.
Proof.
  destruct 1 as [c n ms|n].
  - apply sectioned_app; [done|]. apply sectioned_app; [apply (sectioned_app [] [_; _; _])|];
      [done|apply sectioned_writes|]. apply sectioned_app; [|done].
    induction ms as [|x ms IH]; [done|]. apply sectioned_app; [apply message_sectioned|done].
  - cbn. split; [done|]. by induction n as [|n IH].
Qed.

(** C33: the handler cannot deadlock: in every reachable state of any number of
    connections and calls of [CloseAll], all have finished or one can step. *)
Theorem no_deadlock codes pool :
  Forall goroutine codes → rtc pool_step (start codes) pool →
  (∀ t, t ∈ pool → code t = []) ∨ ∃ pool', pool_step pool pool'.
Proof.
  intros Hg Hr.
  assert (Forall (λ t, sectioned (held t) (code t)) pool) as Hs.
  { apply (rtc_pool (Forall (λ t, sectioned (held t) (code t))) (start codes)); [|exact Hr|].
    - intros p p' Hp [i t t' Ht Ha]. apply Forall_insert; [done|].
      eapply act_sectioned; [exact Ha|]. by eapply Forall_lookup_1 in Hp.
    - apply Forall_fmap. eapply Forall_impl; [exact Hg|]. apply goroutine_sectioned. }
  rewrite Forall_lookup in Hs.
  destruct (decide (Exists (λ t, held t ≠ []) pool)) as [He|Hn].
  - apply Exists_exists in He as (t & [i Ht]%list_elem_of_lookup_1 & Hh). right.
    specialize (Hs i t Ht). destruct t as [h [|a k]]; cbn in *; [done|].
    destruct a; cbn in Hs; try (destruct Hs as [-> _]; try done);
      eexists; (eapply step_thread; [exact Ht|by constructor]).
  - rewrite <- Forall_Exists_neg, Forall_forall in Hn.
    assert (∀ t, t ∈ pool → held t = []) as Hheld.
    { intros t Ht. specialize (Hn t Ht). destruct (held t); [done|]. by destruct Hn. }
    destruct (decide (Exists (λ t, code t ≠ []) pool)) as [He|Hd].
    + apply Exists_exists in He as (t & Hin & Hk). right.
      pose proof (Hheld t Hin) as Hh. apply list_elem_of_lookup_1 in Hin as [i Ht].
      specialize (Hs i t Ht). destruct t as [h [|a k]]; cbn in *; [done|]. subst h.
      assert (∀ m, free m pool) as Hf by (intros m t b Ht'; rewrite (Hheld t Ht'); apply not_elem_of_nil).
      destruct a; cbn in Hs; try (by destruct Hs as [? _]);
        eexists; (eapply step_thread; [exact Ht|constructor]); try done.
      by apply free_readable.
    + left. rewrite <- Forall_Exists_neg, Forall_forall in Hd. intros t Ht.
      specialize (Hd t Ht). destruct (code t); [done|]. by destruct Hd.
Qed.

(** ** The theorems on concrete goroutines *)

(** A connection that relays is about to look up its target while another is
    about to register. *)
Lemma one_mutex_safe_witness :
  let codes := [register_code; close_code; sendNotification_code (Some 7%nat)] in
  rtc pool_step (start codes) (start codes) ∧ ¬ map_race (start codes).
Proof.
  cbn zeta. split; [done|].
  apply (one_mutex_safe [register_code; close_code; sendNotification_code (Some 7%nat)]); [|done].
  left. repeat constructor.
Defined.

Lemma no_deadlock_witness :
  let codes := [HandleWebSocket_code 1%nat 2 [Delivered 2%nat (Some 1%nat)]; CloseAll_code 1] in
  (∀ t, t ∈ start codes → code t = []) ∨ ∃ pool', pool_step (start codes) pool'.
Proof.
  cbn zeta.
  apply (no_deadlock [HandleWebSocket_code 1%nat 2 [Delivered 2%nat (Some 1%nat)]; CloseAll_code 1]);
    [|done].
  constructor; [apply goroutine_connection|]. constructor; [apply goroutine_CloseAll|constructor].
Defined.
