(* ===== verification/Cleaner.v ===== *)
(** The chunk cleaner of [internal/api/server.go] over time: infinite runs of the
    server of ConcServer.v, over the in-memory store, in which the ticker never
    stops.  (On Postgres nothing is purged: [postgres_chunks_frozen] of
    SQLProps.v.) *)
From S2P Require Import Prelude GoNum GoStrings GoSort Model Sign Hash StoreTypes MemoryStore.
From S2P Require Import Samples MemoryIndex MemoryChunks MemorySystem MemoryRefresh MemoryConc.
From S2P Require Import Store Handler Mux Server ServerProps WebRTC WebRTCProps ConcServer.

Local Open Scope Z_scope.

Section Runs.
Context {J : JSONDecoder} {D : RPCDecoder} {U : UnicodeTables} {E : Ed25519} {S : SliceSort}.

(** A step that is a tick of the cleaner, its clock not before [now]. *)
Definition tick_at (Σ : Server) (now : Z) (Σ' : Server) : Prop :=
  ∃ e S', now ≤ wall (time_Now e 0 0) ∧
    sys_step (system Σ) (LCall e OpDeleteExpiredChunks) S' ∧
    Σ' = mkServer (with_store (hub Σ) S') (threads Σ).

(** A server that runs on: any steps in any order, and a ticker as [time] documents
    it.  It was started at [start]; its k-th tick, step [ticks k], comes no earlier
    than k + 1 intervals later, and there is always another tick. *)
Record server_run (cfg : Config) (start : Z) (ticks : nat → nat) (h : nat → Server) : Prop :=
  mkServerRun {
    run_step n : ∃ l, srv_step cfg (h n) l (h (1 + n)%nat);
    run_order k : (ticks k < ticks (1 + k))%nat;
    run_tick k : tick_at (h (ticks k)) (start + (1 + Z.of_nat k) * cfg_PurgeInterval cfg)
                   (h (1 + ticks k)%nat);
  }.

(** Two entries are versions of one announcement. *)
Definition same_announcement (c c' : chunkRecordEntry) : Prop :=
  ce_key c' = ce_key c ∧ ce_Hash c' = ce_Hash c ∧ ce_SenderID c' = ce_SenderID c ∧
  ce_RecipientID c' = ce_RecipientID c ∧ ce_PeerID c' = ce_PeerID c ∧
  ce_Persist c' = ce_Persist c ∧ ce_CreatedAt c' = ce_CreatedAt c ∧ ce_TTL c' = ce_TTL c.

Lemma later_same c c' : later_entry c c' → same_announcement c c'.
Proof. by intros (?&?&?&?&?&?&?&?&_). Qed.

Lemma same_announcement_r c c' c'' :
  same_announcement c c'' → same_announcement c' c'' → same_announcement c c'.
Proof.
  unfold same_announcement. intros (?&?&?&?&?&?&?&?) (?&?&?&?&?&?&?&?). split_and!; congruence.
Qed.

(** The chunks of a server. *)
Definition srv_chunks (Σ : Server) : list chunkRecordEntry := chunks (store (system Σ)).

(** A step takes every entry over from before, or a call announces it. *)
Lemma srv_step_chunks cfg Σ l Σ' c' :
  srv_step cfg Σ l Σ' → c' ∈ srv_chunks Σ' →
  (∃ c, c ∈ srv_chunks Σ ∧ same_announcement c c') ∨
  ∃ e op, announced_by e (store (system Σ)) op c' ∧ store (system Σ') = next e (store (system Σ)) op.
Proof.
  intros Hstep. unfold srv_chunks. apply srv_step_sys in Hstep as [-> | [l' Hs]]; [by left; exists c'|].
  destruct Hs as [s rs rs' e op He Hop Hrs|s rs e req|s rs rs' i c s' pc Hi Hpc Href Hrs]; cbn.
  - intros [(c & Hc & Hl)|Ha]%next_chunks; [left|right; eauto|done].
    exists c. split; [done|by apply later_same].
  - intros Hc. left. by exists c'.
  - apply access_chunks in Href as [-> _]. intros Hc. left. by exists c'.
Qed.

(** What a tick leaves has not expired. *)
Lemma tick_purges Σ now Σ' c deadline :
  tick_at Σ now Σ' → (1 + deadline) * Second ≤ now → c ∈ srv_chunks Σ' →
  ce_Persist c = false → wrap64 (ce_CreatedAt c + ce_TTL c) ≠ deadline.
Proof.
  intros (e & S' & Hnow & Hstep & ->) Hd. unfold srv_chunks, system. cbn.
  inversion Hstep as [s rs rs' e' op He Hop Hrs Hh| |]; subst. cbn [store next].
  rewrite DeleteExpiredChunks_eq. cbn. intros [_ Hx]%list_elem_of_In%filter_In Hp Heq.
  apply negb_true_iff in Hx. unfold chunk_expired in Hx. rewrite Hp, Heq in Hx.
  cbn in Hx. apply Z.ltb_ge in Hx. unfold time_Unix in Hx.
  assert (1 + deadline ≤ wall (time_Now e 0 0) / Second); [|lia].
  apply Z.div_le_lower_bound; [done|]. lia.
Qed.

Lemma ticks_unbounded cfg start ticks h :
  server_run cfg start ticks h → ∀ k, (k ≤ ticks k)%nat.
Proof.
  intros Hr k. induction k as [|k IH]; [lia|]. pose proof (run_order _ _ _ _ Hr k). cbn in *. lia.
Qed.

(** Once no version of an entry is there, another one has to be announced. *)
Lemma gone_until_announced cfg start ticks h c m m' c' :
  server_run cfg start ticks h → (∀ c', c' ∈ srv_chunks (h m) → ¬ same_announcement c c') →
  (m ≤ m')%nat → c' ∈ srv_chunks (h m') → same_announcement c c' →
  ∃ j e op c0, (m ≤ j < m')%nat ∧ announced_by e (store (system (h j))) op c0 ∧
    same_announcement c c0.
Proof.
  intros Hr Hgone Hle. revert c'. induction Hle as [|m' Hle IH]; intros c' Hc' Hs.
  { exfalso. by eapply Hgone. }
  destruct (run_step _ _ _ _ Hr m') as [l Hstep].
  destruct (srv_step_chunks _ _ _ _ c' Hstep Hc') as [(c0 & Hc0 & Hs0)|(e & op & Ha & _)].
  - destruct (IH c0 Hc0) as (j & e & op & c1 & Hj & H); [by eapply same_announcement_r|].
    exists j, e, op, c1. split; [lia|done].
  - exists m', e, op, c'. split; [lia|done].
Qed.

(** C15: on a server over the in-memory store with a positive purge interval, at
    whatever moment one looks, every chunk entry that is not marked persistent,
    confirmed or not, is gone at some later moment, in every version; and after
    that moment a version of it is there only if a signed call has announced it
    again in between. *)
Theorem chunks_eventually_purged cfg start ticks h n c :
  server_run cfg start ticks h → 0 < cfg_PurgeInterval cfg → ce_Persist c = false →
  ∃ m, (n ≤ m)%nat ∧
    (∀ c', c' ∈ srv_chunks (h m) → ¬ same_announcement c c') ∧
    ∀ m' c', (m ≤ m')%nat → c' ∈ srv_chunks (h m') → same_announcement c c' →
      ∃ j e op c0, (m ≤ j < m')%nat ∧ announced_by e (store (system (h j))) op c0 ∧
        same_announcement c c0.
Proof.
  intros Hr Hp Hper. set (deadline := wrap64 (ce_CreatedAt c + ce_TTL c)).
  set (k := (n + Z.to_nat ((1 + deadline) * Second - start))%nat).
  assert (∀ c', c' ∈ srv_chunks (h (1 + ticks k)%nat) → ¬ same_announcement c c') as Hgone.
  { intros c' Hc' (_ & _ & _ & _ & _ & Hpe & Hcr & Httl).
    apply (tick_purges _ _ _ c' deadline (run_tick _ _ _ _ Hr k)); [|done|congruence|].
    - assert ((1 + deadline) * Second - start ≤ Z.of_nat k) by lia. nia.
    - by rewrite Hcr, Httl. }
  exists (1 + ticks k)%nat. split; [|split; [exact Hgone|]].
  - pose proof (ticks_unbounded _ _ _ _ Hr k). lia.
  - intros m' c'. by apply (gone_until_announced cfg start ticks).
Qed.

End Runs.

(** ** The theorem on a concrete run *)

Local Existing Instance sample_tables.
Local Existing Instance toy_ed25519.
Local Existing Instance insertion_slice_sort.
Local Existing Instances sample_rpc sample_json.

(** Nothing happens but a tick every hour. *)
Fixpoint idle_run (n : nat) : Server :=
  match n with
  | O => mkServer (NewHandler (mkSystem announced [])) []
  | S n =>
    let e := env_second (3600 * Z.of_nat (S n)) in
    mkServer (with_store (hub (idle_run n))
      (mkSystem (next e (store (system (idle_run n))) OpDeleteExpiredChunks) [])) []
  end.

Lemma idle_run_ok : server_run DefaultConfig 0 (λ k, k) idle_run.
Proof.
  assert (∀ n, refreshes (system (idle_run n)) = [] ∧ threads (idle_run n) = []) as Hidle
    by (by intros [|n]).
  assert (∀ n, sys_step (system (idle_run n))
    (LCall (env_second (3600 * Z.of_nat (S n))) OpDeleteExpiredChunks)
    (system (idle_run (S n)))) as Hstep.
  { intros n. destruct (Hidle n) as [Hr _]. cbn [idle_run system hub hub_store with_store].
    destruct (system (idle_run n)) as [s rs]. cbn in Hr. subst rs. apply call_step; [|done].
    apply env_second_ok. }
  split.
  - intros n. exists STick. destruct (Hidle n) as [_ Ht].
    assert (idle_run n = mkServer (hub (idle_run n)) []) as Heq
      by (rewrite <- Ht; by destruct (idle_run n)).
    rewrite Heq. cbn [Nat.add idle_run].
    eapply srv_tick; [done|]. apply (Hstep n).
  - intros k. lia.
  - intros k. exists (env_second (3600 * Z.of_nat (S k))), (system (idle_run (S k))).
    split; [|split; [apply (Hstep k)|]].
    + cbn [env_second env_at time_Now at_second wall DefaultConfig cfg_PurgeInterval]. lia.
    + destruct (Hidle k) as [_ ->]. done.
Qed.

Lemma chunks_eventually_purged_witness :
  length (srv_chunks (idle_run 0)) = 1%nat ∧
  ∃ c m, c ∈ srv_chunks (idle_run 0) ∧ (0 ≤ m)%nat ∧
    ∀ c', c' ∈ srv_chunks (idle_run m) → ¬ same_announcement c c'.
Proof.
  split; [by vm_compute|].
  destruct (srv_chunks (idle_run 0)) as [|c l] eqn:Hc; [by vm_compute in Hc|].
  destruct (chunks_eventually_purged DefaultConfig 0 (λ k, k) idle_run 0 c idle_run_ok)
    as (m & Hm & H & _); [done|vm_compute in Hc; by injection Hc as <- _|].
  exists c, m. split; [left|]. split; [exact Hm|exact H].
Defined.
