(* ===== verification/Migration.v ===== *)
(** [internal/store/migration.go]: the names of migration files, the list of
    migrations they make, and the run that applies those not yet recorded.  The
    embedded files, the SHA-256 sum and the database are parameters. *)
From S2P Require Import Prelude GoNum GoStrings GoSort StoreTypes.

Local Open Scope Z_scope.

(** ** File names *)

(** [strings.TrimSuffix]. *)
Definition TrimSuffix (s suffix : string) : string :=
  let n := (String.length s - String.length suffix)%nat in
  if (String.length suffix <=? String.length s)%nat &&
     String.eqb (String.substring n (String.length suffix) s) suffix
  then String.substring 0 n s else s.

(** [strings.ReplaceAll] of an underscore by a space. *)
Definition underscores_to_spaces (l : list ascii) : list ascii :=
  map (λ c, if Ascii.eqb c "_" then " "%char else c) l.

Definition parseMigrationFile (name : string) : string * string :=
  match split_at "_"%char (bytes (TrimSuffix name ".sql")) with
  | None => (EmptyString, EmptyString)
  | Some (id, desc) => (of_bytes id, of_bytes (underscores_to_spaces desc))
  end.

(** ** The migrations *)

Record Migration := mkMigration {
  mig_ID : string;
  mig_Author : string;
  mig_Description : string;
  mig_SQLite : string;
  mig_Postgres : string;
}.

(** The embedded file system: the names under migrations/sqlite, and reading a
    path. *)
Class MigrationsFS := mkMigrationsFS {
  fs_sqlite_names : list string;
  fs_ReadFile : string → option string;
}.

(** Byte order of file names. *)
Definition name_less (s t : string) : bool := String.ltb s t.

Section Load.
Context {F : MigrationsFS} {S : SliceSort}.

Fixpoint load_entries (names : list string) : result string (list Migration) :=
  match names with
  | [] => Ok []
  | name :: names =>
    let '(id, desc) := parseMigrationFile name in
    if String.eqb id EmptyString then load_entries names else
    match fs_ReadFile ("migrations/sqlite/" +:+ name) with
    | None => Err ("read sqlite/" +:+ name)
    | Some sqliteSQL =>
      let postgresSQL := default EmptyString (fs_ReadFile ("migrations/postgres/" +:+ name)) in
      match load_entries names with
      | Err err => Err err
      | Ok rest =>
        Ok (mkMigration id "muninn" desc (TrimSpace sqliteSQL) (TrimSpace postgresSQL) :: rest)
      end
    end
  end.

Definition loadMigrations : result string (list Migration) :=
  load_entries (sort_Slice name_less fs_sqlite_names).

End Load.

(** ** Applying them *)

(** The database: executing a script, the rows of schema_version ([None] when
    the query fails) and inserting one.  [None] for an error that is nil. *)
Class SQLDB (D : Type) := mkSQLDB {
  sql_Exec : D → string → D * option string;
  sql_version_ids : D → option (list string);
  sql_insert_version : D → Migration → string → Z → D * option string;
}.

Definition schemaVersionTable (driver : string) : string :=
  (if driver == "sqlite" then "CREATE TABLE IF NOT EXISTS schema_version (
			id TEXT PRIMARY KEY,
			author TEXT NOT NULL,
			description TEXT NOT NULL DEFAULT '',
			applied_at INTEGER NOT NULL,
			checksum TEXT NOT NULL DEFAULT ''
		)"
   else if driver == "pgx" then "CREATE TABLE IF NOT EXISTS schema_version (
			id TEXT PRIMARY KEY,
			author TEXT NOT NULL,
			description TEXT NOT NULL DEFAULT '',
			applied_at BIGINT NOT NULL,
			checksum TEXT NOT NULL DEFAULT ''
		)"
   else "")%go.

Section Run.
Context {D : Type} {Q : SQLDB D}.
(** The first 8 bytes of the SHA-256 sum of a string, in hexadecimal. *)
Context (sha256_prefix : string → string).

Definition checksum (m : Migration) : string :=
  sha256_prefix (mig_SQLite m +:+ "|" +:+ mig_Postgres m).

(** The script of a migration for a driver. *)
Definition migration_sql (driver : string) (m : Migration) : string :=
  (if driver == "sqlite" then mig_SQLite m
   else if driver == "pgx" then mig_Postgres m
   else "")%go.

Fixpoint apply_migrations (driver : string) (now : nat → Time) (applied : list string) (db : D)
    (l : list Migration) : D * option string :=
  match l with
  | [] => (db, None)
  | m :: l =>
    if bool_decide (mig_ID m ∈ applied) then apply_migrations driver now applied db l else
    let sql := migration_sql driver m in
    if (sql == "")%go then apply_migrations driver now applied db l else
    match sql_Exec db sql with
    | (db, Some err) => (db, Some ("migration " +:+ mig_ID m +:+ ": " +:+ err))
    | (db, None) =>
      match sql_insert_version db m (checksum m) (time_Unix (now 0%nat)) with
      | (db, Some err) => (db, Some ("record migration " +:+ mig_ID m +:+ ": " +:+ err))
      | (db, None) => apply_migrations driver (λ i, now (1 + i)%nat) applied db l
      end
    end
  end.

Definition runMigrations (driver : string) (now : nat → Time) (migrations : list Migration)
    (db : D) : D * option string :=
  let ddl := schemaVersionTable driver in
  if (ddl == "")%go then (db, Some ("unsupported driver for migration: " +:+ driver)) else
  match sql_version_ids db with
  | Some applied => apply_migrations driver now applied db migrations
  | None =>
    match sql_Exec db ddl with
    | (db, Some err) => (db, Some ("create schema_version: " +:+ err))
    | (db, None) =>
      apply_migrations driver now (default [] (sql_version_ids db)) db migrations
    end
  end.

End Run.

(** ** What a run does *)

(** What the database promises about the table of versions: creating it makes
    it readable, the scripts of the migrations leave it alone, and a row that
    is inserted without an error, and no other, is added. *)
Class SQLDBLaws {D} (Q : SQLDB D) (driver : string) (l : list Migration) : Prop := mkSQLDBLaws {
  ddl_readable db db' :
    sql_Exec db (schemaVersionTable driver) = (db', None) → is_Some (sql_version_ids db');
  script_keeps db m :
    m ∈ l → sql_version_ids (sql_Exec db (migration_sql driver m)).1 = sql_version_ids db;
  insert_adds db m cs t ids :
    sql_version_ids db = Some ids →
    sql_version_ids (sql_insert_version db m cs t).1 =
      Some (match (sql_insert_version db m cs t).2 with
            | None => ids ++ [mig_ID m] | Some _ => ids end);
}.

(** The migrations a run is to apply. *)
Definition pending (driver : string) (applied : list string) (l : list Migration) :
    list Migration :=
  List.filter (λ m, negb (bool_decide (mig_ID m ∈ applied)) &&
                    negb (String.eqb (migration_sql driver m) "")) l.

Section RunLemmas.
Context {D : Type} {Q : SQLDB D} (sha256_prefix : string → string).

Lemma apply_prefix driver all now applied db l ids :
  SQLDBLaws Q driver all → l ⊆ all → sql_version_ids db = Some ids →
  let '(db', err) := apply_migrations sha256_prefix driver now applied db l in
  ∃ k, sql_version_ids db' = Some (ids ++ map mig_ID (take k (pending driver applied l))) ∧
       (err = None → k = length (pending driver applied l)).
Proof.
  intros HL. revert now db ids. induction l as [|m l IH]; intros now db ids Hsub Hids.
  { exists O. cbn. by rewrite app_nil_r. }
  assert (l ⊆ all) as Hsub' by set_solver. cbn [apply_migrations pending List.filter].
  destruct (bool_decide (mig_ID m ∈ applied)); cbn [negb andb]; [by apply IH|].
  destruct (String.eqb_spec (migration_sql driver m) ""); cbn [negb]; [by apply IH|].
  pose proof (script_keeps db m ltac:(set_solver)) as Hk.
  destruct (sql_Exec db (migration_sql driver m)) as [db1 [err|]]; cbn in Hk.
  { exists O. cbn. rewrite app_nil_r. split; [congruence|done]. }
  rewrite Hids in Hk.
  pose proof (insert_adds db1 m (checksum sha256_prefix m) (time_Unix (now 0%nat)) ids Hk) as Hi.
  destruct (sql_insert_version db1 m _ _) as [db2 [err|]]; cbn in Hi.
  { exists O. cbn. by rewrite app_nil_r. }
  specialize (IH (λ i, now (1 + i)%nat) db2 (ids ++ [mig_ID m]) Hsub' Hi).
  destruct (apply_migrations _ driver _ applied db2 l) as [db' err].
  destruct IH as (k & Hk' & He). exists (S k). cbn. rewrite Hk', <- app_assoc. cbn.
  split; [done|]. intros H. by rewrite (He H).
Qed.

Lemma apply_nothing driver now applied db l :
  pending driver applied l = [] → apply_migrations sha256_prefix driver now applied db l = (db, None).
Proof.
  induction l as [|m l IH]; cbn; [done|].
  destruct (bool_decide (mig_ID m ∈ applied)); cbn; [done|].
  by destruct (String.eqb_spec (migration_sql driver m) "").
Qed.

Lemma pending_done driver applied l :
  pending driver (applied ++ map mig_ID (pending driver applied l)) l = [].
Proof.
  unfold pending at 1. apply elem_of_nil_inv. intros m Hm.
  apply list_elem_of_In, filter_In in Hm as [Hin [Ha Hs]%andb_true_iff].
  apply negb_true_iff, bool_decide_eq_false in Ha. apply Ha, elem_of_app.
  destruct (decide (mig_ID m ∈ applied)); [by left|right].
  apply list_elem_of_In, in_map_iff. exists m. split; [done|]. apply filter_In.
  by rewrite bool_decide_false, Hs.
Qed.

(** C40: a run stops at the first migration that fails, the ones before it stay
    recorded, and when it succeeds every pending migration is recorded; the
    next run then has nothing to do and executes no script. *)
Theorem runMigrations_resumes driver now now' db l ids :
  SQLDBLaws Q driver l → schemaVersionTable driver ≠ EmptyString →
  sql_version_ids db = Some ids →
  let '(db', err) := runMigrations sha256_prefix driver now l db in
  ∃ k, sql_version_ids db' = Some (ids ++ map mig_ID (take k (pending driver ids l))) ∧
       (err = None → k = length (pending driver ids l) ∧
          runMigrations sha256_prefix driver now' l db' = (db', None)).
Proof.
  intros HL Hd Hids. unfold runMigrations. rewrite (proj2 (String.eqb_neq _ _) Hd), Hids.
  pose proof (apply_prefix driver l now ids db l ids HL ltac:(done) Hids) as H.
  destruct (apply_migrations _ driver now ids db l) as [db' err].
  destruct H as (k & Hk & He). exists k. split; [done|]. intros H. specialize (He H). split; [done|].
  rewrite Hk. apply apply_nothing. rewrite He, firstn_all. apply pending_done.
Qed.

End RunLemmas.

(** ** File names *)

Lemma append_assoc s t u : (s +:+ t) +:+ u = s +:+ (t +:+ u).
Proof. apply bytes_inj. by rewrite !bytes_app, app_assoc. Qed.

Lemma append_nil_r s : s +:+ "" = s.
Proof. apply bytes_inj. by rewrite bytes_app, app_nil_r. Qed.

Lemma substring_app_l s t : String.substring 0 (String.length s) (s +:+ t) = s.
Proof.
  induction s as [|c s IH]; [by destruct t|].
  change (String c s +:+ t) with (String c (s +:+ t)). cbn. by rewrite IH.
Qed.

Lemma substring_app_r s t : String.substring (String.length s) (String.length t) (s +:+ t) = t.
Proof.
  induction s as [|c s IH]; [|done]. cbn.
  pose proof (substring_app_l t "") as H. by rewrite append_nil_r in H.
Qed.

Lemma length_append s t : String.length (s +:+ t) = (String.length s + String.length t)%nat.
Proof.
  induction s as [|c s IH]; [done|]. change (String c s +:+ t) with (String c (s +:+ t)).
  cbn. by rewrite IH.
Qed.

Lemma TrimSuffix_app s suffix : TrimSuffix (s +:+ suffix) suffix = s.
Proof.
  unfold TrimSuffix. rewrite length_append, Nat.add_sub, substring_app_r, String.eqb_refl.
  rewrite (proj2 (Nat.leb_le _ _)) by lia. cbn. apply substring_app_l.
Qed.

(** a file named after the convention gives its number as the id, which has
    no underscore, and the rest with spaces as the description. *)
Theorem parseMigrationFile_convention id desc :
  "_"%char ∉ bytes id →
  parseMigrationFile (id +:+ "_" +:+ desc +:+ ".sql") =
    (id, of_bytes (underscores_to_spaces (bytes desc))).
Proof.
  intros Hid. unfold parseMigrationFile.
  assert (id +:+ "_" +:+ desc +:+ ".sql" = (id +:+ "_" +:+ desc) +:+ ".sql") as ->
    by (by rewrite !append_assoc).
  rewrite TrimSuffix_app.
  rewrite (proj2 (split_at_Some "_"%char (bytes (id +:+ "_" +:+ desc)) (bytes id) (bytes desc))).
  - by rewrite of_bytes_bytes.
  - split; [|done]. by rewrite !bytes_app.
Qed.

Lemma parseMigrationFile_convention_witness :
  parseMigrationFile "001_initial_schema.sql" = ("001", "initial schema").
Proof.
  etransitivity; [apply (parseMigrationFile_convention "001" "initial_schema")|by vm_compute].
  vm_compute. set_solver.
Defined.

(** ** A run on a concrete database *)

(** The rows of schema_version, if the table exists, and the scripts executed.
    A script that is refused has no effect. *)
Definition toy_db : Type := option (list string) * list string.

Definition toy_exec (db : toy_db) (script : string) : toy_db * option string :=
  if String.eqb script (schemaVersionTable "sqlite") then ((Some (default [] db.1), db.2), None)
  else if String.eqb script "bad" then (db, Some "syntax error")
  else ((db.1, db.2 ++ [script]), None).

#[local] Instance toy_sql : SQLDB toy_db := {
  sql_Exec := toy_exec;
  sql_version_ids := fst;
  sql_insert_version db m _ _ :=
    match db.1 with
    | None => (db, Some "no such table")
    | Some ids => ((Some (ids ++ [mig_ID m]), db.2), None)
    end;
}.

Definition toy_migrations : list Migration :=
  [mkMigration "001" "muninn" "one" "create" ""; mkMigration "002" "muninn" "two" "" "only here";
   mkMigration "003" "muninn" "three" "bad" ""; mkMigration "004" "muninn" "four" "alter" ""].

Lemma toy_sql_laws : SQLDBLaws toy_sql "sqlite" toy_migrations.
Proof.
  split.
  - intros db db' H. injection H as <-. cbn. eauto.
  - intros db m Hm. cbn [sql_Exec sql_version_ids toy_sql]. unfold toy_exec.
    assert (String.eqb (migration_sql "sqlite" m) (schemaVersionTable "sqlite") = false) as ->.
    { unfold toy_migrations in Hm. rewrite !elem_of_cons, elem_of_nil in Hm.
      by destruct Hm as [->|[->|[->|[->|[]]]]]. }
    by destruct (String.eqb _ "bad").
  - intros [v log] m cs t ids. cbn. by intros ->.
Qed.

(** 001 is applied before 003 fails; 004 is not reached. *)
Lemma runMigrations_resumes_witness :
  let run := runMigrations (λ s, s) "sqlite" (λ _, mkTime 0 None) toy_migrations in
  ∃ k, sql_version_ids (run (Some [], [])).1 =
         Some (map mig_ID (take k (pending "sqlite" [] toy_migrations))) ∧
       (run (Some [], [])) = ((Some ["001"], ["create"]), Some "migration 003: syntax error").
Proof.
  cbn zeta.
  pose proof (runMigrations_resumes (λ s, s) "sqlite" (λ _, mkTime 0 None) (λ _, mkTime 0 None)
    (Some [], []) toy_migrations [] toy_sql_laws ltac:(done) eq_refl) as H.
  destruct (runMigrations _ _ _ _ _) as [db err] eqn:Er.
  destruct H as (k & Hk & _). exists k. split; [exact Hk|].
  rewrite <- Er. by vm_compute.
Defined.
