(* ===== verification/Startup.v ===== *)
(** Start-up: the configuration and the choice of a store in [main.go], opening
    the SQL store ([NewDB] of [internal/store/db.go]), and the statements of that
    store that depend on its driver.  The environment, [time.ParseDuration] and
    the database driver are parameters. *)
From S2P Require Import Prelude GoNum GoStrings GoSort Model Sign Hash StoreTypes MemoryStore.
From S2P Require Import MemoryIndex MemoryChunks MemorySystem Store Handler Mux Server Migration.

Local Open Scope Z_scope.

(** ** Opening the SQL store *)

Definition driverSQLite : string := "sqlite".
Definition driverPostgres : string := "postgres".

Definition driverMap : gmap string string :=
  list_to_map [(driverSQLite, "sqlite"); (driverPostgres, "pgx")].

Definition defaultDSN : gmap string string :=
  list_to_map
    [(driverSQLite, "file:muninn.db?cache=shared&_journal_mode=WAL");
     (driverPostgres, "postgres://localhost:5432/muninn?sslmode=disable")].

Record dbStore (D : Type) := mkdbStore { dbs_db : D; dbs_driver : string }.
Arguments mkdbStore {D}.
Arguments dbs_db {D}.
Arguments dbs_driver {D}.

(** [sql.Open] and [Ping]. *)
Class SQLDriver (D : Type) := mkSQLDriver {
  sql_Open : string → string → result string D;
  sql_Ping : D → option string;
}.

Section NewDB.
Context {D : Type} {Q : SQLDB D} {V : SQLDriver D}.
Context (sha256_prefix : string → string) (migrations : list Migration).

Definition NewDB (now : nat → Time) (driver dsn : string) : result string (dbStore D) :=
  match driverMap !! driver with
  | None => Err ("unsupported driver: " +:+ driver)
  | Some sqlDriver =>
    let dsn := if (dsn == "")%go then default EmptyString (defaultDSN !! driver) else dsn in
    match sql_Open sqlDriver dsn with
    | Err err => Err ("open " +:+ driver +:+ ": " +:+ err)
    | Ok db =>
      match sql_Ping db with
      | Some err => Err ("ping " +:+ driver +:+ ": " +:+ err)
      | None =>
        match runMigrations sha256_prefix sqlDriver now migrations db with
        | (_, Some err) => Err ("migrations " +:+ driver +:+ ": " +:+ err)
        | (db, None) => Ok (mkdbStore db driver)
        end
      end
    end
  end.

(** ** main *)

(** [time.ParseDuration], in nanoseconds; [None] is an error. *)
Context (ParseDuration : string → option Z).
(** [os.Getenv]. *)
Context (Getenv : string → string).

Definition main_config : Config :=
  let cfg := DefaultConfig in
  let cfg :=
    if (Getenv "MUNINN_ADDR" != "")%go
    then mkConfig (Getenv "MUNINN_ADDR") (cfg_ReadTimeout cfg) (cfg_WriteTimeout cfg)
           (cfg_ShutdownTimeout cfg) (cfg_PurgeInterval cfg)
    else cfg in
  if (Getenv "MUNINN_PURGE_INTERVAL" != "")%go
  then match ParseDuration (Getenv "MUNINN_PURGE_INTERVAL") with
       | Some d => mkConfig (cfg_Addr cfg) (cfg_ReadTimeout cfg) (cfg_WriteTimeout cfg)
                     (cfg_ShutdownTimeout cfg) d
       | None => cfg
       end
  else cfg.

Definition main_driver : string :=
  let driver := Getenv "MUNINN_STORE_DRIVER" in
  (if (driver != "postgres") && (driver != "internal") then "sqlite" else driver)%go.

(** The store the server gets; an error ends the process. *)
Definition main_store (now : nat → Time) : result string (MemoryStore + dbStore D) :=
  let driver := main_driver in
  if ((driver == "sqlite") || (driver == "postgres"))%go
  then match NewDB now driver (Getenv "MUNINN_STORE_DSN") with
       | Ok st => Ok (inr st)
       | Err err => Err ("open " +:+ driver +:+ " store: " +:+ err)
       end
  else Ok (inl NewMemory).

End NewDB.

(** ** Statements chosen by the driver *)

(** A switch on [s.driver] that leaves the statement empty when no case applies. *)
Definition by_driver (driver pgx sqlite : string) : string :=
  (if driver == "pgx" then pgx else if driver == "sqlite" then sqlite else "")%go.

Definition confirm_stmt (driver : string) : string := by_driver driver
  "UPDATE chunks SET confirmed = 1, updated_at = extract(epoch from now()) WHERE file_id = $1 AND chunk_index = $2 AND recipient_id = $3"
  "UPDATE chunks SET confirmed = 1, updated_at = unixepoch() WHERE file_id = $1 AND chunk_index = $2 AND recipient_id = $3".

Definition read_stmt (driver : string) : string := by_driver driver
  "UPDATE chunks SET readed = 1, updated_at = extract(epoch from now()) WHERE file_id = $1 AND recipient_id = $2"
  "UPDATE chunks SET readed = 1, updated_at = unixepoch() WHERE file_id = $1 AND recipient_id = $2".

Definition expired_chunks_stmt (driver : string) : string := by_driver driver
  "DELETE FROM chunks WHERE persist = 0 AND created_at + ttl < extract(epoch from now())"
  "DELETE FROM chunks WHERE persist = 0 AND created_at + ttl < unixepoch()".

Definition expired_signals_stmt (driver : string) : string := by_driver driver
  "DELETE FROM signals WHERE persist = 0 AND created_at + 5 < extract(epoch from now())"
  "DELETE FROM signals WHERE persist = 0 AND created_at + 5 < unixepoch()".

(** ** Theorems *)

Section Theorems.
Context {D : Type} {Q : SQLDB D} {V : SQLDriver D}.
Context (sha256_prefix : string → string) (migrations : list Migration).

Lemma NewDB_driver now driver dsn (st : dbStore D) :
  NewDB sha256_prefix migrations now driver dsn = Ok st → dbs_driver st = driver.
Proof. unfold NewDB. intros. by branches. Qed.

(** the driver that [main] passes on is always one [NewDB] and the
    migrations know: whatever the environment says, opening the store fails
    only for a reason the database gives. *)
Theorem main_driver_supported Getenv :
  main_driver Getenv = "internal" ∨
  ∃ sqlDriver, driverMap !! main_driver Getenv = Some sqlDriver ∧
    is_Some (defaultDSN !! main_driver Getenv) ∧ schemaVersionTable sqlDriver ≠ EmptyString.
Proof.
  unfold main_driver. destruct (String.eqb_spec (Getenv "MUNINN_STORE_DRIVER") "postgres") as [->|_];
    cbn [negb andb].
  { right. exists "pgx". split_and!; [done|by eexists|done]. }
  destruct (String.eqb_spec (Getenv "MUNINN_STORE_DRIVER") "internal") as [->|_]; cbn [negb].
  - by left.
  - right. exists "sqlite". split_and!; [done|by eexists|done].
Qed.

(** a store opened for Postgres keeps the name its statements do not test:
    confirming and reading a chunk and removing expired ones execute an empty
    statement there, while SQLite gets all of them. *)
Theorem NewDB_statements now driver dsn (st : dbStore D) :
  NewDB sha256_prefix migrations now driver dsn = Ok st →
  let stmts := [confirm_stmt (dbs_driver st); read_stmt (dbs_driver st);
                expired_chunks_stmt (dbs_driver st); expired_signals_stmt (dbs_driver st)] in
  if (driver == "postgres")%go then Forall (λ stmt, stmt = EmptyString) stmts
  else Forall (λ stmt, stmt ≠ EmptyString) stmts.
Proof.
  intros H. cbn zeta. rewrite (NewDB_driver _ _ _ _ H).
  assert (driver = "sqlite" ∨ driver = "postgres") as [-> | ->]; [|by repeat constructor..].
  unfold NewDB in H. destruct (driverMap !! driver) as [d|] eqn:Ed; [|done].
  apply elem_of_list_to_map_2 in Ed. set_solver.
Qed.

End Theorems.

Definition toy_driver : SQLDriver toy_db :=
  mkSQLDriver toy_db (λ _ _, Ok (Some [], [])) (λ _, None).
Local Existing Instances toy_driver toy_sql.

Lemma NewDB_statements_witness :
  ∃ st : dbStore toy_db, NewDB (λ s, s) [] (λ _, mkTime 0 None) "postgres" "" = Ok st ∧
    confirm_stmt (dbs_driver st) = EmptyString.
Proof.
  destruct (NewDB (λ s, s) [] (λ _, mkTime 0 None) "postgres" "") as [st|err] eqn:Es;
    [|by vm_compute in Es].
  exists st. split; [done|].
  pose proof (NewDB_statements (λ s, s) [] (λ _, mkTime 0 None) "postgres" "" st Es) as H.
  cbn in H. by inversion H.
Defined.
