(* ===== verification/Lifecycle.v ===== *)
(** The life of the process: [main.go] from the choice of the store to the end.
    The server runs until a signal arrives; then [CloseAll] empties the map of
    connections, [Shutdown] closes the listener and waits for the requests under
    way, at most for a timeout, and [main] returns.  Until then requests, frames
    and ticks go on; a listener that fails ends the process at once. *)
From S2P Require Import Prelude GoNum GoStrings GoSort Model Sign Hash StoreTypes MemoryStore.
From S2P Require Import Samples MemoryIndex MemorySystem MemoryRefresh MemoryConc Store Handler.
From S2P Require Import Mux Server ServerProps WebRTC WebRTCProps ConcServer Migration Startup.

Local Open Scope Z_scope.

Inductive Phase :=
| Serving
| Closed (* after [CloseAll] *)
| ShuttingDown (* in [Shutdown] *)
| Exited.

Record Process := mkProcess { phase : Phase; server : Server }.

Section Main.
Context {J : JSONDecoder} {D : RPCDecoder} {U : UnicodeTables} {E : Ed25519} {S : SliceSort}.

(** The process once [main] has an in-memory store. *)
Definition main_start : Process := mkProcess Serving srv_init.

Inductive MainStep (cfg : Config) : Process → Process → Prop :=
| main_runs p l Σ Σ' :
    p ≠ Exited → l ≠ SCloseAll → srv_step cfg Σ l Σ' →
    MainStep cfg (mkProcess p Σ) (mkProcess p Σ')
| main_interrupted Σ Σ' :
    srv_step cfg Σ SCloseAll Σ' → MainStep cfg (mkProcess Serving Σ) (mkProcess Closed Σ')
| main_shutdown Σ : MainStep cfg (mkProcess Closed Σ) (mkProcess ShuttingDown Σ)
| main_returns Σ : MainStep cfg (mkProcess ShuttingDown Σ) (mkProcess Exited Σ)
| main_fails p Σ :
    p = Serving ∨ p = Closed → MainStep cfg (mkProcess p Σ) (mkProcess Exited Σ).

Lemma main_step_server cfg p q :
  MainStep cfg p q → srv_steps cfg (server p) (server q).
Proof. destruct 1; cbn; try apply rtc_refl; apply rtc_once; eauto. Qed.

Lemma main_server cfg p q : rtc (MainStep cfg) p q → srv_steps cfg (server p) (server q).
Proof.
  induction 1 as [|p q r Hpq _ IH]; [apply rtc_refl|].
  apply main_step_server in Hpq. unfold srv_steps in *. by etrans.
Qed.

(** Whatever happens between start and exit, interrupts included, the store is
    well formed. *)
Theorem process_store_ok cfg p :
  rtc (MainStep cfg) main_start p →
  peers_ok (store (system (server p))) ∧ ledger_ok (store (system (server p))).
Proof.
  intros H%main_server%srv_reach_sys. split; [by apply sys_peers_ok|by apply sys_ledger_ok].
Qed.

(** After the exit nothing happens. *)
Lemma exited_stays cfg Σ q : rtc (MainStep cfg) (mkProcess Exited Σ) q → q = mkProcess Exited Σ.
Proof. intros H. inversion H as [|? ? ? Hs _]; subst; [done|].
  inversion Hs; subst; naive_solver.
Qed.

(** An interrupt empties the map of connections; a WebSocket request whose thread
    enters its connection after that, and before the process ends, is left in the
    map: nothing closes it. *)
Theorem late_connection_left cfg p upgrade r t peerID c k :
  phase p = Serving → rtc (MainStep cfg) main_start p →
  threads (server p) !! t = Some (Running (accept upgrade r)) →
  accept upgrade r = Enter peerID c k →
  ∃ q, rtc (MainStep cfg) main_start q ∧ phase q = Exited ∧
    wsConns (hub (server q)) = {[peerID := c]}.
Proof.
  destruct p as [? [h ts]]. cbn. intros -> Hp Ht Ha. rewrite Ha in Ht.
  exists (mkProcess Exited (mkServer (ws_register (CloseAll h) peerID c) (<[t := Running k]> ts))).
  split_and!; [|done|done].
  eapply rtc_r; [|apply main_returns]. eapply rtc_r; [|apply main_shutdown].
  eapply rtc_r; [|eapply (main_runs _ _ (SThread t)); [done|done|]].
  2: { eapply srv_thread; [exact Ht|apply thread_enter]. }
  eapply rtc_r; [exact Hp|apply main_interrupted, srv_close_all].
Qed.
End Main.
