(* ===== verification/SQLProg.v ===== *)
(** Calls that go to a database: a call is a program whose steps are single
    database accesses (a statement, a query, a transaction, a reading of the
    clock), so that concurrent calls can be interleaved between them.  [DB] is
    the content of the three tables of the migrations, [tick] what the
    environment decides about one access. *)
From S2P Require Import Prelude GoNum GoStrings GoSort Model Sign Hash StoreTypes.

Local Open Scope Z_scope.

(** ** Programs *)

(** A Go call returns a value with a nil error, returns an error, or panics. *)
Inductive outcome (A : Type) : Type :=
| Return (a : A)
| Fail (err : StoreError)
| Panic.
Arguments Return {A} a.
Arguments Fail {A} err.
Arguments Panic {A}.

(** The application's clock, the database's clock in seconds, the error with
    which the i-th statement of the access fails, if it does, and the order in
    which a query delivers its rows. *)
Record tick := mkTick {
  tk_now : Time;
  tk_epoch : Z;
  tk_fail : nat → option string;
  tk_rows : ∀ A : Type, list A → list A;
}.

(** A query delivers each row once. *)
Definition tick_ok (t : tick) : Prop := ∀ A (l : list A), tk_rows t A l ≡ₚ l.

Inductive prog (D A : Type) : Type :=
| Done (o : outcome A)
| Access (X : Type) (f : tick → D → D * X) (k : X → prog D A).
Arguments Done {D A} o.
Arguments Access {D A} X f k.

Section Prog.
Context {D : Type}.

Fixpoint prog_bind {A B} (f : A → prog D B) (m : prog D A) : prog D B :=
  match m with
  | Done (Return a) => f a
  | Done (Fail err) => Done (Fail err)
  | Done Panic => Done Panic
  | Access X g k => Access X g (λ x, prog_bind f (k x))
  end.

(** The error of a call as a value: the caller's [if err != nil]. *)
Fixpoint try {A} (m : prog D A) : prog D (result StoreError A) :=
  match m with
  | Done (Return a) => Done (Return (Ok a))
  | Done (Fail err) => Done (Return (Err err))
  | Done Panic => Done Panic
  | Access X g k => Access X g (λ x, try (k x))
  end.

(** Replace the error: [return f(err)]. *)
Definition on_error {A} (f : StoreError → StoreError) (m : prog D A) : prog D A :=
  prog_bind (λ r, match r with Ok a => Done (Return a) | Err err => Done (Fail (f err)) end)
    (try m).

(** A call by itself: the i-th access happens at the i-th tick. *)
Fixpoint run {A} (m : prog D A) (ts : nat → tick) (db : D) : D * outcome A :=
  match m with
  | Done o => (db, o)
  | Access X f k => let '(db, x) := f (ts 0%nat) db in run (k x) (λ i, ts (1 + i)%nat) db
  end.

(** ** Accesses *)

Definition now : prog D Time := Access _ (λ t db, (db, tk_now t)) (λ x, Done (Return x)).

(** A statement, given the database's clock: it has its effect or fails. *)
Definition exec {A} (f : Z → D → D * A) : prog D A :=
  Access _ (λ t db,
    match tk_fail t 0%nat with
    | Some msg => (db, Fail (ErrInternal msg))
    | None => let '(db, a) := f (tk_epoch t) db in (db, Return a)
    end) (λ o, Done o).

(** A query that selects rows. *)
Definition select {A} (f : D → list A) : prog D (list A) :=
  Access _ (λ t db,
    (db, match tk_fail t 0%nat with
         | Some msg => Fail (ErrInternal msg)
         | None => Return (tk_rows t A (f db))
         end)) (λ o, Done o).

(** A statement the database does not accept. *)
Definition refused : prog D unit :=
  Access _ (λ t db, (db, Fail (ErrInternal (default "syntax error" (tk_fail t 0%nat)))))
    (λ o, Done o).

(** The empty statement: no effect; the driver may accept it or not. *)
Definition exec_empty : prog D Z := exec (λ _ db, (db, 0)).

(** A transaction as one access: [body] sees the errors of its own statements;
    beginning is statement 0 and committing statement 9.  On any error the
    deferred rollback restores the tables. *)
Definition transaction {A} (commit_error : StoreError → StoreError)
    (body : tick → D → D * outcome A) : prog D A :=
  Access _ (λ t db,
    match tk_fail t 0%nat with
    | Some msg => (db, Fail (ErrWrap "begin tx" (ErrInternal msg)))
    | None =>
      match body t db with
      | (db', Return a) =>
        match tk_fail t 9%nat with
        | Some msg => (db, Fail (commit_error (ErrInternal msg)))
        | None => (db', Return a)
        end
      | (_, o) => (db, o)
      end
    end) (λ o, Done o).

(** ** Invariants of programs *)

(** Every access keeps [I], whatever was read before it: so [I] holds after any
    interleaving of such programs. *)
Fixpoint keeps (I : D → Prop) {A} (m : prog D A) : Prop :=
  match m with
  | Done _ => True
  | Access X f k => (∀ t db, tick_ok t → I db → I (f t db).1) ∧ ∀ x, keeps I (k x)
  end.

End Prog.

#[export] Instance prog_mbind D : MBind (prog D) := λ A B, prog_bind.
#[export] Instance prog_mret D : MRet (prog D) := λ A a, Done (Return a).

Definition fail {D A} (err : StoreError) : prog D A := Done (Fail err).
Definition panic {D A} : prog D A := Done Panic.

Section Keeps.
Context {D : Type} (I : D → Prop).

Lemma keeps_bind {A B} (m : prog D A) (f : A → prog D B) :
  keeps I m → (∀ a, keeps I (f a)) → keeps I (m ≫= f).
Proof.
  intros Hm Hf. induction m as [o|X g k IH]; cbn.
  - destruct o; [apply Hf|done..].
  - destruct Hm as [Hg Hk]. split; [done|]. intros x. by apply IH.
Qed.

Lemma keeps_try {A} (m : prog D A) : keeps I m → keeps I (try m).
Proof.
  induction m as [o|X g k IH]; cbn; [by destruct o|].
  intros [Hg Hk]. split; [done|]. intros x. by apply IH.
Qed.

Lemma keeps_on_error {A} f (m : prog D A) : keeps I m → keeps I (on_error f m).
Proof.
  intros Hm. apply (keeps_bind (try m)); [by apply keeps_try|]. by intros [].
Qed.

Lemma keeps_ret {A} (a : A) : keeps I (mret a : prog D A).
Proof. done. Qed.
Lemma keeps_fail {A} err : keeps I (fail err : prog D A).
Proof. done. Qed.
Lemma keeps_panic {A} : keeps I (panic : prog D A).
Proof. done. Qed.

Lemma keeps_now : keeps I now.
Proof. done. Qed.

Lemma keeps_exec {A} (f : Z → D → D * A) :
  (∀ z db, I db → I (f z db).1) → keeps I (exec f).
Proof.
  intros Hf. split; [|done]. intros t db _ Hdb. destruct (tk_fail t 0%nat); [done|].
  specialize (Hf (tk_epoch t) db Hdb). by destruct (f (tk_epoch t) db).
Qed.

Lemma keeps_select {A} (f : D → list A) : keeps I (select f).
Proof. done. Qed.

Lemma keeps_refused : keeps I refused.
Proof. done. Qed.

Lemma keeps_exec_empty : keeps I exec_empty.
Proof. by apply keeps_exec. Qed.

Lemma keeps_transaction {A} ce (body : tick → D → D * outcome A) :
  (∀ t db db' a, tick_ok t → I db → body t db = (db', Return a) → I db') →
  keeps I (transaction ce body).
Proof.
  intros Hb. split; [|done]. intros t db Ht Hdb.
  destruct (tk_fail t 0%nat); [done|].
  destruct (body t db) as [db' [a| |]] eqn:Eb; [|done..].
  destruct (tk_fail t 9%nat); [done|]. by eapply Hb.
Qed.

(** A call by itself keeps it too. *)
Lemma keeps_run {A} (m : prog D A) ts db :
  keeps I m → (∀ i, tick_ok (ts i)) → I db → I (run m ts db).1.
Proof.
  revert ts db. induction m as [o|X f k IH]; intros ts db; [done|].
  intros [Hf Hk] Ht Hdb. cbn. specialize (Hf (ts 0%nat) db (Ht 0%nat) Hdb). destruct (f (ts 0%nat) db) as [db' x].
  apply IH; [apply Hk|intros i; apply Ht|done].
Qed.

End Keeps.

#[export] Hint Resolve keeps_ret keeps_fail keeps_panic keeps_now keeps_select keeps_refused
  keeps_exec_empty keeps_try keeps_on_error : muninn.

(** ** Calls that run alone at one tick *)

(** The clock stands still for the whole call, nothing fails, and queries
    deliver rows in the order of the table. *)
Record calm (t : tick) : Prop := mkCalm {
  calm_ok i : tk_fail t i = None;
  calm_rows A (l : list A) : tk_rows t A l = l;
}.

Definition run_at {D A} (m : prog D A) (t : tick) (db : D) : D * outcome A := run m (λ _, t) db.

Section RunAt.
Context {D : Type} (t : tick).
Implicit Types db : D.

Lemma run_at_ret {A} (a : A) db : run_at (mret a) t db = (db, Return a).
Proof. done. Qed.
Lemma run_at_fail {A} err db : run_at (fail err : prog D A) t db = (db, Fail err).
Proof. done. Qed.
Lemma run_at_panic {A} db : run_at (panic : prog D A) t db = (db, Panic).
Proof. done. Qed.

Lemma run_at_bind {A B} (m : prog D A) (f : A → prog D B) db :
  run_at (m ≫= f) t db =
    match run_at m t db with
    | (db, Return a) => run_at (f a) t db
    | (db, Fail err) => (db, Fail err)
    | (db, Panic) => (db, Panic)
    end.
Proof.
  revert db. unfold run_at. induction m as [[]|X g k IH]; intros db; cbn; [done..|].
  destruct (g t db) as [db' x]. apply IH.
Qed.

Lemma run_at_try {A} (m : prog D A) db :
  run_at (try m) t db =
    match run_at m t db with
    | (db, Return a) => (db, Return (Ok a))
    | (db, Fail err) => (db, Return (Err err))
    | (db, Panic) => (db, Panic)
    end.
Proof.
  revert db. unfold run_at. induction m as [[]|X g k IH]; intros db; cbn; [done..|].
  destruct (g t db) as [db' x]. apply IH.
Qed.

Lemma run_at_on_error {A} f (m : prog D A) db :
  run_at (on_error f m) t db =
    match run_at m t db with
    | (db, Fail err) => (db, Fail (f err))
    | r => r
    end.
Proof.
  unfold on_error.
  transitivity (run_at (try m ≫= λ r,
    match r with Ok a => Done (Return a) | Err err => Done (Fail (f err)) end) t db); [done|].
  rewrite run_at_bind, run_at_try. by destruct (run_at m t db) as [db' [|?|]].
Qed.

Lemma run_at_now db : run_at now t db = (db, Return (tk_now t)).
Proof. done. Qed.

Context (C : calm t).

Lemma run_at_exec {A} (f : Z → D → D * A) db :
  run_at (exec f) t db = let '(db, a) := f (tk_epoch t) db in (db, Return a).
Proof using C.
  unfold run_at. cbn. rewrite (calm_ok _ C). by destruct (f (tk_epoch t) db).
Qed.

Lemma run_at_select {A} (f : D → list A) db : run_at (select f) t db = (db, Return (f db)).
Proof using C. unfold run_at. cbn. by rewrite (calm_ok _ C), (calm_rows _ C). Qed.

Lemma run_at_transaction {A} ce (body : tick → D → D * outcome A) db :
  run_at (transaction ce body) t db =
    match body t db with (db', Return a) => (db', Return a) | (_, o) => (db, o) end.
Proof using C.
  unfold run_at. cbn. rewrite !(calm_ok _ C). by destruct (body t db) as [db' []].
Qed.

End RunAt.

Create Rewrite HintDb run_at.
#[export] Hint Rewrite @run_at_ret @run_at_fail @run_at_panic @run_at_bind @run_at_try
  @run_at_on_error @run_at_now : run_at.
#[export] Hint Rewrite @run_at_exec @run_at_select @run_at_transaction using assumption : run_at.

(** ** Tables *)

Record peer_row := mkPeerRow {
  pr_id : string;
  pr_key : string;
  pr_login : string;
  pr_encryption_key : string;
  pr_signature_key : string;
  pr_last_seen : Z;
  pr_ttl_seconds : Z;
  pr_quality_score : Z;
  pr_quality_valid : Z;
  pr_quality_invalid : Z;
  pr_peer_flag : string;
  pr_is_fake : Z;
}.

Record chunk_row := mkChunkRow {
  ck_file_id : string;
  ck_chunk_index : Z;
  ck_expected_hash : string;
  ck_sender_id : string;
  ck_recipient_id : string;
  ck_holder_peer_id : string;
  ck_persist : Z;
  ck_confirmed : Z;
  ck_readed : Z;
  ck_created_at : Z;
  ck_updated_at : Z;
  ck_ttl : Z;
}.

Record signal_row := mkSignalRow {
  sg_peer_id : string;
  sg_sig : Signal;
  sg_created_at : Z;
}.

Record DB := mkDB {
  t_peers : list peer_row;
  t_chunks : list chunk_row;
  t_signals : list signal_row;
}.

Definition set_t_peers (db : DB) (l : list peer_row) : DB := mkDB l (t_chunks db) (t_signals db).
Definition set_t_chunks (db : DB) (l : list chunk_row) : DB := mkDB (t_peers db) l (t_signals db).
Definition set_t_signals (db : DB) (l : list signal_row) : DB := mkDB (t_peers db) (t_chunks db) l.

(** UPDATE ... WHERE: the new rows and how many matched; DELETE ... WHERE. *)
Definition update_where {A} (p : A → bool) (f : A → A) (l : list A) : list A * Z :=
  (map (λ x, if p x then f x else x) l, Z.of_nat (length (List.filter p l))).
Definition delete_where {A} (p : A → bool) (l : list A) : list A * Z :=
  (List.filter (λ x, negb (p x)) l, Z.of_nat (length (List.filter p l))).
