(* ===== verification/SQLStore.v ===== *)
(** [internal/store/peer_store.go] and the methods of [internal/store/db.go]: the
    SQL store.  Every method is a program of database accesses; the SQL of a
    statement is written as the function on the tables that it denotes.  A call
    has no lock: between two accesses other calls may run. *)
From S2P Require Import Prelude GoNum GoStrings GoSort Model Sign Hash StoreTypes MemoryStore.
From S2P Require Import MemoryIndex MemoryChunks MemorySystem Store Handler Mux Server Migration.
From S2P Require Import Startup SQLProg.

Local Open Scope Z_scope.

Module sqlStore.

Local Abbreviation sql := (prog DB).

(** ** Rows and peers *)

(** The variable SELECT and the [Scan] that follows it: the column key goes to
    the field Login. *)
Definition scan_peer (r : peer_row) : Peer :=
  mkPeer (pr_id r) (pr_key r) (pr_encryption_key r) (pr_signature_key r)
    (Unix_time (pr_last_seen r)) (pr_ttl_seconds r) (pr_quality_score r)
    (mkQualityStats (pr_quality_valid r) (pr_quality_invalid r)) (pr_peer_flag r)
    (negb (pr_is_fake r =? 0)).

Definition has_id (id : string) (r : peer_row) : bool := (pr_id r == id)%go.
Definition has_key (key : string) (r : peer_row) : bool := (pr_key r == key)%go.
Definition has_login (login signature : string) (r : peer_row) : bool :=
  ((pr_login r == login) && (pr_signature_key r == signature))%go.

Definition isExpired (peer : Peer) (now : Time) : bool :=
  let ttl := if peer_TTLSeconds peer <=? 0 then defaultTTL else peer_TTLSeconds peer in
  seconds ttl <? time_Sub now (peer_LastSeen peer).

(** ** Registration *)

Definition upsert_insert (id encKey sigKey : string) (nowUnix ttl : Z) (req : RegisterRequest)
    (key login : string) : peer_row :=
  mkPeerRow id key login encKey sigKey nowUnix ttl InitialQualityScore 0 0 (reg_PeerFlag req)
    (if default false (reg_Fake req) then 1 else 0).

Definition upsert_update (nowUnix ttl : Z) (peerFlag : string) (r : peer_row) : peer_row :=
  mkPeerRow (pr_id r) (pr_key r) (pr_login r) (pr_encryption_key r) (pr_signature_key r)
    nowUnix ttl (pr_quality_score r) (pr_quality_valid r) (pr_quality_invalid r)
    (if (peerFlag == "")%go then pr_peer_flag r else peerFlag) (pr_is_fake r).

(** The transaction: SELECT is statement 1, INSERT or UPDATE statement 2. *)
Definition upsert_tx (id encKey sigKey key login : string) (nowUnix ttl : Z)
    (req : RegisterRequest) (t : tick) (db : DB) : DB * outcome unit :=
  match tk_fail t 1%nat with
  | Some msg => (db, Fail (ErrWrap "select peer" (ErrInternal msg)))
  | None =>
    let existing := List.find (has_id id) (t_peers db) in
    let encKey := if (encKey == "")%go then match existing with
                    | Some r => pr_encryption_key r | None => EmptyString end else encKey in
    let sigKey := if (sigKey == "")%go then match existing with
                    | Some r => pr_signature_key r | None => EmptyString end else sigKey in
    match tk_fail t 2%nat with
    | Some msg => (db, Fail (ErrWrap "upsert peer" (ErrInternal msg)))
    | None =>
      match existing with
      | None =>
        (set_t_peers db (t_peers db ++
           [upsert_insert id encKey sigKey nowUnix ttl req key login]), Return tt)
      | Some _ =>
        (set_t_peers db (update_where (has_id id)
           (upsert_update nowUnix ttl (reg_PeerFlag req)) (t_peers db)).1, Return tt)
      end
    end
  end.

Definition Upsert (req : RegisterRequest) : sql unit :=
  let id := TrimSpace (reg_ID req) in
  let encKey := TrimSpace (reg_EncryptionKey req) in
  let sigKey := TrimSpace (reg_SignatureKey req) in
  let login := TrimSpace (reg_Login req) in
  let key := login +:+ ":" +:+ sigKey in
  if (id == "")%go then fail ErrInvalidPeer else
  let ttl := if reg_TTLSeconds req <=? 0 then defaultTTL else reg_TTLSeconds req in
  now ← now;
  transaction (ErrWrap "commit")
    (upsert_tx id encKey sigKey key login (time_Unix now) ttl req).

(** The statement has a comma before WHERE, which no database accepts. *)
Definition Refresh (req : RefreshRequest) : sql unit :=
  let id := TrimSpace (refr_ID req) in
  if (id == "")%go then fail ErrInvalidPeer else
  _ ← now;
  transaction (ErrWrap "commit") (λ t db,
    (db, Fail (ErrWrap "refresh peer" (ErrInternal (default "syntax error" (tk_fail t 1%nat)))))).

(** ** Look-up *)

Definition getPeerByID (id : string) : sql Peer :=
  if (id == "")%go then fail ErrInvalidPeer else
  rows ← on_error (ErrWrap "scan peer") (select (λ db, List.filter (has_id id) (t_peers db)));
  match rows with
  | [] => fail ErrNotFound
  | r :: _ =>
    let peer := scan_peer r in
    now ← now;
    if isExpired peer now then fail ErrNotFound else mret peer
  end.

Definition Get (id : string) : sql Peer := getPeerByID (TrimSpace id).

(** The loop over the rows of a look-up by key: expired peers are skipped, the
    clock is read for each row. *)
Fixpoint live_rows (rows : list peer_row) : sql (list Peer) :=
  match rows with
  | [] => mret []
  | r :: rows =>
    now ← now;
    out ← live_rows rows;
    mret (if isExpired (scan_peer r) now then out else scan_peer r :: out)
  end.

Definition peers_by_login (what login signature : string) : sql (list Peer) :=
  rows ← on_error (ErrWrap what) (select (λ db,
    List.filter (has_login login signature) (t_peers db)));
  out ← live_rows rows;
  match out with [] => fail ErrNotFound | _ => mret out end.

(** [keySplit[1]] panics on a key without a colon. *)
Definition getPeerByKey (key : string) : sql (list Peer) :=
  let key := TrimSpace key in
  if (key == "")%go then fail ErrInvalidKey else
  match SplitN2 key ":" with
  | login :: signature :: _ => peers_by_login "query peers by key" login signature
  | _ => panic
  end.

Definition GetByKey (login signature : string) : sql (list Peer) :=
  let login := TrimSpace login in
  let signature := TrimSpace signature in
  if ((login == "") || (signature == ""))%go then fail ErrInvalidKey else
  peers_by_login ("query peers by key " +:+ login +:+ ":" +:+ signature) login signature.

Definition Delete (id : string) : sql unit :=
  let id := TrimSpace id in
  if (id == "")%go then fail ErrInvalidPeer else
  transaction (λ err, err) (λ t db,
    match tk_fail t 1%nat with
    | Some msg => (db, Fail (ErrWrap "delete peer" (ErrInternal msg)))
    | None =>
      let '(l, n) := delete_where (has_id id) (t_peers db) in
      if n =? 0 then (db, Fail ErrNotFound) else (set_t_peers db l, Return tt)
    end).

(** The ids of a list, looked up one by one; a peer that has gone or expired
    meanwhile is skipped. *)
Fixpoint fetch_live (now : Time) (ids : list string) : sql (list Peer) :=
  match ids with
  | [] => mret []
  | id :: ids =>
    r ← try (getPeerByID id);
    out ← fetch_live now ids;
    mret (match r with
          | Ok peer => if isExpired peer now then out else peer :: out
          | Err _ => out
          end)
  end.

Definition not_fake (r : peer_row) : bool := pr_is_fake r =? 0.

Definition List : sql (list Peer) :=
  rows ← on_error (ErrWrap "list peers") (select (λ db, List.filter not_fake (t_peers db)));
  now ← now;
  fetch_live now (map pr_id rows).

Definition heartbeat_update (nowUnix ttl : Z) (r : peer_row) : peer_row :=
  mkPeerRow (pr_id r) (pr_key r) (pr_login r) (pr_encryption_key r) (pr_signature_key r)
    nowUnix (if 0 <? ttl then ttl else pr_ttl_seconds r) (pr_quality_score r)
    (pr_quality_valid r) (pr_quality_invalid r) (pr_peer_flag r) (pr_is_fake r).

(** An UPDATE of the peers table: the number of rows affected. *)
Definition update_peers (p : peer_row → bool) (f : peer_row → peer_row) : sql Z :=
  exec (λ _ db, let '(l, n) := update_where p f (t_peers db) in (set_t_peers db l, n)).

Definition Heartbeat (id : string) (ttlSeconds : Z) : sql Peer :=
  let id := TrimSpace id in
  if (id == "")%go then fail ErrInvalidPeer else
  now ← now;
  n ← on_error (ErrWrap "heartbeat")
    (update_peers (has_id id) (heartbeat_update (time_Unix now) ttlSeconds));
  if n =? 0 then fail ErrNotFound else getPeerByID id.

Definition score_update (score : Z) (r : peer_row) : peer_row :=
  mkPeerRow (pr_id r) (pr_key r) (pr_login r) (pr_encryption_key r) (pr_signature_key r)
    (pr_last_seen r) (pr_ttl_seconds r) score
    (pr_quality_valid r) (pr_quality_invalid r) (pr_peer_flag r) (pr_is_fake r).

Definition SetPeerScore (id : string) (score : Z) : sql unit :=
  let id := TrimSpace id in
  if (id == "")%go then fail ErrInvalidPeer else
  n ← on_error (ErrWrap "set peer score") (update_peers (has_id id) (score_update score));
  if n =? 0 then fail ErrNotFound else mret tt.

(** ** Rankings *)

(** [candidates[:n]] after clamping [n] to the length. *)
Definition clamp_take {A} (n : Z) (l : list A) : list A :=
  let n := if Z.of_nat (length l) <? n then Z.of_nat (length l) else n in
  take (Z.to_nat n) l.

(** The candidates with their scores; the flag is the one of the first query. *)
Fixpoint scored_live (now : Time) (rows : list (string * string)) : sql (list (Peer * Z)) :=
  match rows with
  | [] => mret []
  | (id, flag) :: rows =>
    r ← try (getPeerByID id);
    out ← scored_live now rows;
    mret (match r with
          | Ok peer =>
            if isExpired peer now then out else
            let peer := mkPeer (peer_ID peer) (peer_Login peer) (peer_EncryptionKey peer)
              (peer_SignatureKey peer) (peer_LastSeen peer) (peer_TTLSeconds peer)
              (peer_QualityScore peer) (peer_Quality peer) flag (peer_Fake peer) in
            (peer, EffectiveScore peer) :: out
          | Err _ => out
          end)
  end.

Definition GetBestPeers {S : SliceSort} (n : Z) : sql (list Peer) :=
  if n <=? 0 then mret [] else
  rows ← on_error (ErrWrap "get best peers") (select (λ db, List.filter not_fake (t_peers db)));
  now ← now;
  candidates ← scored_live now (map (λ r, (pr_id r, pr_peer_flag r)) rows);
  mret (map fst (clamp_take n (sort_Slice (greater_by snd) candidates))).

Definition thick_row (r : peer_row) : bool :=
  ((pr_peer_flag r == "thick") || (pr_peer_flag r == "very_thick"))%go && (pr_is_fake r =? 0).

Definition GetBestThickPeers {S : SliceSort} (n : Z) : sql (list Peer) :=
  if n <=? 0 then mret [] else
  rows ← on_error (ErrWrap "get best thick peers")
    (select (λ db, List.filter thick_row (t_peers db)));
  now ← now;
  candidates ← fetch_live now (map pr_id rows);
  mret (clamp_take n (sort_Slice (greater_by EffectiveScore) candidates)).

(** ** Chunks *)

Section Chunks.
Context {U : UnicodeTables} {E : Ed25519}.

(** The check of a signature, as a step that fails. *)
Definition check_signature (peer : Peer) (signature : string) (msg : list ascii) : sql unit :=
  match verifyPeerSignature peer signature msg with
  | Err err => fail err
  | Ok _ => mret tt
  end.

(** [getPeerByKey] where every error becomes [ErrNotFound], and the first peer
    of the answer, which is never empty. *)
Definition first_by_key (key : string) : sql Peer :=
  peers ← on_error (λ _, ErrNotFound) (getPeerByKey key);
  match peers with
  | peer :: _ => mret peer
  | [] => panic
  end.

Definition SetChunkHash (fileID : string) (chunkIndex : Z) (req : RegisterChunkRequest) :
    sql unit :=
  let fileID := TrimSpace fileID in
  let senderKey := TrimSpace (rc_SenderID req) in
  let recipientKey := TrimSpace (rc_RecipientID req) in
  let peerID := TrimSpace (rc_PeerID req) in
  let hash := normalizeHash (rc_Hash req) in
  if ((fileID == "") || (senderKey == "") || (peerID == "") || (hash == "")
      || negb (validHashFormat hash) || (chunkIndex <? 0)%Z || blank (rc_Signature req))%go
  then fail ErrInvalidChunk else
  sender ← first_by_key senderKey;
  _ ← check_signature sender (rc_Signature req) (ExpectedPayload fileID chunkIndex hash);
  let persist := if rc_Persist req then 1 else 0 in
  let chunkTTL := if rc_TTL req <=? 0 then defaultChunkTTL else rc_TTL req in
  now ← now;
  let now := time_Unix now in
  on_error (ErrWrap "set chunk hash") (exec (λ _ db,
    (set_t_chunks db (t_chunks db ++
       [mkChunkRow fileID chunkIndex hash senderKey recipientKey peerID persist 0 0 now now
          chunkTTL]), tt))).

Definition scan_chunk (r : chunk_row) : ChunkRecord :=
  mkChunkRecord (ck_file_id r) (ck_chunk_index r) (ck_sender_id r) (ck_recipient_id r)
    (ck_expected_hash r) (ck_holder_peer_id r) (negb (ck_persist r =? 0))
    (negb (ck_confirmed r =? 0)) (negb (ck_readed r =? 0)) (ck_created_at r) (ck_updated_at r)
    (ck_ttl r).

Definition select_chunks (p : chunk_row → bool) : sql (list ChunkRecord) :=
  rows ← on_error (ErrWrap "get chunks by recipient")
    (select (λ db, List.filter p (t_chunks db)));
  mret (map scan_chunk rows).

Definition GetChunksByRecipient (recipientID : string) (dateFrom : Z) : sql (list ChunkRecord) :=
  let recipientID := TrimSpace recipientID in
  if (recipientID == "")%go then fail ErrInvalidChunk else
  select_chunks (λ r, (ck_recipient_id r == recipientID)%go && (dateFrom <=? ck_updated_at r)).

Definition GetChunksByFileID (fileID : string) : sql (list ChunkRecord) :=
  let fileID := TrimSpace fileID in
  if (fileID == "")%go then fail ErrInvalidChunk else
  select_chunks (λ r, (ck_file_id r == fileID)%go).

(** SET quality_score = quality_score + delta, and one of the counters. *)
Definition quality_update (valid : bool) (r : peer_row) : peer_row :=
  let delta := if valid then QualityPointsValid else QualityPointsInvalid in
  let qValidInc := if valid then 1 else 0 in
  let qInvalidInc := if valid then 0 else 1 in
  mkPeerRow (pr_id r) (pr_key r) (pr_login r) (pr_encryption_key r) (pr_signature_key r)
    (pr_last_seen r) (pr_ttl_seconds r) (pr_quality_score r + delta)
    (pr_quality_valid r + qValidInc) (pr_quality_invalid r + qInvalidInc) (pr_peer_flag r)
    (pr_is_fake r).

Definition delta_of (valid : bool) : Z := if valid then QualityPointsValid else QualityPointsInvalid.

Definition chunk_at (fileID : string) (index : Z) (r : chunk_row) : bool :=
  (ck_file_id r == fileID)%go && (ck_chunk_index r =? index).

Definition ReportChunk (sourcePeerID : string) (req : ChunkReportRequest) :
    sql ChunkReportResult :=
  let sourcePeerID := TrimSpace sourcePeerID in
  let reporterID := TrimSpace (rep_ReporterID req) in
  let fileID := TrimSpace (rep_FileID req) in
  let reported := normalizeHash (rep_Hash req) in
  if ((sourcePeerID == "") || (reporterID == "") || (fileID == "") || (reported == "")
      || negb (validHashFormat reported) || (rep_ChunkIndex req <? 0)%Z
      || blank (rep_Signature req))%go
  then fail ErrInvalidChunk else
  reporter ← on_error (λ _, ErrNotFound) (getPeerByID reporterID);
  _ ← check_signature reporter (rep_Signature req)
        (ReportedPayload fileID (rep_ChunkIndex req) reported sourcePeerID);
  rows ← on_error (ErrWrap "get chunk") (select (λ db,
    List.filter (chunk_at fileID (rep_ChunkIndex req)) (t_chunks db)));
  match rows with
  | [] => fail ErrChunkNotFound
  | r :: _ =>
    let expected := ck_expected_hash r in
    let valid := (reported == expected)%go in
    _ ← on_error (ErrWrap "update quality")
          (update_peers (has_id sourcePeerID) (quality_update valid));
    peer ← on_error (ErrWrap "get updated peer") (getPeerByID sourcePeerID);
    mret (mkChunkReportResult valid expected reported (delta_of valid) peer)
  end.

Definition chunk_for (fileID : string) (index : Z) (recipient : string) (r : chunk_row) : bool :=
  chunk_at fileID index r && (ck_recipient_id r == recipient)%go.

(** An UPDATE of the chunks table that a driver may lack. *)
Definition update_chunks (stmt : string) (p : chunk_row → bool)
    (f : Z → chunk_row → chunk_row) : sql Z :=
  if (stmt == "")%go then exec_empty
  else exec (λ epoch db,
    let '(l, n) := update_where p (f epoch) (t_chunks db) in (set_t_chunks db l, n)).

Definition confirm_update (epoch : Z) (r : chunk_row) : chunk_row :=
  mkChunkRow (ck_file_id r) (ck_chunk_index r) (ck_expected_hash r) (ck_sender_id r)
    (ck_recipient_id r) (ck_holder_peer_id r) (ck_persist r) 1 (ck_readed r) (ck_created_at r)
    epoch (ck_ttl r).

Definition read_update (epoch : Z) (r : chunk_row) : chunk_row :=
  mkChunkRow (ck_file_id r) (ck_chunk_index r) (ck_expected_hash r) (ck_sender_id r)
    (ck_recipient_id r) (ck_holder_peer_id r) (ck_persist r) (ck_confirmed r) 1 (ck_created_at r)
    epoch (ck_ttl r).

Definition ConfirmChunk (driver : string) (req : ConfirmChunkRequest) : sql ConfirmChunkResult :=
  let recipientKey := TrimSpace (conf_RecipientID req) in
  let fileID := TrimSpace (conf_FileID req) in
  let confirmed := normalizeHash (conf_Hash req) in
  if ((fileID == "") || (confirmed == "") || negb (validHashFormat confirmed)
      || (conf_ChunkIndex req <? 0)%Z || blank (conf_Signature req))%go
  then fail ErrInvalidChunk else
  recipient ← first_by_key recipientKey;
  _ ← check_signature recipient (conf_Signature req)
        (ConfirmedPayload fileID (conf_ChunkIndex req) confirmed);
  rows ← on_error (ErrWrap "get chunk") (select (λ db,
    List.filter (chunk_for fileID (conf_ChunkIndex req) recipientKey) (t_chunks db)));
  match rows with
  | [] => fail ErrChunkNotFound
  | r :: _ =>
    let expectedHash := ck_expected_hash r in
    let senderKey := ck_sender_id r in
    let valid := (confirmed == expectedHash)%go in
    _ ← on_error (ErrWrap "update quality")
          (update_peers (has_key senderKey) (quality_update valid));
    _ ← (if valid
         then on_error (ErrWrap "update confirmed")
                (update_chunks (confirm_stmt driver)
                   (chunk_for fileID (conf_ChunkIndex req) recipientKey) confirm_update)
         else mret 0);
    senders ← on_error (ErrWrap "get updated peer") (getPeerByKey senderKey);
    match senders with
    | sender :: _ =>
      mret (mkConfirmChunkResult valid expectedHash confirmed (delta_of valid) sender)
    | [] => panic
    end
  end.

Definition ReadChunk (driver : string) (req : ReadChunkRequest) : sql ReadChunkResult :=
  let recipientKey := TrimSpace (read_RecipientID req) in
  let fileID := TrimSpace (read_FileID req) in
  if ((fileID == "") || blank (read_Signature req))%go then fail ErrInvalidChunk else
  recipient ← first_by_key recipientKey;
  _ ← check_signature recipient (read_Signature req) (ReadPayload fileID);
  _ ← on_error (ErrWrap "update readed")
        (update_chunks (read_stmt driver)
           (λ r, ((ck_file_id r == fileID) && (ck_recipient_id r == recipientKey))%go) read_update);
  mret (mkReadChunkResult true).

End Chunks.

(** ** Signals *)

Definition SetSignal (peerID : string) (sig : Signal) : sql unit :=
  let peerID := TrimSpace peerID in
  if ((peerID == "") || (sig_From sig == "") || (sig_Type sig == ""))%go
  then fail ErrInvalidChunk else
  _ ← on_error (λ _, ErrNotFound) (getPeerByID peerID);
  now ← now;
  exec (λ _ db,
    (set_t_signals db (t_signals db ++ [mkSignalRow peerID sig (time_Unix now)]), tt)).

Definition to_peer (peerID : string) (r : signal_row) : bool := (sg_peer_id r == peerID)%go.

(** Two statements; the error of the second is ignored. *)
Definition PollSignals (peerID : string) : sql (list Signal) :=
  let peerID := TrimSpace peerID in
  if (peerID == "")%go then fail ErrInvalidChunk else
  rows ← on_error (ErrWrap "query signals")
    (select (λ db, List.filter (to_peer peerID) (t_signals db)));
  _ ← try (exec (λ _ db,
        let '(l, n) := delete_where (to_peer peerID) (t_signals db) in (set_t_signals db l, n)));
  mret (map sg_sig rows).

(** ** Removal of expired chunks *)

Definition row_expired (epoch : Z) (r : chunk_row) : bool :=
  (ck_persist r =? 0) && (ck_created_at r + ck_ttl r <? epoch).

(** The second statement names a column the table of signals does not have;
    its error is ignored. *)
Definition DeleteExpiredChunks (driver : string) : sql Z :=
  n ← on_error (ErrWrap "delete expired chunks")
    (if (expired_chunks_stmt driver == "")%go then exec_empty
     else exec (λ epoch db,
       let '(l, n) := delete_where (row_expired epoch) (t_chunks db) in (set_t_chunks db l, n)));
  _ ← try (if (expired_signals_stmt driver == "")%go then (_ ← exec_empty; mret tt) else refused);
  mret n.

End sqlStore.
