(* ===== verification/SQLInvariant.v ===== *)
(** The SQL store under concurrent calls: an invariant of the tables that every
    database access keeps, hence any interleaving of any calls; and what no
    interleaving ever does on Postgres. *)
From S2P Require Import Prelude GoNum GoStrings GoSort Model Sign Hash StoreTypes MemoryStore.
From S2P Require Import MemoryIndex MemoryChunks MemorySystem Store Handler Mux Server Migration.
From S2P Require Import Startup SQLProg SQLStore.

Local Open Scope Z_scope.

(** ** Concurrent calls *)

Section Calls.
Context {U : UnicodeTables} {E : Ed25519} {S : SliceSort}.

(** The program of a method of the interface, its answer left out. *)
Definition sql_call (driver : string) (op : Op) : prog DB unit :=
  match op with
  | OpUpsert req => sqlStore.Upsert req
  | OpRefresh req => sqlStore.Refresh req
  | OpGet id => _ ← sqlStore.Get id; mret tt
  | OpGetByKey login signature => _ ← sqlStore.GetByKey login signature; mret tt
  | OpDelete id => sqlStore.Delete id
  | OpList => _ ← sqlStore.List; mret tt
  | OpHeartbeat id ttl => _ ← sqlStore.Heartbeat id ttl; mret tt
  | OpSetChunkHash f i req => sqlStore.SetChunkHash f i req
  | OpGetBestPeers n => _ ← sqlStore.GetBestPeers n; mret tt
  | OpReportChunk src req => _ ← sqlStore.ReportChunk src req; mret tt
  | OpConfirmChunk req => _ ← sqlStore.ConfirmChunk driver req; mret tt
  | OpReadChunk req => _ ← sqlStore.ReadChunk driver req; mret tt
  | OpGetChunksByRecipient id from => _ ← sqlStore.GetChunksByRecipient id from; mret tt
  | OpGetChunksByFileID id => _ ← sqlStore.GetChunksByFileID id; mret tt
  | OpGetBestThickPeers n => _ ← sqlStore.GetBestThickPeers n; mret tt
  | OpSetSignal id sig => sqlStore.SetSignal id sig
  | OpPollSignals id => _ ← sqlStore.PollSignals id; mret tt
  | OpDeleteExpiredChunks => _ ← sqlStore.DeleteExpiredChunks driver; mret tt
  end.

(** A running store: the tables and what is left of the calls in flight.  A call
    starts, or one of them performs its next access. *)
Inductive sql_step (driver : string) : DB * list (prog DB unit) → DB * list (prog DB unit) → Prop :=
| sql_start db calls op : sql_step driver (db, calls) (db, calls ++ [sql_call driver op])
| sql_access db calls i X f k t :
    calls !! i = Some (Access X f k) → tick_ok t →
    sql_step driver (db, calls) ((f t db).1, <[i := k (f t db).2]> calls).

Definition empty_db : DB := mkDB [] [] [].

(** The calls in flight keep what every call keeps. *)
Lemma sql_calls_keep (I : DB → Prop) driver st0 st :
  (∀ op, keeps I (sql_call driver op)) → rtc (sql_step driver) st0 st →
  Forall (keeps I) st0.2 → Forall (keeps I) st.2.
Proof.
  intros Hop Hst. induction Hst as [st|st0 st1 st Hstep _ IH]; [done|].
  intros Hc. apply IH. destruct Hstep as [db calls op|db calls i X f k t Hl Ht].
  - apply Forall_app. split; [done|]. by repeat constructor.
  - destruct (Forall_lookup_1 _ _ _ _ Hc Hl) as [_ Hx].
    apply Forall_insert; [done|apply Hx].
Qed.

(** What every access of every call keeps stays true. *)
Lemma sql_keeps (I : DB → Prop) driver st0 st :
  (∀ op, keeps I (sql_call driver op)) → rtc (sql_step driver) st0 st →
  Forall (keeps I) st0.2 → I st0.1 → I st.1.
Proof.
  intros Hop Hst. induction Hst as [st|st0 st1 st Hstep _ IH]; [done|].
  intros Hc Hi. apply IH.
  - apply (sql_calls_keep I driver st0 st1 Hop); [by apply rtc_once|done].
  - destruct Hstep as [db calls op|db calls i X f k t Hl Ht]; [done|].
    destruct (Forall_lookup_1 _ _ _ _ Hc Hl) as [Hf _]. by apply Hf.
Qed.

(** A call that runs alone takes such steps. *)
Lemma sql_run_steps driver (m : prog DB unit) ts db calls i :
  (∀ j, tick_ok (ts j)) → calls !! i = Some m →
  rtc (sql_step driver) (db, calls) ((run m ts db).1, <[i := Done (run m ts db).2]> calls).
Proof.
  revert ts db calls. induction m as [o|X f k IH]; intros ts db calls Hts Hl.
  { cbn. by rewrite list_insert_id. }
  cbn. destruct (f (ts 0%nat) db) as [db' x] eqn:Ef.
  eapply rtc_l; [by eapply (sql_access driver db calls i X f k (ts 0%nat))|]. rewrite Ef. cbn.
  pose proof (IH x (λ j, ts (1 + j)%nat) db' (<[i := k x]> calls) (λ j, Hts _)) as H.
  rewrite list_insert_insert_eq in H. apply H, list_lookup_insert_eq. by eapply lookup_lt_Some.
Qed.

End Calls.

(** ** Reducing an invariant to the writes *)

(** The rows that registering a chunk may insert. *)
Definition fresh_chunk (r : chunk_row) : Prop :=
  validHashFormat (ck_expected_hash r) = true ∧ 0 ≤ ck_chunk_index r ∧
  ck_file_id r ≠ EmptyString ∧ ck_sender_id r ≠ EmptyString ∧
  ck_confirmed r = 0 ∧ ck_readed r = 0 ∧ ck_updated_at r = ck_created_at r ∧ 0 < ck_ttl r.

(** What the statements that write may do, for one driver: an invariant that
    these keep is kept by every call. *)
Record writes_keep (driver : string) (I : DB → Prop) : Prop := mkWritesKeep {
  w_upsert id enc sig login now ttl req t db db' :
    id = TrimSpace (reg_ID req) → id ≠ EmptyString → 0 < ttl → I db →
    sqlStore.upsert_tx id enc sig (login +:+ ":" +:+ sig) login now ttl req t db =
      (db', Return tt) → I db';
  w_delete id db :
    I db → I (set_t_peers db (delete_where (sqlStore.has_id id) (t_peers db)).1);
  w_heartbeat id now ttl db :
    I db → I (set_t_peers db
      (update_where (sqlStore.has_id id) (sqlStore.heartbeat_update now ttl) (t_peers db)).1);
  w_quality p valid db :
    I db → I (set_t_peers db (update_where p (sqlStore.quality_update valid) (t_peers db)).1);
  w_chunk r db : fresh_chunk r → I db → I (set_t_chunks db (t_chunks db ++ [r]));
  w_confirm p epoch db :
    confirm_stmt driver ≠ EmptyString → I db →
    I (set_t_chunks db (update_where p (sqlStore.confirm_update epoch) (t_chunks db)).1);
  w_read p epoch db :
    read_stmt driver ≠ EmptyString → I db →
    I (set_t_chunks db (update_where p (sqlStore.read_update epoch) (t_chunks db)).1);
  w_expire epoch db :
    expired_chunks_stmt driver ≠ EmptyString → I db →
    I (set_t_chunks db (delete_where (sqlStore.row_expired epoch) (t_chunks db)).1);
  w_signals l db : I db → I (set_t_signals db l);
}.

Lemma default_positive d ttl : 0 < d → 0 < (if ttl <=? 0 then d else ttl).
Proof. destruct (Z.leb_spec ttl 0); lia. Qed.

(** Follow a program down to its accesses. *)
Ltac keeps_steps :=
  repeat lazymatch goal with
    | |- keeps _ (mbind _ _) => apply keeps_bind; [|intros ?]
    | |- keeps _ (on_error _ _) => apply keeps_on_error
    | |- keeps _ (try _) => apply keeps_try
    | |- keeps _ (match _ with _ => _ end) => case_match
    | |- keeps _ (let _ := _ in _) => cbv zeta
    | |- keeps _ now => apply keeps_now
    | |- keeps _ (mret _) => apply keeps_ret
    | |- keeps _ (fail _) => apply keeps_fail
    | |- keeps _ panic => apply keeps_panic
    | |- keeps _ (select _) => apply keeps_select
    | |- keeps _ refused => apply keeps_refused
    | |- keeps _ exec_empty => apply keeps_exec_empty
    end.

Section WritesKeep.
Context {U : UnicodeTables} {E : Ed25519} {S : SliceSort}.
Context (driver : string) (I : DB → Prop) (W : writes_keep driver I).

Lemma getPeerByID_keeps id : keeps I (sqlStore.getPeerByID id).
Proof. unfold sqlStore.getPeerByID. keeps_steps. Qed.

Lemma live_rows_keeps rows : keeps I (sqlStore.live_rows rows).
Proof. induction rows as [|r rows IH]; cbn [sqlStore.live_rows]; keeps_steps. exact IH. Qed.

Lemma peers_by_login_keeps what login signature :
  keeps I (sqlStore.peers_by_login what login signature).
Proof. unfold sqlStore.peers_by_login. keeps_steps. apply live_rows_keeps. Qed.

Lemma getPeerByKey_keeps key : keeps I (sqlStore.getPeerByKey key).
Proof. unfold sqlStore.getPeerByKey. keeps_steps. apply peers_by_login_keeps. Qed.

Lemma first_by_key_keeps key : keeps I (sqlStore.first_by_key key).
Proof. unfold sqlStore.first_by_key. keeps_steps. apply getPeerByKey_keeps. Qed.

Lemma fetch_live_keeps now ids : keeps I (sqlStore.fetch_live now ids).
Proof.
  induction ids as [|id ids IH]; cbn [sqlStore.fetch_live]; keeps_steps;
    try apply getPeerByID_keeps; exact IH.
Qed.

Lemma scored_live_keeps now rows : keeps I (sqlStore.scored_live now rows).
Proof.
  induction rows as [|[id flag] rows IH]; cbn [sqlStore.scored_live]; keeps_steps;
    try apply getPeerByID_keeps; exact IH.
Qed.

Lemma check_signature_keeps p sg m : keeps I (sqlStore.check_signature p sg m).
Proof. unfold sqlStore.check_signature. keeps_steps. Qed.

Lemma select_chunks_keeps p : keeps I (sqlStore.select_chunks p).
Proof. unfold sqlStore.select_chunks. keeps_steps. Qed.

Lemma update_peers_keeps p f :
  (∀ db, I db → I (set_t_peers db (update_where p f (t_peers db)).1)) →
  keeps I (sqlStore.update_peers p f).
Proof. intros Hf. apply keeps_exec. intros _ db Hdb. by apply Hf. Qed.

Lemma update_chunks_keeps stmt p f :
  (∀ epoch db, stmt ≠ EmptyString → I db →
     I (set_t_chunks db (update_where p (f epoch) (t_chunks db)).1)) →
  keeps I (sqlStore.update_chunks stmt p f).
Proof.
  intros Hf. unfold sqlStore.update_chunks. destruct (String.eqb_spec stmt ""); [keeps_steps|].
  apply keeps_exec. intros epoch db Hdb. by apply Hf.
Qed.

End WritesKeep.

#[export] Hint Resolve getPeerByID_keeps peers_by_login_keeps getPeerByKey_keeps
  first_by_key_keeps fetch_live_keeps scored_live_keeps check_signature_keeps
  select_chunks_keeps update_peers_keeps update_chunks_keeps : muninn.

Section CallsKeep.
Context {U : UnicodeTables} {E : Ed25519} {S : SliceSort}.
Context (driver : string) (I : DB → Prop) (W : writes_keep driver I).

Lemma Upsert_keeps req : keeps I (sqlStore.Upsert req).
Proof using W.
  unfold sqlStore.Upsert. cbn zeta.
  destruct (String.eqb_spec (TrimSpace (reg_ID req)) "") as [_|Hid]; keeps_steps;
    apply keeps_transaction; intros t db db' [] _ Hdb Htx;
    (eapply W; [| | |exact Hdb|exact Htx]; [done|done|by apply default_positive]).
Qed.

Lemma Refresh_keeps req : keeps I (sqlStore.Refresh req).
Proof. unfold sqlStore.Refresh. keeps_steps. apply keeps_transaction. by intros. Qed.

Lemma Delete_keeps id : keeps I (sqlStore.Delete id).
Proof using W.
  unfold sqlStore.Delete. keeps_steps. apply keeps_transaction. intros t db db' a _ Hdb Htx.
  pose proof (w_delete _ _ W (TrimSpace id) db Hdb) as Hd. cbn in Hd, Htx.
  repeat case_match; simplify_eq. exact Hd.
Qed.

Lemma Heartbeat_keeps id ttl : keeps I (sqlStore.Heartbeat id ttl).
Proof using W.
  unfold sqlStore.Heartbeat. keeps_steps; auto with muninn.
  apply update_peers_keeps. intros db. apply W.
Qed.

Lemma SetChunkHash_keeps f i req : keeps I (sqlStore.SetChunkHash f i req).
Proof using W.
  unfold sqlStore.SetChunkHash, blank. cbn zeta.
  destruct (_ || (TrimSpace (rc_Signature req) == ""))%go eqn:Eg; [keeps_steps|].
  bool_hyps. keeps_steps; auto with muninn; apply keeps_exec; intros _ db Hdb; apply W;
    repeat split; cbn; try done; [lia|by apply default_positive].
Qed.

Lemma ReportChunk_keeps src req : keeps I (sqlStore.ReportChunk src req).
Proof using W.
  unfold sqlStore.ReportChunk. cbn zeta. keeps_steps; auto with muninn;
    apply update_peers_keeps; intros db; apply W.
Qed.

Lemma ConfirmChunk_keeps req : keeps I (sqlStore.ConfirmChunk driver req).
Proof using W.
  unfold sqlStore.ConfirmChunk. cbn zeta. keeps_steps; auto with muninn.
  all: first [apply update_peers_keeps; intros db; apply W
             |apply update_chunks_keeps; intros epoch db; apply W].
Qed.

Lemma ReadChunk_keeps req : keeps I (sqlStore.ReadChunk driver req).
Proof using W.
  unfold sqlStore.ReadChunk. cbn zeta. keeps_steps; auto with muninn.
  apply update_chunks_keeps; intros epoch db; apply W.
Qed.

Lemma SetSignal_keeps id sig : keeps I (sqlStore.SetSignal id sig).
Proof using W.
  unfold sqlStore.SetSignal. cbn zeta. keeps_steps; auto with muninn.
  apply keeps_exec. intros _ db. apply W.
Qed.

Lemma PollSignals_keeps id : keeps I (sqlStore.PollSignals id).
Proof using W.
  unfold sqlStore.PollSignals. cbn zeta. keeps_steps.
  apply keeps_exec. intros _ db. apply W.
Qed.

Lemma DeleteExpiredChunks_keeps : keeps I (sqlStore.DeleteExpiredChunks driver).
Proof using W.
  unfold sqlStore.DeleteExpiredChunks.
  destruct (String.eqb_spec (expired_chunks_stmt driver) ""); keeps_steps;
    apply keeps_exec; intros epoch db; by apply W.
Qed.

(** Every access of every call keeps what the writes keep. *)
Lemma sql_call_keeps op : keeps I (sql_call driver op).
Proof using W.
  destruct op; cbn [sql_call];
    auto using Upsert_keeps, Refresh_keeps, Delete_keeps, SetChunkHash_keeps, SetSignal_keeps;
    apply keeps_bind; try (intros; apply keeps_ret);
    auto using Heartbeat_keeps, ReportChunk_keeps, ConfirmChunk_keeps, ReadChunk_keeps,
      PollSignals_keeps, DeleteExpiredChunks_keeps.
  all: unfold sqlStore.Get, sqlStore.GetByKey, sqlStore.List, sqlStore.GetBestPeers,
    sqlStore.GetBestThickPeers, sqlStore.GetChunksByRecipient, sqlStore.GetChunksByFileID.
  all: keeps_steps; auto with muninn.
Qed.

End CallsKeep.
