(* ===== verification/SQLSamples.v ===== *)
(** Concrete tables, ticks and runs of the SQL store, for the instances that
    show the hypotheses of its theorems can hold. *)
From S2P Require Import Prelude GoNum GoStrings GoSort Model Sign Hash StoreTypes MemoryStore.
From S2P Require Import Samples MemorySystem Store Handler Mux Server Migration Startup.
From S2P Require Import SQLProg SQLStore SQLInvariant.

Local Open Scope Z_scope.

Local Existing Instance sample_tables.
Local Existing Instance toy_ed25519.
Local Existing Instance insertion_slice_sort.

(** Second [n], at which nothing fails. *)
Definition tick_second (n : Z) : tick := mkTick (at_second n) n (λ _, None) (λ _ l, l).

Lemma tick_second_calm n : calm (tick_second n).
Proof. by split. Qed.
Lemma tick_second_ok n : tick_ok (tick_second n).
Proof. by intros A l. Qed.

(** Calls one after the other, each at its second. *)
Definition sql_run (driver : string) (ops : list (Z * Op)) (db : DB) : DB :=
  fold_left (λ db '(n, op), (run_at (sql_call driver op) (tick_second n) db).1) ops db.

Lemma sql_run_reach driver ops db calls :
  ∃ calls', rtc (sql_step driver) (db, calls) (sql_run driver ops db, calls').
Proof.
  revert db calls. induction ops as [|[n op] ops IH]; intros db calls; [by exists calls|].
  set (m := sql_call driver op). set (r := run m (λ _, tick_second n) db).
  destruct (IH r.1 (<[length calls := Done r.2]> (calls ++ [m]))) as [calls' H].
  exists calls'. eapply rtc_l; [apply (sql_start driver db calls op)|].
  eapply rtc_trans; [|exact H]. apply sql_run_steps; [intros _; apply tick_second_ok|].
  by apply list_lookup_middle.
Qed.

(** Alice and Bob have registered, and Alice has announced a chunk. *)
Definition sql_two_peers (driver : string) : DB :=
  sql_run driver [(100, OpUpsert (register "alice" "alice"));
                  (100, OpUpsert (register " bob " "bob"))] empty_db.
Definition sql_announced (driver : string) : DB :=
  sql_run driver [(110, OpSetChunkHash "file" 0 (announce "file"))] (sql_two_peers driver).

Lemma sql_announced_reach driver :
  ∃ calls, rtc (sql_step driver) (empty_db, []) (sql_announced driver, calls).
Proof.
  destruct (sql_run_reach driver [(100, OpUpsert (register "alice" "alice"));
    (100, OpUpsert (register " bob " "bob"))] empty_db []) as [calls1 H1].
  destruct (sql_run_reach driver [(110, OpSetChunkHash "file" 0 (announce "file"))]
    (sql_two_peers driver) calls1) as [calls2 H2].
  exists calls2. by eapply rtc_trans.
Qed.
