(* ===== verification/SQLProps.v ===== *)
(** What holds of the tables of the SQL store in every state that concurrent
    calls can reach, what its calls do that those of the in-memory store do not,
    and the theorems on concrete runs. *)
From S2P Require Import Prelude GoNum GoStrings GoSort Model Sign Hash StoreTypes MemoryStore.
From S2P Require Import Samples MemoryIndex MemoryChunks MemorySystem Store Handler Mux Server.
From S2P Require Import Migration Startup SQLProg SQLStore SQLInvariant SQLSamples.

Local Open Scope Z_scope.

(** ** The invariant of the tables *)

Record peer_row_ok (r : peer_row) : Prop := mkPeerRowOk {
  pro_id : trimmed (pr_id r) ∧ pr_id r ≠ EmptyString;
  pro_key : pr_key r = pr_login r +:+ ":" +:+ pr_signature_key r;
  pro_ttl : 0 < pr_ttl_seconds r;
  pro_counters : 0 ≤ pr_quality_valid r ∧ 0 ≤ pr_quality_invalid r;
  pro_ledger : pr_quality_score r = 1000 + pr_quality_valid r - pr_quality_invalid r;
}.

Record chunk_row_ok (r : chunk_row) : Prop := mkChunkRowOk {
  cro_hash : validHashFormat (ck_expected_hash r) = true;
  cro_index : 0 ≤ ck_chunk_index r;
  cro_file : ck_file_id r ≠ EmptyString ∧ ck_sender_id r ≠ EmptyString;
  cro_ttl : 0 < ck_ttl r;
  cro_marks : ck_confirmed r ∈ [0; 1] ∧ ck_readed r ∈ [0; 1];
}.

Record db_ok (db : DB) : Prop := mkDBOk {
  dbo_ids : NoDup (map pr_id (t_peers db));
  dbo_peers : Forall peer_row_ok (t_peers db);
  dbo_chunks : Forall chunk_row_ok (t_chunks db);
}.

(** *** UPDATE and DELETE *)

Lemma Forall_update_where {A} (P : A → Prop) p f l :
  (∀ x, P x → P (f x)) → Forall P l → Forall P (update_where p f l).1.
Proof. intros Hf Hl. apply Forall_map. eapply Forall_impl; [exact Hl|]. cbn. intros x. case_match; auto. Qed.

Lemma map_update_where {A B} (g : A → B) p f l :
  (∀ x, g (f x) = g x) → map g (update_where p f l).1 = map g l.
Proof. intros Hf. cbn. rewrite map_map. apply map_ext. intros x. case_match; auto. Qed.

Lemma Forall_delete_where {A} (P : A → Prop) p l : Forall P l → Forall P (delete_where p l).1.
Proof.
  intros Hl. apply Forall_forall. intros x Hx. cbn in Hx.
  apply list_elem_of_In, filter_In in Hx as [Hx _]. rewrite Forall_forall in Hl.
  by apply Hl, list_elem_of_In.
Qed.

Lemma NoDup_delete_where {A B} (g : A → B) p l :
  NoDup (map g l) → NoDup (map g (delete_where p l).1).
Proof.
  cbn. induction l as [|x l IH]; [done|]. cbn. intros [Hx Hl]%NoDup_cons.
  case_match; [|auto]. apply NoDup_cons. split; [|auto].
  contradict Hx. apply list_elem_of_In, in_map_iff in Hx as (y & <- & Hy).
  apply list_elem_of_In, in_map. by apply filter_In in Hy as [? _].
Qed.

(** A write to the peers that keeps ids and well-formed rows. *)
Lemma update_peers_ok p f db :
  (∀ r, pr_id (f r) = pr_id r) → (∀ r, peer_row_ok r → peer_row_ok (f r)) →
  db_ok db → db_ok (set_t_peers db (update_where p f (t_peers db)).1).
Proof.
  intros Hid Hf []. split; cbn [t_peers set_t_peers t_chunks]; [|by apply Forall_update_where|done].
  by rewrite map_update_where.
Qed.

Lemma update_chunks_ok p f db :
  (∀ r, chunk_row_ok r → chunk_row_ok (f r)) →
  db_ok db → db_ok (set_t_chunks db (update_where p f (t_chunks db)).1).
Proof. intros Hf []. split; [done..|]. by apply Forall_update_where. Qed.

Lemma find_None_ids id l : List.find (sqlStore.has_id id) l = None → id ∉ map pr_id l.
Proof.
  intros Hn Hin. apply list_elem_of_In, in_map_iff in Hin as (r & <- & Hr).
  pose proof (find_none _ _ Hn r Hr) as H. unfold sqlStore.has_id in H. by rewrite String.eqb_refl in H.
Qed.

Lemma upsert_tx_ok id enc sig login now ttl req t db db' :
  id = TrimSpace (reg_ID req) → id ≠ EmptyString → 0 < ttl → db_ok db →
  sqlStore.upsert_tx id enc sig (login +:+ ":" +:+ sig) login now ttl req t db =
    (db', Return tt) → db_ok db'.
Proof.
  intros Hid Hne Httl Hdb. unfold sqlStore.upsert_tx.
  destruct (tk_fail t 1%nat); [done|]. cbn zeta. destruct (tk_fail t 2%nat); [done|].
  destruct (List.find _ _) as [r|] eqn:Hf; intros [= <-].
  - apply update_peers_ok; [done| |done]. intros r0 []. by split.
  - destruct Hdb as [Hn Hp Hc]. split; cbn; [|apply Forall_app; split; [done|]|done].
    + rewrite map_app. apply NoDup_app. split_and!; [done| |apply NoDup_singleton].
      intros x Hx ->%list_elem_of_singleton. by apply (find_None_ids id (t_peers db)).
    + constructor; [|constructor]. split; cbn; try done.
      * split; [rewrite Hid; apply TrimSpace_trimmed|done].
      * by destruct (String.eqb_spec sig "") as [->|_].
Qed.

(** *** The calls *)

Lemma quality_update_ok valid r : peer_row_ok r → peer_row_ok (sqlStore.quality_update valid r).
Proof.
  intros [? ? ? ? ?]. unfold sqlStore.quality_update, QualityPointsValid, QualityPointsInvalid.
  split; cbn; try done; destruct valid; cbn; lia.
Qed.

Lemma db_ok_writes driver : writes_keep driver db_ok.
Proof.
  split.
  - exact upsert_tx_ok.
  - intros id db []. split; cbn [t_peers t_chunks set_t_peers];
      [by apply NoDup_delete_where|by apply Forall_delete_where|done].
  - intros id now ttl db. apply update_peers_ok; [done|]. intros r []. split; try done.
    cbn. case_match; lia.
  - intros p valid db. apply update_peers_ok; [done|]. apply quality_update_ok.
  - intros r db (? & ? & ? & ? & Hc & Hr & _ & ?) []. split; [done..|]. apply Forall_app.
    split; [done|]. constructor; [|constructor]. split; try done.
    rewrite Hc, Hr. split; left.
  - intros p epoch db _. apply update_chunks_ok. intros r [? ? ? ? []]. split; try done.
    split; [right; left|done].
  - intros p epoch db _. apply update_chunks_ok. intros r [? ? ? ? []]. split; try done.
    split; [done|right; left].
  - intros epoch db _ []. split; [done..|]. by apply Forall_delete_where.
  - by intros l db [].
Qed.

Lemma db_ok_empty : db_ok empty_db.
Proof. split; constructor. Qed.

Section Reachable.
Context {U : UnicodeTables} {E : Ed25519} {S : SliceSort}.

Lemma sql_db_ok driver db calls :
  rtc (sql_step driver) (empty_db, []) (db, calls) → db_ok db.
Proof.
  intros H. apply (sql_keeps db_ok driver _ _ (sql_call_keeps driver db_ok (db_ok_writes driver)) H);
    [constructor|apply db_ok_empty].
Qed.

(** C11: in every state of the tables that any interleaving of any calls reaches,
    statement by statement, with any of them failing, ids are unique, trimmed
    and non-empty, the column key is the login and the signature key, every
    score is 1000 plus the good reports minus the bad ones, and every chunk has
    a valid hash, a non-negative index and a positive TTL. *)
Theorem sql_reachable_ok driver db calls :
  rtc (sql_step driver) (empty_db, []) (db, calls) → db_ok db.
Proof. apply sql_db_ok. Qed.

(** On Postgres the statements that change or delete a chunk are empty. *)
Definition frozen (l : list chunk_row) (db : DB) : Prop :=
  l `prefix_of` t_chunks db ∧
  Forall (λ r, ck_confirmed r = 0 ∧ ck_readed r = 0) (t_chunks db).

Lemma frozen_writes l : writes_keep "postgres" (frozen l).
Proof.
  split; try done.
  - intros id enc sig login now ttl req t db db' _ _ _ Hdb.
    unfold sqlStore.upsert_tx. cbn zeta. repeat case_match; try done; by intros [= <-].
  - intros r db (_ & _ & _ & _ & Hc & Hr & _) [Hp Hf]. split; cbn.
    + by apply prefix_app_r.
    + apply Forall_app. split; [done|]. by repeat constructor.
Qed.

(** C12: with the driver for Postgres, whatever calls run and however they
    interleave, no chunk is ever removed, changed, marked as confirmed or
    marked as read: the table of chunks only grows. *)
Theorem postgres_chunks_frozen db calls db' calls' :
  rtc (sql_step "postgres") (empty_db, []) (db, calls) →
  rtc (sql_step "postgres") (db, calls) (db', calls') →
  t_chunks db `prefix_of` t_chunks db' ∧
  Forall (λ r, ck_confirmed r = 0 ∧ ck_readed r = 0) (t_chunks db').
Proof.
  intros H1 H2.
  pose proof (λ l, sql_call_keeps "postgres" (frozen l) (frozen_writes l)) as K.
  assert (frozen [] db) as [_ Hf].
  { apply (sql_keeps _ _ _ _ (K []) H1); [constructor|]. split; [done|constructor]. }
  apply (sql_keeps _ _ _ _ (K (t_chunks db)) H2); [|by split].
  apply (sql_calls_keep _ _ _ _ (K (t_chunks db)) H1). constructor.
Qed.

End Reachable.

(** ** The theorems on concrete runs *)

Local Existing Instance sample_tables.
Local Existing Instance toy_ed25519.
Local Existing Instance insertion_slice_sort.

Lemma sql_reachable_ok_witness :
  length (t_peers (sql_announced "sqlite")) = 2%nat ∧
  length (t_chunks (sql_announced "sqlite")) = 1%nat ∧ db_ok (sql_announced "sqlite").
Proof.
  split; [by vm_compute|]. split; [by vm_compute|].
  destruct (sql_announced_reach "sqlite") as [calls H].
  exact (sql_reachable_ok "sqlite" _ _ H).
Defined.

(** A day later, with a confirmation and two rounds of the cleaner. *)
Lemma postgres_chunks_frozen_witness :
  let db := sql_announced "postgres" in
  let db' := sql_run "postgres" [(120, OpConfirmChunk (confirmation sample_hash));
    (100000, OpDeleteExpiredChunks); (200000, OpDeleteExpiredChunks)] db in
  length (t_chunks db) = 1%nat ∧ t_chunks db `prefix_of` t_chunks db'.
Proof.
  cbn zeta. split; [by vm_compute|].
  destruct (sql_announced_reach "postgres") as [calls H].
  destruct (sql_run_reach "postgres" [(120, OpConfirmChunk (confirmation sample_hash));
    (100000, OpDeleteExpiredChunks); (200000, OpDeleteExpiredChunks)]
    (sql_announced "postgres") calls) as [calls' H'].
  exact (proj1 (postgres_chunks_frozen _ _ _ _ H H')).
Defined.
