(* ===== verification/SQLTables.v ===== *)
(** The two stores side by side: the relation that says that the tables hold
    what the in-memory store holds, and the lemmas on rows, look-ups and writes
    that keep it. *)
From S2P Require Import Prelude GoNum GoStrings GoSort Model Sign Hash StoreTypes MemoryStore.
From S2P Require Import Samples MemoryIndex MemoryChunks MemorySignals MemorySystem Store Handler.
From S2P Require Import Mux Server Migration Startup SQLProg SQLStore SQLInvariant SQLSamples SQLProps.

Local Open Scope Z_scope.

(** ** The tables of a store *)

Definition row_of (p : Peer) : peer_row :=
  mkPeerRow (peer_ID p) (Key p) (peer_Login p) (peer_EncryptionKey p) (peer_SignatureKey p)
    (time_Unix (peer_LastSeen p)) (peer_TTLSeconds p) (peer_QualityScore p)
    (ValidReports (peer_Quality p)) (InvalidReports (peer_Quality p)) (peer_PeerFlag p)
    (if peer_Fake p then 1 else 0).

Definition chunk_row_of (fileID : string) (i : Z) (c : chunkRecordEntry) : chunk_row :=
  mkChunkRow fileID i (ce_Hash c) (ce_SenderID c) (ce_RecipientID c) (ce_PeerID c)
    (if ce_Persist c then 1 else 0) (if ce_Confirmed c then 1 else 0)
    (if ce_Readed c then 1 else 0) (ce_CreatedAt c) (ce_UpdatedAt c) (ce_TTL c).

Definition same_chunk (c : chunkRecordEntry) (r : chunk_row) : Prop :=
  ∃ f i, int64 i ∧ ce_key c = chunkKey f i ∧ ce_Hash c ≠ EmptyString ∧ r = chunk_row_of f i c.

Record related (s : MemoryStore) (db : DB) : Prop := mkRelated {
  rel_ids : NoDup (map pr_id (t_peers db));
  rel_peers id : List.find (sqlStore.has_id id) (t_peers db) = row_of <$> peers s !! id;
  rel_chunks : Forall2 same_chunk (chunks s) (t_chunks db);
  rel_signals id :
    slice_at (signals s) id = map sg_sig (List.filter (sqlStore.to_peer id) (t_signals db));
}.

Lemma related_empty : related NewMemory empty_db.
Proof.
  split; cbn; [constructor| |constructor|]; intros id; [by rewrite lookup_empty|].
  by rewrite slice_at_empty.
Qed.

(** What an error wraps in the end, which is what [errors.Is] finds in it. *)
Fixpoint root (err : StoreError) : StoreError :=
  match err with ErrWrap _ err => root err | _ => err end.

(** ** Finding and updating rows *)

Lemma find_filter {A} (p : A → bool) l : List.find p l = head (List.filter p l).
Proof. induction l as [|x l IH]; [done|]. cbn. by destruct (p x). Qed.

Lemma find_update_where id id' f l :
  (∀ r, pr_id (f r) = pr_id r) →
  List.find (sqlStore.has_id id') (update_where (sqlStore.has_id id) f l).1 =
    if decide (id' = id) then f <$> List.find (sqlStore.has_id id) l
    else List.find (sqlStore.has_id id') l.
Proof.
  intros Hf. induction l as [|r l IH]; cbn in *; [by case_decide|].
  unfold sqlStore.has_id in *.
  destruct (String.eqb_spec (pr_id r) id) as [E|Hne].
  - rewrite Hf, E. case_decide as Hd; [by rewrite Hd, String.eqb_refl|].
    destruct (String.eqb_spec id id'); [congruence|done].
  - case_decide as Hd; [subst id'|by destruct (_ == _)%go].
    by apply String.eqb_neq in Hne as ->.
Qed.

Lemma find_delete_where id id' l :
  List.find (sqlStore.has_id id') (delete_where (sqlStore.has_id id) l).1 =
    if decide (id' = id) then None else List.find (sqlStore.has_id id') l.
Proof.
  induction l as [|r l IH]; cbn in *; [by case_decide|]. unfold sqlStore.has_id in *.
  destruct (String.eqb_spec (pr_id r) id) as [E|Hne]; cbn.
  - rewrite IH. case_decide as Hd; [done|].
    destruct (String.eqb_spec (pr_id r) id'); [congruence|done].
  - rewrite IH. case_decide as Hd; [|done]. subst id'. by apply String.eqb_neq in Hne as ->.
Qed.

Lemma find_snoc id r l :
  List.find (sqlStore.has_id id) (l ++ [r]) =
    match List.find (sqlStore.has_id id) l with
    | Some r => Some r
    | None => if decide (id = pr_id r) then Some r else None
    end.
Proof.
  induction l as [|r0 l IH]; cbn; [|by rewrite IH; destruct (sqlStore.has_id id r0)].
  unfold sqlStore.has_id. destruct (String.eqb_spec (pr_id r) id), (decide (id = pr_id r)); congruence.
Qed.

Lemma find_In id r l :
  NoDup (map pr_id l) → List.find (sqlStore.has_id id) l = Some r ↔ r ∈ l ∧ pr_id r = id.
Proof.
  intros Hn. split.
  - intros [Hin Hid]%find_some. split; [by apply list_elem_of_In|]. by apply String.eqb_eq.
  - intros [Hin <-]. induction l as [|r0 l IH]; [by apply not_elem_of_nil in Hin|].
    cbn in Hn |- *. apply NoDup_cons in Hn as [Hr0 Hn]. unfold sqlStore.has_id at 1.
    apply elem_of_cons in Hin as [->|Hin]; [by rewrite String.eqb_refl|].
    destruct (String.eqb_spec (pr_id r0) (pr_id r)) as [E|_]; [|by apply IH].
    contradict Hr0. rewrite E. by apply list_elem_of_In, in_map, list_elem_of_In.
Qed.

Lemma update_where_count id f l :
  ((update_where (sqlStore.has_id id) f l).2 =? 0) =
    match List.find (sqlStore.has_id id) l with Some _ => false | None => true end.
Proof.
  rewrite find_filter. cbn. by destruct (List.filter _ l).
Qed.

Lemma update_where_none id f l :
  List.find (sqlStore.has_id id) l = None →
  update_where (sqlStore.has_id id) f l = (l, 0).
Proof.
  unfold update_where. induction l as [|r l IH]; cbn; [done|].
  destruct (sqlStore.has_id id r); [done|]. intros Hf. by injection (IH Hf) as -> ->.
Qed.

Lemma filter_delete_where id id' l :
  List.filter (sqlStore.to_peer id') (delete_where (sqlStore.to_peer id) l).1 =
    if decide (id' = id) then [] else List.filter (sqlStore.to_peer id') l.
Proof.
  induction l as [|r l IH]; cbn in *; [by case_decide|]. unfold sqlStore.to_peer in *.
  destruct (String.eqb_spec (sg_peer_id r) id) as [E|Hne]; cbn; rewrite IH.
  - case_decide as Hd; [done|]. destruct (String.eqb_spec (sg_peer_id r) id'); [congruence|done].
  - case_decide as Hd; [|done]. subst id'. by apply String.eqb_neq in Hne as ->.
Qed.

(** ** Look-ups in related stores *)

(** Nobody has expired, by the record or by its row. *)
Definition all_live (t : Time) (s : MemoryStore) : Prop :=
  ∀ id p, peers s !! id = Some p →
    isExpired p t = false ∧ sqlStore.isExpired (sqlStore.scan_peer (row_of p)) t = false.

Section LookUps.
Context (s : MemoryStore) (db : DB) (t : tick).
Context (R : related s db) (C : calm t) (L : all_live (tk_now t) s).

Lemma row_in_table r : r ∈ t_peers db → ∃ p, peers s !! pr_id r = Some p ∧ r = row_of p.
Proof using R.
  intros Hr. pose proof (proj2 (find_In (pr_id r) r _ (rel_ids _ _ R)) (conj Hr eq_refl)) as H.
  rewrite (rel_peers _ _ R) in H. destruct (peers s !! pr_id r) as [p|]; simplify_eq/=. eauto.
Qed.

Lemma table_has_row id p : peers s !! id = Some p → row_of p ∈ t_peers db.
Proof using R.
  intros Hp. assert (List.find (sqlStore.has_id id) (t_peers db) = Some (row_of p)) as H
    by (by rewrite (rel_peers _ _ R), Hp).
  by apply find_In in H as [H _]; [|apply (rel_ids _ _ R)].
Qed.

Lemma run_getPeerByID id :
  id ≠ EmptyString →
  run_at (sqlStore.getPeerByID id) t db =
    (db, match peers s !! id with
         | Some p => Return (sqlStore.scan_peer (row_of p))
         | None => Fail ErrNotFound
         end).
Proof using R C L.
  intros Hid%String.eqb_neq. unfold sqlStore.getPeerByID. rewrite Hid.
  autorewrite with run_at. pose proof (rel_peers _ _ R id) as H. rewrite find_filter in H.
  destruct (List.filter (sqlStore.has_id id) (t_peers db)) as [|r rows]; cbn in H;
    destruct (peers s !! id) as [p|] eqn:Hp; simplify_eq; [done|].
  cbn zeta. autorewrite with run_at. injection H as ->. by destruct (L id p Hp) as [_ ->].
Qed.

Lemma run_live_rows rows :
  rows ⊆ t_peers db →
  run_at (sqlStore.live_rows rows) t db = (db, Return (map sqlStore.scan_peer rows)).
Proof using R L.
  induction rows as [|r rows IH]; intros Hsub; cbn [sqlStore.live_rows]; [done|].
  autorewrite with run_at. rewrite IH by (intros x Hx; apply Hsub; by right).
  autorewrite with run_at. destruct (row_in_table r) as (p & Hp & ->); [apply Hsub; left|].
  by destruct (L _ p Hp) as [_ ->].
Qed.

Lemma run_peers_by_login what login signature :
  let rows := List.filter (sqlStore.has_login login signature) (t_peers db) in
  run_at (sqlStore.peers_by_login what login signature) t db =
    (db, if decide (rows = []) then Fail ErrNotFound
         else Return (map sqlStore.scan_peer rows)).
Proof using R C L.
  cbn zeta. unfold sqlStore.peers_by_login. autorewrite with run_at.
  set (rows := List.filter _ _).
  rewrite run_live_rows.
  - by destruct rows.
  - intros r [Hr _]%list_elem_of_In%filter_In. by apply list_elem_of_In.
Qed.

(** The rows that a key selects are those of the peers that have it, when no
    login holds the separator. *)
Definition plain_logins : Prop :=
  ∀ id p, peers s !! id = Some p → ":"%char ∉ bytes (peer_Login p).

Lemma has_login_key key login signature p id :
  plain_logins → peers s !! id = Some p → SplitN2 key ":" = [login; signature] →
  sqlStore.has_login login signature (row_of p) = true ↔ Key p = key.
Proof.
  intros Hpl Hp. unfold SplitN2. destruct (split_at _ _) as [[a b]|] eqn:E; intros; simplify_eq.
  apply split_at_Some in E as [Ek Ha]. unfold sqlStore.has_login, Key. cbn.
  rewrite andb_true_iff, !String.eqb_eq. split.
  - intros [-> ->]. apply bytes_inj. by rewrite !bytes_app, !bytes_of_bytes.
  - intros Hk. apply (f_equal bytes) in Hk. rewrite Ek, !bytes_app in Hk. cbn in Hk.
    apply app_sep_inj_l in Hk as [<- <-]; [by rewrite !of_bytes_bytes|by eapply Hpl|done].
Qed.

(** The first peer that the SQL store finds under a key and the one that the
    in-memory store finds have the key both; both find one or neither does. *)
Lemma run_getPeerByKey key e i :
  plain_logins → env_ok e → (∀ j, time_Now e i j = tk_now t) →
  ":"%char ∈ bytes (TrimSpace key) →
  match peerByKey e i s (TrimSpace key) with
  | Some p => ∃ id q qs, peers s !! id = Some q ∧ Key q = TrimSpace key ∧
                peer_SignatureKey q = peer_SignatureKey p ∧
                run_at (sqlStore.getPeerByKey key) t db =
                  (db, Return (sqlStore.scan_peer (row_of q) :: qs))
  | None => run_at (sqlStore.getPeerByKey key) t db = (db, Fail ErrNotFound)
  end.
Proof using R C L.
  intros Hpl He Hnow Hsep. unfold sqlStore.getPeerByKey. cbn zeta.
  set (k := TrimSpace key) in *.
  assert (k ≠ EmptyString) as Hne%String.eqb_neq by (intros E; rewrite E in Hsep; set_solver).
  rewrite Hne.
  assert (∃ login signature, SplitN2 k ":" = [login; signature]) as (login & signature & Ek).
  { unfold SplitN2. destruct (split_at _ (bytes k)) as [[]|] eqn:Es; [eauto|].
    by apply split_at_None in Es. }
  rewrite Ek, run_peers_by_login.
  assert (∀ r, r ∈ List.filter (sqlStore.has_login login signature) (t_peers db) ↔
    r ∈ t_peers db ∧ sqlStore.has_login login signature r = true) as Hrows.
  { intros r. by rewrite !list_elem_of_In, filter_In. }
  set (rows := List.filter _ _) in *. clearbody rows.
  destruct (peerByKey e i s k) as [p|] eqn:Ep.
  - apply peerByKey_Some in Ep as ([id Hp] & Hk & _); [|done].
    assert (row_of p ∈ rows) as Hin.
    { apply Hrows. split; [by eapply table_has_row|].
      by apply (has_login_key k login signature p id). }
    destruct rows as [|r rows]; [by apply not_elem_of_nil in Hin|].
    rewrite decide_False by done.
    apply Hrows in Hin as [_ Hin]. destruct (proj1 (Hrows r) ltac:(left)) as [Hr1 Hr].
    destruct (row_in_table r Hr1) as (q & Hq & ->). eexists _, q, _. split; [exact Hq|].
    split; [by apply (has_login_key k login signature q _ Hpl Hq Ek)|]. split; [|done].
    unfold sqlStore.has_login in Hr, Hin. cbn in *. by bool_hyps; congruence.
  - rewrite decide_True; [done|]. destruct rows as [|r rows]; [done|].
    destruct (proj1 (Hrows r) ltac:(left)) as [Hr Hk].
    destruct (row_in_table r Hr) as (p & Hp & ->).
    apply (has_login_key k login signature p _ Hpl Hp Ek) in Hk.
    destruct (peerByKey_None e i s k He Ep _ p Hp Hk) as [j Hj].
    rewrite Hnow in Hj. by destruct (L _ p Hp) as [? _]; congruence.
Qed.

End LookUps.

(** ** Writes in related stores *)

Section Writes.
Context (s s' : MemoryStore) (db : DB) (R : related s db).
Context (Hc : chunks s' = chunks s) (Hs : signals s' = signals s).

Lemma related_peers l :
  NoDup (map pr_id l) →
  (∀ id, List.find (sqlStore.has_id id) l = row_of <$> peers s' !! id) →
  related s' (set_t_peers db l).
Proof using All.
  intros Hn Hp. split; cbn; [done..| |].
  - rewrite Hc. apply R.
  - intros id. rewrite Hs. apply R.
Qed.

Lemma related_update_peer id p p' f :
  peers s !! id = Some p → peers s' = <[id := p']> (peers s) → row_of p' = f (row_of p) →
  (∀ r, pr_id (f r) = pr_id r) →
  related s' (set_t_peers db (update_where (sqlStore.has_id id) f (t_peers db)).1).
Proof using All.
  intros Hp Hs' Hf Hid. apply related_peers.
  - rewrite map_update_where by done. apply R.
  - intros id'. rewrite find_update_where, Hs' by done.
    case_decide as Hd; [subst id'|by rewrite lookup_insert_ne, (rel_peers _ _ R)].
    by rewrite lookup_insert_eq, (rel_peers _ _ R), Hp; cbn; rewrite Hf.
Qed.

Lemma related_insert_peer id p :
  peers s !! id = None → peers s' = <[id := p]> (peers s) → peer_ID p = id →
  related s' (set_t_peers db (t_peers db ++ [row_of p])).
Proof using All.
  intros Hn Hs' Hid.
  assert (List.find (sqlStore.has_id id) (t_peers db) = None) as Hf
    by (by rewrite (rel_peers _ _ R), Hn).
  apply related_peers.
  - rewrite map_app. apply NoDup_app. split_and!; [apply R| |apply NoDup_singleton].
    intros x Hx ->%list_elem_of_singleton. cbn in Hx. rewrite Hid in Hx.
    by apply (find_None_ids id (t_peers db)).
  - intros id'. rewrite find_snoc, Hs'. cbn. rewrite Hid. case_decide as Hd.
    + subst id'. by rewrite Hf, lookup_insert_eq.
    + rewrite (rel_peers _ _ R), lookup_insert_ne by done. by destruct (peers s !! id').
Qed.

Lemma related_delete_peer id :
  peers s' = delete id (peers s) →
  related s' (set_t_peers db (delete_where (sqlStore.has_id id) (t_peers db)).1).
Proof using All.
  intros Hs'. apply related_peers; [apply NoDup_delete_where, R|].
  intros id'. rewrite find_delete_where, Hs'. case_decide as Hd.
  - subst id'. by rewrite lookup_delete_eq.
  - by rewrite lookup_delete_ne, (rel_peers _ _ R).
Qed.

End Writes.
