(* ===== verification/SQLRaces.v ===== *)
(** What the SQL store does that the in-memory store does not: because its calls
    are several statements, because a statement is wrong, or because a column is
    read into the wrong field. *)
From S2P Require Import Prelude GoNum GoStrings GoSort Model Sign Hash StoreTypes MemoryStore.
From S2P Require Import Samples MemoryIndex MemoryChunks MemorySignals MemorySystem Store Handler.
From S2P Require Import Mux Server Migration Startup SQLProg SQLStore SQLInvariant SQLSamples SQLProps SQLTables.

Local Open Scope Z_scope.

(** ** The column key in the field Login *)

Section Get.
Context {U : UnicodeTables} {E : Ed25519} {S : SliceSort}.

Lemma getPeerByID_row id ts db db' p :
  (∀ i, tick_ok (ts i)) → run (sqlStore.getPeerByID id) ts db = (db', Return p) →
  ∃ r, r ∈ t_peers db ∧ pr_id r = id ∧ p = sqlStore.scan_peer r.
Proof.
  intros Hts. unfold sqlStore.getPeerByID. destruct (id == "")%go; [done|]. cbn.
  destruct (tk_fail (ts 0%nat) 0%nat); cbn; [done|].
  destruct (tk_rows (ts 0%nat) _ _) as [|r rows] eqn:Er; cbn; [done|].
  destruct (sqlStore.isExpired _ _); cbn; [done|]. intros [= <- <-]. exists r.
  assert (r ∈ List.filter (sqlStore.has_id id) (t_peers db)) as Hr.
  { rewrite <- (Hts 0%nat _ (List.filter (sqlStore.has_id id) (t_peers db))), Er. left. }
  apply list_elem_of_In, filter_In in Hr as [Hr Hid]. split_and!; [by apply list_elem_of_In| |done].
  by apply String.eqb_eq.
Qed.

(** a peer that the SQL store returns has the whole key, login and signature
    key, in its login; so its [Key] has the signature key twice, and no look-up
    with it finds the peer again. *)
Theorem Get_login_is_key driver calls id ts db db' p :
  rtc (sql_step driver) (empty_db, []) (db, calls) → (∀ i, tick_ok (ts i)) →
  run (sqlStore.Get id) ts db = (db', Return p) →
  ∃ r, r ∈ t_peers db ∧ pr_id r = TrimSpace id ∧
    peer_Login p = pr_login r +:+ ":" +:+ pr_signature_key r ∧
    Key p = pr_login r +:+ ":" +:+ pr_signature_key r +:+ ":" +:+ pr_signature_key r.
Proof.
  intros Hdb%sql_db_ok Hts (r & Hr & Hid & ->)%getPeerByID_row; [|done].
  exists r. split_and!; [done..| |]; destruct Hdb as [_ Hp _]; rewrite Forall_forall in Hp;
    destruct (Hp r Hr) as [_ Hk _ _ _]; [exact Hk|].
  unfold Key. cbn. rewrite Hk. apply bytes_inj. rewrite !bytes_app. by rewrite <- !app_assoc.
Qed.

End Get.

(** ** A signal posted during a poll *)

Section Poll.
Context {U : UnicodeTables} {E : Ed25519} {S : SliceSort}.
Context (t : tick) (C : calm t).

Lemma filter_to_peer_delete id l :
  List.filter (sqlStore.to_peer id) (delete_where (sqlStore.to_peer id) l).1 = [].
Proof. by rewrite filter_delete_where, decide_True. Qed.

(** C13: a poll is a query and a deletion, with no transaction around them: a signal
    that is posted between the two is accepted, is not in the answer of the poll,
    and is deleted. *)
Theorem poll_loses_signal db id sig r :
  trimmed id → id ≠ EmptyString → signal_ok sig →
  List.find (sqlStore.has_id id) (t_peers db) = Some r →
  sqlStore.isExpired (sqlStore.scan_peer r) (tk_now t) = false →
  ∃ X f k, sqlStore.PollSignals id = Access X f k ∧
    let '(db1, x) := f t db in
    let '(db2, posted) := run_at (sqlStore.SetSignal id sig) t db1 in
    let '(db3, polled) := run_at (k x) t db2 in
    posted = Return tt ∧ List.filter (sqlStore.to_peer id) (t_signals db2) ≠ [] ∧
    polled = Return (map sg_sig (List.filter (sqlStore.to_peer id) (t_signals db))) ∧
    List.filter (sqlStore.to_peer id) (t_signals db3) = [].
Proof using C.
  intros Htr Hid%String.eqb_neq [Hf%String.eqb_neq Ht%String.eqb_neq] Hr Hlive.
  unfold sqlStore.PollSignals. rewrite TrimSpace_id, Hid by done.
  eexists _, _, _. split; [reflexivity|]. cbn -[run_at]. rewrite (calm_ok _ C).
  unfold sqlStore.SetSignal. rewrite TrimSpace_id, Hid, Hf, Ht by done. cbn [orb].
  autorewrite with run_at. unfold sqlStore.getPeerByID. rewrite Hid.
  autorewrite with run_at. rewrite find_filter in Hr.
  destruct (List.filter (sqlStore.has_id id) (t_peers db)) as [|r' rows]; [done|].
  injection Hr as ->. cbn zeta. autorewrite with run_at. rewrite Hlive.
  autorewrite with run_at. cbn -[run_at]. unfold run_at. cbn.
  rewrite (calm_ok _ C), (calm_rows _ C). cbn. split_and!; [done| |done|].
  - rewrite List.filter_app. cbn. rewrite String.eqb_refl.
    by destruct (List.filter _ _).
  - apply filter_to_peer_delete.
Qed.

(** ** A report that scores and fails *)

Lemma quality_update_fields valid r :
  sqlStore.quality_update valid r =
    mkPeerRow (pr_id r) (pr_key r) (pr_login r) (pr_encryption_key r) (pr_signature_key r)
      (pr_last_seen r) (pr_ttl_seconds r)
      (if valid then pr_quality_score r + 1 else pr_quality_score r - 1)
      (if valid then pr_quality_valid r + 1 else pr_quality_valid r)
      (if valid then pr_quality_invalid r else pr_quality_invalid r + 1)
      (pr_peer_flag r) (pr_is_fake r).
Proof. unfold sqlStore.quality_update. by destruct valid; rewrite ?Z.add_0_r. Qed.

Lemma hash_eqb a b : (a == b)%go = bool_decide (a = b).
Proof. by destruct (String.eqb_spec a b); [rewrite bool_decide_true|rewrite bool_decide_false]. Qed.

(** C14: [ReportChunk] moves the score of the source before it looks whether the
    source is live: for a source that has expired the row afterwards has one point
    more and one good report more, or one point less and one bad report more, and
    is otherwise as before, while the caller is told that there is no such peer,
    so that it will report again. *)
Theorem ReportChunk_scores_and_fails db src req reporter r chunk source :
  report_input_ok src req →
  List.find (sqlStore.has_id (TrimSpace (rep_ReporterID req))) (t_peers db) = Some r →
  reporter = sqlStore.scan_peer r → sqlStore.isExpired reporter (tk_now t) = false →
  verifyPeerSignature reporter (rep_Signature req) (report_message src req) = Ok tt →
  List.find (sqlStore.chunk_at (TrimSpace (rep_FileID req)) (rep_ChunkIndex req)) (t_chunks db) =
    Some chunk →
  List.find (sqlStore.has_id (TrimSpace src)) (t_peers db) = Some source →
  sqlStore.isExpired (sqlStore.scan_peer source) (tk_now t) = true →
  let valid := bool_decide (normalizeHash (rep_Hash req) = ck_expected_hash chunk) in
  let '(db', o) := run_at (sqlStore.ReportChunk src req) t db in
  o = Fail (ErrWrap "get updated peer" ErrNotFound) ∧
  List.find (sqlStore.has_id (TrimSpace src)) (t_peers db') =
    Some {| pr_id := pr_id source; pr_key := pr_key source; pr_login := pr_login source;
            pr_encryption_key := pr_encryption_key source;
            pr_signature_key := pr_signature_key source; pr_last_seen := pr_last_seen source;
            pr_ttl_seconds := pr_ttl_seconds source;
            pr_quality_score :=
              if valid then pr_quality_score source + 1 else pr_quality_score source - 1;
            pr_quality_valid :=
              if valid then pr_quality_valid source + 1 else pr_quality_valid source;
            pr_quality_invalid :=
              if valid then pr_quality_invalid source else pr_quality_invalid source + 1;
            pr_peer_flag := pr_peer_flag source; pr_is_fake := pr_is_fake source |}.
Proof using C.
  intros Hin Hr -> Hlive Hv Hchunk Hsrc Hexp. cbn zeta.
  unfold sqlStore.ReportChunk. cbn zeta. rewrite (proj2 (report_guard src req) Hin).
  destruct Hin as (Hs%String.eqb_neq & Hrep%String.eqb_neq & _).
  autorewrite with run_at. unfold sqlStore.getPeerByID. rewrite Hrep, Hs.
  autorewrite with run_at. rewrite find_filter in Hr. rewrite find_filter in Hchunk.
  destruct (List.filter (sqlStore.has_id (TrimSpace (rep_ReporterID req))) _); [done|].
  injection Hr as ->. cbn zeta. autorewrite with run_at. rewrite Hlive.
  autorewrite with run_at. unfold sqlStore.check_signature, report_message in *. rewrite Hv.
  autorewrite with run_at. destruct (List.filter _ (t_chunks db)); [done|].
  injection Hchunk as ->. unfold sqlStore.update_peers. autorewrite with run_at.
  set (valid := (_ == _)%go).
  pose proof (find_update_where (TrimSpace src) (TrimSpace src) (sqlStore.quality_update valid)
    (t_peers db) (λ r, eq_refl)) as Hf. rewrite decide_True, Hsrc in Hf by done.
  destruct (update_where _ _ _) as [l' n]. autorewrite with run_at. cbn [t_peers set_t_peers].
  cbn [fst] in Hf. pose proof Hf as Hf'. rewrite find_filter in Hf'.
  destruct (List.filter _ l') as [|r' rows]; [done|]. injection Hf' as ->.
  cbn zeta. autorewrite with run_at.
  replace (sqlStore.isExpired _ _) with true by (symmetry; exact Hexp).
  split; [done|]. cbn [t_peers set_t_peers]. rewrite Hf, <- hash_eqb.
  by apply (f_equal Some), quality_update_fields.
Qed.

End Poll.

(** ** The theorems on concrete runs *)

Local Existing Instance sample_tables.
Local Existing Instance toy_ed25519.
Local Existing Instance insertion_slice_sort.

Lemma Get_login_is_key_witness :
  ∃ p, (run (sqlStore.Get "alice") (λ _, tick_second 120) (sql_announced "sqlite")).2 = Return p ∧
    peer_Login p = key_of "alice" ∧ Key p = key_of "alice" +:+ ":" +:+ toy_pub "alice".
Proof.
  destruct (run (sqlStore.Get "alice") (λ _, tick_second 120) (sql_announced "sqlite"))
    as [db' [p|err|]] eqn:Er; [|by vm_compute in Er..].
  exists p. split; [done|]. destruct (sql_announced_reach "sqlite") as [calls H].
  destruct (Get_login_is_key "sqlite" calls "alice" _ _ db' p H (λ _, tick_second_ok 120) Er)
    as (r & _ & _ & Hl & _).
  vm_compute in Er. injection Er as _ <-. split; by vm_compute.
Defined.

Lemma poll_loses_signal_witness :
  let t := tick_second 120 in
  let db := sql_announced "sqlite" in
  let offer := mkSignal "alice" "offer" "sdp" in
  ∃ X f k, sqlStore.PollSignals "bob" = Access X f k ∧
    let '(db1, x) := f t db in
    let '(db2, posted) := run_at (sqlStore.SetSignal "bob" offer) t db1 in
    let '(db3, polled) := run_at (k x) t db2 in
    posted = Return tt ∧ polled = Return [] ∧ List.filter (sqlStore.to_peer "bob") (t_signals db3) = [].
Proof.
  cbn zeta.
  destruct (List.find (sqlStore.has_id "bob") (t_peers (sql_announced "sqlite"))) as [r|] eqn:Hr;
    [|by vm_compute in Hr].
  assert (trimmed "bob") as Htr.
  { replace "bob" with (TrimSpace "bob") by (by vm_compute). apply TrimSpace_trimmed. }
  assert (sqlStore.isExpired (sqlStore.scan_peer r) (tk_now (tick_second 120)) = false) as Hlive
    by (vm_compute in Hr; injection Hr as <-; by vm_compute).
  assert (signal_ok (mkSignal "alice" "offer" "sdp")) as Hsig by (by split).
  destruct (poll_loses_signal (tick_second 120) (tick_second_calm 120) (sql_announced "sqlite")
    "bob" (mkSignal "alice" "offer" "sdp") r Htr ltac:(discriminate) Hsig
    Hr Hlive) as (X & f & k & Hp & H).
  exists X, f, k. split; [exact Hp|].
  destruct (f (tick_second 120) (sql_announced "sqlite")) as [db1 x].
  destruct (run_at (sqlStore.SetSignal _ _) _ db1) as [db2 posted].
  destruct (run_at (k x) _ db2) as [db3 polled]. destruct H as (H1 & _ & H2 & H3).
  split; [exact H1|]. split; [|exact H3]. rewrite H2. by vm_compute.
Defined.

(** Bob has expired when Alice, who has just registered again, reports him. *)
Lemma ReportChunk_scores_and_fails_witness :
  let db := sql_run "sqlite" [(450, OpUpsert (register "alice" "alice"))] (sql_announced "sqlite") in
  (run_at (sqlStore.ReportChunk "bob" (report sample_hash)) (tick_second 451) db).2 =
    Fail (ErrWrap "get updated peer" ErrNotFound).
Proof.
  cbn zeta.
  set (db := sql_run "sqlite" [(450, OpUpsert (register "alice" "alice"))] (sql_announced "sqlite")).
  destruct (List.find (sqlStore.has_id "alice") (t_peers db)) as [r|] eqn:Hr; [|by vm_compute in Hr].
  destruct (List.find (sqlStore.has_id "bob") (t_peers db)) as [source|] eqn:Hs;
    [|by vm_compute in Hs].
  destruct (List.find (sqlStore.chunk_at "file" 0) (t_chunks db)) as [chunk|] eqn:Hc;
    [|by vm_compute in Hc].
  pose proof (ReportChunk_scores_and_fails (tick_second 451) (tick_second_calm 451) db "bob"
    (report sample_hash) (sqlStore.scan_peer r) r chunk source) as H.
  cbn zeta in H. destruct (run_at (sqlStore.ReportChunk _ _) _ db) as [db' o]. cbn [snd].
  apply H; [by apply report_guard; vm_compute|exact Hr|done| | |exact Hc|exact Hs|].
  - vm_compute in Hr. injection Hr as <-. by vm_compute.
  - vm_compute in Hr. injection Hr as <-. by vm_compute.
  - vm_compute in Hs. injection Hs as <-. by vm_compute.
Defined.
