(* ===== verification/SQLAgree.v ===== *)
(** The two stores side by side, call by call: on the calls of [comparable] they
    give the same answer, or errors with the same root, and still hold the same
    afterwards.  The conditions of [comparable] are where they differ. *)
From S2P Require Import Prelude GoNum GoStrings GoSort Model Sign Hash StoreTypes MemoryStore.
From S2P Require Import Samples MemoryIndex MemoryChunks MemorySignals MemorySystem Store Handler.
From S2P Require Import Mux Server Migration Startup SQLProg SQLStore SQLInvariant SQLSamples SQLProps.
From S2P Require Import SQLTables.

Local Open Scope Z_scope.

(** ** The calls *)

Definition agrees {A B} (same : A → B → Prop) (x : MemoryStore * result StoreError A)
    (y : DB * outcome B) : Prop :=
  related x.1 y.1 ∧
  match x.2, y.2 with
  | Ok a, Return b => same a b
  | Err err, Fail err' => root err = root err'
  | _, _ => False
  end.

(** One moment, for a call of either store. *)
Record same_time (e : Env) (t : tick) : Prop := mkSameTime {
  st_env : env_ok e;
  st_calm : calm t;
  st_now i j : time_Now e i j = tk_now t;
  st_epoch : tk_epoch t = time_Unix (tk_now t);
}.

(** One more report does not overflow the score or a counter. *)
Definition can_score (p : Peer) : Prop :=
  Z.abs (peer_QualityScore p) < max_int64 ∧ Z.abs (ValidReports (peer_Quality p)) < max_int64 ∧
  Z.abs (InvalidReports (peer_Quality p)) < max_int64.

Definition same_done (_ _ : unit) : Prop := True.
(** The peer [q] of the SQL store's answer is the peer [p] of the in-memory store's
    in all fields but two: its login is the column key, the login and the
    signature key with a colon between them, and it was last seen at the start of
    the second. *)
Definition same_peer (p q : Peer) : Prop :=
  peer_ID q = peer_ID p ∧ peer_EncryptionKey q = peer_EncryptionKey p ∧
  peer_SignatureKey q = peer_SignatureKey p ∧ peer_TTLSeconds q = peer_TTLSeconds p ∧
  peer_QualityScore q = peer_QualityScore p ∧ peer_Quality q = peer_Quality p ∧
  peer_PeerFlag q = peer_PeerFlag p ∧ peer_Fake q = peer_Fake p ∧
  peer_Login q = peer_Login p +:+ ":" +:+ peer_SignatureKey p ∧
  wall (peer_LastSeen q) = wall (peer_LastSeen p) / Second * Second.

Lemma same_peer_row p : same_peer p (sqlStore.scan_peer (row_of p)).
Proof. destruct p as [? ? ? ? ? ? ? [] ? []]; by split_and!. Qed.

Definition same_report (a b : ChunkReportResult) : Prop :=
  rr_Valid a = rr_Valid b ∧ rr_ExpectedHash a = rr_ExpectedHash b ∧
  rr_ReportedHash a = rr_ReportedHash b ∧ rr_Delta a = rr_Delta b ∧
  same_peer (rr_Peer a) (rr_Peer b).

Lemma row_of_report p valid :
  can_score p → row_of (score_report p valid) = sqlStore.quality_update valid (row_of p).
Proof.
  intros (H1 & H2 & H3). unfold row_of, score_report, sqlStore.quality_update, Key. cbn -[wrap64].
  unfold QualityPointsValid, QualityPointsInvalid.
  destruct valid; cbn -[wrap64]; rewrite !wrap64_id, ?Z.add_0_r
    by (unfold int64, min_int64, max_int64 in *; lia); done.
Qed.

(** The first entry with a key and the first row with its file and index. *)
Lemma expected_rows cs rs f i :
  Forall2 same_chunk cs rs → int64 i →
  match List.filter (sqlStore.chunk_at f i) rs with
  | [] => expected_hash cs (chunkKey f i) = EmptyString
  | r :: _ => expected_hash cs (chunkKey f i) = ck_expected_hash r ∧
              ck_expected_hash r ≠ EmptyString
  end.
Proof.
  intros Hcs Hi. induction Hcs as [|c r cs rs (f' & i' & Hi' & Hk & Hh & ->) _ IH]; [done|].
  cbn. unfold sqlStore.chunk_at at 1, expected_hash. cbn.
  destruct (decide (ce_key c = chunkKey f i)) as [E1|E1].
  - rewrite Hk in E1. apply chunkKey_inj in E1 as [-> ->]; [|done..].
    by rewrite String.eqb_refl, Z.eqb_refl.
  - replace ((f' == f)%go && (i' =? i)) with false.
    + unfold expected_hash in IH. cbn in IH.
      by destruct (list_find _ cs) as [[]|], (List.filter _ rs).
    + symmetry. apply not_true_is_false. rewrite andb_true_iff, String.eqb_eq, Z.eqb_eq.
      intros [-> ->]. by rewrite Hk in E1.
Qed.

Definition same_confirm (a b : ConfirmChunkResult) : Prop :=
  cr_Valid a = cr_Valid b ∧ cr_ExpectedHash a = cr_ExpectedHash b ∧
  cr_ConfirmedHash a = cr_ConfirmedHash b ∧ cr_Delta a = cr_Delta b ∧
  same_peer (cr_Peer a) (cr_Peer b).

(** *** Confirmed chunks *)

Definition awaited (f : string) (i : Z) (recipient : string) (c : chunkRecordEntry) : Prop :=
  ce_key c = chunkKey f i ∧ ce_RecipientID c = recipient.

#[local] Instance awaited_dec f i recipient c : Decision (awaited f i recipient c).
Proof. unfold awaited. apply _. Defined.

Lemma awaited_row f i recipient c r :
  int64 i → same_chunk c r →
  sqlStore.chunk_for f i recipient r = bool_decide (awaited f i recipient c).
Proof.
  intros Hi (f' & i' & Hi' & Hk & _ & ->). apply eq_true_iff_eq.
  rewrite bool_decide_eq_true. unfold sqlStore.chunk_for, sqlStore.chunk_at, awaited. cbn.
  rewrite !andb_true_iff, !String.eqb_eq, Z.eqb_eq, Hk. split.
  - by intros [[-> ->] ->].
  - intros [[-> ->]%chunkKey_inj ->]; done.
Qed.

(** The first entry awaited and the first row selected. *)
Lemma awaited_rows cs rs f i recipient :
  Forall2 same_chunk cs rs → int64 i →
  match List.filter (sqlStore.chunk_for f i recipient) rs with
  | [] => list_find (awaited f i recipient) cs = None
  | r :: _ => ∃ j c, list_find (awaited f i recipient) cs = Some (j, c) ∧ same_chunk c r
  end.
Proof.
  intros Hcs Hi. induction Hcs as [|c r cs rs Hc _ IH]; [done|]. cbn.
  rewrite (awaited_row f i recipient c r Hi Hc). case_bool_decide as Hd.
  - rewrite decide_True by done. by exists 0%nat, c.
  - rewrite decide_False by done.
    destruct (List.filter _ rs) as [|r' rs']; [by rewrite IH|].
    destruct IH as (j & c' & -> & Hc'). by exists (S j), c'.
Qed.

(** Confirming the only entry awaited confirms the only row selected. *)
Lemma confirmed_rows cs rs f i recipient j c now :
  Forall2 same_chunk cs rs → int64 i → cs !! j = Some c → awaited f i recipient c →
  (∀ j' c', cs !! j' = Some c' → awaited f i recipient c' → j' = j) →
  Forall2 same_chunk (<[j := with_Confirmed c now]> cs)
    (update_where (sqlStore.chunk_for f i recipient) (sqlStore.confirm_update now) rs).1.
Proof.
  intros Hcs Hi Hj Hc Huniq. apply Forall2_same_length_lookup. cbn.
  rewrite length_insert, length_map. split; [by eapply Forall2_length|].
  intros k c' r'. rewrite list_lookup_insert_Some, list_lookup_fmap. intros Hk Hr.
  destruct (rs !! k) as [r|] eqn:Er; [|done]. injection Hr as <-.
  destruct (Forall2_lookup_r _ _ _ _ _ Hcs Er) as (c0 & Hc0 & Hs0).
  rewrite (awaited_row f i recipient c0 r Hi Hs0).
  destruct Hk as [(<- & <- & _)|[Hne Hk]].
  - rewrite Hj in Hc0. injection Hc0 as <-. rewrite bool_decide_eq_true_2 by done.
    destruct Hs0 as (f' & i' & ? & ? & ? & ->). by exists f', i'.
  - rewrite Hk in Hc0. injection Hc0 as <-. case_bool_decide as Hd; [|done].
    by destruct Hne; symmetry; apply (Huniq k c').
Qed.

(** The entries a listing keeps and the rows a query selects. *)
Lemma listed_rows cs rs (F : chunkRecordEntry → option ChunkRecord) (p : chunk_row → bool) :
  Forall2 same_chunk cs rs →
  (∀ c r, c ∈ cs → same_chunk c r → F c = if p r then Some (sqlStore.scan_chunk r) else None) →
  omap F cs = map sqlStore.scan_chunk (List.filter p rs).
Proof.
  intros Hcs. induction Hcs as [|c r cs rs Hc _ IH]; intros HF; [done|]. cbn.
  rewrite (HF c r); [|left|done]. rewrite IH by (intros; apply HF; [by right|done]).
  by destruct (p r).
Qed.

(** No file id holds the separator of chunk keys. *)
Definition plain_files (s : MemoryStore) : Prop :=
  ∀ c f i, c ∈ chunks s → ce_key c = chunkKey f i → hash_sep ∉ bytes f.

Lemma scan_chunk_row f i c : sqlStore.scan_chunk (chunk_row_of f i c) = chunk_record f i c.
Proof. destruct c as [? ? ? ? ? [] [] []]; done. Qed.

(** The entries that have not expired and the rows that are not deleted. *)
Lemma expired_rows now cs rs :
  Forall2 same_chunk cs rs → Forall (λ c, int64 (ce_CreatedAt c + ce_TTL c)) cs →
  let kept := List.filter (λ c, negb (chunk_expired now c)) cs in
  let '(l, n) := delete_where (sqlStore.row_expired now) rs in
  Forall2 same_chunk kept l ∧ Z.of_nat (length cs) - Z.of_nat (length kept) = n.
Proof.
  intros Hcs Hint. cbn. induction Hcs as [|c r cs rs Hc _ IH]; [done|].
  apply Forall_cons in Hint as [Hi Hint]. destruct (IH Hint) as [IH1 IH2]. cbn.
  replace (sqlStore.row_expired now r) with (chunk_expired now c).
  - destruct (chunk_expired now c); cbn; (split; [by try constructor|lia]).
  - destruct Hc as (f & i & _ & _ & _ & ->). unfold chunk_expired, sqlStore.row_expired. cbn.
    rewrite wrap64_id by done. by destruct (ce_Persist c).
Qed.

Section Calls.
Context {U : UnicodeTables} {E : Ed25519}.
Context (e : Env) (t : tick) (s : MemoryStore) (db : DB).
Context (T : same_time e t) (POk : peers_ok s) (R : related s db).

Local Hint Resolve st_calm : core.

Lemma Upsert_agrees req :
  (∀ p, peers s !! TrimSpace (reg_ID req) = Some p → peer_Login p = TrimSpace (reg_Login req)) →
  agrees same_done (Upsert e s req) (run_at (sqlStore.Upsert req) t db).
Proof using T POk R.
  intros Hlogin. pose proof (st_calm _ _ T) as C. rewrite Upsert_eq. unfold sqlStore.Upsert. cbn zeta.
  destruct (String.eqb_spec (TrimSpace (reg_ID req)) "") as [Hid|Hid]; [done|].
  autorewrite with run_at. unfold sqlStore.upsert_tx, upsert_record. cbn zeta.
  rewrite !(calm_ok _ C), (rel_peers _ _ R).
  destruct (peers s !! TrimSpace (reg_ID req)) as [p|] eqn:Hp; (split; [|done]); cbn [fst].
  - eapply related_update_peer; [exact R|done|done|exact Hp|done| |done].
    unfold row_of, sqlStore.upsert_update. cbn. rewrite (st_now _ _ T).
    destruct (POk _ p Hp) as [-> _]. specialize (Hlogin p eq_refl).
    unfold Key. cbn. by rewrite Hlogin.
  - replace (sqlStore.upsert_insert _ _ _ _ _ _ _ _) with
      (row_of (mkPeer (TrimSpace (reg_ID req)) (TrimSpace (reg_Login req))
        (TrimSpace (reg_EncryptionKey req)) (TrimSpace (reg_SignatureKey req)) (time_Now e 0 0)
        (if reg_TTLSeconds req <=? 0 then defaultTTL else reg_TTLSeconds req)
        InitialQualityScore (mkQualityStats 0 0) (reg_PeerFlag req) (default false (reg_Fake req)))).
    + by eapply related_insert_peer; [exact R|done|done|exact Hp|done|].
    + unfold row_of, sqlStore.upsert_insert, Key. cbn. rewrite (st_now _ _ T).
      by destruct (String.eqb_spec (TrimSpace (reg_EncryptionKey req)) "") as [->|_],
        (String.eqb_spec (TrimSpace (reg_SignatureKey req)) "") as [->|_].
Qed.

Lemma Delete_agrees id :
  trimmed id → id ≠ EmptyString →
  agrees same_done (Delete s id) (run_at (sqlStore.Delete id) t db).
Proof using T R.
  intros Htr Hid%String.eqb_neq. pose proof (st_calm _ _ T) as C.
  unfold Delete, sqlStore.Delete. cbn zeta. rewrite TrimSpace_id, Hid by done.
  autorewrite with run_at. rewrite (calm_ok _ C).
  pose proof (update_where_count id (λ r, r) (t_peers db)) as Hn. cbn in Hn |- *.
  rewrite Hn, (rel_peers _ _ R).
  destruct (peers s !! id) as [p|] eqn:Hp; [|done]. split; [|done].
  by apply (related_delete_peer s).
Qed.

Lemma Get_agrees id :
  all_live (tk_now t) s → trimmed id → id ≠ EmptyString →
  agrees same_peer (s, Get e s id) (run_at (sqlStore.Get id) t db).
Proof using T R.
  intros L Htr Hid. pose proof (st_calm _ _ T) as C. unfold Get, sqlStore.Get.
  rewrite TrimSpace_id, (run_getPeerByID s db t R C L) by done. split; [done|].
  cbn. destruct (peers s !! id) as [p|] eqn:Hp; [|done].
  rewrite (st_now _ _ T). destruct (L id p Hp) as [-> _]. apply same_peer_row.
Qed.

Lemma sub_seconds now : 0 ≤ time_Sub now (Unix_time (time_Unix now)) < Second.
Proof.
  assert (0 ≤ wall now - time_Unix now * Second < Second) as H.
  { unfold time_Unix, Second. Z.div_mod_to_equations; lia. }
  unfold time_Sub. replace (mono (Unix_time (time_Unix now))) with (@None Z) by done.
  cbn [wall Unix_time]. destruct (mono now); rewrite sat64_id; try exact H;
    unfold int64, min_int64, max_int64, Second in *; lia.
Qed.

Lemma fresh_row_live p :
  0 < peer_TTLSeconds p ≤ max_seconds → peer_LastSeen p = tk_now t →
  sqlStore.isExpired (sqlStore.scan_peer (row_of p)) (tk_now t) = false.
Proof.
  intros Httl Hseen. unfold sqlStore.isExpired. cbn. rewrite Hseen.
  destruct (Z.leb_spec (peer_TTLSeconds p) 0); [lia|].
  rewrite seconds_exact by lia. pose proof (sub_seconds (tk_now t)). unfold Second in *. lia.
Qed.

Lemma Heartbeat_agrees id ttl :
  trimmed id → id ≠ EmptyString → ttl ≤ max_seconds →
  (∀ p, peers s !! id = Some p → peer_TTLSeconds p ≤ max_seconds) →
  agrees same_peer (Heartbeat e s id ttl) (run_at (sqlStore.Heartbeat id ttl) t db).
Proof using T R POk.
  intros Htr Hid Hmax Hmaxp. pose proof (st_calm _ _ T) as C.
  unfold Heartbeat, sqlStore.Heartbeat. cbn zeta. rewrite TrimSpace_id by done.
  pose proof Hid as ->%String.eqb_neq. autorewrite with run_at. unfold sqlStore.update_peers.
  autorewrite with run_at.
  pose proof (update_where_count id (sqlStore.heartbeat_update (time_Unix (tk_now t)) ttl)
    (t_peers db)) as Hn. rewrite (rel_peers _ _ R) in Hn.
  destruct (update_where _ _ _) as [l n] eqn:Ew. cbn [snd] in Hn. rewrite Hn.
  rewrite (st_now _ _ T). destruct (peers s !! id) as [p|] eqn:Hp; cbn [fmap option_fmap option_map].
  - set (p' := with_LastSeen (if 0 <? ttl then with_TTLSeconds p ttl else p) (tk_now t)).
    set (s' := set_peers s (<[id := p']> (peers s))).
    assert (related s' (set_t_peers db l)) as R'.
    { replace l with (update_where (sqlStore.has_id id)
        (sqlStore.heartbeat_update (time_Unix (tk_now t)) ttl) (t_peers db)).1 by (by rewrite Ew).
      eapply (related_update_peer s); [done..| |done].
      unfold p', row_of, sqlStore.heartbeat_update, Key. by destruct (0 <? ttl). }
    unfold sqlStore.getPeerByID. pose proof Hid as ->%String.eqb_neq. autorewrite with run_at.
    pose proof (rel_peers _ _ R' id) as H. rewrite find_filter in H. cbn in H.
    rewrite lookup_insert_eq in H. cbn in H.
    destruct (List.filter _ _) as [|r rows]; [done|]. cbn in H. injection H as ->.
    cbn zeta. autorewrite with run_at. rewrite fresh_row_live;
      [split; [exact R'|apply same_peer_row]| |by destruct (0 <? ttl)].
    destruct (POk id p Hp) as (_ & _ & Httl). specialize (Hmaxp p eq_refl).
    unfold p'. destruct (Z.ltb_spec 0 ttl); cbn; lia.
  - autorewrite with run_at. split; [|done]. cbn.
    rewrite update_where_none in Ew by (by rewrite (rel_peers _ _ R), Hp).
    injection Ew as <- _. by destruct db.
Qed.

(** *** Signals *)

Lemma SetSignal_agrees id sig :
  all_live (tk_now t) s →
  agrees same_done (SetSignal s id sig) (run_at (sqlStore.SetSignal id sig) t db).
Proof using T R.
  intros L. pose proof (st_calm _ _ T) as C. unfold SetSignal, sqlStore.SetSignal. cbn zeta.
  destruct ((TrimSpace id == "") || _ || _)%go eqn:Eg; [done|]. bool_hyps.
  autorewrite with run_at. rewrite (run_getPeerByID s db t R C L) by done.
  destruct (peers s !! TrimSpace id) as [p|] eqn:Hp; [|done].
  autorewrite with run_at. split; [|done]. destruct R as [? ? ? Rs]. split; try done. cbn.
  intros id'. rewrite slice_at_insert, List.filter_app, map_app, <- Rs. cbn.
  destruct (String.eqb_spec (TrimSpace id) id') as [->|Hne];
    [by rewrite decide_True|by rewrite decide_False, app_nil_r].
Qed.

Lemma PollSignals_agrees id :
  agrees eq (PollSignals s id) (run_at (sqlStore.PollSignals id) t db).
Proof using T R.
  pose proof (st_calm _ _ T) as C. unfold PollSignals, sqlStore.PollSignals. cbn zeta.
  destruct (TrimSpace id == "")%go eqn:Eg; [done|]. autorewrite with run_at.
  split; [|apply (rel_signals _ _ R)]. destruct R as [? ? ? Rs]. split; try done. cbn.
  intros id'. pose proof (filter_delete_where (TrimSpace id) id' (t_signals db)) as Hf.
  cbn in Hf. rewrite Hf. unfold slice_at.
  destruct (decide (id' = TrimSpace id)) as [->|Hne]; [by rewrite lookup_delete_eq|].
  rewrite lookup_delete_ne by done. apply Rs.
Qed.

(** *** Chunks *)

Lemma verify_same p q sg m :
  peer_SignatureKey q = peer_SignatureKey p →
  verifyPeerSignature q sg m = verifyPeerSignature p sg m.
Proof. unfold verifyPeerSignature. by intros ->. Qed.

Lemma run_check_signature p sg m db0 :
  run_at (sqlStore.check_signature p sg m) t db0 =
    (db0, match verifyPeerSignature p sg m with Err err => Fail err | Ok _ => Return tt end).
Proof. unfold sqlStore.check_signature. by destruct (verifyPeerSignature p sg m). Qed.

(** [first_by_key] against [peerByKey], at one of the call sites of the clock. *)
Lemma run_first_by_key key i :
  all_live (tk_now t) s → plain_logins s → ":"%char ∈ bytes (TrimSpace key) →
  match peerByKey e i s (TrimSpace key) with
  | Some p => ∃ q, run_at (sqlStore.first_by_key (TrimSpace key)) t db = (db, Return q) ∧
                peer_SignatureKey q = peer_SignatureKey p
  | None => run_at (sqlStore.first_by_key (TrimSpace key)) t db = (db, Fail ErrNotFound)
  end.
Proof using T R.
  intros L Hpl Hsep. pose proof (st_calm _ _ T) as C.
  pose proof (run_getPeerByKey s db t R C L (TrimSpace key) e i Hpl (st_env _ _ T)
    (st_now _ _ T i)) as H. rewrite TrimSpace_idem in H. specialize (H Hsep).
  unfold sqlStore.first_by_key. destruct (peerByKey e i s (TrimSpace key)) as [p|].
  - destruct H as (id & q & qs & _ & _ & Hk & Hq).
    exists (sqlStore.scan_peer (row_of q)). split; [|exact Hk].
    autorewrite with run_at. by rewrite Hq.
  - autorewrite with run_at. by rewrite H.
Qed.

Lemma separator_nonempty x : ":"%char ∈ bytes x → x ≠ EmptyString.
Proof. intros H ->. by apply not_elem_of_nil in H. Qed.

Lemma SetChunkHash_agrees fileID i req :
  all_live (tk_now t) s → plain_logins s → ":"%char ∈ bytes (TrimSpace (rc_SenderID req)) →
  TrimSpace (rc_RecipientID req) ≠ EmptyString → int64 i →
  agrees same_done (SetChunkHash e s fileID i req)
    (run_at (sqlStore.SetChunkHash fileID i req) t db).
Proof using T R.
  intros L Hpl Hsep Hrec%String.eqb_neq Hi. pose proof (st_calm _ _ T) as C.
  unfold SetChunkHash, sqlStore.SetChunkHash. cbn zeta. rewrite Hrec, orb_false_r.
  destruct (_ || blank (rc_Signature req))%go eqn:Eg; [done|]. bool_hyps.
  autorewrite with run_at.
  pose proof (run_first_by_key (rc_SenderID req) 0 L Hpl Hsep) as Hf.
  destruct (peerByKey e 0 s _) as [p|]; [|by rewrite Hf].
  destruct Hf as (q & -> & Hk). autorewrite with run_at.
  rewrite run_check_signature, (verify_same p q) by done.
  destruct (verifyPeerSignature p _ _) as [[]|err]; [|done]. autorewrite with run_at.
  split; [|done]. destruct R. split; try done. cbn. apply Forall2_app; [done|].
  constructor; [|done]. eexists _, i. split_and!; [done..|]. rewrite (st_now _ _ T).
  by destruct (rc_Persist req).
Qed.

Lemma ReportChunk_agrees src req :
  all_live (tk_now t) s → int64 (rep_ChunkIndex req) →
  (∀ p, peers s !! TrimSpace src = Some p → can_score p) →
  agrees same_report (ReportChunk s src req) (run_at (sqlStore.ReportChunk src req) t db).
Proof using T R.
  intros L Hi Hcan. pose proof (st_calm _ _ T) as C.
  unfold ReportChunk, sqlStore.ReportChunk. cbn zeta.
  destruct (_ || blank (rep_Signature req))%go eqn:Eg; [done|]. bool_hyps.
  autorewrite with run_at. rewrite (run_getPeerByID s db t R C L) by done.
  destruct (peers s !! TrimSpace (rep_ReporterID req)) as [p|] eqn:Hp; [|done].
  autorewrite with run_at.
  rewrite run_check_signature, (verify_same p (sqlStore.scan_peer (row_of p))) by done.
  destruct (verifyPeerSignature p _ _) as [[]|err]; [|done]. autorewrite with run_at.
  pose proof (expected_rows _ _ (TrimSpace (rep_FileID req)) _ (rel_chunks _ _ R) Hi) as Hx.
  destruct (List.filter _ (t_chunks db)) as [|r rows]; [by rewrite Hx|].
  destruct Hx as [-> Hne]. pose proof Hne as ->%String.eqb_neq. cbn zeta.
  set (valid := (normalizeHash (rep_Hash req) == ck_expected_hash r)%go).
  unfold sqlStore.update_peers. autorewrite with run_at.
  pose proof (rel_peers _ _ R (TrimSpace src)) as Hsrc.
  destruct (peers s !! TrimSpace src) as [q|] eqn:Hq.
  - pose proof (row_of_report q valid (Hcan q eq_refl)) as Hrow.
    set (s' := set_peers s (<[TrimSpace src := score_report q valid]> (peers s))).
    assert (related s' (set_t_peers db (update_where (sqlStore.has_id (TrimSpace src))
      (sqlStore.quality_update valid) (t_peers db)).1)) as R'.
    { by eapply (related_update_peer s); [done..| |]. }
    destruct (update_where _ _ _) as [l n] eqn:Ew. autorewrite with run_at.
    assert (all_live (tk_now t) s') as L'.
    { intros id p0. cbn. intros [[<- <-]|[_ ?]]%lookup_insert_Some; [|by apply (L id)].
      destruct (L _ q Hq) as [L1 L2]. split; [exact L1|].
      rewrite Hrow. exact L2. }
    rewrite (run_getPeerByID s' _ t R' C L') by done. cbn. rewrite lookup_insert_eq.
    autorewrite with run_at. split; [done|]. cbn [fst snd].
    unfold same_report. split_and!; try done. apply same_peer_row.
  - rewrite update_where_none by done. autorewrite with run_at.
    replace (set_t_peers db (t_peers db)) with db by (by destruct db).
    rewrite (run_getPeerByID s db t R C L) by done. by rewrite Hq.
Qed.

Lemma run_refused (db0 : DB) : calm t → run_at refused t db0 =
  (db0, Fail (ErrInternal "syntax error")).
Proof. intros C. unfold run_at. cbn. by rewrite (calm_ok _ C). Qed.

Lemma DeleteExpiredChunks_agrees :
  Forall (λ c, int64 (ce_CreatedAt c + ce_TTL c)) (chunks s) →
  agrees eq (DeleteExpiredChunks e s) (run_at (sqlStore.DeleteExpiredChunks "sqlite") t db).
Proof using T R.
  intros Hint. pose proof (st_calm _ _ T) as C. rewrite DeleteExpiredChunks_eq. cbn zeta.
  unfold sqlStore.DeleteExpiredChunks.
  replace (expired_chunks_stmt "sqlite" == "")%go with false by done.
  replace (expired_signals_stmt "sqlite" == "")%go with false by done.
  autorewrite with run_at. rewrite (st_now _ _ T), (st_epoch _ _ T).
  pose proof (expired_rows (time_Unix (tk_now t)) _ _ (rel_chunks _ _ R) Hint) as Hx.
  cbn zeta in Hx. destruct (delete_where _ (t_chunks db)) as [l n]. destruct Hx as [Hk Hn].
  autorewrite with run_at. rewrite run_refused by done. autorewrite with run_at.
  split; [|exact Hn]. by destruct R.
Qed.

Lemma run_update_chunks stmt p f db0 :
  calm t → stmt ≠ EmptyString →
  run_at (sqlStore.update_chunks stmt p f) t db0 =
    let '(l, n) := update_where p (f (tk_epoch t)) (t_chunks db0) in
    (set_t_chunks db0 l, Return n).
Proof.
  intros C Hne%String.eqb_neq. unfold sqlStore.update_chunks. rewrite Hne.
  autorewrite with run_at. by destruct (update_where _ _ _).
Qed.

Lemma peerByKey_unique i s0 key id p :
  all_live (tk_now t) s0 → peers s0 !! id = Some p → Key p = key →
  (∀ id' p', peers s0 !! id' = Some p' → Key p' = key → id' = id) →
  peerByKey e i s0 key = Some p.
Proof using T.
  intros L Hp Hk Huniq. destruct (peerByKey e i s0 key) as [p'|] eqn:Ep.
  - apply peerByKey_Some in Ep as ([id' Hp'] & Hk' & _); [|apply T].
    by rewrite (Huniq id' p' Hp' Hk'), Hp in Hp'.
  - destruct (peerByKey_None e i s0 key (st_env _ _ T) Ep id p Hp Hk) as [j Hj].
    rewrite (st_now _ _ T) in Hj. by destruct (L id p Hp) as [? _]; congruence.
Qed.

(** Scoring the only peer that has a key, in both stores. *)
Lemma score_by_key id p valid :
  all_live (tk_now t) s → plain_logins s → peers s !! id = Some p → can_score p →
  (∀ id' p', peers s !! id' = Some p' → Key p' = Key p → id' = id) →
  let s' := set_peers s (<[id := score_report p valid]> (peers s)) in
  let db' := set_t_peers db (update_where (sqlStore.has_key (Key p))
               (sqlStore.quality_update valid) (t_peers db)).1 in
  related s' db' ∧ all_live (tk_now t) s' ∧ plain_logins s'.
Proof using R POk.
  intros L Hpl Hp Hcan Huniq. cbn zeta. pose proof (row_of_report p valid Hcan) as Hrow.
  split; [|split].
  - replace (update_where (sqlStore.has_key (Key p)) _ _) with
      (update_where (sqlStore.has_id id) (sqlStore.quality_update valid) (t_peers db)).
    { by eapply (related_update_peer s). }
    assert (∀ r, r ∈ t_peers db → sqlStore.has_id id r = sqlStore.has_key (Key p) r) as Heq.
    { intros r Hr. destruct (row_in_table s db R r Hr) as (p' & Hp' & ->).
      unfold sqlStore.has_id, sqlStore.has_key. cbn.
      apply eq_true_iff_eq. rewrite !String.eqb_eq. split; [|by apply Huniq].
      intros E0. cbn in Hp'. rewrite E0, Hp in Hp'. by injection Hp' as ->. }
    unfold update_where. f_equal.
    + apply map_ext_in. intros r Hr%list_elem_of_In. by rewrite Heq.
    + do 2 f_equal. apply filter_ext_in. intros r Hr%list_elem_of_In. by apply Heq.
  - intros id' p0. cbn. intros [[<- <-]|[_ ?]]%lookup_insert_Some; [|by apply (L id')].
    destruct (L _ p Hp) as [L1 L2]. split; [exact L1|]. rewrite Hrow. exact L2.
  - intros id' p0. cbn. intros [[<- <-]|[_ ?]]%lookup_insert_Some; [|by apply (Hpl id')].
    by apply (Hpl id p).
Qed.

(** The mark of a valid confirmation, in both stores. *)
Lemma mark_agrees s1 db1 (valid : bool) f i recipient j c :
  related s1 db1 → int64 i → chunks s1 !! j = Some c → awaited f i recipient c →
  (∀ j' c', chunks s1 !! j' = Some c' → awaited f i recipient c' → j' = j) →
  ∃ db2 n,
    run_at (if valid
            then on_error (ErrWrap "update confirmed")
                   (sqlStore.update_chunks (confirm_stmt "sqlite")
                      (sqlStore.chunk_for f i recipient) sqlStore.confirm_update)
            else mret 0) t db1 = (db2, Return n) ∧
    related (mkMemoryStore (peers s1) (logins s1)
      (if valid then <[j := with_Confirmed c (time_Unix (time_Now e 2 0))]> (chunks s1)
       else chunks s1) (signals s1)) db2.
Proof using T.
  intros R1 Hi Hj Hc Huniq. pose proof (st_calm _ _ T) as C. destruct valid.
  2: { eexists db1, 0. split; [done|]. by destruct R1. }
  autorewrite with run_at. rewrite run_update_chunks by done.
  pose proof (confirmed_rows _ _ f i recipient j c (tk_epoch t) (rel_chunks _ _ R1) Hi Hj Hc
    Huniq) as Hm.
  destruct (update_where (sqlStore.chunk_for _ _ _) _ _) as [l n]. eexists _, n. split; [done|].
  rewrite (st_now _ _ T), <- (st_epoch _ _ T). by destruct R1.
Qed.

(** What a confirmation needs for the two to agree: one entry is awaited, and
    one peer has the key of its sender. *)
Record confirmable (req : ConfirmChunkRequest) : Prop := mkConfirmable {
  cf_recipient : ":"%char ∈ bytes (TrimSpace (conf_RecipientID req));
  cf_index : int64 (conf_ChunkIndex req);
  cf_unique j j' c c' :
    chunks s !! j = Some c → chunks s !! j' = Some c' →
    awaited (TrimSpace (conf_FileID req)) (conf_ChunkIndex req) (TrimSpace (conf_RecipientID req)) c →
    awaited (TrimSpace (conf_FileID req)) (conf_ChunkIndex req) (TrimSpace (conf_RecipientID req)) c' →
    j = j';
  cf_sender j c :
    chunks s !! j = Some c →
    awaited (TrimSpace (conf_FileID req)) (conf_ChunkIndex req) (TrimSpace (conf_RecipientID req)) c →
    trimmed (ce_SenderID c) ∧ ":"%char ∈ bytes (ce_SenderID c) ∧
    ∃ id p, peers s !! id = Some p ∧ Key p = ce_SenderID c ∧ can_score p ∧
      ∀ id' p', peers s !! id' = Some p' → Key p' = ce_SenderID c → id' = id;
}.

Lemma ConfirmChunk_agrees req :
  all_live (tk_now t) s → plain_logins s → confirmable req →
  agrees same_confirm (ConfirmChunk e s req) (run_at (sqlStore.ConfirmChunk "sqlite" req) t db).
Proof using T R POk.
  intros L Hpl [Hrec Hi Hu Hsnd]. pose proof (st_calm _ _ T) as C.
  unfold ConfirmChunk, sqlStore.ConfirmChunk. cbn zeta.
  pose proof (separator_nonempty _ Hrec) as ->%String.eqb_neq. cbn [orb].
  destruct (_ || blank (conf_Signature req))%go eqn:Eg; [done|]. bool_hyps.
  autorewrite with run_at.
  pose proof (run_first_by_key (conf_RecipientID req) 0 L Hpl Hrec) as Hf.
  destruct (peerByKey e 0 s (TrimSpace (conf_RecipientID req))) as [p|]; [|by rewrite Hf].
  destruct Hf as (q & -> & Hk). autorewrite with run_at.
  rewrite run_check_signature, (verify_same p q) by done.
  destruct (verifyPeerSignature p _ _) as [[]|err]; [|done]. autorewrite with run_at.
  pose proof (awaited_rows _ _ (TrimSpace (conf_FileID req)) (conf_ChunkIndex req)
    (TrimSpace (conf_RecipientID req)) (rel_chunks _ _ R) Hi) as Hrow.
  match goal with |- context [@list_find _ ?P ?d ?l] => change (@list_find _ P d l) with
    (list_find (awaited (TrimSpace (conf_FileID req)) (conf_ChunkIndex req)
      (TrimSpace (conf_RecipientID req))) l) end.
  destruct (List.filter _ (t_chunks db)) as [|r rows]; [by rewrite Hrow|].
  destruct Hrow as (j & c & Hfind & Hc).
  pose proof Hfind as (Hj & Hc1 & Hmin)%list_find_Some. rewrite Hfind.
  destruct (Hsnd j c Hj Hc1) as (Htr & Hsep & id & p0 & Hp0 & Hkey & Hcan & Huniq).
  assert (∀ id' p', peers s !! id' = Some p' → Key p' = Key p0 → id' = id) as Huniq0
    by (rewrite Hkey; exact Huniq).
  assert (peerByKey e 1 s (ce_SenderID c) = Some p0) as ->.
  { apply (peerByKey_unique 1 s _ id p0); done. }
  assert (ck_sender_id r = Key p0 ∧ ck_expected_hash r = ce_Hash c) as [-> ->].
  { destruct Hc as (? & ? & ? & ? & ? & ->). done. }
  set (valid := (normalizeHash (conf_Hash req) == ce_Hash c)%go).
  destruct (score_by_key id p0 valid L Hpl Hp0 Hcan Huniq0) as (R' & L' & Hpl').
  unfold sqlStore.update_peers. autorewrite with run_at.
  destruct (update_where (sqlStore.has_key (Key p0)) _ _) as [l n] eqn:Ew. cbn [fst] in R'.
  autorewrite with run_at.
  destruct (mark_agrees _ _ valid _ _ _ j c R' Hi Hj Hc1) as (db2 & n2 & -> & R2).
  { intros j' c' Hj' Hc'. by apply (Hu j' j c' c). }
  autorewrite with run_at. destruct (POk id p0 Hp0) as [Hid _].
  replace (peer_ID (score_report p0 valid)) with id by (by symmetry).
  set (s2 := mkMemoryStore _ _ _ _) in *. rewrite <- Hkey in Htr, Hsep.
  pose proof (run_getPeerByKey s2 db2 t R2 C L' (Key p0) e 1 Hpl' (st_env _ _ T)
    (st_now _ _ T 1)) as Hg. rewrite TrimSpace_id in Hg by done.
  assert (∀ id' p', peers s2 !! id' = Some p' → Key p' = Key p0 → id' = id) as Huniq2.
  { intros id' p'. cbn. intros [[<- _]|[_ ?]]%lookup_insert_Some; [done|by eapply Huniq0]. }
  rewrite (peerByKey_unique 1 s2 (Key p0) id (score_report p0 valid) L') in Hg;
    [|cbn; by rewrite lookup_insert_eq|done|done].
  destruct (Hg Hsep) as (id' & q' & qs & Hq' & Hkq & _ & ->).
  pose proof (Huniq2 id' q' Hq' Hkq) as ->. cbn in Hq'. rewrite lookup_insert_eq in Hq'.
  injection Hq' as <-. autorewrite with run_at. split; [exact R2|]. cbn [fst snd].
  unfold same_confirm. split_and!; try done. apply same_peer_row.
Qed.

Lemma GetChunksByFileID_agrees fileID :
  plain_files s →
  agrees eq (s, GetChunksByFileID s fileID) (run_at (sqlStore.GetChunksByFileID fileID) t db).
Proof using T R.
  intros Hpf. pose proof (st_calm _ _ T) as C.
  unfold GetChunksByFileID, sqlStore.GetChunksByFileID, sqlStore.select_chunks. cbn zeta.
  destruct (TrimSpace fileID == "")%go; [done|]. autorewrite with run_at. split; [done|].
  apply (listed_rows _ _ _ _ (rel_chunks _ _ R)). intros c r Hc (f & i & Hi & Hk & _ & ->).
  rewrite Hk, (proj2 (parse_chunkKey_iff f i Hi) (Hpf c f i Hc Hk)), scan_chunk_row. cbn.
  destruct (String.eqb_spec f (TrimSpace fileID)) as [->|_]; done.
Qed.

Lemma GetChunksByRecipient_agrees id from :
  plain_files s →
  agrees eq (s, GetChunksByRecipient s id from) (run_at (sqlStore.GetChunksByRecipient id from) t db).
Proof using T R.
  intros Hpf. pose proof (st_calm _ _ T) as C.
  unfold GetChunksByRecipient, sqlStore.GetChunksByRecipient, sqlStore.select_chunks. cbn zeta.
  destruct (TrimSpace id == "")%go; [done|]. autorewrite with run_at. split; [done|].
  apply (listed_rows _ _ _ _ (rel_chunks _ _ R)). intros c r Hc (f & i & Hi & Hk & _ & ->).
  rewrite Hk, (proj2 (parse_chunkKey_iff f i Hi) (Hpf c f i Hc Hk)), scan_chunk_row. cbn.
  rewrite Z.ltb_antisym. by destruct (ce_RecipientID c == TrimSpace id)%go, (from <=? ce_UpdatedAt c).
Qed.

(** ** The two stores in lockstep *)

(** The calls on which the two agree; the conditions say where they part. *)
Definition comparable (op : Op) : Prop :=
  match op with
  | OpUpsert req =>
    ∀ p, peers s !! TrimSpace (reg_ID req) = Some p → peer_Login p = TrimSpace (reg_Login req)
  | OpGet id | OpDelete id => trimmed id ∧ id ≠ EmptyString
  | OpHeartbeat id ttl =>
    trimmed id ∧ id ≠ EmptyString ∧ ttl ≤ max_seconds ∧
    ∀ p, peers s !! id = Some p → peer_TTLSeconds p ≤ max_seconds
  | OpSetChunkHash _ i req =>
    plain_logins s ∧ ":"%char ∈ bytes (TrimSpace (rc_SenderID req)) ∧
    TrimSpace (rc_RecipientID req) ≠ EmptyString ∧ int64 i
  | OpReportChunk src req =>
    int64 (rep_ChunkIndex req) ∧ ∀ p, peers s !! TrimSpace src = Some p → can_score p
  | OpConfirmChunk req => plain_logins s ∧ confirmable req
  | OpGetChunksByRecipient _ _ | OpGetChunksByFileID _ => plain_files s
  | OpSetSignal _ _ | OpPollSignals _ => True
  | OpDeleteExpiredChunks => Forall (λ c, int64 (ce_CreatedAt c + ce_TTL c)) (chunks s)
  | OpRefresh _ | OpReadChunk _ | OpGetByKey _ _ | OpList | OpGetBestPeers _
  | OpGetBestThickPeers _ => False
  end.

Definition call_agrees (op : Op) : Prop :=
  match op with
  | OpUpsert req => agrees same_done (Upsert e s req) (run_at (sqlStore.Upsert req) t db)
  | OpGet id => agrees same_peer (s, Get e s id) (run_at (sqlStore.Get id) t db)
  | OpDelete id => agrees same_done (Delete s id) (run_at (sqlStore.Delete id) t db)
  | OpHeartbeat id ttl =>
    agrees same_peer (Heartbeat e s id ttl) (run_at (sqlStore.Heartbeat id ttl) t db)
  | OpSetChunkHash f i req =>
    agrees same_done (SetChunkHash e s f i req) (run_at (sqlStore.SetChunkHash f i req) t db)
  | OpReportChunk src req =>
    agrees same_report (ReportChunk s src req) (run_at (sqlStore.ReportChunk src req) t db)
  | OpConfirmChunk req =>
    agrees same_confirm (ConfirmChunk e s req) (run_at (sqlStore.ConfirmChunk "sqlite" req) t db)
  | OpGetChunksByRecipient id from =>
    agrees eq (s, GetChunksByRecipient s id from)
      (run_at (sqlStore.GetChunksByRecipient id from) t db)
  | OpGetChunksByFileID id =>
    agrees eq (s, GetChunksByFileID s id) (run_at (sqlStore.GetChunksByFileID id) t db)
  | OpSetSignal id sig =>
    agrees same_done (SetSignal s id sig) (run_at (sqlStore.SetSignal id sig) t db)
  | OpPollSignals id => agrees eq (PollSignals s id) (run_at (sqlStore.PollSignals id) t db)
  | OpDeleteExpiredChunks =>
    agrees eq (DeleteExpiredChunks e s) (run_at (sqlStore.DeleteExpiredChunks "sqlite") t db)
  | _ => False
  end.

Lemma comparable_agrees op : all_live (tk_now t) s → comparable op → call_agrees op.
Proof using T R POk.
  intros L. destruct op; cbn; intros H; try done.
  - by apply Upsert_agrees.
  - by apply Get_agrees; destruct H.
  - by apply Delete_agrees; destruct H.
  - destruct H as (? & ? & ? & ?). by apply Heartbeat_agrees.
  - destruct H as (? & ? & ? & ?). by apply SetChunkHash_agrees.
  - destruct H. by apply ReportChunk_agrees.
  - destruct H. by apply ConfirmChunk_agrees.
  - by apply GetChunksByRecipient_agrees.
  - by apply GetChunksByFileID_agrees.
  - by apply SetSignal_agrees.
  - by apply PollSignals_agrees.
  - by apply DeleteExpiredChunks_agrees.
Qed.

Lemma call_agrees_related {S : SliceSort} op :
  call_agrees op → related (next e s op) (run_at (sql_call "sqlite" op) t db).1.
Proof.
  assert (∀ A (m : prog DB A),
    (run_at (_ ← m; mret tt) t db).1 = (run_at m t db).1) as Hm.
  { intros A m. rewrite run_at_bind. by destruct (run_at m t db) as [? []]. }
  destruct op; cbn [call_agrees next sql_call]; try done; rewrite ?Hm; by intros [].
Qed.
End Calls.

Section Lockstep.
Context {U : UnicodeTables} {E : Ed25519} {S : SliceSort}.

(** The states that the two stores reach by the same comparable calls. *)
Inductive lockstep : MemoryStore → DB → Prop :=
| lockstep_init : lockstep NewMemory empty_db
| lockstep_call e t s db op :
    lockstep s db → same_time e t → all_live (tk_now t) s → comparable s op →
    lockstep (next e s op) (run_at (sql_call "sqlite" op) t db).1.

Lemma lockstep_ok s db : lockstep s db → peers_ok s ∧ related s db.
Proof.
  induction 1 as [|e t s db op _ [Hok R] T L Hc].
  - split; [by apply map_Forall_empty|apply related_empty].
  - split; [by apply next_peers_ok; [apply T|]|].
    by apply call_agrees_related, comparable_agrees.
Qed.


End Lockstep.

(** ** The theorem on concrete stores *)

Local Existing Instance sample_tables.
Local Existing Instance toy_ed25519.
Local Existing Instance insertion_slice_sort.

Lemma second_same_time n : same_time (env_second n) (tick_second n).
Proof.
  split; [apply env_second_ok|apply tick_second_calm|done|].
  unfold time_Unix. cbn. by rewrite Z.div_mul.
Qed.

Definition all_liveb (t : Time) (s : MemoryStore) : bool :=
  forallb (λ '(_, p), negb (isExpired p t) &&
    negb (sqlStore.isExpired (sqlStore.scan_peer (row_of p)) t)) (map_to_list (peers s)).

Lemma all_liveb_ok t s : all_liveb t s = true → all_live t s.
Proof.
  unfold all_liveb. rewrite forallb_forall. intros H id p Hp%elem_of_map_to_list%list_elem_of_In.
  specialize (H _ Hp). cbn in H. by bool_hyps.
Qed.

Definition plain_loginsb (s : MemoryStore) : bool :=
  forallb (λ '(_, p), bool_decide (":"%char ∉ bytes (peer_Login p))) (map_to_list (peers s)).

Lemma plain_loginsb_ok s : plain_loginsb s = true → plain_logins s.
Proof.
  unfold plain_loginsb. rewrite forallb_forall. intros H id p Hp%elem_of_map_to_list%list_elem_of_In.
  specialize (H _ Hp). cbn in H. by bool_hyps.
Qed.

Lemma two_peers_lockstep : lockstep two_peers (sql_two_peers "sqlite").
Proof.
  apply (lockstep_call (env_second 100) (tick_second 100)
    (Upsert (env_second 100) NewMemory (register "alice" "alice")).1
    (sql_run "sqlite" [(100, OpUpsert (register "alice" "alice"))] empty_db)
    (OpUpsert (register " bob " "bob"))).
  - apply (lockstep_call (env_second 100) (tick_second 100) NewMemory empty_db
      (OpUpsert (register "alice" "alice"))); [constructor|apply second_same_time| |].
    + by apply all_liveb_ok; vm_compute.
    + intros p Hp. by vm_compute in Hp.
  - apply second_same_time.
  - by apply all_liveb_ok; vm_compute.
  - intros p Hp. by vm_compute in Hp.
Qed.

